(** * ArduinoGenerator: a shallow embedding of the DCC signal generator

    The definitions below follow [ArduinoGenerator.ino] (native mode:
    [DCC_PLUS_PLUS_COMPATIBILITY] undefined, [ASSERT_VERIFICATION] and
    [LCD_DISPLAY_ENABLE] defined).  C globals become fields of a machine
    state, [byte] and [int] values are integers with their wrap-around
    written out, arrays are lists indexed from 0 and linked lists are
    lists in link order.  A store past the end of an array is dropped
    and a read past its end yields a fixed value of the element type;
    the properties below are stated for indices inside the arrays. *)

From Stdlib Require Import Ascii.
From stdpp Require Import base numbers list strings gmap.

Local Open Scope Z_scope.

(** ** Machine integers

    On the AVR target [byte] is an unsigned 8-bit value and [int] a
    16-bit two's complement value. *)

Definition to_byte (x : Z) : Z := x `mod` 256.

Definition to_int (x : Z) : Z := (x + 32768) `mod` 65536 - 32768.

Definition is_byte (x : Z) : Prop := 0 <= x < 256.

Definition is_int (x : Z) : Prop := -32768 <= x < 32768.

(** ** Configuration constants *)

Definition INSTANT_CURRENT_LIMIT : Z := 750.
Definition AVERAGE_CURRENT_LIMIT : Z := 500.
Definition MINIMUM_DELTA_AMPS : Z := 35.
Definition MAXIMUM_DCC_COMMAND : Z := 6.
Definition MAXIMUM_DCC_REPLY : Z := 16.
Definition TRANSIENT_COMMAND_REPEATS : Z := 8.
Definition SERVICE_MODE_RESET_REPEATS : Z := 20.
Definition SERVICE_MODE_COMMAND_REPEATS : Z := 10.
Definition ACCESSORY_TRANS_BUFFERS : Z := 3.
Definition MOBILE_TRANS_BUFFERS : Z := 6.
Definition PROGRAMMING_BUFFERS : Z := 1.
Definition ACCESSORY_BASE_BUFFER : Z := 0.
Definition MOBILE_BASE_BUFFER : Z := ACCESSORY_BASE_BUFFER + ACCESSORY_TRANS_BUFFERS.
Definition PROGRAMMING_BASE_BUFFER : Z := MOBILE_BASE_BUFFER + MOBILE_TRANS_BUFFERS.
Definition TRANSMISSION_BUFFERS : Z := PROGRAMMING_BASE_BUFFER + PROGRAMMING_BUFFERS.
Definition DCC_SHORT_PREAMBLE : Z := 15.
Definition DCC_LONG_PREAMBLE : Z := 30.
Definition MAXIMUM_DCC_ADDRESS : Z := 10239.
Definition MAXIMUM_SHORT_ADDRESS : Z := 127.
Definition MINIMUM_DCC_ADDRESS : Z := 1.
Definition MAXIMUM_DCC_SPEED : Z := 126.
Definition MINIMUM_DCC_SPEED : Z := 0.
Definition EMERGENCY_STOP : Z := -1.
Definition DCC_FORWARDS : Z := 1.
Definition DCC_BACKWARDS : Z := 0.
Definition MIN_ACCESSORY_ADDRESS : Z := 0.
Definition MAX_ACCESSORY_ADDRESS : Z := 511.
Definition MINIMUM_CV_ADDRESS : Z := 1.
Definition MAXIMUM_CV_ADDRESS : Z := 1024.
Definition MIN_FUNCTION_NUMBER : Z := 0.
Definition MAX_FUNCTION_NUMBER : Z := 28.
Definition FUNCTION_ON : Z := 1.
Definition FUNCTION_OFF : Z := 0.
Definition TICKS_FOR_ONE : Z := 4.
Definition TICKS_FOR_ZERO : Z := 7.
Definition BIT_TRANSITIONS : Z := 40.
Definition MAXIMUM_BIT_ITERATIONS : Z := 255.
Definition ASSERT_FAILED : Z := 99.

(** ** DCC packet to bit stream conversion: [pack_command]

    The routine keeps four byte variables: the write position in [buf]
    (here the list of cells stored so far through [*buf++]), the
    remaining cell budget [l], the bit being counted [b] (0 or 0x80)
    and its count [c].  A failed [ASSERT] only reports an error and
    carries on, so the source lines of failed assertions are collected
    for the caller to pass on to [report_error]. *)

Record packer := Packer {
  pk_out : list Z;
  pk_l : Z;
  pk_b : Z;
  pk_c : Z;
  pk_failed : list Z
}.

Inductive outcome :=
  | Running (p : packer)
  | Failed (p : packer).

Definition and_then (o : outcome) (k : packer -> outcome) : outcome :=
  match o with
  | Running p => k p
  | Failed p => Failed p
  end.

(** The body shared by the per-bit test and the inter-byte test: extend
    the current run when the wanted bit is the one being counted,
    otherwise store the count and flip to the other bit. *)
Definition count_or_flip (want line : Z) (p : packer) : outcome :=
  if want =? pk_b p then
    Running {| pk_out := pk_out p; pk_l := pk_l p; pk_b := pk_b p;
               pk_c := to_byte (pk_c p + 1);
               pk_failed := if pk_c p <? MAXIMUM_BIT_ITERATIONS
                            then pk_failed p else pk_failed p ++ [line] |}
  else
    let l := to_byte (pk_l p - 1) in
    if l =? 0 then
      Failed {| pk_out := pk_out p; pk_l := l; pk_b := pk_b p;
                pk_c := pk_c p; pk_failed := pk_failed p |}
    else
      Running {| pk_out := pk_out p ++ [pk_c p]; pk_l := l;
                 pk_b := Z.lxor (pk_b p) 0x80; pk_c := 1;
                 pk_failed := pk_failed p |}.

(** [for( s = 0; s < 8; s++ )]: the bits of [v] from the MSB end. *)
Fixpoint slice_bits (s : nat) (v : Z) (p : packer) : outcome :=
  match s with
  | O => Running p
  | S s' =>
      and_then (count_or_flip (Z.land v 0x80) 1946 p)
               (slice_bits s' (to_byte (Z.shiftl v 1)))
  end.

(** [while( clen-- )]: [cmd] holds the [clen] bytes still to convert;
    after the decrement [clen] is zero exactly on the last byte. *)
Fixpoint pack_bytes (cmd : list Z) (p : packer) : outcome :=
  match cmd with
  | [] => Running p
  | v :: rest =>
      and_then (slice_bits 8 v p) (fun p1 =>
      and_then (count_or_flip (if bool_decide (rest = []) then 0x80 else 0) 1979 p1)
               (pack_bytes rest))
  end.

(** The tail of the routine: store the count of the end-of-packet bit
    and the terminating zero. *)
Definition pack_finish (p : packer) : outcome :=
  let l1 := to_byte (pk_l p - 1) in
  if l1 =? 0 then
    Failed {| pk_out := pk_out p; pk_l := l1; pk_b := pk_b p;
              pk_c := pk_c p; pk_failed := pk_failed p |}
  else
    let failed := if pk_c p <? MAXIMUM_BIT_ITERATIONS
                  then pk_failed p else pk_failed p ++ [2004] in
    let l2 := to_byte (l1 - 1) in
    if l2 =? 0 then
      Failed {| pk_out := pk_out p ++ [pk_c p]; pk_l := l2; pk_b := pk_b p;
                pk_c := pk_c p; pk_failed := failed |}
    else
      Running {| pk_out := pk_out p ++ [pk_c p; 0]; pk_l := l2; pk_b := pk_b p;
                 pk_c := pk_c p; pk_failed := failed |}.

Definition pack_start (long_preamble : bool) : packer :=
  {| pk_out := [if long_preamble then DCC_LONG_PREAMBLE else DCC_SHORT_PREAMBLE];
     pk_l := BIT_TRANSITIONS - 1; pk_b := 0; pk_c := 1; pk_failed := [] |}.

Definition pack_run (cmd : list Z) (long_preamble : bool) : outcome :=
  and_then (pack_bytes cmd (pack_start long_preamble)) pack_finish.

(** Storing bytes into an array from index [i] on, one element after
    the other; a store past the end of the array is dropped. *)
Fixpoint store_at (i : nat) (bytes arr : list Z) : list Z :=
  match bytes with
  | [] => arr
  | x :: rest => store_at (S i) rest (<[i := x]> arr)
  end.

Record pack_result := PackResult {
  pr_ok : bool;
  pr_bits : list Z;
  pr_failed : list Z
}.

Definition pack_command (cmd : list Z) (long_preamble : bool) (buf : list Z)
  : pack_result :=
  match pack_run cmd long_preamble with
  | Running p => PackResult true (store_at 0 (pk_out p) buf) (pk_failed p)
  | Failed p => PackResult false (store_at 0 (pk_out p) buf) (pk_failed p)
  end.

(** ** Reading a bit-transition array

    "Alternate bytes indicate the number of 1s or 0s to output (array
    index 0 represents an initial series of 1s)", up to the zero byte
    that ends the array. *)
Fixpoint decode_cells (one : bool) (cells : list Z) : list bool :=
  match cells with
  | [] => []
  | c :: rest =>
      if c =? 0 then []
      else replicate (Z.to_nat c) one ++ decode_cells (negb one) rest
  end.

(** The bits of a byte, most significant first. *)
Definition byte_bits (v : Z) : list bool :=
  map (Z.testbit v) [7; 6; 5; 4; 3; 2; 1; 0].

(** The frame of a DCC packet: preamble ones, then each byte led by a
    zero bit, then the end-of-packet one and the postamble ones. *)
Definition dcc_frame (preamble : nat) (cmd : list Z) (postamble : nat) : list bool :=
  replicate preamble true
  ++ concat (map (fun v => false :: byte_bits v) cmd)
  ++ true :: replicate postamble true.

Definition preamble_of (long_preamble : bool) : Z :=
  if long_preamble then DCC_LONG_PREAMBLE else DCC_SHORT_PREAMBLE.


(** ** Bit sequences and runs

    Notions used to state what [pack_command] produces. *)

(** The bits a list of non-terminated cells stands for. *)
Fixpoint expand (one : bool) (cells : list Z) : list bool :=
  match cells with
  | [] => []
  | c :: rest => replicate (Z.to_nat c) one ++ expand (negb one) rest
  end.

(** The number of maximal runs of equal bits. *)
Fixpoint runs (bits : list bool) : nat :=
  match bits with
  | [] => 0
  | x :: rest =>
      match rest with
      | [] => 1
      | y :: _ => if Bool.eqb x y then runs rest else S (runs rest)
      end
  end.

(** The bits of [v] as the shifting loop of [pack_command] meets them. *)
Fixpoint msb_bits (s : nat) (v : Z) : list bool :=
  match s with
  | O => []
  | S s' => negb (Z.land v 0x80 =? 0) :: msb_bits s' (to_byte (Z.shiftl v 1))
  end.

(** The bits that follow the packet start bit: each byte and the bit
    after it, a zero between bytes and a one after the last. *)
Fixpoint body_bits (cmd : list Z) : list bool :=
  match cmd with
  | [] => []
  | v :: rest => byte_bits v ++ bool_decide (rest = []) :: body_bits rest
  end.

(** The bit [pack_command] is counting. *)
Definition counted_bit (p : packer) : bool := negb (pk_b p =? 0).

(** The byte value standing for a wanted bit. *)
Definition bit_code (w : bool) : Z := if w then 0x80 else 0.

(** What holds of the variables of [pack_command] once it has gone
    through the bits [bits], the first [pre] of which are the preamble. *)
Record pack_inv (pre : Z) (p : packer) (bits : list bool) : Prop := PackInv {
  pi_b : pk_b p = 0 \/ pk_b p = 0x80;
  pi_cells : Forall (fun c => 1 <= c <= 255) (pk_out p);
  pi_parity : counted_bit p = Nat.even (length (pk_out p));
  pi_c : 1 <= pk_c p <= Z.of_nat (length bits) - pre;
  pi_bits : bits = expand true (pk_out p) ++ replicate (Z.to_nat (pk_c p)) (counted_bit p);
  pi_l : pk_l p = BIT_TRANSITIONS - Z.of_nat (length (pk_out p));
  pi_room : (1 <= length (pk_out p) <= 39)%nat;
  pi_runs : runs bits = S (length (pk_out p));
  pi_failed : pk_failed p = []
}.

(** The cells [pack_command] stores, whether it succeeds or not. *)
Definition pack_cells (cmd : list Z) (long_preamble : bool) : list Z :=
  match pack_run cmd long_preamble with
  | Running p => pk_out p
  | Failed p => pk_out p
  end.

(** The lengths of the maximal runs of equal bits, in order. *)
Fixpoint run_lengths (bits : list bool) : list nat :=
  match bits with
  | [] => []
  | x :: rest =>
      match head rest, run_lengths rest with
      | Some y, n :: ns => if Bool.eqb x y then S n :: ns else 1%nat :: n :: ns
      | _, _ => [1%nat]
      end
  end.

(** ** Error numbers *)

Definition NO_ERROR : Z := 0.
Definition ERROR_QUEUE_OVERFLOW : Z := 1.
Definition ERROR_REPORT_FAIL : Z := 2.
Definition BIT_TRANS_OVERFLOW : Z := 3.
Definition DCC_COMMAND_OVERFLOW : Z := 4.
Definition UNRECOGNISED_COMMAND : Z := 5.
Definition INVALID_BUFFER_NUMBER : Z := 6.
Definition INVALID_ARGUMENT_COUNT : Z := 7.
Definition INVALID_ADDRESS : Z := 8.
Definition INVALID_SPEED : Z := 9.
Definition INVALID_DIRECTION : Z := 10.
Definition INVALID_STATE : Z := 11.
Definition INVALID_CV_NUMBER : Z := 12.
Definition INVALID_FUNC_NUMBER : Z := 13.
Definition INVALID_BIT_NUMBER : Z := 14.
Definition INVALID_BIT_VALUE : Z := 15.
Definition INVALID_BYTE_VALUE : Z := 16.
Definition INVALID_WORD_VALUE : Z := 17.
Definition COMMAND_REPORT_FAIL : Z := 18.
Definition TRANSMISSION_BUSY : Z := 19.
Definition COMMAND_QUEUE_FAILED : Z := 20.
Definition POWER_NOT_OFF : Z := 21.
Definition POWER_OVERLOAD : Z := 22.
Definition POWER_SPIKE : Z := 23.

Definition ERROR_QUEUE_SIZE : Z := 5.
Definition OUTPUT_QUEUE_SIZE : Z := 64.
Definition TEXT_BUFFER : nat := 8.

(** ** Transmission buffer states and reply modes *)

Definition TBS_EMPTY : Z := 0.
Definition TBS_LOAD : Z := 1.
Definition TBS_RUN : Z := 2.
Definition TBS_RELOAD : Z := 3.

Definition NO_REPLY_REQUIRED : Z := 0.
Definition REPLY_ON_CONFIRM : Z := 1.
Definition REPLY_ON_SEND : Z := 2.

(** ** Pins of the motor shield *)

Definition MAIN_TRACK_DIRECTION : Z := 12.
Definition MAIN_TRACK_ENABLE : Z := 3.
Definition MAIN_TRACK_ANALOGUE : Z := 0.
Definition PROG_TRACK_DIRECTION : Z := 13.
Definition PROG_TRACK_ENABLE : Z := 11.
Definition PROG_TRACK_ANALOGUE : Z := 1.

Definition HIGH : bool := true.
Definition LOW : bool := false.

Definition COMPOUNDED_VALUES : Z := 10.
Definition SHORT_AVERAGE_VALUE : nat := 2.
Definition FUNCTION_CACHE_RECS : Z := MOBILE_TRANS_BUFFERS.
Definition FUNCTION_BIT_ARRAY : Z :=
  Z.shiftr (7 + 1 + MAX_FUNCTION_NUMBER - MIN_FUNCTION_NUMBER) 3.

(** ** Data structures *)

Record queued_error := QueuedError {
  qe_err : Z;
  qe_arg : Z
}.

Record error_state := ErrorState {
  error_queue : list queued_error;
  error_in : Z;
  error_out : Z;
  errors_pending : Z
}.

Record output_state := OutputState {
  queue_data : list ascii;
  queue_in : Z;
  queue_out : Z;
  queue_len : Z
}.

(** A pending DCC packet.  [pp_command] is the byte array
    [command[MAXIMUM_DCC_COMMAND]], of which the first [pp_len] bytes
    are in use; records are recycled through the free list and keep
    the bytes of their previous use beyond that. *)
Record pending_packet := PendingPacket {
  pp_target : Z;
  pp_lpreamble : bool;
  pp_duration : Z;
  pp_len : Z;
  pp_command : list Z
}.

(** A transmission buffer.  [tb_pending] is the list reached from the
    [pending] pointer through the [next] links, [tb_next] the index in
    [circular_buffer] of the buffer [next] points to, and [tb_contains]
    the text held in [contains] up to its EOS.  The [display] text is
    only ever read by the LCD refresh and is left out. *)
Record trans_buffer := TransBuffer {
  tb_state : Z;
  tb_target : Z;
  tb_duration : Z;
  tb_bits : list Z;
  tb_pending : list pending_packet;
  tb_reply : Z;
  tb_contains : string;
  tb_next : nat
}.

(** A function cache record; the cache itself is the list of records
    in link order, most recently used first. *)
Record func_cache := FuncCache {
  fc_target : Z;
  fc_bits : list Z
}.

Inductive power_state :=
  | GLOBAL_POWER_OFF
  | GLOBAL_POWER_MAIN
  | GLOBAL_POWER_PROG.

(** Where [bit_string] points: into the [bits] of a transmission
    buffer, into [dcc_idle_packet] or into [dcc_filler_data]. *)
Inductive bit_source :=
  | BufferBits (i : nat)
  | IdlePacket
  | FillerData.

Record bit_pointer := BitPointer {
  bp_source : bit_source;
  bp_offset : nat
}.

(** The variables of the signal generator interrupt. *)
Record isr_state := IsrState {
  current : nat;
  output_pin : Z;
  side : Z;
  remaining : Z;
  reload : Z;
  one : Z;
  left : Z;
  bit_string : bit_pointer;
  statistic_packets : Z
}.

(** The ADC as the firmware drives it: the channel selected in ADMUX,
    the ADSC and ADIE bits set in ADCSRA, and the two variables shared
    with the conversion interrupt. *)
Record adc_state := AdcState {
  adc_channel : Z;
  adc_start_conversion : bool;
  adc_interrupt_enable : bool;
  track_load_reading : Z;
  reading_is_ready : bool
}.

Record machine := Machine {
  m_errors : error_state;
  m_output : output_state;
  m_adc : adc_state;
  m_isr : isr_state;
  circular_buffer : list trans_buffer;
  manage : nat;
  free_pending_packets : list pending_packet;
  function_cache : list func_cache;
  global_power_state : power_state;
  pins : gmap Z bool;
  load_compound_value : list Z;
  load_confirmed : bool
}.

#[global] Instance queued_error_inhabited : Inhabited queued_error :=
  populate (QueuedError 0 0).
#[global] Instance pending_packet_inhabited : Inhabited pending_packet :=
  populate (PendingPacket 0 false 0 0 []).
#[global] Instance trans_buffer_inhabited : Inhabited trans_buffer :=
  populate (TransBuffer TBS_EMPTY 0 0 [] [] NO_REPLY_REQUIRED EmptyString 0).
#[global] Instance func_cache_inhabited : Inhabited func_cache :=
  populate (FuncCache 0 []).
#[global] Instance power_state_eq_dec : EqDecision power_state.
Proof. solve_decision. Defined.
#[global] Instance bit_source_eq_dec : EqDecision bit_source.
Proof. solve_decision. Defined.

(** Field updates of the machine state. *)

Definition set_errors (e : error_state) (s : machine) : machine :=
  Machine e (m_output s) (m_adc s) (m_isr s) (circular_buffer s) (manage s)
    (free_pending_packets s) (function_cache s) (global_power_state s)
    (pins s) (load_compound_value s) (load_confirmed s).

Definition set_output (o : output_state) (s : machine) : machine :=
  Machine (m_errors s) o (m_adc s) (m_isr s) (circular_buffer s) (manage s)
    (free_pending_packets s) (function_cache s) (global_power_state s)
    (pins s) (load_compound_value s) (load_confirmed s).

Definition set_adc (a : adc_state) (s : machine) : machine :=
  Machine (m_errors s) (m_output s) a (m_isr s) (circular_buffer s) (manage s)
    (free_pending_packets s) (function_cache s) (global_power_state s)
    (pins s) (load_compound_value s) (load_confirmed s).

Definition set_isr (i : isr_state) (s : machine) : machine :=
  Machine (m_errors s) (m_output s) (m_adc s) i (circular_buffer s) (manage s)
    (free_pending_packets s) (function_cache s) (global_power_state s)
    (pins s) (load_compound_value s) (load_confirmed s).

Definition set_circular_buffer (b : list trans_buffer) (s : machine) : machine :=
  Machine (m_errors s) (m_output s) (m_adc s) (m_isr s) b (manage s)
    (free_pending_packets s) (function_cache s) (global_power_state s)
    (pins s) (load_compound_value s) (load_confirmed s).

Definition set_manage (i : nat) (s : machine) : machine :=
  Machine (m_errors s) (m_output s) (m_adc s) (m_isr s) (circular_buffer s) i
    (free_pending_packets s) (function_cache s) (global_power_state s)
    (pins s) (load_compound_value s) (load_confirmed s).

Definition set_free_pending_packets (f : list pending_packet) (s : machine) : machine :=
  Machine (m_errors s) (m_output s) (m_adc s) (m_isr s) (circular_buffer s) (manage s)
    f (function_cache s) (global_power_state s)
    (pins s) (load_compound_value s) (load_confirmed s).

Definition set_function_cache (c : list func_cache) (s : machine) : machine :=
  Machine (m_errors s) (m_output s) (m_adc s) (m_isr s) (circular_buffer s) (manage s)
    (free_pending_packets s) c (global_power_state s)
    (pins s) (load_compound_value s) (load_confirmed s).

Definition set_global_power_state (p : power_state) (s : machine) : machine :=
  Machine (m_errors s) (m_output s) (m_adc s) (m_isr s) (circular_buffer s) (manage s)
    (free_pending_packets s) (function_cache s) p
    (pins s) (load_compound_value s) (load_confirmed s).

Definition set_pins (p : gmap Z bool) (s : machine) : machine :=
  Machine (m_errors s) (m_output s) (m_adc s) (m_isr s) (circular_buffer s) (manage s)
    (free_pending_packets s) (function_cache s) (global_power_state s)
    p (load_compound_value s) (load_confirmed s).

Definition set_load_compound_value (l : list Z) (s : machine) : machine :=
  Machine (m_errors s) (m_output s) (m_adc s) (m_isr s) (circular_buffer s) (manage s)
    (free_pending_packets s) (function_cache s) (global_power_state s)
    (pins s) l (load_confirmed s).

Definition set_load_confirmed (c : bool) (s : machine) : machine :=
  Machine (m_errors s) (m_output s) (m_adc s) (m_isr s) (circular_buffer s) (manage s)
    (free_pending_packets s) (function_cache s) (global_power_state s)
    (pins s) (load_compound_value s) c.

(** ** The state monad of the firmware

    Every routine reads and writes the globals, so a routine returning
    [A] is a function from the machine state to a result and the next
    state.  stdpp's [x ← m; k] and [m;; k] sequence them. *)

Definition M (A : Type) : Type := machine -> A * machine.

#[global] Instance M_ret : MRet M := fun A (a : A) s => (a, s).

#[global] Instance M_bind : MBind M :=
  fun A B (k : A -> M B) (m : M A) s => let '(a, s') := m s in k a s'.

Definition gets {A} (f : machine -> A) : M A := fun s => (f s, s).

Definition modify (f : machine -> machine) : M unit := fun s => (tt, f s).

Definition exec {A} (m : M A) (s : machine) : machine := (m s).2.

Definition eval {A} (m : M A) (s : machine) : A := (m s).1.

(** Access to one transmission buffer through its index. *)
Definition buffer (i : nat) (s : machine) : trans_buffer :=
  circular_buffer s !!! i.

Definition update_buffer (i : nat) (f : trans_buffer -> trans_buffer) : M unit :=
  modify (fun s => set_circular_buffer (alter f i (circular_buffer s)) s).

Definition set_tb_state (v : Z) (b : trans_buffer) : trans_buffer :=
  TransBuffer v (tb_target b) (tb_duration b) (tb_bits b) (tb_pending b)
    (tb_reply b) (tb_contains b) (tb_next b).

Definition set_tb_target (v : Z) (b : trans_buffer) : trans_buffer :=
  TransBuffer (tb_state b) v (tb_duration b) (tb_bits b) (tb_pending b)
    (tb_reply b) (tb_contains b) (tb_next b).

Definition set_tb_duration (v : Z) (b : trans_buffer) : trans_buffer :=
  TransBuffer (tb_state b) (tb_target b) v (tb_bits b) (tb_pending b)
    (tb_reply b) (tb_contains b) (tb_next b).

Definition set_tb_bits (v : list Z) (b : trans_buffer) : trans_buffer :=
  TransBuffer (tb_state b) (tb_target b) (tb_duration b) v (tb_pending b)
    (tb_reply b) (tb_contains b) (tb_next b).

Definition set_tb_pending (v : list pending_packet) (b : trans_buffer) : trans_buffer :=
  TransBuffer (tb_state b) (tb_target b) (tb_duration b) (tb_bits b) v
    (tb_reply b) (tb_contains b) (tb_next b).

Definition set_tb_reply (v : Z) (b : trans_buffer) : trans_buffer :=
  TransBuffer (tb_state b) (tb_target b) (tb_duration b) (tb_bits b) (tb_pending b)
    v (tb_contains b) (tb_next b).

Definition set_tb_contains (v : string) (b : trans_buffer) : trans_buffer :=
  TransBuffer (tb_state b) (tb_target b) (tb_duration b) (tb_bits b) (tb_pending b)
    (tb_reply b) v (tb_next b).

Definition set_tb_next (v : nat) (b : trans_buffer) : trans_buffer :=
  TransBuffer (tb_state b) (tb_target b) (tb_duration b) (tb_bits b) (tb_pending b)
    (tb_reply b) (tb_contains b) v.

(** ** Error reporting: [report_error]

    The body of [report_error] on the error queue and its indices. *)
Definition report_error_in (err arg : Z) (e : error_state) : error_state :=
  if errors_pending e <? ERROR_QUEUE_SIZE then
    let i := to_byte (error_in e + 1) in
    {| error_queue := <[Z.to_nat (error_in e) := QueuedError err arg]> (error_queue e);
       error_in := if i =? ERROR_QUEUE_SIZE then 0 else i;
       error_out := error_out e;
       errors_pending := to_byte (errors_pending e + 1) |}
  else
    match list_find (fun q => qe_err q = ERROR_QUEUE_OVERFLOW)
                    (take (Z.to_nat ERROR_QUEUE_SIZE) (error_queue e)) with
    | Some (i, q) =>
        {| error_queue := <[i := QueuedError (qe_err q) (to_int (qe_arg q + 1))]> (error_queue e);
           error_in := error_in e;
           error_out := error_out e;
           errors_pending := errors_pending e |}
    | None =>
        let i := if error_in e =? 0 then ERROR_QUEUE_SIZE - 1
                 else to_byte (error_in e - 1) in
        {| error_queue := <[Z.to_nat i := QueuedError ERROR_QUEUE_OVERFLOW 1]> (error_queue e);
           error_in := error_in e;
           error_out := error_out e;
           errors_pending := errors_pending e |}
    end.

Definition report_error (err arg : Z) : M unit :=
  modify (fun s => set_errors (report_error_in err arg (m_errors s)) s).

(** [ASSERT(v)]: [if(!(v)) report_error( ASSERT_FAILED, __LINE__ )]. *)
Definition ASSERT (v : bool) (line : Z) : M unit :=
  if v then mret tt else report_error ASSERT_FAILED line.

(** The assertions that failed inside [pack_command], in order. *)
Fixpoint report_failed (lines : list Z) : M unit :=
  match lines with
  | [] => mret tt
  | line :: rest => report_error ASSERT_FAILED line;; report_failed rest
  end.

(** ** Output queue: [queue_output] *)

Fixpoint queue_chars (buf : list ascii) (o : output_state) : bool * output_state :=
  match buf with
  | [] => (true, o)
  | c :: rest =>
      if OUTPUT_QUEUE_SIZE <=? queue_len o then (false, o)
      else
        let i := to_byte (queue_in o + 1) in
        queue_chars rest
          {| queue_data := <[Z.to_nat (queue_in o) := c]> (queue_data o);
             queue_in := if i =? OUTPUT_QUEUE_SIZE then 0 else i;
             queue_out := queue_out o;
             queue_len := to_byte (queue_len o + 1) |}
  end.

Definition queue_output (buf : string) : M bool :=
  fun s =>
    let '(r, o) := queue_chars (String.list_ascii_of_string buf) (m_output s) in
    (r, set_output o s).

(** ** Reply construction *)

Definition NL : ascii := ascii_of_nat 10.
Definition SPACE : ascii := " "%char.
Definition HASH : ascii := "#"%char.
Definition MINUS : ascii := "-"%char.
Definition PROT_IN_CHAR : ascii := "["%char.
Definition PROT_OUT_CHAR : ascii := "]"%char.

(** [while( v ) { r[ c++ ] = v % 10; v /= 10; }] on the [TEXT_BUFFER]
    bytes of [r]; the digits come back most significant first, as the
    second loop emits them. *)
Fixpoint peel_digits (fuel : nat) (v : Z) (r : list Z) : list Z :=
  match fuel with
  | O => r
  | S fuel' =>
      if v =? 0 then r
      else peel_digits fuel' (Z.quot v 10) (to_byte (Z.rem v 10) :: r)
  end.

Definition digit_char (d : Z) : ascii :=
  ascii_of_nat (Z.to_nat (to_byte (48 + d))).

Definition int_to_text (v : Z) : string :=
  if v =? 0 then String "0"%char EmptyString
  else
    let n := v <? 0 in
    let v' := if n then to_int (- v) else v in
    let digits := String.string_of_list_ascii (map digit_char (peel_digits TEXT_BUFFER v' [])) in
    if n then String MINUS digits else digits.

Definition _reply_in (code : ascii) (rest : string) : string :=
  String PROT_IN_CHAR (String code rest).

Definition _reply_out : string :=
  String PROT_OUT_CHAR (String NL EmptyString).

Definition reply_1 (code : ascii) (a1 : Z) : string :=
  _reply_in code (String.append (int_to_text a1) _reply_out).

Definition reply_2 (code : ascii) (a1 a2 : Z) : string :=
  _reply_in code
    (String.append (int_to_text a1)
       (String SPACE (String.append (int_to_text a2) _reply_out))).

Definition reply_2c (code : ascii) (a1 a2 : Z) : string :=
  _reply_in code
    (String.append (int_to_text a1)
       (String SPACE (String.append (int_to_text a2)
          (String SPACE (String HASH _reply_out))))).

Definition reply_3 (code : ascii) (a1 a2 a3 : Z) : string :=
  _reply_in code
    (String.append (int_to_text a1)
       (String SPACE (String.append (int_to_text a2)
          (String SPACE (String.append (int_to_text a3) _reply_out))))).

(** [strchr( contains, HASH )] followed by the store through the
    pointer it returns: [None] when the text holds no HASH. *)
Fixpoint replace_hash (c : ascii) (text : string) : option string :=
  match text with
  | EmptyString => None
  | String x rest =>
      if Ascii.eqb x HASH then Some (String c rest)
      else option_map (String x) (replace_hash c rest)
  end.

(** ** Pending packet records *)

(** [copy_with_parity( dest, src, len )], [src] being the [len] bytes
    to copy. *)
Definition copy_with_parity (dest src : list Z) : M (list Z * Z) :=
  let len := Z.of_nat (length src) in
  ASSERT (0 <? len) 693;;
  mret (store_at 0 (src ++ [foldl Z.lxor 0 src]) dest, to_byte (len + 1)).

(** [create_pending_rec( &tail, target, duration, lpreamble, len, cmd )]
    where [tail] is the end of the pending list of buffer [slot] and
    [cmd] the [len] bytes of the command. *)
Definition create_pending_rec (slot : nat) (target duration : Z)
    (lpreamble : bool) (cmd : list Z) : M bool :=
  let len := Z.of_nat (length cmd) in
  ASSERT (0 <? len) 710;;
  ASSERT (len <? MAXIMUM_DCC_COMMAND) 711;;
  free ← gets free_pending_packets;
  match free with
  | [] => mret false
  | ptr :: rest =>
      modify (set_free_pending_packets rest);;
      '(command, l) ← copy_with_parity (pp_command ptr) cmd;
      update_buffer slot (fun b =>
        set_tb_pending
          (tb_pending b ++ [PendingPacket target lpreamble duration l command]) b);;
      mret true
  end.

(** [release_pending_recs( head, one )]: the records go back on the
    front of the free list one after the other. *)
Fixpoint release_pending_recs (head : list pending_packet) (one_only : bool)
  : M (list pending_packet) :=
  match head with
  | [] => mret []
  | ptr :: rest =>
      modify (fun s => set_free_pending_packets (ptr :: free_pending_packets s) s);;
      if one_only then mret rest else release_pending_recs rest one_only
  end.

(** ** Decoder function cache *)

Definition init_function_cache : M unit :=
  modify (set_function_cache
    (replicate (Z.to_nat FUNCTION_CACHE_RECS)
       (FuncCache 0 (replicate (Z.to_nat FUNCTION_BIT_ARRAY) 0)))).

(** The list surgery of [find_func_cache]: a record found further down
    the list moves to its head; when none is found the last record is
    unlinked, given the new target and empty function settings, and
    linked onto the head. *)
Definition touch_cache (target : Z) (cache : list func_cache) : list func_cache :=
  match list_find (fun r => fc_target r = target) cache with
  | Some (O, _) => cache
  | Some (i, r) => r :: delete i cache
  | None =>
      match last cache with
      | Some _ =>
          FuncCache target (replicate (Z.to_nat FUNCTION_BIT_ARRAY) 0)
            :: take (length cache - 1) cache
      | None => cache
      end
  end.

(** [find_func_cache( target )]; the record it returns is the head of
    the cache on return. *)
Definition find_func_cache (target : Z) : M unit :=
  ASSERT (MINIMUM_DCC_ADDRESS <=? target) 889;;
  ASSERT (target <=? MAXIMUM_DCC_ADDRESS) 890;;
  modify (fun s => set_function_cache (touch_cache target (function_cache s)) s).

Definition head_bits (s : machine) : list Z :=
  fc_bits (function_cache s !!! 0%nat).

Definition set_head_bits (bits : list Z) (s : machine) : machine :=
  set_function_cache
    (alter (fun r => FuncCache (fc_target r) bits) 0%nat (function_cache s)) s.

Definition update_function (target func : Z) (state : bool) : M bool :=
  ASSERT (func <=? MAX_FUNCTION_NUMBER) 957;;
  find_func_cache target;;
  bits ← gets head_bits;
  let i := Z.to_nat (Z.shiftr (func - MIN_FUNCTION_NUMBER) 3) in
  let b := to_byte (Z.shiftl 1 (Z.land (func - MIN_FUNCTION_NUMBER) 7)) in
  if state then
    if negb (Z.land (bits !!! i) b =? 0) then mret false
    else
      modify (set_head_bits (<[i := Z.lor (bits !!! i) b]> bits));;
      mret true
  else
    if Z.land (bits !!! i) b =? 0 then mret false
    else
      modify (set_head_bits (<[i := Z.land (bits !!! i) (to_byte (Z.lnot b))]> bits));;
      mret true.

Definition get_function (target func val : Z) : M Z :=
  ASSERT (func <=? MAX_FUNCTION_NUMBER) 993;;
  find_func_cache target;;
  bits ← gets head_bits;
  let i := Z.to_nat (Z.shiftr (func - MIN_FUNCTION_NUMBER) 3) in
  let b := to_byte (Z.shiftl 1 (Z.land (func - MIN_FUNCTION_NUMBER) 7)) in
  if negb (Z.land (bits !!! i) b =? 0) then mret val else mret 0.

(** [base | get_function( adrs, f1, v1 ) | get_function( adrs, f2, v2 ) ...] *)
Fixpoint function_group (adrs base : Z) (fs : list (Z * Z)) : M Z :=
  match fs with
  | [] => mret base
  | (f, v) :: rest =>
      x ← get_function adrs f v;
      function_group adrs (Z.lor base x) rest
  end.

(** ** The signal generator interrupt *)

Definition dcc_idle_packet : list Z := [DCC_SHORT_PREAMBLE; 1; 8; 10; 9; 0].

Definition dcc_filler_data : list Z := [1; 0].

(** [*bit_string]: the byte the pointer designates, given the
    transmission buffers. *)
Definition read_bit_string (p : bit_pointer) (buffers : list trans_buffer) : Z :=
  match bp_source p with
  | BufferBits i => tb_bits (buffers !!! i) !!! bp_offset p
  | IdlePacket => dcc_idle_packet !!! bp_offset p
  | FillerData => dcc_filler_data !!! bp_offset p
  end.

Definition advance (p : bit_pointer) : bit_pointer :=
  BitPointer (bp_source p) (S (bp_offset p)).

Definition modify_isr (f : isr_state -> isr_state) : M unit :=
  modify (fun s => set_isr (f (m_isr s)) s).

Definition set_current (v : nat) (i : isr_state) : isr_state :=
  IsrState v (output_pin i) (side i) (remaining i) (reload i) (one i) (left i)
    (bit_string i) (statistic_packets i).

Definition set_output_pin (v : Z) (i : isr_state) : isr_state :=
  IsrState (current i) v (side i) (remaining i) (reload i) (one i) (left i)
    (bit_string i) (statistic_packets i).

Definition set_side (v : Z) (i : isr_state) : isr_state :=
  IsrState (current i) (output_pin i) v (remaining i) (reload i) (one i) (left i)
    (bit_string i) (statistic_packets i).

Definition set_remaining (v : Z) (i : isr_state) : isr_state :=
  IsrState (current i) (output_pin i) (side i) v (reload i) (one i) (left i)
    (bit_string i) (statistic_packets i).

Definition set_reload (v : Z) (i : isr_state) : isr_state :=
  IsrState (current i) (output_pin i) (side i) (remaining i) v (one i) (left i)
    (bit_string i) (statistic_packets i).

Definition set_one (v : Z) (i : isr_state) : isr_state :=
  IsrState (current i) (output_pin i) (side i) (remaining i) (reload i) v (left i)
    (bit_string i) (statistic_packets i).

Definition set_left (v : Z) (i : isr_state) : isr_state :=
  IsrState (current i) (output_pin i) (side i) (remaining i) (reload i) (one i) v
    (bit_string i) (statistic_packets i).

Definition set_bit_string (v : bit_pointer) (i : isr_state) : isr_state :=
  IsrState (current i) (output_pin i) (side i) (remaining i) (reload i) (one i) (left i)
    v (statistic_packets i).

Definition set_statistic_packets (v : Z) (i : isr_state) : isr_state :=
  IsrState (current i) (output_pin i) (side i) (remaining i) (reload i) (one i) (left i)
    (bit_string i) v.

Definition digitalWrite (pin : Z) (level : bool) : M unit :=
  modify (fun s => set_pins (<[pin := level]> (pins s)) s).

(** [!v] on a byte. *)
Definition lnot_byte (v : Z) : Z := if v =? 0 then 1 else 0.

(** [left = *bit_string++] *)
Definition fetch_left : M Z :=
  p ← gets (fun s => bit_string (m_isr s));
  v ← gets (fun s => read_bit_string p (circular_buffer s));
  modify_isr (fun i => set_bit_string (advance p) (set_left v i));;
  mret v.

(** The end of a bit stream: retire the buffer that was sent. *)
Definition retire_current : M unit :=
  cur ← gets (fun s => current (m_isr s));
  b ← gets (buffer cur);
  if negb (tb_duration b =? 0) && (tb_state b =? TBS_RUN) then
    let d := to_byte (tb_duration b - 1) in
    update_buffer cur (set_tb_duration d);;
    if d =? 0 then update_buffer cur (set_tb_state TBS_LOAD) else mret tt
  else mret tt.

(** [switch( current->state )]: the bit stream to send for the buffer
    just moved onto. *)
Definition select_bit_string : M unit :=
  cur ← gets (fun s => current (m_isr s));
  b ← gets (buffer cur);
  if tb_state b =? TBS_RUN then
    modify_isr (set_bit_string (BitPointer (BufferBits cur) 0))
  else if tb_state b =? TBS_RELOAD then
    modify_isr (set_bit_string (BitPointer IdlePacket 0));;
    update_buffer cur (set_tb_state TBS_LOAD)
  else if tb_state b =? TBS_LOAD then
    modify_isr (set_bit_string
      (BitPointer (match tb_pending b with
                   | [] => IdlePacket
                   | _ :: _ => FillerData
                   end) 0))
  else
    modify_isr (set_bit_string (BitPointer IdlePacket 0)).

(** The part of the interrupt routine that runs when a bit stream has
    no more bits to transmit. *)
Definition next_buffer : M unit :=
  retire_current;;
  cur ← gets (fun s => current (m_isr s));
  b ← gets (buffer cur);
  modify_isr (set_current (tb_next b));;
  modify_isr (fun i => set_statistic_packets (to_int (statistic_packets i + 1)) i);;
  select_bit_string;;
  modify_isr (fun i => set_reload TICKS_FOR_ONE (set_one 1 i));;
  _ ← fetch_left;
  mret tt.

(** [ISR( TIMER2_COMPA_vect )] *)
Definition TIMER2_COMPA_vect : M unit :=
  modify_isr (fun i => set_remaining (to_byte (remaining i - 1)) i);;
  r ← gets (fun s => remaining (m_isr s));
  if r =? 0 then
    pin ← gets (fun s => output_pin (m_isr s));
    sd ← gets (fun s => side (m_isr s));
    digitalWrite pin (if sd =? 0 then LOW else HIGH);;
    modify_isr (set_side (lnot_byte sd));;
    (if negb (lnot_byte sd =? 0) then
       modify_isr (fun i => set_left (to_byte (left i - 1)) i);;
       l ← gets (fun s => left (m_isr s));
       if l =? 0 then
         v ← fetch_left;
         if negb (v =? 0) then
           modify_isr (fun i =>
             let o := lnot_byte (one i) in
             set_reload (if o =? 0 then TICKS_FOR_ZERO else TICKS_FOR_ONE) (set_one o i))
         else next_buffer
       else mret tt
     else mret tt);;
    modify_isr (fun i => set_remaining (reload i) i)
  else mret tt.

(** ** Power selection *)

Definition power_on_main_track : M bool :=
  prev ← gets global_power_state;
  modify_isr (set_output_pin MAIN_TRACK_DIRECTION);;
  digitalWrite MAIN_TRACK_ENABLE HIGH;;
  digitalWrite PROG_TRACK_ENABLE LOW;;
  modify (set_global_power_state GLOBAL_POWER_MAIN);;
  mret (negb (bool_decide (prev = GLOBAL_POWER_MAIN))).

Definition power_on_prog_track : M bool :=
  prev ← gets global_power_state;
  modify_isr (set_output_pin PROG_TRACK_DIRECTION);;
  digitalWrite MAIN_TRACK_ENABLE LOW;;
  digitalWrite PROG_TRACK_ENABLE HIGH;;
  modify (set_global_power_state GLOBAL_POWER_PROG);;
  mret (negb (bool_decide (prev = GLOBAL_POWER_PROG))).

Definition power_off_tracks : M bool :=
  prev ← gets global_power_state;
  digitalWrite MAIN_TRACK_ENABLE LOW;;
  digitalWrite PROG_TRACK_ENABLE LOW;;
  modify (set_global_power_state GLOBAL_POWER_OFF);;
  mret (negb (bool_decide (prev = GLOBAL_POWER_OFF))).

(** ** Current monitoring *)

Definition RESTART_ANALOGUE_READ : M unit :=
  modify (fun s =>
    set_adc (AdcState (adc_channel (m_adc s)) true true 0 false) s).

Definition MONITOR_ANALOGUE_PIN (p : Z) : M unit :=
  modify (fun s =>
    set_adc (AdcState (Z.land p 7) (adc_start_conversion (m_adc s))
               (adc_interrupt_enable (m_adc s)) (track_load_reading (m_adc s))
               (reading_is_ready (m_adc s))) s);;
  RESTART_ANALOGUE_READ.

(** [for( i ... ) amps = ( load_compound_value[ i ] =
    ( amps + load_compound_value[ i ]) >> 1 )]: the new array and the
    last value of [amps]. *)
Fixpoint compound (amps : Z) (values : list Z) : list Z * Z :=
  match values with
  | [] => ([], amps)
  | x :: rest =>
      let a := Z.shiftr (to_int (amps + x)) 1 in
      let '(rest', last) := compound a rest in
      (a :: rest', last)
  end.

Definition power_report : string :=
  String "["%char (String "P"%char (String "0"%char (String "]"%char (String NL EmptyString)))).

(** The reaction shared by the spike and the overload test. *)
Definition cut_power (err amps : Z) : M unit :=
  changed ← power_off_tracks;
  if (changed : bool) then
    report_error err amps;;
    sent ← queue_output power_report;
    (if (sent : bool) then mret tt else report_error COMMAND_REPORT_FAIL (Z.of_nat (nat_of_ascii "P"%char)));;
    modify (fun s =>
      set_load_compound_value
        (replicate (length (load_compound_value s)) 0) s)
  else mret tt.

Definition monitor_current_load (amps : Z) : M unit :=
  values ← gets load_compound_value;
  let '(values', amps') := compound amps values in
  modify (set_load_compound_value values');;
  if INSTANT_CURRENT_LIMIT <? values' !!! 1%nat then
    cut_power POWER_SPIKE amps'
  else if AVERAGE_CURRENT_LIMIT <? values' !!! Z.to_nat (COMPOUNDED_VALUES - 1) then
    cut_power POWER_OVERLOAD amps'
  else
    (if MINIMUM_DELTA_AMPS
          <? to_int (values' !!! SHORT_AVERAGE_VALUE
                     - values' !!! Z.to_nat (COMPOUNDED_VALUES - 1))
     then modify (set_load_confirmed true) else mret tt);;
    RESTART_ANALOGUE_READ.

(** ** Buffer management *)

Definition send_reply (text : string) (target : Z) : M unit :=
  sent ← queue_output text;
  if (sent : bool) then mret tt else report_error COMMAND_REPORT_FAIL target.

Definition management_service_routine : M unit :=
  m ← gets manage;
  b ← gets (buffer m);
  (if tb_state b =? TBS_LOAD then
     match tb_pending b with
     | pp :: _ =>
         let r := pack_command (take (Z.to_nat (pp_len pp)) (pp_command pp))
                    (pp_lpreamble pp) (tb_bits b) in
         report_failed (pr_failed r);;
         update_buffer m (set_tb_bits (pr_bits r));;
         if pr_ok r then
           update_buffer m (set_tb_target (pp_target pp));;
           update_buffer m (set_tb_duration (pp_duration pp));;
           update_buffer m (set_tb_state TBS_RUN);;
           rest ← release_pending_recs (tb_pending b) true;
           update_buffer m (set_tb_pending rest);;
           if (tb_reply b =? REPLY_ON_SEND) && bool_decide (rest = []) then
             send_reply (tb_contains b) (pp_target pp);;
             update_buffer m (set_tb_reply NO_REPLY_REQUIRED)
           else mret tt
         else
           report_error BIT_TRANS_OVERFLOW (pp_target pp);;
           update_buffer m (set_tb_state TBS_EMPTY);;
           rest ← release_pending_recs (tb_pending b) false;
           update_buffer m (set_tb_pending rest)
     | [] =>
         (if tb_reply b =? REPLY_ON_CONFIRM then
            confirmed ← gets load_confirmed;
            match replace_hash (if (confirmed : bool) then "1"%char else "0"%char) (tb_contains b) with
            | Some text =>
                update_buffer m (set_tb_contains text);;
                send_reply text (tb_target b)
            | None =>
                if confirmed then send_reply (tb_contains b) (tb_target b) else mret tt
            end
          else mret tt);;
         update_buffer m (set_tb_reply NO_REPLY_REQUIRED);;
         update_buffer m (set_tb_state TBS_EMPTY)
     end
   else mret tt);;
  b' ← gets (buffer m);
  modify (set_manage (tb_next b')).

Definition link_main_buffers : M unit :=
  update_buffer (Z.to_nat (PROGRAMMING_BASE_BUFFER - 1)) (set_tb_next 0);;
  update_buffer (Z.to_nat (TRANSMISSION_BUFFERS - 1)) (set_tb_next 0).

Definition link_prog_buffers : M unit :=
  update_buffer (Z.to_nat (PROGRAMMING_BASE_BUFFER - 1))
    (set_tb_next (Z.to_nat PROGRAMMING_BASE_BUFFER));;
  update_buffer (Z.to_nat (TRANSMISSION_BUFFERS - 1))
    (set_tb_next (Z.to_nat PROGRAMMING_BASE_BUFFER)).

(** [find_available_buffer( base, count, target )]: the index of the
    buffer found, [None] for NULL. *)
Definition find_available_buffer (base count target : Z) : M (option nat) :=
  ASSERT (base <? TRANSMISSION_BUFFERS) 3158;;
  ASSERT ((0 <? count) && (count <=? TRANSMISSION_BUFFERS)) 3159;;
  ASSERT (base + count <=? TRANSMISSION_BUFFERS) 3160;;
  bufs ← gets (fun s => take (Z.to_nat count) (drop (Z.to_nat base) (circular_buffer s)));
  match list_find (fun b => tb_target b = target) bufs with
  | Some (i, _) => mret (Some (Z.to_nat base + i)%nat)
  | None =>
      match list_find (fun b => tb_state b = TBS_EMPTY) bufs with
      | Some (i, _) => mret (Some (Z.to_nat base + i)%nat)
      | None => mret None
      end
  end.

(** ** DCC composition routines

    Each routine returns the bytes it stores in [command], from index
    0 on; the number of bytes it returns in C is their count. *)

Definition mobile_address (adrs : Z) : list Z :=
  if MAXIMUM_SHORT_ADDRESS <? adrs then
    [to_byte (Z.lor 0xC0 (Z.shiftr adrs 8)); to_byte (Z.land adrs 0xFF)]
  else [to_byte adrs].

Definition compose_motion_packet (adrs speed dir : Z) : M (list Z) :=
  ASSERT ((MINIMUM_DCC_ADDRESS <=? adrs) && (adrs <=? MAXIMUM_DCC_ADDRESS)) 3206;;
  ASSERT ((speed =? EMERGENCY_STOP)
          || ((MINIMUM_DCC_SPEED <=? speed) && (speed <=? MAXIMUM_DCC_SPEED))) 3207;;
  ASSERT ((dir =? DCC_FORWARDS) || (dir =? DCC_BACKWARDS)) 3208;;
  mret (mobile_address adrs
        ++ [0x3F;
            if speed =? 0 then to_byte (Z.shiftl dir 7)
            else if speed =? EMERGENCY_STOP then to_byte (Z.lor (Z.shiftl dir 7) 1)
            else to_byte (Z.lor (Z.shiftl dir 7) (speed + 1))]).

Definition compose_function_change (adrs func state : Z) : M (list Z) :=
  ASSERT ((MIN_ACCESSORY_ADDRESS <=? adrs) && (adrs <=? MAX_ACCESSORY_ADDRESS)) 3271;;
  ASSERT ((MIN_FUNCTION_NUMBER <=? func) && (func <=? MAX_FUNCTION_NUMBER)) 3272;;
  ASSERT ((state =? FUNCTION_ON) || (state =? FUNCTION_OFF)) 3273;;
  changed ← update_function adrs (to_byte func) (state =? FUNCTION_ON);
  if (changed : bool) then
    if func <=? 4 then
      x ← function_group adrs 0x80 [(0, 0x10); (1, 0x01); (2, 0x02); (3, 0x04); (4, 0x08)];
      mret (mobile_address adrs ++ [to_byte x])
    else if func <=? 8 then
      x ← function_group adrs 0xb0 [(5, 0x01); (6, 0x02); (7, 0x04); (8, 0x08)];
      mret (mobile_address adrs ++ [to_byte x])
    else if func <=? 12 then
      x ← function_group adrs 0xa0 [(9, 0x01); (10, 0x02); (11, 0x04); (12, 0x08)];
      mret (mobile_address adrs ++ [to_byte x])
    else if func <=? 20 then
      x ← function_group adrs 0
            [(13, 0x01); (14, 0x02); (15, 0x04); (16, 0x08);
             (17, 0x10); (18, 0x20); (19, 0x40); (20, 0x80)];
      mret (mobile_address adrs ++ [0xde; to_byte x])
    else
      x ← function_group adrs 0
            [(21, 0x01); (22, 0x02); (23, 0x04); (24, 0x08);
             (25, 0x10); (26, 0x20); (27, 0x40); (28, 0x80)];
      mret (mobile_address adrs ++ [0xdf; to_byte x])
  else mret [0xff; 0x00].

Definition compose_digital_reset : M (list Z) := mret [0; 0].

Definition compose_set_cv (cv value : Z) : M (list Z) :=
  ASSERT ((MINIMUM_CV_ADDRESS <=? cv) && (cv <=? MAXIMUM_CV_ADDRESS)) 3379;;
  ASSERT ((0 <=? value) && (value <=? 255)) 3380;;
  let cv' := to_int (cv - MINIMUM_CV_ADDRESS) in
  mret [to_byte (Z.lor 0x7C (Z.land (Z.shiftr cv' 8) 0x03));
        to_byte (Z.land cv' 0xFF);
        to_byte value].

(** ** Command interpretation: cases of [scan_line]

    [scan_line] hands the text to [parse_input] and switches on the
    command letter; the routines below are the bodies of single cases,
    taking the parsed arguments [arg[0..args)]. *)

Definition char_code (c : ascii) : Z := Z.of_nat (nat_of_ascii c).

Definition arg_at (arg : list Z) (i : nat) : Z := arg !!! i.

(** [buf->state = ( buf->state == TBS_EMPTY )? TBS_LOAD: TBS_RELOAD] *)
Definition hand_over (b : trans_buffer) : trans_buffer :=
  set_tb_state (if tb_state b =? TBS_EMPTY then TBS_LOAD else TBS_RELOAD) b.

(** [buf->pending = release_pending_recs( buf->pending, false )] *)
Definition drain_pending (slot : nat) : M unit :=
  b ← gets (buffer slot);
  rest ← release_pending_recs (tb_pending b) false;
  update_buffer slot (set_tb_pending rest).

(** [case 'P']: enable or disable power to the track. *)
Definition scan_line_P (arg : list Z) : M unit :=
  let cmd := char_code "P"%char in
  if negb (length arg =? 1)%nat then report_error INVALID_ARGUMENT_COUNT cmd
  else if arg_at arg 0 =? 0 then
    _ ← power_off_tracks;
    send_reply (reply_1 "P"%char 0) cmd
  else if arg_at arg 0 =? 1 then
    p ← gets global_power_state;
    if negb (bool_decide (p = GLOBAL_POWER_OFF)) then report_error POWER_NOT_OFF cmd
    else
      changed ← power_on_main_track;
      (if (changed : bool) then
         MONITOR_ANALOGUE_PIN MAIN_TRACK_ANALOGUE;;
         link_main_buffers
       else mret tt);;
      send_reply (reply_1 "P"%char 1) cmd
  else if arg_at arg 0 =? 2 then
    p ← gets global_power_state;
    if negb (bool_decide (p = GLOBAL_POWER_OFF)) then report_error POWER_NOT_OFF cmd
    else
      changed ← power_on_prog_track;
      (if (changed : bool) then
         MONITOR_ANALOGUE_PIN PROG_TRACK_ANALOGUE;;
         link_prog_buffers
       else mret tt);;
      send_reply (reply_1 "P"%char 2) cmd
  else report_error INVALID_STATE cmd.

(** [case 'M']: mobile decoder set speed and direction. *)
Definition scan_line_M (arg : list Z) : M unit :=
  let cmd := char_code "M"%char in
  if negb (length arg =? 3)%nat then report_error INVALID_ARGUMENT_COUNT cmd
  else
    let target := arg_at arg 0 in
    let speed := arg_at arg 1 in
    let dir := arg_at arg 2 in
    if (target <? MINIMUM_DCC_ADDRESS) || (MAXIMUM_DCC_ADDRESS <? target) then
      report_error INVALID_ADDRESS target
    else if ((speed <? MINIMUM_DCC_SPEED) || (MAXIMUM_DCC_SPEED <? speed))
            && negb (speed =? EMERGENCY_STOP) then
      report_error INVALID_SPEED speed
    else if negb (dir =? DCC_FORWARDS) && negb (dir =? DCC_BACKWARDS) then
      report_error INVALID_DIRECTION dir
    else
      found ← find_available_buffer MOBILE_BASE_BUFFER MOBILE_TRANS_BUFFERS target;
      match found with
      | None => report_error TRANSMISSION_BUSY cmd
      | Some buf =>
          drain_pending buf;;
          command ← compose_motion_packet target speed dir;
          ok ← create_pending_rec buf target
                 (if (speed =? EMERGENCY_STOP) || (speed =? MINIMUM_DCC_SPEED)
                  then TRANSIENT_COMMAND_REPEATS else 0)
                 false command;
          if (ok : bool) then
            update_buffer buf (set_tb_contains (reply_3 "M"%char target speed dir));;
            update_buffer buf (set_tb_reply REPLY_ON_SEND);;
            update_buffer buf hand_over
          else report_error COMMAND_QUEUE_FAILED cmd
      end.

(** [case 'F']: mobile decoder set function state. *)
Definition scan_line_F (arg : list Z) : M unit :=
  let cmd := char_code "F"%char in
  if negb (length arg =? 3)%nat then report_error INVALID_ARGUMENT_COUNT cmd
  else
    let target := arg_at arg 0 in
    let func := arg_at arg 1 in
    let state := arg_at arg 2 in
    if (target <? MINIMUM_DCC_ADDRESS) || (MAXIMUM_DCC_ADDRESS <? target) then
      report_error INVALID_ADDRESS target
    else if (func <? MIN_FUNCTION_NUMBER) || (MAX_FUNCTION_NUMBER <? func) then
      report_error INVALID_FUNC_NUMBER func
    else if negb (state =? FUNCTION_ON) && negb (state =? FUNCTION_OFF) then
      report_error INVALID_STATE state
    else
      found ← find_available_buffer ACCESSORY_BASE_BUFFER ACCESSORY_TRANS_BUFFERS target;
      match found with
      | None => report_error TRANSMISSION_BUSY cmd
      | Some buf =>
          drain_pending buf;;
          command ← compose_function_change target func state;
          ok ← create_pending_rec buf target TRANSIENT_COMMAND_REPEATS false command;
          if (ok : bool) then
            update_buffer buf (set_tb_contains (reply_3 "F"%char target func state));;
            update_buffer buf (set_tb_reply REPLY_ON_SEND);;
            update_buffer buf hand_over
          else report_error COMMAND_QUEUE_FAILED cmd
      end.

(** [case 'S']: set CV value on the programming track. *)
Definition scan_line_S (arg : list Z) : M unit :=
  let cmd := char_code "S"%char in
  if negb (length arg =? 2)%nat then report_error INVALID_ARGUMENT_COUNT cmd
  else
    let cv := arg_at arg 0 in
    let value := arg_at arg 1 in
    if (cv <? MINIMUM_CV_ADDRESS) || (MAXIMUM_CV_ADDRESS <? cv) then
      report_error INVALID_CV_NUMBER cv
    else if (value <? 0) || (255 <? value) then
      report_error INVALID_BYTE_VALUE value
    else
      found ← find_available_buffer PROGRAMMING_BASE_BUFFER PROGRAMMING_BUFFERS 0;
      match found with
      | None => report_error TRANSMISSION_BUSY cmd
      | Some buf =>
          drain_pending buf;;
          c1 ← compose_digital_reset;
          ok1 ← create_pending_rec buf 0 SERVICE_MODE_RESET_REPEATS true c1;
          c2 ← compose_set_cv cv value;
          ok2 ← create_pending_rec buf 0 SERVICE_MODE_COMMAND_REPEATS true c2;
          c3 ← compose_digital_reset;
          ok3 ← create_pending_rec buf 0 SERVICE_MODE_RESET_REPEATS true c3;
          if (ok1 : bool) && (ok2 : bool) && (ok3 : bool) then
            update_buffer buf (set_tb_contains (reply_2c "S"%char cv value));;
            modify (set_load_confirmed false);;
            update_buffer buf (set_tb_reply REPLY_ON_CONFIRM);;
            update_buffer buf hand_over
          else
            drain_pending buf;;
            report_error COMMAND_QUEUE_FAILED cmd
      end.

(** ** The state after [setup] *)

Definition link_buffer_chain : list trans_buffer :=
  map (fun i : nat =>
         TransBuffer TBS_EMPTY 0 0 (replicate (Z.to_nat BIT_TRANSITIONS) 0) []
           NO_REPLY_REQUIRED EmptyString
           (if (S i =? Z.to_nat TRANSMISSION_BUFFERS)%nat then 0%nat else S i))
      (seq 0 (Z.to_nat TRANSMISSION_BUFFERS)).

Definition setup : machine :=
  {| m_errors := ErrorState (replicate (Z.to_nat ERROR_QUEUE_SIZE) (QueuedError 0 0)) 0 0 0;
     m_output := OutputState (replicate (Z.to_nat OUTPUT_QUEUE_SIZE) Ascii.zero) 0 0 0;
     m_adc := AdcState (Z.land MAIN_TRACK_ANALOGUE 7) true true 0 false;
     m_isr := IsrState 0 MAIN_TRACK_DIRECTION 1 1 TICKS_FOR_ONE 1
                (dcc_idle_packet !!! 0%nat) (BitPointer IdlePacket 1) 0;
     circular_buffer := link_buffer_chain;
     manage := 0;
     free_pending_packets :=
       replicate (Z.to_nat TRANSMISSION_BUFFERS)
         (PendingPacket 0 false 0 0 (replicate (Z.to_nat MAXIMUM_DCC_COMMAND) 0));
     function_cache :=
       replicate (Z.to_nat FUNCTION_CACHE_RECS)
         (FuncCache 0 (replicate (Z.to_nat FUNCTION_BIT_ARRAY) 0));
     global_power_state := GLOBAL_POWER_OFF;
     pins := list_to_map [(12, LOW); (3, LOW); (9, LOW); (13, LOW); (11, LOW); (8, LOW)];
     load_compound_value := replicate (Z.to_nat COMPOUNDED_VALUES) 0;
     load_confirmed := false |}.

(** ** Sequences of calls, used to state properties *)

(** A series of error reports, one after the other. *)
Fixpoint report_all (reports : list (Z * Z)) : M unit :=
  match reports with
  | [] => mret tt
  | (err, arg) :: rest => report_error err arg;; report_all rest
  end.

(** The index of the entry queued last: the one before [error_in]. *)
Definition youngest_error (e : error_state) : nat :=
  Z.to_nat (if error_in e =? 0 then ERROR_QUEUE_SIZE - 1 else error_in e - 1).

(** A full error queue whose youngest entry has been replaced by the
    overflow record with argument [n]. *)
Definition overflowed (e : error_state) (n : Z) : error_state :=
  ErrorState (<[youngest_error e := QueuedError ERROR_QUEUE_OVERFLOW n]> (error_queue e))
    (error_in e) (error_out e) (errors_pending e).

(** The bit stream the interrupt selects on moving onto buffer [nxt],
    found in state [b], and the buffers it leaves. *)
Definition selected_source (nxt : nat) (b : trans_buffer) : bit_source :=
  if tb_state b =? TBS_RUN then BufferBits nxt
  else if tb_state b =? TBS_RELOAD then IdlePacket
  else if tb_state b =? TBS_LOAD then
    match tb_pending b with [] => IdlePacket | _ :: _ => FillerData end
  else IdlePacket.

Definition selected_buffers (nxt : nat) (b : trans_buffer)
    (buffers : list trans_buffer) : list trans_buffer :=
  if negb (tb_state b =? TBS_RUN) && (tb_state b =? TBS_RELOAD)
  then alter (set_tb_state TBS_LOAD) nxt buffers else buffers.

(** A state in which the interrupt is one tick away from the end of the
    idle packet, with buffer 1 waiting in state RELOAD. *)
Definition end_of_idle_packet : machine :=
  set_isr (IsrState 0 MAIN_TRACK_DIRECTION 0 1 TICKS_FOR_ONE 1 1 (BitPointer IdlePacket 5) 0)
    (set_circular_buffer (alter (set_tb_state TBS_RELOAD) 1%nat link_buffer_chain) setup).

(** The values the 10-bit ADC delivers. *)
Definition is_reading (x : Z) : Prop := 0 <= x <= 1023.

(** The error queue after [ASSERT( v )] at source line [line]. *)
Definition asserted (v : bool) (line : Z) (e : error_state) : error_state :=
  if v then e else report_error_in ASSERT_FAILED line e.


(** The state after five invalid commands, none of them reported to
    the host yet. *)
Definition five_errors_pending : machine :=
  exec (report_all [(INVALID_ARGUMENT_COUNT, 80); (INVALID_ADDRESS, 0);
                    (INVALID_SPEED, 200); (INVALID_DIRECTION, 5);
                    (INVALID_STATE, 3)]) setup.

(** [n] passes of [loop] through the management service routine. *)
Fixpoint management_rounds (n : nat) : M unit :=
  match n with
  | O => mret tt
  | S n' => management_service_routine;; management_rounds n'
  end.

(** The bytes of a pending packet that the manager hands to
    [pack_command]: the first [len] bytes of [command]. *)
Definition packet_bytes (pp : pending_packet) : list Z :=
  take (Z.to_nat (pp_len pp)) (pp_command pp).



(** ** Sending the output queue: [process_output]

    [Serial.write] is the only effect outside the globals; the routine
    returns the characters it writes, in order. *)

#[global] Instance ascii_inhabited : Inhabited ascii := populate Ascii.zero.

(** [while( queue_len && count )]: [queue_len] goes down by one on each
    pass, so [n], at least the [queue_len] on entry, bounds the passes. *)
Fixpoint process_chars (n : nat) (count : Z) (o : output_state)
  : list ascii * output_state :=
  match n with
  | O => ([], o)
  | S n' =>
      if (queue_len o =? 0) || (count =? 0) then ([], o)
      else
        let c := queue_data o !!! Z.to_nat (queue_out o) in
        let i := to_byte (queue_out o + 1) in
        let '(written, o') :=
          process_chars n' (to_int (count - 1))
            {| queue_data := queue_data o;
               queue_in := queue_in o;
               queue_out := if i =? OUTPUT_QUEUE_SIZE then 0 else i;
               queue_len := to_byte (queue_len o - 1) |} in
        (c :: written, o')
  end.

Definition process_output (count : Z) : M (list ascii) :=
  fun s =>
    let '(written, o) :=
      process_chars (Z.to_nat (queue_len (m_output s))) count (m_output s) in
    (written, set_output o s).

Definition queue_available : M Z :=
  gets (fun s => to_int (OUTPUT_QUEUE_SIZE - queue_len (m_output s))).

(** ** Sending the error queue: [flush_error_queue] *)

Definition flush_error_queue : M unit :=
  e ← gets m_errors;
  if negb (errors_pending e =? 0) then
    let q := error_queue e !!! Z.to_nat (error_out e) in
    let buffer := reply_2 "E"%char (qe_err q) (qe_arg q) in
    avail ← queue_available;
    if Z.of_nat (String.length buffer) <=? avail then
      modify (fun s =>
        let i := to_byte (error_out (m_errors s) + 1) in
        set_errors
          {| error_queue := error_queue (m_errors s);
             error_in := error_in (m_errors s);
             error_out := if i =? ERROR_QUEUE_SIZE then 0 else i;
             errors_pending := to_byte (errors_pending (m_errors s) - 1) |} s);;
      _ ← queue_output buffer;
      mret tt
    else mret tt
  else mret tt.

(** [report_track_power] *)
Definition report_track_power : M unit :=
  values ← gets load_compound_value;
  send_reply (reply_1 "L"%char (values !!! Z.to_nat (COMPOUNDED_VALUES - 1)))
    (char_code "L"%char).

(** ** Accessory addresses *)

Definition MIN_ACCESSORY_SUBADRS : Z := 0.
Definition MAX_ACCESSORY_SUBADRS : Z := 3.
Definition MIN_ACCESSORY_EXT_ADDRESS : Z := 1.
Definition MAX_ACCESSORY_EXT_ADDRESS : Z := 2048.
Definition ACCESSORY_ON : Z := 1.
Definition ACCESSORY_OFF : Z := 0.


Definition internal_acc_adrs (target : Z) : M Z :=
  ASSERT (MIN_ACCESSORY_EXT_ADDRESS <=? target) 798;;
  ASSERT (target <=? MAX_ACCESSORY_EXT_ADDRESS) 799;;
  mret (Z.shiftr (to_int (target - 1)) 2).

Definition internal_acc_subadrs (target : Z) : M Z :=
  ASSERT (MIN_ACCESSORY_EXT_ADDRESS <=? target) 805;;
  ASSERT (target <=? MAX_ACCESSORY_EXT_ADDRESS) 806;;
  mret (Z.land (to_int (target - 1)) 3).

(** ** The remaining composition routines *)

Definition compose_accessory_change (adrs subadrs state : Z) : M (list Z) :=
  ASSERT ((MIN_ACCESSORY_ADDRESS <=? adrs) && (adrs <=? MAX_ACCESSORY_ADDRESS)) 3247;;
  ASSERT ((MIN_ACCESSORY_SUBADRS <=? subadrs) && (subadrs <=? MAX_ACCESSORY_SUBADRS)) 3248;;
  ASSERT ((state =? ACCESSORY_ON) || (state =? ACCESSORY_OFF)) 3249;;
  mret [to_byte (Z.lor 0x80 (Z.land adrs 0x3F));
        to_byte (Z.lxor (Z.lor (Z.lor (Z.land (Z.shiftr adrs 2) 0x70)
                                      (to_int (Z.shiftl subadrs 1)))
                               state)
                        0xF8)].

Definition compose_verify_cv (cv value : Z) : M (list Z) :=
  ASSERT ((MINIMUM_CV_ADDRESS <=? cv) && (cv <=? MAXIMUM_CV_ADDRESS)) 3395;;
  ASSERT ((0 <=? value) && (value <=? 255)) 3396;;
  let cv' := to_int (cv - MINIMUM_CV_ADDRESS) in
  mret [to_byte (Z.lor 0x74 (Z.land (Z.shiftr cv' 8) 0x03));
        to_byte (Z.land cv' 0xFF);
        to_byte value].

Definition compose_verify_cv_bit (cv bnum value : Z) : M (list Z) :=
  ASSERT ((MINIMUM_CV_ADDRESS <=? cv) && (cv <=? MAXIMUM_CV_ADDRESS)) 3411;;
  ASSERT ((0 <=? bnum) && (bnum <=? 7)) 3412;;
  ASSERT ((value =? 0) || (value =? 1)) 3413;;
  let cv' := to_int (cv - MINIMUM_CV_ADDRESS) in
  mret [to_byte (Z.lor 0x78 (Z.land (Z.shiftr cv' 8) 0x03));
        to_byte (Z.land cv' 0xFF);
        to_byte (Z.lor (Z.lor 0xE0 (to_int (Z.shiftl value 3))) bnum)].

(** ** Reading a command: [parse_number] and [parse_input] *)

Definition MAX_DCC_ARGS : nat := 4.

(** The tests of [ctype.h] in the C locale. *)
Definition isspace (c : ascii) : bool :=
  let n := nat_of_ascii c in ((n =? 32) || ((9 <=? n) && (n <=? 13)))%nat.

Definition isdigit (c : ascii) : bool :=
  let n := nat_of_ascii c in ((48 <=? n) && (n <=? 57))%nat.

Definition isalnum (c : ascii) : bool :=
  let n := nat_of_ascii c in
  (((48 <=? n) && (n <=? 57)) || ((65 <=? n) && (n <=? 90))
   || ((97 <=? n) && (n <=? 122)))%nat.

(** [while( isspace( *buf )) buf++] *)
Fixpoint skip_space (buf : string) : string :=
  match buf with
  | String c rest => if isspace c then skip_space rest else buf
  | EmptyString => EmptyString
  end.

(** [while( isdigit( *buf )) { v = v * 10 + ( *buf++ - '0' ); c++; }]
    on [int] variables. *)
Fixpoint gather_digits (buf : string) (v c : Z) : Z * Z * string :=
  match buf with
  | String d rest =>
      if isdigit d then
        gather_digits rest (to_int (to_int (v * 10) + (char_code d - 48)))
          (to_int (c + 1))
      else (v, c, buf)
  | EmptyString => (v, c, buf)
  end.

(** [parse_number( buf, &found, &value )]: the rest of the text, then
    [found] and [value]. *)
Definition parse_number (buf : string) : string * bool * Z :=
  let buf1 := skip_space buf in
  let '(n, buf2) :=
    match buf1 with
    | String c rest => if Ascii.eqb c MINUS then (true, rest) else (false, buf1)
    | EmptyString => (false, buf1)
    end in
  let '(v, c, buf3) := gather_digits buf2 0 0 in
  (skip_space buf3, 0 <? c, if n then to_int (- v) else v).

(** The loop of [parse_input] with [room] places left in [arg]: [None]
    stands for the result ERROR, otherwise the arguments stored. *)
Fixpoint parse_args (room : nat) (buf : string) : option (list Z) :=
  let '(rest, found, value) := parse_number buf in
  if found then
    match room with
    | O => None
    | S room' => option_map (cons value) (parse_args room' rest)
    end
  else Some [].

(** [parse_input( buf, &cmd, arg, max )]: the command character and
    the arguments, [None] for ERROR. *)
Definition parse_input (buf : string) (max : nat) : M (ascii * option (list Z)) :=
  ASSERT (0 <? Z.of_nat max) 3124;;
  match buf with
  | EmptyString => mret (Ascii.zero, None)
  | String cmd rest =>
      mret (cmd, if isalnum cmd then parse_args max rest else None)
  end.

(** ** The remaining cases of [scan_line] *)

(** [case 'A']: accessory decoder set state. *)
Definition scan_line_A (arg : list Z) : M unit :=
  let cmd := char_code "A"%char in
  if negb (length arg =? 2)%nat then report_error INVALID_ARGUMENT_COUNT cmd
  else
    let target := arg_at arg 0 in
    let state := arg_at arg 1 in
    if (target <? MIN_ACCESSORY_EXT_ADDRESS) || (MAX_ACCESSORY_EXT_ADDRESS <? target) then
      report_error INVALID_ADDRESS target
    else if negb (state =? ACCESSORY_ON) && negb (state =? ACCESSORY_OFF) then
      report_error INVALID_STATE state
    else
      adrs ← internal_acc_adrs target;
      subadrs ← internal_acc_subadrs target;
      let target := to_int (- target) in
      found ← find_available_buffer ACCESSORY_BASE_BUFFER ACCESSORY_TRANS_BUFFERS target;
      match found with
      | None => report_error TRANSMISSION_BUSY cmd
      | Some buf =>
          drain_pending buf;;
          command ← compose_accessory_change adrs subadrs state;
          ok ← create_pending_rec buf target TRANSIENT_COMMAND_REPEATS false command;
          if (ok : bool) then
            update_buffer buf (set_tb_contains (reply_2 "A"%char (to_int (- target)) state));;
            update_buffer buf (set_tb_reply REPLY_ON_SEND);;
            update_buffer buf hand_over
          else report_error COMMAND_QUEUE_FAILED cmd
      end.

(** [case 'V']: verify CV value on the programming track. *)
Definition scan_line_V (arg : list Z) : M unit :=
  let cmd := char_code "V"%char in
  if negb (length arg =? 2)%nat then report_error INVALID_ARGUMENT_COUNT cmd
  else
    let cv := arg_at arg 0 in
    let value := arg_at arg 1 in
    if (cv <? MINIMUM_CV_ADDRESS) || (MAXIMUM_CV_ADDRESS <? cv) then
      report_error INVALID_CV_NUMBER cv
    else if (value <? 0) || (255 <? value) then
      report_error INVALID_BYTE_VALUE value
    else
      found ← find_available_buffer PROGRAMMING_BASE_BUFFER PROGRAMMING_BUFFERS 0;
      match found with
      | None => report_error TRANSMISSION_BUSY cmd
      | Some buf =>
          drain_pending buf;;
          c1 ← compose_digital_reset;
          ok1 ← create_pending_rec buf 0 SERVICE_MODE_RESET_REPEATS true c1;
          c2 ← compose_verify_cv cv value;
          ok2 ← create_pending_rec buf 0 SERVICE_MODE_COMMAND_REPEATS true c2;
          c3 ← compose_digital_reset;
          ok3 ← create_pending_rec buf 0 SERVICE_MODE_RESET_REPEATS true c3;
          if (ok1 : bool) && (ok2 : bool) && (ok3 : bool) then
            update_buffer buf (set_tb_contains (reply_2c "V"%char cv value));;
            modify (set_load_confirmed false);;
            update_buffer buf (set_tb_reply REPLY_ON_CONFIRM);;
            update_buffer buf hand_over
          else
            drain_pending buf;;
            report_error COMMAND_QUEUE_FAILED cmd
      end.

(** [case 'R']: verify one bit of a CV on the programming track. *)
Definition scan_line_R (arg : list Z) : M unit :=
  let cmd := char_code "R"%char in
  if negb (length arg =? 3)%nat then report_error INVALID_ARGUMENT_COUNT cmd
  else
    let cv := arg_at arg 0 in
    let bnum := arg_at arg 1 in
    let value := arg_at arg 2 in
    if (cv <? MINIMUM_CV_ADDRESS) || (MAXIMUM_CV_ADDRESS <? cv) then
      report_error INVALID_CV_NUMBER cv
    else if (bnum <? 0) || (7 <? bnum) then
      report_error INVALID_BIT_NUMBER bnum
    else if negb (value =? 0) && negb (value =? 1) then
      report_error INVALID_BIT_VALUE value
    else
      found ← find_available_buffer PROGRAMMING_BASE_BUFFER PROGRAMMING_BUFFERS 0;
      match found with
      | None => report_error TRANSMISSION_BUSY cmd
      | Some buf =>
          drain_pending buf;;
          c1 ← compose_digital_reset;
          ok1 ← create_pending_rec buf 0 SERVICE_MODE_RESET_REPEATS true c1;
          c2 ← compose_verify_cv_bit cv bnum value;
          ok2 ← create_pending_rec buf 0 SERVICE_MODE_COMMAND_REPEATS true c2;
          c3 ← compose_digital_reset;
          ok3 ← create_pending_rec buf 0 SERVICE_MODE_RESET_REPEATS true c3;
          if (ok1 : bool) && (ok2 : bool) && (ok3 : bool) then
            update_buffer buf (set_tb_contains (reply_2c "R"%char cv bnum));;
            modify (set_load_confirmed false);;
            update_buffer buf (set_tb_reply REPLY_ON_CONFIRM);;
            update_buffer buf hand_over
          else
            drain_pending buf;;
            report_error COMMAND_QUEUE_FAILED cmd
      end.

(** [scan_line( buf )] *)
Definition scan_line (buf : string) : M unit :=
  '(cmd, parsed) ← parse_input buf MAX_DCC_ARGS;
  match parsed with
  | None => mret tt
  | Some arg =>
      if Ascii.eqb cmd "P" then scan_line_P arg
      else if Ascii.eqb cmd "M" then scan_line_M arg
      else if Ascii.eqb cmd "A" then scan_line_A arg
      else if Ascii.eqb cmd "F" then scan_line_F arg
      else if Ascii.eqb cmd "S" then scan_line_S arg
      else if Ascii.eqb cmd "V" then scan_line_V arg
      else if Ascii.eqb cmd "R" then scan_line_R arg
      else report_error UNRECOGNISED_COMMAND (char_code cmd)
  end.

(** ** Serial input: [process_input]

    [serial_line] is [serial_buf[0 .. serial_used)], the characters of
    the command gathered so far; what lies beyond in the array is never
    read, an EOS being stored at [serial_used] before [scan_line]. *)

Definition SERIAL_BUFFER_SIZE : Z := 32.
Definition DELETE : ascii := ascii_of_nat 127.

Record serial_state := SerialState {
  serial_line : list ascii;
  in_cmd_packet : bool
}.

(** One pass of the loop of [process_input], [c] being the character
    [Serial.read] delivers. *)
Definition process_char (c : ascii) (st : serial_state) : M serial_state :=
  if Ascii.eqb c PROT_IN_CHAR then mret (SerialState [] true)
  else if Ascii.eqb c PROT_OUT_CHAR then
    if in_cmd_packet st then
      scan_line (String.string_of_list_ascii (serial_line st));;
      mret (SerialState [] false)
    else mret st
  else
    if in_cmd_packet st then
      if (nat_of_ascii c <? nat_of_ascii SPACE)%nat
         || (nat_of_ascii DELETE <=? nat_of_ascii c)%nat
      then mret (SerialState [] false)
      else if Z.of_nat (length (serial_line st)) <? SERIAL_BUFFER_SIZE - 1
      then mret (SerialState (serial_line st ++ [c]) true)
      else mret st
    else mret st.

(** [process_input( count )] when [Serial.read] delivers the [count]
    characters of [input]. *)
Fixpoint process_input (input : list ascii) (st : serial_state) : M serial_state :=
  match input with
  | [] => mret st
  | c :: rest => st' ← process_char c st; process_input rest st'
  end.

(** The sizes of the local arrays replies are built in: [buffer] in
    [flush_error_queue] and in [report_track_power], [reply] in
    [case 'P']. *)
Definition ERROR_OUTPUT_BUFFER : Z := 32.
Definition TRACK_POWER_BUFFER : Z := 16.
Definition POWER_REPLY_BUFFER : Z := 8.

(** ** The conversion interrupt and the calls of [loop] *)

(** [ISR( ADC_vect )], [low] and [high] being the bytes read from ADCL
    and ADCH. *)
Definition ADC_vect (low high : Z) : M unit :=
  modify (fun s =>
    set_adc (AdcState (adc_channel (m_adc s)) (adc_start_conversion (m_adc s))
               (adc_interrupt_enable (m_adc s))
               (to_int (Z.lor (Z.shiftl high 8) low)) true) s).

(** [if( reading_is_ready ) monitor_current_load( track_load_reading )] *)
Definition monitor_when_ready : M unit :=
  a ← gets m_adc;
  if reading_is_ready a then monitor_current_load (track_load_reading a)
  else mret tt.

(** ** Numbers on the LCD: [backfill_int_to_text]

    [buf] is the array from the pointer passed on; [len] is a [byte]
    and counts down through the indices, so the loops run on it as a
    natural number. *)

(** [while( len-- ) { buf[ len ] = '0' + ( v % 10 ); if(!( v /= 10 )) break; }]:
    [len], [v] and [buf] after the loop.  Leaving the loop through its
    test takes [len] from 0 to 255. *)
Fixpoint backfill_digits (len : nat) (v : Z) (buf : list ascii)
  : Z * Z * list ascii :=
  match len with
  | O => (255, v, buf)
  | S len' =>
      let buf' := <[len' := digit_char (Z.rem v 10)]> buf in
      let v' := Z.quot v 10 in
      if v' =? 0 then (Z.of_nat len', v', buf')
      else backfill_digits len' v' buf'
  end.

(** [while( len-- ) buf[ len ] = SPACE] *)
Fixpoint backfill_spaces (len : nat) (buf : list ascii) : list ascii :=
  match len with
  | O => buf
  | S len' => backfill_spaces len' (<[len' := SPACE]> buf)
  end.

(** [backfill_int_to_text( buf, v, len )]: the value returned and the
    array on return. *)
Definition backfill_int_to_text (buf : list ascii) (v len : Z)
  : M (bool * list ascii) :=
  ASSERT (0 <? len) 1442;;
  if negb (v =? 0) then
    let n := v <? 0 in
    let v1 := if n then to_int (- v) else v in
    let '(len1, v2, buf1) := backfill_digits (Z.to_nat len) v1 buf in
    if negb (v2 =? 0) || (n && (len1 <? 1)) then mret (false, buf1)
    else
      let len2 := if n then to_byte (len1 - 1) else len1 in
      let buf2 := if n then <[Z.to_nat len2 := MINUS]> buf1 else buf1 in
      mret (true, backfill_spaces (Z.to_nat len2) buf2)
  else
    let len1 := to_byte (len - 1) in
    mret (true, backfill_spaces (Z.to_nat len1)
                  (<[Z.to_nat len1 := "0"%char]> buf)).

(** ** Views of the circular queues, used to state properties *)

(** [n] elements of a circular array of [size] places, from index
    [from] on. *)
Fixpoint ring_read {A} `{Inhabited A} (data : list A) (size from n : nat) : list A :=
  match n with
  | O => []
  | S n' =>
      data !!! from :: ring_read data size (if (S from =? size)%nat then 0%nat else S from) n'
  end.

(** The characters waiting in the output queue, oldest first. *)
Definition queued_text (o : output_state) : list ascii :=
  ring_read (queue_data o) (Z.to_nat OUTPUT_QUEUE_SIZE)
    (Z.to_nat (queue_out o)) (Z.to_nat (queue_len o)).

(** The relation the three queue variables keep. *)
Definition output_wf (o : output_state) : Prop :=
  length (queue_data o) = Z.to_nat OUTPUT_QUEUE_SIZE
  /\ 0 <= queue_out o < OUTPUT_QUEUE_SIZE
  /\ 0 <= queue_len o <= OUTPUT_QUEUE_SIZE
  /\ queue_in o = (queue_out o + queue_len o) `mod` OUTPUT_QUEUE_SIZE.

(** The errors waiting in the error queue, oldest first. *)
Definition pending_errors (e : error_state) : list queued_error :=
  ring_read (error_queue e) (Z.to_nat ERROR_QUEUE_SIZE)
    (Z.to_nat (error_out e)) (Z.to_nat (errors_pending e)).

Definition errors_wf (e : error_state) : Prop :=
  length (error_queue e) = Z.to_nat ERROR_QUEUE_SIZE
  /\ 0 <= error_out e < ERROR_QUEUE_SIZE
  /\ 0 <= errors_pending e <= ERROR_QUEUE_SIZE
  /\ error_in e = (error_out e + errors_pending e) `mod` ERROR_QUEUE_SIZE.

(** The number a list of decimal digits stands for, read after the
    digits of [a]. *)
Definition value_after (a : Z) (digits : list Z) : Z :=
  foldl (fun acc d => acc * 10 + d) a digits.

(** The text of a list of digits. *)
Definition digits_text (digits : list Z) : string :=
  String.string_of_list_ascii (map digit_char digits).

(** A text that does not begin with a digit. *)
Definition no_digit_ahead (text : string) : bool :=
  match text with
  | String c _ => negb (isdigit c)
  | EmptyString => true
  end.

(** The characters [process_input] stores in [serial_buf]. *)
Definition is_command_char (c : ascii) : bool :=
  negb (Ascii.eqb c PROT_IN_CHAR) && negb (Ascii.eqb c PROT_OUT_CHAR)
  && (nat_of_ascii SPACE <=? nat_of_ascii c)%nat
  && (nat_of_ascii c <? nat_of_ascii DELETE)%nat.

(** The text of a command: its letter and its arguments, one space
    between them. *)
Fixpoint arguments_text (args : list Z) : string :=
  match args with
  | [] => EmptyString
  | [a] => int_to_text a
  | a :: rest => String.append (int_to_text a) (String SPACE (arguments_text rest))
  end.

Definition command_text (code : ascii) (args : list Z) : string :=
  String code (arguments_text args).

(** The values [int_to_text] and [parse_number] agree on. *)
Definition is_argument (v : Z) : Prop := -32767 <= v <= 32767.

(** A state whose output queue has wrapped: 60 characters were queued
    and 58 of them sent, so the two left sit at the end of the array. *)
Definition output_near_end : machine :=
  exec (queue_output (String.string_of_list_ascii (replicate 60 "."%char));;
        process_output 58) setup.

(** ** The function cache *)

(** The targets the cache holds settings for; target 0 marks a record
    not yet used. *)
Definition cached_targets (cache : list func_cache) : list Z :=
  filter (fun t => t <> 0) (map fc_target cache).

(** The shape [init_function_cache] gives the cache: records with
    [FUNCTION_BIT_ARRAY] bytes each, no target in two of them. *)
Definition cache_wf (cache : list func_cache) : Prop :=
  cache <> []
  /\ Forall (fun r => length (fc_bits r) = Z.to_nat FUNCTION_BIT_ARRAY
                      /\ Forall is_byte (fc_bits r)) cache
  /\ NoDup (cached_targets cache).

(** The place of function [func] in the [bits] of a record: the byte
    [i] and the bit [b] that [update_function] and [get_function]
    compute. *)
Definition function_byte (func : Z) : nat :=
  Z.to_nat (Z.shiftr (func - MIN_FUNCTION_NUMBER) 3).

Definition function_mask (func : Z) : Z :=
  to_byte (Z.shiftl 1 (Z.land (func - MIN_FUNCTION_NUMBER) 7)).

Definition bit_is_on (bits : list Z) (func : Z) : bool :=
  negb (Z.land (bits !!! function_byte func) (function_mask func) =? 0).

(** The checks behind the bit arithmetic of the cache, on one byte
    [x] and two function numbers. *)
Definition mask_check (x f g : Z) : bool :=
  let set := Z.lor x (function_mask f) in
  let clear := Z.land x (to_byte (Z.lnot (function_mask f))) in
  negb (Z.land set (function_mask f) =? 0)
  && (Z.land clear (function_mask f) =? 0)
  && bool_decide (is_byte set) && bool_decide (is_byte clear)
  && (if bool_decide (f <> g /\ function_byte f = function_byte g)
      then (Z.land set (function_mask g) =? Z.land x (function_mask g))
           && (Z.land clear (function_mask g) =? Z.land x (function_mask g))
      else true)
  && bool_decide (function_byte f < Z.to_nat FUNCTION_BIT_ARRAY)%nat.

(** The state of function [func] of [target] as [get_function] gives
    it. *)
Definition function_is_on (target func : Z) (s : machine) : bool :=
  negb (eval (get_function target func 1) s =? 0).

(** ** Runs of the firmware, used to state invariants *)

(** One call of a routine of [loop] or of an interrupt, with what the
    hardware hands it: the characters read and the serial state they
    meet, the bytes of a conversion, the room in the serial port. *)
Inductive call :=
  | Input (input : list ascii) (st : serial_state)
  | Manage
  | Monitor
  | ReportPower
  | FlushErrors
  | Output (count : Z)
  | TimerTick
  | Conversion (low high : Z).

Definition run_call (c : call) : M unit :=
  match c with
  | Input input st => _ ← process_input input st; mret tt
  | Manage => management_service_routine
  | Monitor => monitor_when_ready
  | ReportPower => report_track_power
  | FlushErrors => flush_error_queue
  | Output count => _ ← process_output count; mret tt
  | TimerTick => TIMER2_COMPA_vect
  | Conversion low high => ADC_vect low high
  end.

(** The calls of a list one after the other, each run to its end. *)
Fixpoint run_calls (cs : list call) : M unit :=
  match cs with
  | [] => mret tt
  | c :: rest => run_call c;; run_calls rest
  end.

(** From a state with property [P] the routine returns a value and a
    state related by [Q]. *)
Definition triple {A} (P : machine -> Prop) (m : M A)
    (Q : A -> machine -> Prop) : Prop :=
  forall s, P s -> Q (eval m s) (exec m s).

(** A property of the state that a routine keeps. *)
Definition preserves {A} (I : machine -> Prop) (m : M A) : Prop :=
  forall s, I s -> I (exec m s).

(** Both queues are in order. *)
Definition queues_wf (s : machine) : Prop :=
  output_wf (m_output s) /\ errors_wf (m_errors s).

(** The pending packet records in the free list and in the pending
    lists of the transmission buffers. *)
Definition pending_in (buffers : list trans_buffer) : nat :=
  sum_list (map (fun b => length (tb_pending b)) buffers).

Definition pending_records (s : machine) : nat :=
  length (free_pending_packets s) + pending_in (circular_buffer s).

Definition records_kept (s : machine) : Prop :=
  length (circular_buffer s) = Z.to_nat TRANSMISSION_BUFFERS
  /\ pending_records s = Z.to_nat TRANSMISSION_BUFFERS.

(** The enable pins and the pin the signal goes to agree with
    [global_power_state]. *)
Definition power_consistent (s : machine) : Prop :=
  pins s !! MAIN_TRACK_ENABLE
    = Some (bool_decide (global_power_state s = GLOBAL_POWER_MAIN))
  /\ pins s !! PROG_TRACK_ENABLE
    = Some (bool_decide (global_power_state s = GLOBAL_POWER_PROG))
  /\ match global_power_state s with
     | GLOBAL_POWER_MAIN => output_pin (m_isr s) = MAIN_TRACK_DIRECTION
     | GLOBAL_POWER_PROG => output_pin (m_isr s) = PROG_TRACK_DIRECTION
     | GLOBAL_POWER_OFF =>
         output_pin (m_isr s) = MAIN_TRACK_DIRECTION
         \/ output_pin (m_isr s) = PROG_TRACK_DIRECTION
     end.

(** The buffer whose bits the interrupt is sending, if it is sending
    the bits of a buffer. *)
Definition sending (s : machine) : option nat :=
  match bp_source (bit_string (m_isr s)) with
  | BufferBits i => Some i
  | _ => None
  end.

(** A buffer being sent is in state RUN, or in state RELOAD once a new
    command has claimed it. *)
Definition sending_is_safe (s : machine) : Prop :=
  forall i, sending s = Some i ->
    tb_state (buffer i s) = TBS_RUN \/ tb_state (buffer i s) = TBS_RELOAD.

(** The links of the buffers and the two pointers that follow them
    stay inside [circular_buffer]. *)
Definition ring_wf (s : machine) : Prop :=
  length (circular_buffer s) = Z.to_nat TRANSMISSION_BUFFERS
  /\ (manage s < Z.to_nat TRANSMISSION_BUFFERS)%nat
  /\ (current (m_isr s) < Z.to_nat TRANSMISSION_BUFFERS)%nat
  /\ Forall (fun b => (tb_next b < Z.to_nat TRANSMISSION_BUFFERS)%nat)
       (circular_buffer s).

(** The array the interrupt reads its cells from. *)
Definition source_cells (s : machine) : list Z :=
  match bp_source (bit_string (m_isr s)) with
  | BufferBits i => tb_bits (buffer i s)
  | IdlePacket => dcc_idle_packet
  | FillerData => dcc_filler_data
  end.

(** The array holds a zero cell at index [from] or later. *)
Definition has_end (from : nat) (cells : list Z) : Prop :=
  exists j, (from <= j)%nat /\ cells !! j = Some 0.

(** The [bits] arrays keep their size and those of buffers in state
    RUN hold a packet with its end. *)
Definition bits_wf (buffers : list trans_buffer) : Prop :=
  Forall (fun b => length (tb_bits b) = Z.to_nat BIT_TRANSITIONS
                   /\ (tb_state b = TBS_RUN -> has_end 1 (tb_bits b))) buffers.

(** The interrupt has the end of its cells ahead of it. *)
Definition streams_wf (s : machine) : Prop :=
  bits_wf (circular_buffer s)
  /\ sending_is_safe s
  /\ has_end (bp_offset (bit_string (m_isr s))) (source_cells s).

(** A command for decoder 3, four passes of the manager to bring it to
    the transmission buffer and enough interrupts to end the three idle
    packets before it. *)
Definition first_packet_run : list call :=
  Input (String.list_ascii_of_string "[M3 10 1]") (SerialState [] false)
  :: replicate 4 Manage ++ replicate 1300 TimerTick.

(** The cell budget of [pack_command]: cells stored and cells left add
    up to the size of the array. *)
Definition has_room (p : packer) : Prop :=
  1 <= pk_l p /\ Z.of_nat (length (pk_out p)) + pk_l p = BIT_TRANSITIONS
  /\ pk_out p <> [].

(** The main track under a load that makes every reading the highest
    the converter delivers, after three readings. *)
Definition heavy_load : machine :=
  exec (scan_line "P1";;
        monitor_current_load 1023;; monitor_current_load 1023;;
        monitor_current_load 1023) setup.

(** Two decoders under way: the commands for decoders 3 and 7 have
    taken the first two mobile buffers and the manager has loaded
    them. *)
Definition two_mobile_commands : machine :=
  exec (scan_line "M3 10 1";; scan_line "M7 5 0";; management_rounds 5) setup.

(** A command for decoder 3 waits in its buffer and the manager has
    come round to that buffer. *)
Definition mobile_command_waiting : machine :=
  exec (scan_line "M3 10 1";; management_rounds 3) setup.

(** ** Runs of a frame, byte by byte *)

(** The runs of one byte of a frame, read from the zero bit before it
    to the bit after it. *)
Definition segment_runs (v : Z) (after : bool) : nat :=
  runs (false :: byte_bits v ++ [after]).

Fixpoint segments_runs (cmd : list Z) : nat :=
  match cmd with
  | [] => 0
  | v :: rest => segment_runs v (bool_decide (rest = [])) + segments_runs rest
  end.

(** ** The signal on the pin *)

(** The level of the pin the signal goes to. *)
Definition signal_level (s : machine) : option bool :=
  pins s !! output_pin (m_isr s).

(** The levels found before each of [n] timer interrupts in a row. *)
Fixpoint signal (n : nat) (s : machine) : list (option bool) :=
  match n with
  | O => []
  | S n' => signal_level s :: signal n' (exec TIMER2_COMPA_vect s)
  end.

(** [n] timer interrupts in a row. *)
Fixpoint timer_ticks (n : nat) : M unit :=
  match n with
  | O => mret tt
  | S n' => TIMER2_COMPA_vect;; timer_ticks n'
  end.

(** The interrupts of half a bit, for the value [one] has. *)
Definition half_bit_ticks (one : Z) : Z :=
  if one =? 0 then TICKS_FOR_ZERO else TICKS_FOR_ONE.

(** The value [one] has while the bits of a run of [bit] go out. *)
Definition one_of (bit : bool) : Z := if bit then 1 else 0.

(** A bit on the wire: the pin low, then high, for the same time. *)
Definition bit_wave (bit : bool) : list (option bool) :=
  let ticks := Z.to_nat (half_bit_ticks (one_of bit)) in
  replicate ticks (Some LOW) ++ replicate ticks (Some HIGH).

Definition wave (bits : list bool) : list (option bool) :=
  concat (map bit_wave bits).

(** Where the interrupt is in its cells: which half it counts down,
    the run it is in, what it has left to count and to read. *)
Definition sending_bits (s : machine) (sd one_now left_now rem : Z) (off : nat)
    (cells : list Z) (level : bool) : Prop :=
  side (m_isr s) = sd /\ one (m_isr s) = one_now /\ left (m_isr s) = left_now
  /\ remaining (m_isr s) = rem /\ reload (m_isr s) = half_bit_ticks one_now
  /\ bp_offset (bit_string (m_isr s)) = off
  /\ source_cells s = cells /\ signal_level s = Some level.

(** The state in which the interrupt leaves a buffer it has just moved
    onto: the first bit of the cells [body], a zero cell after them,
    has begun. *)
Definition stream_start (body tail : list Z) (s : machine) : Prop :=
  Forall (fun c => 1 <= c <= 255) body
  /\ exists c rest,
       body = c :: rest
       /\ sending_bits s 1 1 c TICKS_FOR_ONE 1 (body ++ 0 :: tail) LOW.

(** The first idle packet after [setup] has gone out and the interrupt
    has moved onto the second buffer. *)
Definition second_idle_packet : machine :=
  exec (timer_ticks 407) setup.

(** ** The links of the ring *)

(** Buffers 0 to 8 are linked in a row; while a track has power the
    last main-track buffer and the programming buffer both lead to the
    start of the part of the ring that track uses. *)
Definition links_wf (s : machine) : Prop :=
  let last_main := tb_next (buffer (Z.to_nat (PROGRAMMING_BASE_BUFFER - 1)) s) in
  let last := tb_next (buffer (Z.to_nat (TRANSMISSION_BUFFERS - 1)) s) in
  length (circular_buffer s) = Z.to_nat TRANSMISSION_BUFFERS
  /\ (forall i, (i < Z.to_nat (PROGRAMMING_BASE_BUFFER - 1))%nat ->
                tb_next (buffer i s) = S i)
  /\ match global_power_state s with
     | GLOBAL_POWER_MAIN => last_main = 0%nat /\ last = 0%nat
     | GLOBAL_POWER_PROG =>
         last_main = Z.to_nat PROGRAMMING_BASE_BUFFER
         /\ last = Z.to_nat PROGRAMMING_BASE_BUFFER
     | GLOBAL_POWER_OFF => True
     end.

(** The pin shows the bits [bits] over the coming interrupts, one after
    the other, each as low and high halves of its length. *)
Definition outputs (bits : list bool) (s : machine) : Prop :=
  signal (length (wave bits)) s = wave bits.

(** * Properties

    ** Machine integers and the state monad *)

Lemma to_byte_small (x : Z) : 0 <= x < 256 -> to_byte x = x.
Proof. intros H. unfold to_byte. by rewrite Z.mod_small. Qed.

Lemma to_byte_is_byte (x : Z) : is_byte (to_byte x).
Proof. unfold is_byte, to_byte. apply Z.mod_pos_bound. lia. Qed.

Lemma to_int_small (x : Z) : is_int x -> to_int x = x.
Proof. intros H. unfold to_int, is_int in *. rewrite Z.mod_small; lia. Qed.

Lemma exec_bind {A B} (m : M A) (k : A -> M B) (s : machine) :
  exec (m ≫= k) s = exec (k (eval m s)) (exec m s).
Proof. unfold exec, eval, mbind, M_bind. by destruct (m s). Qed.

Lemma eval_bind {A B} (m : M A) (k : A -> M B) (s : machine) :
  eval (m ≫= k) s = eval (k (eval m s)) (exec m s).
Proof. unfold exec, eval, mbind, M_bind. by destruct (m s). Qed.

Lemma run_bind {A B} (m : M A) (k : A -> M B) (s : machine) :
  (m ≫= k) s = k (eval m s) (exec m s).
Proof. unfold exec, eval, mbind, M_bind. by destruct (m s). Qed.

Lemma exec_report_error (err arg : Z) (s : machine) :
  exec (report_error err arg) s = set_errors (report_error_in err arg (m_errors s)) s.
Proof. done. Qed.

Lemma exec_ret {A} (a : A) (s : machine) : exec (mret a) s = s.
Proof. done. Qed.

Lemma eval_ret {A} (a : A) (s : machine) : eval (mret a) s = a.
Proof. done. Qed.

Lemma exec_gets {A} (f : machine -> A) (s : machine) : exec (gets f) s = s.
Proof. done. Qed.

Lemma eval_gets {A} (f : machine -> A) (s : machine) : eval (gets f) s = f s.
Proof. done. Qed.

Lemma exec_modify (f : machine -> machine) (s : machine) : exec (modify f) s = f s.
Proof. done. Qed.

Lemma eval_modify (f : machine -> machine) (s : machine) : eval (modify f) s = tt.
Proof. done. Qed.

Lemma exec_modify_isr (f : isr_state -> isr_state) (s : machine) :
  exec (modify_isr f) s = set_isr (f (m_isr s)) s.
Proof. done. Qed.

Lemma exec_update_buffer (i : nat) (f : trans_buffer -> trans_buffer) (s : machine) :
  exec (update_buffer i f) s = set_circular_buffer (alter f i (circular_buffer s)) s.
Proof. done. Qed.

Lemma exec_digitalWrite (pin : Z) (level : bool) (s : machine) :
  exec (digitalWrite pin level) s = set_pins (<[pin := level]> (pins s)) s.
Proof. done. Qed.

(** Running a sequence of calls one call at a time. *)
Ltac msimpl :=
  repeat (cbv beta iota;
          first [ rewrite exec_bind | rewrite eval_bind | rewrite exec_ret
                | rewrite eval_ret | rewrite exec_gets | rewrite eval_gets
                | rewrite exec_modify | rewrite eval_modify | rewrite exec_modify_isr
                | rewrite exec_update_buffer | rewrite exec_digitalWrite
                | rewrite exec_report_error ]);
  cbv beta iota.

Lemma set_circular_buffer_id (s : machine) :
  set_circular_buffer (circular_buffer s) s = s.
Proof. by destruct s. Qed.

Lemma set_errors_id (s : machine) : set_errors (m_errors s) s = s.
Proof. by destruct s. Qed.

Lemma exec_ASSERT (v : bool) (line : Z) (s : machine) :
  exec (ASSERT v line) s = set_errors (asserted v line (m_errors s)) s.
Proof. destruct v; [by destruct s|done]. Qed.


(** ** Lists, bits and runs *)

Lemma store_at_spec (cells arr : list Z) (i : nat) :
  (i + length cells <= length arr)%nat ->
  store_at i cells arr = take i arr ++ cells ++ drop (i + length cells) arr.
Proof.
  revert arr i. induction cells as [|c cells IH]; intros arr i Hlen; simpl in *.
  - rewrite Nat.add_0_r. by rewrite take_drop.
  - rewrite IH; [|rewrite length_insert; lia].
    rewrite (take_S_r _ _ c); [|apply list_lookup_insert_eq; lia].
    rewrite take_insert_ge; [|lia].
    rewrite drop_insert_lt; [|lia].
    replace (S i + length cells)%nat with (i + S (length cells))%nat by lia.
    by rewrite <- app_assoc.
Qed.

Lemma store_at_front (cells arr : list Z) :
  (length cells <= length arr)%nat ->
  store_at 0 cells arr = cells ++ drop (length cells) arr.
Proof. intros H. by rewrite store_at_spec. Qed.

Lemma decode_expand (cells rest : list Z) (one : bool) :
  Forall (fun c => 1 <= c <= 255) cells ->
  decode_cells one (cells ++ 0 :: rest) = expand one cells.
Proof.
  intros H. revert one. induction H as [|c cells Hc _ IH]; intros one; simpl.
  - done.
  - destruct (Z.eqb_spec c 0); [lia|]. by rewrite IH.
Qed.

Lemma expand_app (a b : list Z) (one : bool) :
  expand one (a ++ b)
  = expand one a ++ expand (if Nat.even (length a) then one else negb one) b.
Proof.
  revert one. induction a as [|c a IH]; intros one.
  - done.
  - change (expand one ((c :: a) ++ b))
      with (replicate (Z.to_nat c) one ++ expand (negb one) (a ++ b)).
    change (expand one (c :: a))
      with (replicate (Z.to_nat c) one ++ expand (negb one) a).
    change (length (c :: a)) with (S (length a)).
    rewrite IH, Nat.even_succ, <- Nat.negb_even, <- app_assoc.
    by destruct (Nat.even (length a)), one.
Qed.

Lemma runs_snoc (bits : list bool) (w : bool) :
  bits <> [] ->
  runs (bits ++ [w]) = (runs bits + if bool_decide (last bits = Some w) then 0 else 1)%nat.
Proof.
  induction bits as [|x bits IH]; [done|]. intros _.
  destruct bits as [|y bits].
  - simpl. destruct x, w; done.
  - specialize (IH ltac:(done)).
    change (runs ((x :: y :: bits) ++ [w])) with
      (if Bool.eqb x y then runs ((y :: bits) ++ [w]) else S (runs ((y :: bits) ++ [w]))).
    change (runs (x :: y :: bits)) with
      (if Bool.eqb x y then runs (y :: bits) else S (runs (y :: bits))).
    rewrite IH. change (last (x :: y :: bits)) with (last (y :: bits)).
    destruct (Bool.eqb x y); lia.
Qed.

Lemma runs_app_le (bits more : list bool) :
  (runs bits <= runs (bits ++ more))%nat.
Proof.
  induction more as [|w more IH] using rev_ind.
  - by rewrite app_nil_r.
  - rewrite app_assoc. destruct (decide (bits ++ more = [])) as [E|E].
    + apply app_eq_nil in E as [-> ->]. simpl. lia.
    + rewrite runs_snoc by done. lia.
Qed.

Lemma last_replicate_snoc (l : list bool) (n : nat) (x : bool) :
  (0 < n)%nat -> last (l ++ replicate n x) = Some x.
Proof.
  intros H. destruct n as [|n]; [lia|].
  rewrite replicate_S_end, app_assoc. apply last_snoc.
Qed.

Lemma msb_bits_byte_bits (v : Z) :
  is_byte v -> msb_bits 8 v = byte_bits v.
Proof.
  intros [H0 H1].
  assert (Hall : forallb (fun n => bool_decide (msb_bits 8 (Z.of_nat n) = byte_bits (Z.of_nat n)))
                   (seq 0 256) = true) by (vm_compute; reflexivity).
  rewrite forallb_forall in Hall.
  specialize (Hall (Z.to_nat v) ltac:(apply in_seq; lia)).
  rewrite Z2Nat.id in Hall; [|lia].
  by apply bool_decide_eq_true in Hall.
Qed.



Lemma counted_bit_code (p : packer) (w : bool) :
  pk_b p = 0 \/ pk_b p = 0x80 ->
  (bit_code w =? pk_b p) = bool_decide (w = counted_bit p).
Proof.
  unfold counted_bit, bit_code. intros [-> | ->]; by destruct w.
Qed.

Lemma pack_inv_last pre p bits :
  pack_inv pre p bits -> bits <> [] /\ last bits = Some (counted_bit p).
Proof.
  intros [pi_b0 pi_cells0 pi_parity0 pi_c0 pi_bits0 pi_l0 pi_room0 pi_runs0 pi_failed0].
  assert (0 < Z.to_nat (pk_c p))%nat by lia.
  split.
  - intros ->. symmetry in pi_bits0. apply app_eq_nil in pi_bits0 as [_ E].
    destruct (Z.to_nat (pk_c p)); [lia|done].
  - rewrite pi_bits0. by apply last_replicate_snoc.
Qed.


Lemma count_or_flip_step pre p bits w line :
  pack_inv pre p bits ->
  Z.of_nat (length bits) - pre < 255 ->
  match count_or_flip (bit_code w) line p with
  | Running p' => pack_inv pre p' (bits ++ [w])
  | Failed p' =>
      (38 < runs (bits ++ [w]))%nat /\ pk_failed p' = [] /\ pk_out p' = pk_out p
  end.
Proof.
  intros Hinv Hlen.
  destruct (pack_inv_last _ _ _ Hinv) as [Hne Hlast].
  destruct Hinv as [pi_b0 pi_cells0 pi_parity0 pi_c0 pi_bits0 pi_l0 pi_room0 pi_runs0 pi_failed0].
  unfold count_or_flip.
  rewrite counted_bit_code by done.
  destruct p as [out l b c failed]. unfold counted_bit in *.
  cbn [pk_out pk_l pk_b pk_c pk_failed] in *.
  case_bool_decide as Hw.
  - (* the wanted bit is the one being counted *)
    assert (Hc : (c <? MAXIMUM_BIT_ITERATIONS) = true)
      by (apply Z.ltb_lt; unfold MAXIMUM_BIT_ITERATIONS; lia).
    rewrite Hc. rewrite to_byte_small by lia.
    constructor; unfold counted_bit; cbn [pk_out pk_l pk_b pk_c pk_failed]; try done.
    + rewrite length_app. simpl. lia.
    + rewrite Z2Nat.inj_add, Nat.add_1_r, replicate_S_end by lia.
      rewrite app_assoc, <- pi_bits0. by subst w.
    + rewrite runs_snoc by done. rewrite Hlast, Hw.
      rewrite bool_decide_eq_true_2 by done. lia.
  - (* flip to the other bit *)
    assert (Hw' : w = negb (negb (b =? 0))) by (destruct w, (negb (b =? 0)); done).
    assert (Hruns : runs (bits ++ [w]) = S (S (length out))).
    { rewrite runs_snoc by done. rewrite Hlast, pi_runs0.
      rewrite bool_decide_eq_false_2; [lia|]. intros [= E]. by rewrite <- E in Hw. }
    rewrite pi_l0. unfold BIT_TRANSITIONS.
    rewrite to_byte_small by lia.
    destruct (Z.eqb_spec (40 - Z.of_nat (length out) - 1) 0) as [E|E].
    + cbn [pk_out pk_l pk_b pk_c pk_failed]. split; [lia|done].
    + constructor; unfold counted_bit; cbn [pk_out pk_l pk_b pk_c pk_failed].
      * destruct pi_b0 as [-> | ->]; auto.
      * apply Forall_app. split; [done|]. apply Forall_singleton. lia.
      * rewrite length_app. simpl length. rewrite Nat.add_1_r, Nat.even_succ, <- Nat.negb_even.
        rewrite <- pi_parity0.
        destruct pi_b0 as [-> | ->]; done.
      * rewrite length_app. simpl. lia.
      * rewrite expand_app. cbn [expand]. rewrite app_nil_r, <- pi_parity0.
        replace (if negb (b =? 0) then true else negb true) with (negb (b =? 0))
          by (by destruct (negb (b =? 0))).
        rewrite <- pi_bits0. f_equal.
        destruct pi_b0 as [E' | E']; rewrite E' in *; by subst w.
      * rewrite length_app. simpl. unfold BIT_TRANSITIONS. lia.
      * rewrite length_app. simpl. lia.
      * rewrite length_app. simpl. lia.
      * done.
Qed.

Lemma byte_forall (P : Z -> Prop) `{!forall v, Decision (P v)} :
  forallb (fun n => bool_decide (P (Z.of_nat n))) (seq 0 256) = true ->
  forall v, is_byte v -> P v.
Proof.
  intros Hall v [H0 H1]. rewrite forallb_forall in Hall.
  specialize (Hall (Z.to_nat v) ltac:(apply in_seq; lia)).
  rewrite Z2Nat.id in Hall; [|lia].
  by apply bool_decide_eq_true in Hall.
Qed.



Lemma land_top_bit (v : Z) :
  is_byte v -> Z.land v 0x80 = bit_code (negb (Z.land v 0x80 =? 0)).
Proof.
  revert v.
  apply (byte_forall (fun v => Z.land v 0x80 = bit_code (negb (Z.land v 0x80 =? 0)))).
  vm_compute. reflexivity.
Qed.

Lemma slice_bits_steps pre s v p bits :
  pack_inv pre p bits ->
  is_byte v ->
  Z.of_nat (length bits) + Z.of_nat s - pre <= 255 ->
  match slice_bits s v p with
  | Running p' => pack_inv pre p' (bits ++ msb_bits s v)
  | Failed p' => (38 < runs (bits ++ msb_bits s v))%nat /\ pk_failed p' = []
  end.
Proof.
  revert v p bits. induction s as [|s IH]; intros v p bits Hinv Hv Hlen.
  - simpl. by rewrite app_nil_r.
  - cbn [slice_bits msb_bits].
    replace (count_or_flip (Z.land v 128) 1946 p)
      with (count_or_flip (bit_code (negb (Z.land v 128 =? 0))) 1946 p)
      by (by rewrite <- land_top_bit).
    pose proof (count_or_flip_step pre p bits (negb (Z.land v 128 =? 0)) 1946 Hinv
                  ltac:(lia)) as Hstep.
    destruct (count_or_flip _ _ p) as [p1|p1]; cbn [and_then].
    + rewrite (cons_middle _ bits), app_assoc.
      apply IH; [done|apply to_byte_is_byte|].
      rewrite length_app. simpl. lia.
    + destruct Hstep as (Hruns & Hfailed & _). split; [|done].
      rewrite (cons_middle _ bits), app_assoc.
      eapply Nat.lt_le_trans; [exact Hruns|apply runs_app_le].
Qed.

Lemma pack_bytes_steps pre cmd p bits :
  pack_inv pre p bits ->
  Forall is_byte cmd ->
  Z.of_nat (length bits) + 9 * Z.of_nat (length cmd) - pre <= 255 ->
  match pack_bytes cmd p with
  | Running p' => pack_inv pre p' (bits ++ body_bits cmd)
  | Failed p' => (38 < runs (bits ++ body_bits cmd))%nat /\ pk_failed p' = []
  end.
Proof.
  intros Hinv Hcmd. revert p bits Hinv.
  induction Hcmd as [|v cmd Hv _ IH]; intros p bits Hinv Hlen.
  - simpl. by rewrite app_nil_r.
  - cbn [pack_bytes body_bits]. rewrite <- (msb_bits_byte_bits v Hv).
    cbn [length] in Hlen.
    pose proof (slice_bits_steps pre 8 v p bits Hinv Hv ltac:(lia)) as Hslice.
    destruct (slice_bits 8 v p) as [p1|p1]; cbn [and_then].
    + assert (Hlen1 : length (bits ++ msb_bits 8 v) = (length bits + 8)%nat)
        by (rewrite length_app; done).
      pose proof (count_or_flip_step pre p1 _ (bool_decide (cmd = [])) 1979 Hslice
                    ltac:(lia)) as Hstep.
      change (if bool_decide (cmd = []) then 128 else 0)
        with (bit_code (bool_decide (cmd = []))).
      destruct (count_or_flip _ _ p1) as [p2|p2]; cbn [and_then].
      * rewrite (cons_middle _ (msb_bits 8 v)), !app_assoc.
        apply IH; [exact Hstep|].
        rewrite !length_app. simpl length. lia.
      * destruct Hstep as (Hruns & Hfailed & _). split; [|done].
        rewrite (cons_middle _ (msb_bits 8 v)), !app_assoc.
        eapply Nat.lt_le_trans; [exact Hruns|apply runs_app_le].
    + destruct Hslice as [Hruns Hfailed]. split; [|done].
      rewrite app_assoc.
      eapply Nat.lt_le_trans; [exact Hruns|apply runs_app_le].
Qed.

Lemma pack_finish_spec pre p bits :
  pack_inv pre p bits ->
  Z.of_nat (length bits) - pre < 255 ->
  match pack_finish p with
  | Running p' =>
      pk_out p' = pk_out p ++ [pk_c p; 0] /\ pk_failed p' = []
      /\ (runs bits <= 38)%nat
  | Failed p' =>
      (38 < runs bits)%nat /\ pk_failed p' = []
  end.
Proof.
  intros [pi_b0 pi_cells0 pi_parity0 pi_c0 pi_bits0 pi_l0 pi_room0 pi_runs0 pi_failed0] Hlen.
  unfold pack_finish. rewrite pi_l0. unfold BIT_TRANSITIONS.
  rewrite to_byte_small by lia.
  destruct (Z.eqb_spec (40 - Z.of_nat (length (pk_out p)) - 1) 0) as [E|E].
  - simpl. split; [lia|done].
  - assert (Hc : (pk_c p <? MAXIMUM_BIT_ITERATIONS) = true)
      by (apply Z.ltb_lt; unfold MAXIMUM_BIT_ITERATIONS; lia).
    rewrite Hc. rewrite to_byte_small by lia.
    destruct (Z.eqb_spec (40 - Z.of_nat (length (pk_out p)) - 1 - 1) 0) as [E'|E'].
    + simpl. split; [lia|done].
    + simpl. repeat split; [done|lia].
Qed.

Lemma length_body_bits (cmd : list Z) :
  length (body_bits cmd) = (9 * length cmd)%nat.
Proof.
  induction cmd as [|v cmd IH]; [done|].
  cbn [body_bits]. rewrite length_app. cbn [length byte_bits map]. rewrite IH. lia.
Qed.

Lemma frame_body_bits (pre : nat) (cmd : list Z) :
  cmd <> [] ->
  replicate pre true ++ false :: body_bits cmd = dcc_frame pre cmd 0.
Proof.
  intros Hne. unfold dcc_frame. f_equal.
  induction cmd as [|v cmd IH]; [done|].
  cbn [body_bits map concat]. destruct cmd as [|v' cmd].
  - simpl. done.
  - rewrite bool_decide_eq_false_2 by done.
    rewrite <- !app_comm_cons, <- app_assoc. f_equal. f_equal.
    by apply IH.
Qed.

Lemma length_dcc_frame (pre post : nat) (cmd : list Z) :
  length (dcc_frame pre cmd post) = (pre + 1 + 9 * length cmd + post)%nat.
Proof.
  unfold dcc_frame. rewrite !length_app, length_replicate. cbn [length].
  rewrite length_replicate.
  assert (length (concat (map (fun v => false :: byte_bits v) cmd)) = (9 * length cmd)%nat) as ->.
  { induction cmd as [|v cmd IH]; [done|]. cbn [map concat].
    rewrite length_app, IH. cbn [length byte_bits map]. lia. }
  lia.
Qed.

Lemma pack_start_inv (lp : bool) :
  pack_inv (preamble_of lp) (pack_start lp)
    (replicate (Z.to_nat (preamble_of lp)) true ++ [false]).
Proof.
  destruct lp; constructor;
    unfold pack_start, preamble_of, counted_bit, DCC_LONG_PREAMBLE,
      DCC_SHORT_PREAMBLE, BIT_TRANSITIONS;
    cbn [pk_out pk_l pk_b pk_c pk_failed];
    try reflexivity; try (left; reflexivity);
    try (apply Forall_singleton; lia);
    try (rewrite length_app, length_replicate; cbn [length]; lia);
    try (cbn [length]; lia).
Qed.

Lemma pack_run_spec (cmd : list Z) (lp : bool) :
  Forall is_byte cmd ->
  (length cmd <= 28)%nat ->
  let bits := replicate (Z.to_nat (preamble_of lp)) true ++ false :: body_bits cmd in
  match pack_run cmd lp with
  | Running p =>
      exists cells,
        pk_out p = cells ++ [0]
        /\ Forall (fun c => 1 <= c <= 255) cells
        /\ expand true cells = bits
        /\ length cells = runs bits
        /\ (runs bits <= 38)%nat
        /\ pk_failed p = []
  | Failed p => (38 < runs bits)%nat /\ pk_failed p = []
  end.
Proof.
  intros Hcmd Hlen bits. unfold pack_run.
  assert (Hpre : 0 <= preamble_of lp <= 30) by (destruct lp; vm_compute; split; discriminate).
  pose proof (pack_bytes_steps (preamble_of lp) cmd _ _ (pack_start_inv lp) Hcmd) as Hloop.
  rewrite length_app, length_replicate in Hloop. cbn [length] in Hloop.
  specialize (Hloop ltac:(lia)).
  rewrite <- app_assoc in Hloop. change ([false] ++ body_bits cmd) with (false :: body_bits cmd) in Hloop.
  fold bits in Hloop.
  assert (Hbits : Z.of_nat (length bits) - preamble_of lp < 255).
  { unfold bits. rewrite length_app, length_replicate. cbn [length].
    rewrite length_body_bits. lia. }
  destruct (pack_bytes cmd (pack_start lp)) as [p1|p1]; cbn [and_then]; [|done].
  pose proof (pack_finish_spec _ _ _ Hloop Hbits) as Hfin.
  destruct Hloop as [pi_b0 pi_cells0 pi_parity0 pi_c0 pi_bits0 pi_l0 pi_room0 pi_runs0 pi_failed0].
  destruct (pack_finish p1) as [p2|p2]; [|done].
  destruct Hfin as (Hout & Hfailed & Hruns).
  exists (pk_out p1 ++ [pk_c p1]). repeat split; try done.
  - rewrite Hout, <- app_assoc. done.
  - apply Forall_app. split; [done|]. apply Forall_singleton. lia.
  - rewrite expand_app. cbn [expand]. rewrite app_nil_r, <- pi_parity0.
    replace (if counted_bit p1 then true else negb true) with (counted_bit p1)
      by (by destruct (counted_bit p1)).
    done.
  - rewrite length_app. cbn [length]. lia.
Qed.

(** ** What [pack_command] returns *)

Lemma pack_command_cells (cmd : list Z) (lp : bool) (buf : list Z) :
  pr_bits (pack_command cmd lp buf) = store_at 0 (pack_cells cmd lp) buf.
Proof. unfold pack_command, pack_cells. by destruct (pack_run cmd lp). Qed.

Lemma pack_command_ok (cmd : list Z) (lp : bool) (buf : list Z) :
  pr_ok (pack_command cmd lp buf) = true <->
  exists p, pack_run cmd lp = Running p.
Proof.
  unfold pack_command. destruct (pack_run cmd lp) as [p|p]; simpl.
  - split; [eauto|done].
  - split; [done|]. by intros [? ?].
Qed.

(** Commands of up to 28 bytes cannot make a count wrap: the cells
    stored on success are the runs of the frame, each between 1 and
    255, closed by one zero; and the conversion succeeds exactly when
    the frame has at most 38 runs. *)
Lemma pack_command_spec (cmd : list Z) (lp : bool) (buf : list Z) :
  Forall is_byte cmd ->
  (length cmd <= 28)%nat ->
  let bits := replicate (Z.to_nat (preamble_of lp)) true ++ false :: body_bits cmd in
  pr_failed (pack_command cmd lp buf) = []
  /\ (pr_ok (pack_command cmd lp buf) = true <-> (runs bits <= 38)%nat)
  /\ (pr_ok (pack_command cmd lp buf) = true ->
      exists cells,
        pack_cells cmd lp = cells ++ [0]
        /\ Forall (fun c => 1 <= c <= 255) cells
        /\ expand true cells = bits
        /\ length cells = runs bits).
Proof.
  intros Hcmd Hlen bits.
  pose proof (pack_run_spec cmd lp Hcmd Hlen) as Hrun. fold bits in Hrun.
  unfold pack_command, pack_cells.
  destruct (pack_run cmd lp) as [p|p]; cbn [pr_ok pr_failed].
  - destruct Hrun as (cells & Hout & Hcells & Hexp & Hn & Hruns & Hfailed).
    split; [done|]. split; [done|]. intros _. by exists cells.
  - destruct Hrun as [Hruns Hfailed]. split; [done|]. split; [|done].
    split; [done|lia].
Qed.

(** C1: for every command of 1 to 6 bytes and either preamble on which
    pack_command succeeds, reading the stored cells back (alternating
    runs of ones and zeros up to the zero cell) gives the preamble
    ones, a zero, then each byte most significant bit first with a zero
    between bytes, and the final one; this firmware appends no
    postamble (0 ones), and the number of bits is
    preamble + 1 + 9 * n + postamble. *)
Theorem pack_command_round_trip (cmd : list Z) (long_preamble : bool) (buf : list Z) :
  1 <= Z.of_nat (length cmd) <= MAXIMUM_DCC_COMMAND ->
  Forall is_byte cmd ->
  Z.of_nat (length buf) = BIT_TRANSITIONS ->
  pr_ok (pack_command cmd long_preamble buf) = true ->
  let preamble := Z.to_nat (preamble_of long_preamble) in
  let postamble := 0%nat in
  let decoded := decode_cells true (pr_bits (pack_command cmd long_preamble buf)) in
  decoded = dcc_frame preamble cmd postamble
  /\ length decoded = (preamble + 1 + 9 * length cmd + postamble)%nat.
Proof.
  intros Hlen Hcmd Hbuf Hok. cbv zeta.
  unfold MAXIMUM_DCC_COMMAND in Hlen. unfold BIT_TRANSITIONS in Hbuf.
  set (preamble := Z.to_nat (preamble_of long_preamble)).
  destruct (pack_command_spec cmd long_preamble buf Hcmd ltac:(lia))
    as (_ & Hiff & Hcells).
  destruct (Hcells Hok) as (cells & Hout & Hrange & Hexp & Hn).
  apply Hiff in Hok.
  assert (Hdec : decode_cells true (pr_bits (pack_command cmd long_preamble buf))
                 = dcc_frame preamble cmd 0).
  { rewrite pack_command_cells, Hout, store_at_front.
    - rewrite <- app_assoc. cbn [app]. rewrite decode_expand by done.
      rewrite Hexp. apply frame_body_bits. intros ->. simpl in Hlen. lia.
    - rewrite length_app. cbn [length]. lia. }
  rewrite Hdec. split; [done|apply length_dcc_frame].
Qed.

Lemma pack_command_round_trip_witness :
  let cmd := [255; 0; 255] in
  let buf := replicate 40 0 in
  (1 <= Z.of_nat (length cmd) <= MAXIMUM_DCC_COMMAND
   /\ Forall is_byte cmd
   /\ Z.of_nat (length buf) = BIT_TRANSITIONS
   /\ pr_ok (pack_command cmd false buf) = true)
  /\ decode_cells true (pr_bits (pack_command cmd false buf)) = dcc_frame 15 cmd 0
  /\ length (decode_cells true (pr_bits (pack_command cmd false buf)))
     = (15 + 1 + 9 * 3 + 0)%nat.
Proof.
  assert (H : 1 <= Z.of_nat (length [255; 0; 255]) <= MAXIMUM_DCC_COMMAND
              /\ Forall is_byte [255; 0; 255]
              /\ Z.of_nat (length (replicate 40 0)) = BIT_TRANSITIONS
              /\ pr_ok (pack_command [255; 0; 255] false (replicate 40 0)) = true).
  { split; [vm_compute; split; discriminate|].
    split; [repeat constructor; vm_compute; discriminate|].
    split; reflexivity. }
  split; [exact H|].
  destruct H as (H1 & H2 & H3 & H4).
  exact (pack_command_round_trip [255; 0; 255] false (replicate 40 0) H1 H2 H3 H4).
Defined.

(** C7: on every command the firmware can hold (at most
    MAXIMUM_DCC_COMMAND bytes) on which pack_command succeeds, the
    cells stored are all between 1 and 255 except the single zero cell
    that ends them. *)
Theorem pack_command_cells_in_range (cmd : list Z) (long_preamble : bool) (buf : list Z) :
  Z.of_nat (length cmd) <= MAXIMUM_DCC_COMMAND ->
  Forall is_byte cmd ->
  pr_ok (pack_command cmd long_preamble buf) = true ->
  exists cells,
    pack_cells cmd long_preamble = cells ++ [0]
    /\ Forall (fun c => c <> 0 /\ 1 <= c <= 255) cells
    /\ pr_bits (pack_command cmd long_preamble buf) = store_at 0 (cells ++ [0]) buf.
Proof.
  intros Hlen Hcmd Hok. unfold MAXIMUM_DCC_COMMAND in Hlen.
  assert (Hlen' : (length cmd <= 28)%nat) by lia.
  destruct (pack_command_spec cmd long_preamble buf Hcmd Hlen')
    as (_ & _ & Hcells).
  destruct (Hcells Hok) as (cells & Hout & Hrange & _).
  exists cells. split; [done|]. split.
  - eapply Forall_impl; [exact Hrange|]. intros c Hc. simpl in *. lia.
  - by rewrite pack_command_cells, Hout.
Qed.

Lemma pack_command_cells_in_range_witness :
  let cmd := [3; 63; 139; 183] in
  let buf := replicate 40 0 in
  (Z.of_nat (length cmd) <= MAXIMUM_DCC_COMMAND
   /\ Forall is_byte cmd
   /\ pr_ok (pack_command cmd false buf) = true)
  /\ exists cells,
       pack_cells cmd false = cells ++ [0]
       /\ Forall (fun c => c <> 0 /\ 1 <= c <= 255) cells
       /\ pr_bits (pack_command cmd false buf) = store_at 0 (cells ++ [0]) buf.
Proof.
  assert (H : Z.of_nat (length [3; 63; 139; 183]) <= MAXIMUM_DCC_COMMAND
              /\ Forall is_byte [3; 63; 139; 183]
              /\ pr_ok (pack_command [3; 63; 139; 183] false (replicate 40 0)) = true).
  { split; [vm_compute; discriminate|].
    split; [repeat constructor; vm_compute; discriminate|reflexivity]. }
  split; [exact H|].
  destruct H as (H1 & H2 & H3).
  exact (pack_command_cells_in_range [3; 63; 139; 183] false (replicate 40 0) H1 H2 H3).
Defined.

(** ** The error queue *)

Lemma list_find_insert_only {A} (P : A -> Prop) `{!forall x, Decision (P x)}
    (l : list A) (i : nat) (x : A) :
  (i < length l)%nat -> P x -> Forall (fun y => ~ P y) l ->
  list_find P (<[i := x]> l) = Some (i, x).
Proof.
  intros Hi Hx Hl. apply list_find_Some. split; [by apply list_lookup_insert_eq|].
  split; [done|]. intros j y Hj Hlt.
  rewrite list_lookup_insert_ne in Hj by lia.
  rewrite Forall_forall in Hl. apply Hl. by eapply list_elem_of_lookup_2.
Qed.

Section error_queue_full.
Context (e : error_state).
Hypothesis Hfull : errors_pending e = ERROR_QUEUE_SIZE.
Hypothesis Hsize : length (error_queue e) = Z.to_nat ERROR_QUEUE_SIZE.
Hypothesis Hin : 0 <= error_in e < ERROR_QUEUE_SIZE.
Hypothesis Hnone :
  Forall (fun q => qe_err q <> ERROR_QUEUE_OVERFLOW) (error_queue e).

Lemma youngest_error_lt : (youngest_error e < length (error_queue e))%nat.
Proof.
  rewrite Hsize. unfold youngest_error, ERROR_QUEUE_SIZE in *.
  destruct (error_in e =? 0); lia.
Qed.

Lemma report_error_first_overflow (err arg : Z) :
  report_error_in err arg e = overflowed e 1.
Proof.
  unfold report_error_in, overflowed, youngest_error. rewrite !Hfull, Z.ltb_irrefl.
  rewrite take_ge by lia.
  assert (list_find (fun q => qe_err q = ERROR_QUEUE_OVERFLOW) (error_queue e) = None) as ->
    by (by apply list_find_None).
  destruct (Z.eqb_spec (error_in e) 0); [done|].
  unfold ERROR_QUEUE_SIZE in *. rewrite to_byte_small by lia. done.
Qed.

Lemma report_error_next_overflow (err arg n : Z) :
  report_error_in err arg (overflowed e n) = overflowed e (to_int (n + 1)).
Proof.
  unfold report_error_in, overflowed. cbn [errors_pending error_queue error_in error_out].
  rewrite !Hfull, Z.ltb_irrefl.
  rewrite take_ge by (rewrite length_insert; lia).
  rewrite (list_find_insert_only (fun q => qe_err q = ERROR_QUEUE_OVERFLOW)
             _ _ (QueuedError ERROR_QUEUE_OVERFLOW n) youngest_error_lt eq_refl Hnone).
  cbn [qe_err qe_arg]. by rewrite list_insert_insert_eq.
Qed.
End error_queue_full.

Lemma exec_report_all_overflow (e : error_state) (later : list (Z * Z)) (n : Z) (s : machine) :
  errors_pending e = ERROR_QUEUE_SIZE ->
  length (error_queue e) = Z.to_nat ERROR_QUEUE_SIZE ->
  0 <= error_in e < ERROR_QUEUE_SIZE ->
  Forall (fun q => qe_err q <> ERROR_QUEUE_OVERFLOW) (error_queue e) ->
  0 <= n -> n + Z.of_nat (length later) <= 32767 ->
  m_errors s = overflowed e n ->
  m_errors (exec (report_all later) s) = overflowed e (n + Z.of_nat (length later)).
Proof.
  intros Hfull Hsize Hin Hnone. revert n s.
  induction later as [|[err arg] later IH]; intros n s Hn Hlen Hs.
  - simpl. by rewrite Z.add_0_r.
  - cbn [report_all]. rewrite exec_bind, exec_report_error.
    cbn [length] in Hlen |- *.
    rewrite (IH (n + 1)); [f_equal; lia|lia|lia|].
    cbn [m_errors set_errors]. rewrite Hs, report_error_next_overflow by done.
    rewrite to_int_small; [done|]. unfold is_int. lia.
Qed.

(** C10: when the error queue holds its 5 errors and none of them is an
    ERROR_QUEUE_OVERFLOW record, report_error(err, arg) drops the
    incoming error and overwrites the entry queued last (the one before
    error_in, which is not the oldest one) with (ERROR_QUEUE_OVERFLOW, 1);
    each later report made while the queue is still full, whatever its
    error code, adds 1 to that record's argument. *)
Theorem report_error_queue_overflow (s : machine) (err arg : Z) (later : list (Z * Z)) :
  errors_pending (m_errors s) = ERROR_QUEUE_SIZE ->
  length (error_queue (m_errors s)) = Z.to_nat ERROR_QUEUE_SIZE ->
  0 <= error_in (m_errors s) < ERROR_QUEUE_SIZE ->
  Forall (fun q => qe_err q <> ERROR_QUEUE_OVERFLOW) (error_queue (m_errors s)) ->
  Z.of_nat (length later) < 32767 ->
  let e := m_errors s in
  m_errors (exec (report_error err arg) s)
    = ErrorState (<[youngest_error e := QueuedError ERROR_QUEUE_OVERFLOW 1]> (error_queue e))
        (error_in e) (error_out e) (errors_pending e)
  /\ m_errors (exec (report_error err arg;; report_all later) s)
    = ErrorState
        (<[youngest_error e :=
             QueuedError ERROR_QUEUE_OVERFLOW (1 + Z.of_nat (length later))]> (error_queue e))
        (error_in e) (error_out e) (errors_pending e)
  /\ (error_out e = error_in e -> youngest_error e <> Z.to_nat (error_out e)).
Proof.
  intros Hfull Hsize Hin Hnone Hlater e.
  assert (Hfirst : m_errors (exec (report_error err arg) s) = overflowed e 1).
  { rewrite exec_report_error. cbn [m_errors set_errors].
    by apply report_error_first_overflow. }
  split; [exact Hfirst|]. split.
  - rewrite exec_bind.
    by rewrite (exec_report_all_overflow e later 1) by (done || lia).
  - intros ->. unfold youngest_error, ERROR_QUEUE_SIZE in *.
    destruct (Z.eqb_spec (error_in e) 0); fold e in Hin; lia.
Qed.

Lemma report_error_queue_overflow_witness :
  let s := five_errors_pending in
  let later := [(INVALID_FUNC_NUMBER, 40); (POWER_NOT_OFF, 80)] in
  (errors_pending (m_errors s) = ERROR_QUEUE_SIZE
   /\ length (error_queue (m_errors s)) = Z.to_nat ERROR_QUEUE_SIZE
   /\ 0 <= error_in (m_errors s) < ERROR_QUEUE_SIZE
   /\ Forall (fun q => qe_err q <> ERROR_QUEUE_OVERFLOW) (error_queue (m_errors s))
   /\ Z.of_nat (length later) < 32767)
  /\ error_queue (m_errors (exec (report_error INVALID_CV_NUMBER 2000) s))
     = [QueuedError INVALID_ARGUMENT_COUNT 80; QueuedError INVALID_ADDRESS 0;
        QueuedError INVALID_SPEED 200; QueuedError INVALID_DIRECTION 5;
        QueuedError ERROR_QUEUE_OVERFLOW 1]
  /\ error_queue
       (m_errors (exec (report_error INVALID_CV_NUMBER 2000;; report_all later) s))
     = [QueuedError INVALID_ARGUMENT_COUNT 80; QueuedError INVALID_ADDRESS 0;
        QueuedError INVALID_SPEED 200; QueuedError INVALID_DIRECTION 5;
        QueuedError ERROR_QUEUE_OVERFLOW 3].
Proof.
  set (later := [(INVALID_FUNC_NUMBER, 40); (POWER_NOT_OFF, 80)]).
  assert (H1 : errors_pending (m_errors five_errors_pending) = ERROR_QUEUE_SIZE)
    by reflexivity.
  assert (H2 : length (error_queue (m_errors five_errors_pending))
               = Z.to_nat ERROR_QUEUE_SIZE) by reflexivity.
  assert (H3 : 0 <= error_in (m_errors five_errors_pending) < ERROR_QUEUE_SIZE)
    by (split; [discriminate|reflexivity]).
  assert (H4 : Forall (fun q => qe_err q <> ERROR_QUEUE_OVERFLOW)
                 (error_queue (m_errors five_errors_pending)))
    by (repeat constructor; discriminate).
  assert (H5 : Z.of_nat (length later) < 32767) by reflexivity.
  cbv zeta. split; [auto|].
  destruct (report_error_queue_overflow five_errors_pending INVALID_CV_NUMBER 2000
              later H1 H2 H3 H4 H5) as (Hfirst & Hlater & _).
  rewrite Hfirst, Hlater. split; reflexivity.
Defined.

(** *** The signal the interrupt puts on the pin *)

Lemma signal_app (n m : nat) (s : machine) :
  signal (n + m) s = signal n s ++ signal m (exec (timer_ticks n) s).
Proof.
  revert s. induction n as [|n IH]; intros s; [done|].
  cbn [Nat.add signal timer_ticks]. rewrite IH. cbn [app].
  by rewrite exec_bind.
Qed.

Lemma timer_ticks_app (n m : nat) (s : machine) :
  exec (timer_ticks (n + m)) s = exec (timer_ticks m) (exec (timer_ticks n) s).
Proof.
  revert s. induction n as [|n IH]; intros s; [done|].
  cbn [Nat.add timer_ticks]. by rewrite !exec_bind, IH.
Qed.

Lemma half_bit_ticks_range (o : Z) : 1 < half_bit_ticks o <= 255.
Proof. unfold half_bit_ticks. by destruct (o =? 0). Qed.

(** An interrupt that only counts down. *)
Lemma tick_counts_down (s : machine) sd o l r off cells lvl :
  1 < r <= 255 ->
  sending_bits s sd o l r off cells lvl ->
  sending_bits (exec TIMER2_COMPA_vect s) sd o l (r - 1) off cells lvl.
Proof.
  intros Hr (Hsd & Ho & Hl & Hrem & Hre & Hoff & Hc & Hlvl).
  unfold TIMER2_COMPA_vect. msimpl. cbn [m_isr set_isr remaining set_remaining].
  rewrite Hrem. unfold to_byte. rewrite Z.mod_small by lia.
  destruct (Z.eqb_spec (r - 1) 0); [lia|]. msimpl.
  destruct s as [? ? ? [? ? ? ? ? ? ? ?] ? ? ? ? ? ? ? ?].
  by repeat split.
Qed.

(** The edge in the middle of a bit. *)
Lemma tick_raises_pin (s : machine) o l off cells lvl :
  sending_bits s 1 o l 1 off cells lvl ->
  sending_bits (exec TIMER2_COMPA_vect s) 0 o l (half_bit_ticks o) off cells HIGH.
Proof.
  intros (Hsd & Ho & Hl & Hrem & Hre & Hoff & Hc & Hlvl).
  unfold TIMER2_COMPA_vect. msimpl. cbn [m_isr set_isr remaining set_remaining side].
  rewrite Hrem. change (to_byte (1 - 1) =? 0) with true. msimpl.
  cbn [m_isr set_isr set_remaining side set_pins].
  rewrite Hsd. change (lnot_byte 1) with 0. change (lnot_byte 0) with 1.
  cbn [Z.eqb negb]. msimpl.
  destruct s as [? ? ? [? ? ? ? ? ? ? ?] ? ? ? ? ? ? ? ?].
  cbn in *. repeat split; try done.
  unfold signal_level. cbn. by rewrite lookup_insert_eq.
Qed.

(** The edge between two bits of a run. *)
Lemma tick_next_bit (s : machine) o l off cells lvl :
  1 < l <= 255 ->
  sending_bits s 0 o l 1 off cells lvl ->
  sending_bits (exec TIMER2_COMPA_vect s) 1 o (l - 1) (half_bit_ticks o) off cells LOW.
Proof.
  intros Hr (Hsd & Ho & Hl & Hrem & Hre & Hoff & Hc & Hlvl).
  unfold TIMER2_COMPA_vect. msimpl. cbn [m_isr set_isr remaining set_remaining side].
  rewrite Hrem. change (to_byte (1 - 1) =? 0) with true. msimpl.
  cbn [m_isr set_isr set_remaining side set_pins].
  rewrite Hsd. change (lnot_byte 1) with 0. change (lnot_byte 0) with 1.
  cbn [Z.eqb negb]. msimpl. cbn [m_isr set_isr left set_left set_side set_remaining].
  rewrite Hl. unfold to_byte. rewrite Z.mod_small by lia.
  destruct (Z.eqb_spec (l - 1) 0); [lia|]. msimpl.
  destruct s as [? ? ? [? ? ? ? ? ? ? ?] ? ? ? ? ? ? ? ?].
  cbn in *. repeat split; try done.
  unfold signal_level. cbn. by rewrite lookup_insert_eq.
Qed.

(** The edge between two runs. *)
Lemma tick_next_run (s : machine) o off cells lvl v :
  cells !! off = Some v -> 1 <= v <= 255 ->
  sending_bits s 0 o 1 1 off cells lvl ->
  sending_bits (exec TIMER2_COMPA_vect s) 1 (lnot_byte o) v
    (half_bit_ticks (lnot_byte o)) (S off) cells LOW.
Proof.
  intros Hv Hr (Hsd & Ho & Hl & Hrem & Hre & Hoff & Hc & Hlvl).
  assert (read_bit_string (bit_string (m_isr s)) (circular_buffer s) = v) as Hread.
  { unfold read_bit_string. rewrite Hoff.
    unfold source_cells, buffer in Hc.
    destruct (bp_source (bit_string (m_isr s)));
      rewrite Hc; by apply list_lookup_total_correct. }
  unfold TIMER2_COMPA_vect. msimpl. cbn [m_isr set_isr remaining set_remaining side].
  rewrite Hrem. change (to_byte (1 - 1) =? 0) with true. msimpl.
  cbn [m_isr set_isr set_remaining side set_pins].
  rewrite Hsd. change (lnot_byte 1) with 0. change (lnot_byte 0) with 1.
  cbn [Z.eqb negb]. msimpl. cbn [m_isr set_isr left set_left set_side set_remaining set_pins].
  rewrite Hl. change (to_byte (1 - 1) =? 0) with true. cbv iota.
  unfold fetch_left. msimpl.
  cbn [m_isr set_isr left set_left set_side set_remaining bit_string circular_buffer
       set_pins].
  rewrite Hread. destruct (Z.eqb_spec v 0); [lia|].
  cbn [negb]. msimpl.
  destruct s as [? ? ? [? ? ? ? ? ? ? [src o']] ? ? ? ? ? ? ? ?].
  cbn in *. subst.
  repeat split; try done.
  unfold signal_level. cbn. by rewrite lookup_insert_eq.
Qed.


Lemma signal_half (n : nat) (s : machine) sd o l off cells lvl :
  (1 <= n <= 255)%nat ->
  sending_bits s sd o l (Z.of_nat n) off cells lvl ->
  signal n s = replicate n (Some lvl)
  /\ sending_bits (exec (timer_ticks (n - 1)) s) sd o l 1 off cells lvl.
Proof.
  revert s. induction n as [|[|n] IH]; intros s Hn H; [lia| |].
  - split; [|done]. cbn. by destruct H as (_ & _ & _ & _ & _ & _ & _ & ->).
  - assert (sending_bits (exec TIMER2_COMPA_vect s) sd o l (Z.of_nat (S n))
              off cells lvl) as H'.
    { replace (Z.of_nat (S n)) with (Z.of_nat (S (S n)) - 1) by lia.
      apply tick_counts_down; [lia|done]. }
    destruct (IH _ ltac:(lia) H') as [Hsig Hst].
    split.
    + change (signal (S (S n)) s)
        with (signal_level s :: signal (S n) (exec TIMER2_COMPA_vect s)).
      rewrite Hsig. by destruct H as (_ & _ & _ & _ & _ & _ & _ & ->).
    + replace (S (S n) - 1)%nat with (S (S n - 1)) by lia.
      cbn [timer_ticks]. by rewrite exec_bind.
Qed.

Lemma exec_timer_ticks_S (n : nat) (s : machine) :
  (1 <= n)%nat ->
  exec (timer_ticks n) s = exec TIMER2_COMPA_vect (exec (timer_ticks (n - 1)) s).
Proof.
  intros Hn. replace n with ((n - 1) + 1)%nat at 1 by lia.
  rewrite timer_ticks_app. cbn [timer_ticks]. by rewrite exec_bind.
Qed.

Lemma signal_bit (s : machine) (b : bool) l off cells :
  sending_bits s 1 (one_of b) l (half_bit_ticks (one_of b)) off cells LOW ->
  signal (length (bit_wave b)) s = bit_wave b
  /\ sending_bits (exec (timer_ticks (length (bit_wave b) - 1)) s)
       0 (one_of b) l 1 off cells HIGH.
Proof.
  intros H. unfold bit_wave. fold (one_of b).
  set (d := Z.to_nat (half_bit_ticks (one_of b))).
  pose proof (half_bit_ticks_range (one_of b)) as Hd.
  assert (1 <= d <= 255)%nat as Hd' by (unfold d; lia).
  assert (half_bit_ticks (one_of b) = Z.of_nat d) as Hdz by (unfold d; lia).
  rewrite length_app, !length_replicate.
  rewrite Hdz in H.
  destruct (signal_half d s _ _ _ _ _ _ Hd' H) as [Hsig1 Hst1].
  apply tick_raises_pin in Hst1. rewrite <- exec_timer_ticks_S in Hst1 by lia.
  rewrite Hdz in Hst1.
  destruct (signal_half d _ _ _ _ _ _ _ Hd' Hst1) as [Hsig2 Hst2].
  split.
  - by rewrite signal_app, Hsig1, Hsig2.
  - replace (d + d - 1)%nat with (d + (d - 1))%nat by lia.
    by rewrite timer_ticks_app.
Qed.

Lemma length_bit_wave (b : bool) : (1 <= length (bit_wave b))%nat.
Proof. by destruct b; vm_compute; lia. Qed.

Lemma wave_cons (b : bool) (bits : list bool) :
  wave (b :: bits) = bit_wave b ++ wave bits.
Proof. done. Qed.

Lemma wave_app (bits1 bits2 : list bool) :
  wave (bits1 ++ bits2) = wave bits1 ++ wave bits2.
Proof. unfold wave. by rewrite map_app, concat_app. Qed.

Lemma signal_run (c : nat) (s : machine) (b : bool) off cells :
  (1 <= c <= 255)%nat ->
  sending_bits s 1 (one_of b) (Z.of_nat c) (half_bit_ticks (one_of b)) off cells LOW ->
  signal (length (wave (replicate c b))) s = wave (replicate c b)
  /\ sending_bits (exec (timer_ticks (length (wave (replicate c b)) - 1)) s)
       0 (one_of b) 1 1 off cells HIGH.
Proof.
  revert s. induction c as [|[|c] IH]; intros s Hc H; [lia| |].
  - replace (wave (replicate 1 b)) with (bit_wave b)
      by (unfold wave; cbn [replicate map concat]; by rewrite app_nil_r).
    by apply signal_bit.
  - change (replicate (S (S c)) b) with (b :: replicate (S c) b).
    rewrite wave_cons, length_app.
    pose proof (length_bit_wave b) as Hb.
    destruct (signal_bit s b _ _ _ H) as [Hsig1 Hst1].
    apply tick_next_bit in Hst1; [|lia].
    rewrite <- exec_timer_ticks_S in Hst1 by lia.
    replace (Z.of_nat (S (S c)) - 1) with (Z.of_nat (S c)) in Hst1 by lia.
    destruct (IH _ ltac:(lia) Hst1) as [Hsig2 Hst2].
    assert (1 <= length (wave (replicate (S c) b)))%nat as Hw.
    { change (replicate (S c) b) with (b :: replicate c b).
      rewrite wave_cons, length_app. lia. }
    split.
    + by rewrite signal_app, Hsig1, Hsig2.
    + replace (length (bit_wave b) + length (wave (replicate (S c) b)) - 1)%nat
        with (length (bit_wave b) + (length (wave (replicate (S c) b)) - 1))%nat
        by lia.
      by rewrite timer_ticks_app.
Qed.

Lemma one_of_negb (b : bool) : lnot_byte (one_of b) = one_of (negb b).
Proof. by destruct b. Qed.

Lemma signal_cells (body : list Z) : forall (s : machine) (b : bool) c rest off cells,
  Forall (fun c => 1 <= c <= 255) body ->
  body = c :: rest ->
  (forall i v, rest !! i = Some v -> cells !! (off + i)%nat = Some v) ->
  sending_bits s 1 (one_of b) c (half_bit_ticks (one_of b)) off cells LOW ->
  signal (length (wave (expand b body))) s = wave (expand b body).
Proof.
  induction body as [|c0 body IH]; intros s b c rest off cells Hall Hbody Hrest H;
    [done|].
  injection Hbody as -> ->.
  apply Forall_cons in Hall as [Hc Hall].
  cbn [expand]. rewrite wave_app, length_app.
  assert (1 <= Z.to_nat c <= 255)%nat as Hcn by lia.
  replace c with (Z.of_nat (Z.to_nat c)) in H by lia.
  destruct (signal_run _ s b _ _ Hcn H) as [Hsig1 Hst1].
  rewrite signal_app, Hsig1. f_equal.
  destruct rest as [|c2 rest]; [done|].
  assert (1 <= length (wave (replicate (Z.to_nat c) b)))%nat as Hw.
  { destruct (Z.to_nat c) as [|n] eqn:E; [lia|].
    cbn [replicate]. rewrite wave_cons, length_app.
    pose proof (length_bit_wave b). lia. }
  apply (tick_next_run _ _ _ _ _ c2) in Hst1.
  - rewrite <- exec_timer_ticks_S in Hst1 by lia.
    rewrite one_of_negb in Hst1.
    eapply IH; [done|done| |exact Hst1].
    intros i v Hi. replace (S off + i)%nat with (off + S i)%nat by lia.
    by apply Hrest.
  - replace off with (off + 0)%nat by lia. by apply Hrest.
  - by apply Forall_cons in Hall as [? _].
Qed.

(** ** The signal generator interrupt *)

(* retire_current touches only the transmission buffers *)
Lemma retire_current_frame (s : machine) :
  exec retire_current s
  = set_circular_buffer (circular_buffer (exec retire_current s)) s.
Proof.
  unfold retire_current. msimpl.
  destruct (negb _ && _).
  - msimpl. destruct (_ =? 0); msimpl; by destruct s.
  - msimpl. by destruct s.
Qed.

Lemma retire_current_next (s : machine) (i : nat) :
  tb_next (buffer i (exec retire_current s)) = tb_next (buffer i s).
Proof.
  unfold retire_current. msimpl.
  destruct (negb _ && _); msimpl; [|done].
  destruct (_ =? 0); msimpl; unfold buffer; cbn [circular_buffer set_circular_buffer];
    rewrite ?list_lookup_total_alter; repeat case_decide; destruct_and?; by subst.
Qed.

Lemma retire_current_other (s : machine) (i : nat) :
  i <> current (m_isr s) ->
  buffer i (exec retire_current s) = buffer i s.
Proof.
  intros Hi. unfold retire_current. msimpl.
  destruct (negb _ && _); msimpl; [|done].
  destruct (_ =? 0); msimpl; unfold buffer; cbn [circular_buffer set_circular_buffer];
    rewrite ?list_lookup_total_alter_ne; done.
Qed.

Lemma select_bit_string_spec (s : machine) :
  let nxt := current (m_isr s) in
  let b := buffer nxt s in
  exec select_bit_string s
  = set_circular_buffer (selected_buffers nxt b (circular_buffer s))
      (set_isr (set_bit_string (BitPointer (selected_source nxt b) 0) (m_isr s)) s).
Proof.
  intros nxt b. unfold select_bit_string, selected_source, selected_buffers. msimpl.
  fold nxt. fold b.
  destruct (tb_state b =? TBS_RUN); msimpl; [by destruct s|].
  destruct (tb_state b =? TBS_RELOAD); msimpl; [by destruct s|].
  destruct (tb_state b =? TBS_LOAD); msimpl; by destruct s.
Qed.

Lemma next_buffer_spec (s : machine) :
  let s1 := exec retire_current s in
  let nxt := tb_next (buffer (current (m_isr s)) s) in
  let b := buffer nxt s1 in
  let buffers := selected_buffers nxt b (circular_buffer s1) in
  let src := selected_source nxt b in
  exec next_buffer s
  = set_circular_buffer buffers
      (set_isr
         (IsrState nxt (output_pin (m_isr s)) (side (m_isr s)) (remaining (m_isr s))
            TICKS_FOR_ONE 1 (read_bit_string (BitPointer src 0) buffers)
            (BitPointer src 1) (to_int (statistic_packets (m_isr s) + 1)))
         s).
Proof.
  intros s1 nxt b buffers src. unfold next_buffer.
  rewrite exec_bind. fold s1.
  assert (Hs1 : s1 = set_circular_buffer (circular_buffer s1) s)
    by apply retire_current_frame.
  assert (Hnxt : tb_next (buffer (current (m_isr s1)) s1) = nxt).
  { rewrite Hs1 at 1. cbn [m_isr set_circular_buffer]. apply retire_current_next. }
  msimpl. rewrite Hnxt.
  rewrite select_bit_string_spec.
  cbn [m_isr set_isr set_current current set_statistic_packets set_circular_buffer
       circular_buffer].
  unfold buffer at 1 2. cbn [circular_buffer set_isr set_circular_buffer].
  fold (buffer nxt s1). fold b. fold buffers. fold src.
  unfold fetch_left. msimpl.
  cbn [m_isr set_isr set_circular_buffer circular_buffer bit_string set_bit_string
       set_reload set_one set_left advance bp_source bp_offset].
  rewrite Hs1. by destruct s as [? ? ? [] ? ? ? ? ? ? ? ?].
Qed.

Lemma retire_current_buffers (s t : machine) :
  current (m_isr s) = current (m_isr t) ->
  circular_buffer s = circular_buffer t ->
  circular_buffer (exec retire_current s) = circular_buffer (exec retire_current t).
Proof.
  intros Hc Hb. unfold retire_current. msimpl. unfold buffer. rewrite Hc, Hb.
  destruct (negb _ && _); msimpl; [|done].
  destruct (_ =? 0); msimpl; cbn [circular_buffer set_circular_buffer];
    by rewrite ?Hc, ?Hb.
Qed.

Lemma isr_exhausted (s : machine) :
  remaining (m_isr s) = 1 -> side (m_isr s) = 0 -> left (m_isr s) = 1 ->
  read_bit_string (bit_string (m_isr s)) (circular_buffer s) = 0 ->
  exec TIMER2_COMPA_vect s
  = exec (modify_isr (fun i => set_remaining (reload i) i))
      (exec next_buffer
         (set_isr
            (set_bit_string (advance (bit_string (m_isr s)))
               (set_left 0 (set_side 1 (set_remaining 0 (m_isr s)))))
            (set_pins (<[output_pin (m_isr s) := LOW]> (pins s)) s))).
Proof.
  destruct s as [e o a [cur pin sd rem rl on lf bs sp] cb mg fr fc gp pn lc cf].
  cbn [m_isr remaining side left bit_string circular_buffer pins output_pin].
  intros -> -> -> Hend.
  unfold TIMER2_COMPA_vect, fetch_left.
  unfold mbind, M_bind, mret, M_ret, gets, modify, modify_isr, digitalWrite, exec.
  cbn -[next_buffer read_bit_string to_byte].
  change (to_byte (1 - 1)) with 0.
  cbn -[next_buffer read_bit_string to_byte].
  change (to_byte (1 - 1)) with 0.
  cbn -[next_buffer read_bit_string to_byte].
  rewrite Hend.
  cbn -[next_buffer read_bit_string to_byte].
  by destruct (next_buffer _).
Qed.

(** The buffer and the bit stream the interrupt moves onto. *)
Lemma isr_next_bit_stream (s : machine) :
  remaining (m_isr s) = 1 -> side (m_isr s) = 0 -> left (m_isr s) = 1 ->
  read_bit_string (bit_string (m_isr s)) (circular_buffer s) = 0 ->
  let nxt := tb_next (buffer (current (m_isr s)) s) in
  let b := buffer nxt (exec retire_current s) in
  let s' := exec TIMER2_COMPA_vect s in
  current (m_isr s') = nxt
  /\ (nxt <> current (m_isr s) -> b = buffer nxt s)
  /\ (tb_state b = TBS_RUN ->
      bit_string (m_isr s') = BitPointer (BufferBits nxt) 1
      /\ left (m_isr s') = tb_bits b !!! 0%nat
      /\ buffer nxt s' = b)
  /\ (tb_state b = TBS_RELOAD ->
      bit_string (m_isr s') = BitPointer IdlePacket 1
      /\ left (m_isr s') = DCC_SHORT_PREAMBLE
      /\ buffer nxt s' = set_tb_state TBS_LOAD b)
  /\ (tb_state b = TBS_LOAD ->
      bit_string (m_isr s')
        = BitPointer (match tb_pending b with [] => IdlePacket | _ :: _ => FillerData end) 1
      /\ buffer nxt s' = b)
  /\ (tb_state b <> TBS_RUN -> tb_state b <> TBS_RELOAD -> tb_state b <> TBS_LOAD ->
      bit_string (m_isr s') = BitPointer IdlePacket 1
      /\ left (m_isr s') = DCC_SHORT_PREAMBLE
      /\ buffer nxt s' = b).
Proof.
  intros Hrem Hside Hleft Hend nxt b s'.
  unfold s'. rewrite (isr_exhausted s Hrem Hside Hleft Hend).
  set (t := set_isr _ (set_pins _ s)).
  assert (Hcur : current (m_isr t) = current (m_isr s)) by done.
  assert (Hbufs : circular_buffer t = circular_buffer s) by done.
  pose proof (retire_current_buffers t s Hcur Hbufs) as Hret.
  assert (E1 : buffer (current (m_isr t)) t = buffer (current (m_isr s)) s)
    by (unfold buffer; by rewrite Hcur, Hbufs).
  assert (E2 : forall i, buffer i (exec retire_current t) = buffer i (exec retire_current s))
    by (intros i; unfold buffer; by rewrite Hret).
  pose proof (next_buffer_spec t) as Hspec. cbv zeta in Hspec.
  rewrite E1, E2, Hret in Hspec. fold nxt in Hspec. fold b in Hspec.
  rewrite Hspec, exec_modify_isr. clear Hspec.
  set (cb1 := circular_buffer (exec retire_current s)).
  cbn [m_isr set_isr set_circular_buffer current bit_string left set_remaining reload].
  unfold buffer at 2 3 4 5. cbn [circular_buffer set_isr set_circular_buffer].
  split; [done|]. split; [intros Hne; by apply retire_current_other|].
  unfold selected_source, selected_buffers, read_bit_string. cbn [bp_source bp_offset].
  split; [|split; [|split]].
  - intros E. rewrite E. cbn [Z.eqb TBS_RUN Pos.eqb negb andb]. done.
  - intros E. rewrite E. cbn. split; [done|]. split; [done|].
    rewrite list_lookup_total_alter. case_decide as Hd; [done|].
    assert (cb1 !!! nxt = inhabitant) as Hdef.
    { rewrite list_lookup_total_alt, lookup_ge_None_2; [done|]. lia. }
    unfold b, buffer in E. fold cb1 in E. by rewrite Hdef in E.
  - intros E. rewrite E. cbn. done.
  - intros E1' E2' E3'.
    destruct (Z.eqb_spec (tb_state b) TBS_RUN); [done|].
    destruct (Z.eqb_spec (tb_state b) TBS_RELOAD); [done|].
    destruct (Z.eqb_spec (tb_state b) TBS_LOAD); [done|]. done.
Qed.


(** The state the interrupt leaves on moving to the next buffer. *)
Lemma isr_exhausted_state (s : machine) :
  remaining (m_isr s) = 1 -> side (m_isr s) = 0 -> left (m_isr s) = 1 ->
  read_bit_string (bit_string (m_isr s)) (circular_buffer s) = 0 ->
  let s1 := exec retire_current s in
  let nxt := tb_next (buffer (current (m_isr s)) s) in
  let b := buffer nxt s1 in
  let buffers := selected_buffers nxt b (circular_buffer s1) in
  let src := selected_source nxt b in
  exec TIMER2_COMPA_vect s
  = set_circular_buffer buffers
      (set_isr
         (IsrState nxt (output_pin (m_isr s)) 1 TICKS_FOR_ONE
            TICKS_FOR_ONE 1 (read_bit_string (BitPointer src 0) buffers)
            (BitPointer src 1) (to_int (statistic_packets (m_isr s) + 1)))
         (set_pins (<[output_pin (m_isr s) := LOW]> (pins s)) s)).
Proof.
  intros Hrem Hside Hleft Hend s1 nxt b buffers src.
  rewrite (isr_exhausted s Hrem Hside Hleft Hend).
  set (t := set_isr _ (set_pins _ s)).
  assert (Hcur : current (m_isr t) = current (m_isr s)) by done.
  assert (Hbufs : circular_buffer t = circular_buffer s) by done.
  pose proof (retire_current_buffers t s Hcur Hbufs) as Hret.
  assert (E1 : buffer (current (m_isr t)) t = buffer (current (m_isr s)) s)
    by (unfold buffer; by rewrite Hcur, Hbufs).
  assert (E2 : forall i, buffer i (exec retire_current t) = buffer i (exec retire_current s))
    by (intros i; unfold buffer; by rewrite Hret).
  pose proof (next_buffer_spec t) as Hspec. cbv zeta in Hspec.
  rewrite E1, E2, Hret in Hspec. fold s1 nxt in Hspec. fold b in Hspec.
  fold buffers src in Hspec.
  rewrite Hspec, exec_modify_isr.
  unfold t. by destruct s as [? ? ? [] ? ? ? ? ? ? ? ?].
Qed.

(** The new bit stream has begun: its first run goes out. *)
Lemma isr_exhausted_start (s : machine) :
  remaining (m_isr s) = 1 -> side (m_isr s) = 0 -> left (m_isr s) = 1 ->
  read_bit_string (bit_string (m_isr s)) (circular_buffer s) = 0 ->
  let s' := exec TIMER2_COMPA_vect s in
  sending_bits s' 1 (one_of true) (source_cells s' !!! 0%nat)
    (half_bit_ticks (one_of true)) 1 (source_cells s') LOW.
Proof.
  intros Hrem Hside Hleft Hend s'. unfold s'.
  rewrite (isr_exhausted_state s Hrem Hside Hleft Hend).
  unfold sending_bits, signal_level, source_cells, read_bit_string, buffer.
  cbn [m_isr set_isr set_circular_buffer circular_buffer side one left remaining reload
       bit_string bp_source bp_offset pins set_pins output_pin].
  rewrite lookup_insert_eq. repeat split.
  by destruct (selected_source _ _).
Qed.


Lemma outputs_cells (s : machine) (body tail : list Z) :
  body <> [] -> Forall (fun c => 1 <= c <= 255) body ->
  source_cells s = body ++ 0 :: tail ->
  sending_bits s 1 (one_of true) (source_cells s !!! 0%nat)
    (half_bit_ticks (one_of true)) 1 (source_cells s) LOW ->
  outputs (decode_cells true (body ++ 0 :: tail)) s.
Proof.
  intros Hne Hall Hcells H. unfold outputs. rewrite decode_expand by done.
  destruct body as [|c rest]; [done|].
  rewrite Hcells in H. change (((c :: rest) ++ 0 :: tail) !!! 0%nat) with c in H.
  apply (signal_cells (c :: rest) s true c rest 1 ((c :: rest) ++ 0 :: tail));
    try done.
  intros i v Hi. cbn. by apply lookup_app_l_Some.
Qed.

(** C3: when the interrupt has used up the current bit stream (the
    tick count, the half-bit and the run are all at their end and the
    next cell is the zero terminator) it moves onto the next buffer of
    the ring and starts the first bit of a new stream: the pin is low,
    one is set and reload and remaining are TICKS_FOR_ONE.  On the
    state found in the buffer: RUN selects that buffer's own bits,
    which go out on the pin when its cells are well formed; RELOAD
    puts out the idle packet and sets the state to LOAD; LOAD puts out
    the filler (a single 1 bit) when the pending list is not empty and
    the idle packet when it is; any other state puts out the idle
    packet. *)
Theorem isr_selects_next_bit_stream (s : machine) :
  remaining (m_isr s) = 1 -> side (m_isr s) = 0 -> left (m_isr s) = 1 ->
  read_bit_string (bit_string (m_isr s)) (circular_buffer s) = 0 ->
  let nxt := tb_next (buffer (current (m_isr s)) s) in
  let b := buffer nxt (exec retire_current s) in
  let s' := exec TIMER2_COMPA_vect s in
  let idle := dcc_frame 15 [0xFF; 0x00; 0xFF] 0 in
  current (m_isr s') = nxt
  /\ (nxt <> current (m_isr s) -> b = buffer nxt s)
  /\ (side (m_isr s') = 1 /\ one (m_isr s') = 1
      /\ reload (m_isr s') = TICKS_FOR_ONE /\ remaining (m_isr s') = TICKS_FOR_ONE
      /\ pins s' !! output_pin (m_isr s') = Some LOW)
  /\ (tb_state b = TBS_RUN ->
      bit_string (m_isr s') = BitPointer (BufferBits nxt) 1
      /\ left (m_isr s') = tb_bits b !!! 0%nat
      /\ buffer nxt s' = b
      /\ forall body tail,
           tb_bits b = body ++ 0 :: tail -> body <> [] ->
           Forall (fun c => 1 <= c <= 255) body ->
           outputs (decode_cells true (tb_bits b)) s')
  /\ (tb_state b = TBS_RELOAD ->
      bit_string (m_isr s') = BitPointer IdlePacket 1
      /\ left (m_isr s') = DCC_SHORT_PREAMBLE
      /\ buffer nxt s' = set_tb_state TBS_LOAD b
      /\ outputs idle s')
  /\ (tb_state b = TBS_LOAD ->
      bit_string (m_isr s')
        = BitPointer (match tb_pending b with [] => IdlePacket | _ :: _ => FillerData end) 1
      /\ left (m_isr s')
         = match tb_pending b with [] => DCC_SHORT_PREAMBLE | _ :: _ => 1 end
      /\ buffer nxt s' = b
      /\ outputs (match tb_pending b with [] => idle | _ :: _ => [true] end) s')
  /\ (tb_state b <> TBS_RUN -> tb_state b <> TBS_RELOAD -> tb_state b <> TBS_LOAD ->
      bit_string (m_isr s') = BitPointer IdlePacket 1
      /\ left (m_isr s') = DCC_SHORT_PREAMBLE
      /\ buffer nxt s' = b
      /\ outputs idle s').
Proof.
  intros Hrem Hside Hleft Hend nxt b s' idle.
  destruct (isr_next_bit_stream s Hrem Hside Hleft Hend)
    as (Hcur & Hother & Hrun & Hreload & Hload & Hrest).
  fold nxt b s' in Hcur, Hother, Hrun, Hreload, Hload, Hrest.
  pose proof (isr_exhausted_start s Hrem Hside Hleft Hend) as Hstart.
  fold s' in Hstart.
  assert (Hidle : bp_source (bit_string (m_isr s')) = IdlePacket -> outputs idle s').
  { intros Hsrc.
    apply (outputs_cells s' [15; 1; 8; 10; 9] []);
      [done|repeat (apply Forall_cons_2; [lia|]); apply Forall_nil_2| |exact Hstart].
    unfold source_cells. by rewrite Hsrc. }
  assert (Hfiller : bp_source (bit_string (m_isr s')) = FillerData -> outputs [true] s').
  { intros Hsrc.
    apply (outputs_cells s' [1] []);
      [done|repeat (apply Forall_cons_2; [lia|]); apply Forall_nil_2| |exact Hstart].
    unfold source_cells. by rewrite Hsrc. }
  assert (Hfirst : left (m_isr s') = source_cells s' !!! 0%nat)
    by (by destruct Hstart as (_ & _ & -> & _)).
  split; [exact Hcur|]. split; [exact Hother|].
  split.
  { destruct Hstart as (H1 & H2 & _ & H4 & H5 & _ & _ & H8). by repeat split. }
  split; [|split; [|split]].
  - intros E. destruct (Hrun E) as (Hbs & Hl & Hbuf).
    split; [exact Hbs|]. split; [exact Hl|]. split; [exact Hbuf|].
    intros body tail Hbits Hne Hall. rewrite Hbits.
    apply outputs_cells; [done|done| |exact Hstart].
    unfold source_cells. rewrite Hbs. cbn [bp_source]. by rewrite Hbuf.
  - intros E. destruct (Hreload E) as (Hbs & Hl & Hbuf).
    split; [exact Hbs|]. split; [exact Hl|]. split; [exact Hbuf|].
    apply Hidle. by rewrite Hbs.
  - intros E. destruct (Hload E) as (Hbs & Hbuf).
    split; [exact Hbs|]. split; [|split; [exact Hbuf|]].
    + rewrite Hfirst. unfold source_cells. rewrite Hbs. cbn [bp_source].
      by destruct (tb_pending b).
    + destruct (tb_pending b); [apply Hidle|apply Hfiller]; by rewrite Hbs.
  - intros E1 E2 E3. destruct (Hrest E1 E2 E3) as (Hbs & Hl & Hbuf).
    split; [exact Hbs|]. split; [exact Hl|]. split; [exact Hbuf|].
    apply Hidle. by rewrite Hbs.
Qed.

Lemma isr_selects_next_bit_stream_witness :
  let s := end_of_idle_packet in
  (remaining (m_isr s) = 1 /\ side (m_isr s) = 0 /\ left (m_isr s) = 1
   /\ read_bit_string (bit_string (m_isr s)) (circular_buffer s) = 0)
  /\ current (m_isr (exec TIMER2_COMPA_vect s)) = 1%nat
  /\ bit_string (m_isr (exec TIMER2_COMPA_vect s)) = BitPointer IdlePacket 1
  /\ tb_state (buffer 1 (exec TIMER2_COMPA_vect s)) = TBS_LOAD
  /\ reload (m_isr (exec TIMER2_COMPA_vect s)) = TICKS_FOR_ONE
  /\ outputs (dcc_frame 15 [0xFF; 0x00; 0xFF] 0) (exec TIMER2_COMPA_vect s).
Proof.
  assert (H : remaining (m_isr end_of_idle_packet) = 1
              /\ side (m_isr end_of_idle_packet) = 0
              /\ left (m_isr end_of_idle_packet) = 1
              /\ read_bit_string (bit_string (m_isr end_of_idle_packet))
                   (circular_buffer end_of_idle_packet) = 0)
    by (repeat split; reflexivity).
  split; [exact H|].
  destruct H as (H1 & H2 & H3 & H4).
  destruct (isr_selects_next_bit_stream end_of_idle_packet H1 H2 H3 H4)
    as (Hcur & _ & (_ & _ & Hrl & _) & _ & Hreload & _).
  split; [exact Hcur|].
  destruct (Hreload eq_refl) as (Hbits & _ & Hbuf & Hout).
  split; [exact Hbits|].
  split; [exact (f_equal tb_state Hbuf)|].
  split; [exact Hrl|exact Hout].
Defined.

(** What the two fixed bit streams stand for: the idle packet frame and
    a single one bit. *)
Lemma idle_and_filler_bits :
  decode_cells true dcc_idle_packet = dcc_frame 15 [0xFF; 0x00; 0xFF] 0
  /\ decode_cells true dcc_filler_data = [true].
Proof. split; reflexivity. Qed.

(** ** Power selection *)

Lemma scan_line_P_not_off (s : machine) (v : Z) :
  v = 1 \/ v = 2 ->
  global_power_state s <> GLOBAL_POWER_OFF ->
  scan_line_P [v] s = (tt, exec (report_error POWER_NOT_OFF (char_code "P")) s).
Proof.
  intros Hv Hoff. unfold scan_line_P.
  destruct Hv as [-> | ->]; cbn -[report_error]; unfold gets, mbind, M_bind;
    rewrite bool_decide_eq_false_2 by done; done.
Qed.


Lemma queue_output_frame (text : string) (s : machine) :
  exists o, exec (queue_output text) s = set_output o s.
Proof.
  unfold exec, queue_output. destruct (queue_chars _ _) as [r o]. by exists o.
Qed.

Lemma send_reply_frame (text : string) (target : Z) (s : machine) :
  exists e o, exec (send_reply text target) s = set_errors e (set_output o s).
Proof.
  unfold send_reply. rewrite exec_bind.
  destruct (queue_output_frame text s) as [o ->].
  destruct (eval (queue_output text) s).
  - exists (m_errors s), o. by destruct s.
  - by exists (report_error_in COMMAND_REPORT_FAIL target (m_errors s)), o.
Qed.

Lemma scan_line_P_never_direct (s : machine) (arg : list Z) :
  global_power_state s <> GLOBAL_POWER_OFF ->
  global_power_state (exec (scan_line_P arg) s) = global_power_state s
  \/ global_power_state (exec (scan_line_P arg) s) = GLOBAL_POWER_OFF.
Proof.
  intros Hoff. unfold scan_line_P.
  destruct (length arg =? 1)%nat; cbn -[report_error]; [|by left].
  destruct (arg_at arg 0 =? 0).
  { right. rewrite exec_bind.
    destruct (send_reply_frame (reply_1 "P" 0) (char_code "P") (exec power_off_tracks s))
      as (e & o & ->). done. }
  destruct (arg_at arg 0 =? 1).
  { left. unfold exec, gets, mbind, M_bind.
    rewrite bool_decide_eq_false_2 by done; done. }
  destruct (arg_at arg 0 =? 2).
  { left. unfold exec, gets, mbind, M_bind.
    rewrite bool_decide_eq_false_2 by done; done. }
  by left.
Qed.

(** C4: a request to turn on the main track ([P 1]) or the programming
    track ([P 2]) made while the power state is not OFF only reports
    POWER_NOT_OFF: the power state and every output pin stay as they
    were; and no power request takes the state from MAIN to PROG or
    from PROG to MAIN. *)
Theorem power_on_needs_power_off (s : machine) (mode : Z) :
  mode = 1 \/ mode = 2 ->
  global_power_state s <> GLOBAL_POWER_OFF ->
  let s' := exec (scan_line_P [mode]) s in
  s' = exec (report_error POWER_NOT_OFF (char_code "P")) s
  /\ global_power_state s' = global_power_state s
  /\ pins s' = pins s
  /\ (errors_pending (m_errors s) < ERROR_QUEUE_SIZE ->
      (Z.to_nat (error_in (m_errors s)) < length (error_queue (m_errors s)))%nat ->
      error_queue (m_errors s') !! Z.to_nat (error_in (m_errors s))
      = Some (QueuedError POWER_NOT_OFF (char_code "P")))
  /\ (forall arg, global_power_state s = GLOBAL_POWER_MAIN ->
        global_power_state (exec (scan_line_P arg) s) <> GLOBAL_POWER_PROG)
  /\ (forall arg, global_power_state s = GLOBAL_POWER_PROG ->
        global_power_state (exec (scan_line_P arg) s) <> GLOBAL_POWER_MAIN).
Proof.
  intros Hmode Hoff s'.
  assert (Hs' : s' = exec (report_error POWER_NOT_OFF (char_code "P")) s).
  { unfold s', exec at 1. by rewrite scan_line_P_not_off. }
  split; [exact Hs'|]. rewrite Hs', exec_report_error.
  split; [done|]. split; [done|]. split.
  - intros Hroom Hin. cbn [m_errors set_errors]. unfold report_error_in.
    rewrite (proj2 (Z.ltb_lt _ _) Hroom). cbn [error_queue].
    by apply list_lookup_insert_eq.
  - split; intros arg Hs;
      destruct (scan_line_P_never_direct s arg Hoff) as [E | E];
      rewrite E; rewrite ?Hs; done.
Qed.

Lemma power_on_needs_power_off_witness :
  let s := exec (scan_line_P [1]) setup in
  (2 = 1 \/ 2 = 2) /\ global_power_state s <> GLOBAL_POWER_OFF
  /\ global_power_state (exec (scan_line_P [2]) s) = GLOBAL_POWER_MAIN
  /\ pins (exec (scan_line_P [2]) s) = pins s.
Proof.
  assert (H1 : 2 = 1 \/ 2 = 2) by (right; reflexivity).
  assert (H2 : global_power_state (exec (scan_line_P [1]) setup) <> GLOBAL_POWER_OFF)
    by (vm_compute; discriminate).
  split; [exact H1|]. split; [exact H2|].
  destruct (power_on_needs_power_off (exec (scan_line_P [1]) setup) 2 H1 H2)
    as (_ & Hstate & Hpins & _).
  split; [exact Hstate|exact Hpins].
Defined.

(** ** Current monitoring *)

Lemma compound_step (amps x : Z) :
  is_reading amps -> is_reading x ->
  Z.shiftr (to_int (amps + x)) 1 = (amps + x) `div` 2
  /\ is_reading ((amps + x) `div` 2).
Proof.
  unfold is_reading. intros Ha Hx.
  rewrite to_int_small by (unfold is_int; lia).
  rewrite Z.shiftr_div_pow2 by lia. change (2 ^ 1) with 2.
  split; [done|]. split.
  - apply Z.div_pos; lia.
  - apply Z.div_le_upper_bound; lia.
Qed.

Lemma compound_spec (values : list Z) (amps : Z) :
  is_reading amps -> Forall is_reading values ->
  let values' := (compound amps values).1 in
  length values' = length values
  /\ Forall is_reading values'
  /\ is_reading (compound amps values).2
  /\ (values <> [] -> values' !!! 0%nat = (amps + values !!! 0%nat) `div` 2)
  /\ (forall i, (S i < length values)%nat ->
        values' !!! S i = (values' !!! i + values !!! S i) `div` 2).
Proof.
  intros Ha Hv. cbv zeta. revert amps Ha.
  induction Hv as [|x rest Hx Hrest IH]; intros amps Ha.
  - cbn. split; [done|]. split; [done|]. split; [done|]. split; [done|].
    intros i Hi. lia.
  - cbn [compound].
    destruct (compound_step amps x Ha Hx) as [-> Ha'].
    specialize (IH _ Ha').
    destruct (compound ((amps + x) `div` 2) rest) as [rest' lst] eqn:E.
    cbn [fst snd] in *. destruct IH as (Hlen & Hall & Hlast & Hhead & Htail).
    split; [cbn; by rewrite Hlen|]. split; [by constructor|]. split; [done|].
    split; [done|].
    intros [|i] Hi; cbn [length] in Hi.
    + change ((((amps + x) `div` 2) :: rest') !!! 1%nat) with (rest' !!! 0%nat).
      change ((x :: rest) !!! 1%nat) with (rest !!! 0%nat).
      change ((((amps + x) `div` 2) :: rest') !!! 0%nat) with ((amps + x) `div` 2).
      apply Hhead. destruct rest; [cbn in Hi; lia|done].
    + change ((((amps + x) `div` 2) :: rest') !!! S (S i)) with (rest' !!! S i).
      change ((x :: rest) !!! S (S i)) with (rest !!! S i).
      change ((((amps + x) `div` 2) :: rest') !!! S i) with (rest' !!! i).
      apply Htail. lia.
Qed.

Lemma compound_last (values : list Z) (amps : Z) :
  values <> [] ->
  (compound amps values).2 = (compound amps values).1 !!! (length values - 1)%nat.
Proof.
  revert amps. induction values as [|x rest IH]; intros amps Hne; [done|].
  cbn [compound]. specialize (IH (Z.shiftr (to_int (amps + x)) 1)).
  destruct (compound (Z.shiftr (to_int (amps + x)) 1) rest) as [rest' lst] eqn:E.
  cbn [fst snd length] in *.
  destruct rest as [|y rest].
  - cbn in E. by injection E as <- <-.
  - rewrite IH by done. cbn [length].
    replace (S (S (length rest)) - 1)%nat with (S (length rest)) by lia.
    replace (S (length rest) - 1)%nat with (length rest) by lia. done.
Qed.

Lemma compound_length (values : list Z) (amps : Z) :
  length (compound amps values).1 = length values.
Proof.
  revert amps. induction values as [|x rest IH]; intros amps; [done|].
  cbn [compound]. specialize (IH (Z.shiftr (to_int (amps + x)) 1)).
  destruct (compound _ rest). cbn [fst length] in *. by rewrite IH.
Qed.

Lemma power_off_tracks_run (s : machine) :
  power_off_tracks s
  = (negb (bool_decide (global_power_state s = GLOBAL_POWER_OFF)),
     set_global_power_state GLOBAL_POWER_OFF
       (set_pins (<[PROG_TRACK_ENABLE := LOW]> (<[MAIN_TRACK_ENABLE := LOW]> (pins s))) s)).
Proof. reflexivity. Qed.

Lemma queue_output_run (text : string) (s : machine) :
  queue_output text s
  = ((queue_chars (String.list_ascii_of_string text) (m_output s)).1,
     set_output (queue_chars (String.list_ascii_of_string text) (m_output s)).2 s).
Proof. unfold queue_output. by destruct (queue_chars _ _). Qed.


(** The reaction to a spike or an overload with the power off already
    and with a track powered. *)
Lemma cut_power_when_off (err amps : Z) (s : machine) :
  global_power_state s = GLOBAL_POWER_OFF ->
  exec (cut_power err amps) s
  = set_global_power_state GLOBAL_POWER_OFF
      (set_pins (<[PROG_TRACK_ENABLE := LOW]> (<[MAIN_TRACK_ENABLE := LOW]> (pins s))) s).
Proof.
  intros E. unfold cut_power.
  rewrite exec_bind. unfold eval at 1, exec at 2. rewrite power_off_tracks_run.
  cbn [fst snd]. rewrite bool_decide_eq_true_2 by done. cbn [negb].
  by rewrite exec_ret.
Qed.

Lemma cut_power_when_on (err amps : Z) (s : machine) :
  global_power_state s <> GLOBAL_POWER_OFF ->
  exists (o : output_state) (sent : bool),
    exec (cut_power err amps) s
    = set_load_compound_value (replicate (length (load_compound_value s)) 0)
        (set_errors
           (if sent then report_error_in err amps (m_errors s)
            else report_error_in COMMAND_REPORT_FAIL (Z.of_nat (nat_of_ascii "P"%char))
                   (report_error_in err amps (m_errors s)))
           (set_output o
              (set_global_power_state GLOBAL_POWER_OFF
                 (set_pins (<[PROG_TRACK_ENABLE := LOW]>
                              (<[MAIN_TRACK_ENABLE := LOW]> (pins s))) s)))).
Proof.
  intros E. unfold cut_power.
  rewrite exec_bind. unfold eval at 1, exec at 2. rewrite power_off_tracks_run.
  cbn [fst snd]. rewrite bool_decide_eq_false_2 by done. cbn [negb].
  rewrite exec_bind, exec_report_error.
  set (s1 := set_errors _ _).
  rewrite exec_bind. unfold eval at 1, exec at 2. rewrite queue_output_run.
  cbn [fst snd]. rewrite exec_bind.
  destruct (queue_chars _ _) as [sent o]. cbn [fst snd].
  exists o, sent. destruct sent.
  - rewrite exec_ret, exec_modify. unfold s1. by destruct s.
  - rewrite exec_report_error, exec_modify. unfold s1. by destruct s.
Qed.

Lemma cut_power_effect (err amps : Z) (s : machine) :
  let s' := exec (cut_power err amps) s in
  global_power_state s' = GLOBAL_POWER_OFF
  /\ load_confirmed s' = load_confirmed s
  /\ m_adc s' = m_adc s
  /\ (global_power_state s = GLOBAL_POWER_OFF ->
      load_compound_value s' = load_compound_value s
      /\ m_errors s' = m_errors s)
  /\ (global_power_state s <> GLOBAL_POWER_OFF ->
      load_compound_value s' = replicate (length (load_compound_value s)) 0
      /\ (m_errors s' = report_error_in err amps (m_errors s)
          \/ m_errors s'
             = report_error_in COMMAND_REPORT_FAIL (Z.of_nat (nat_of_ascii "P"%char))
                 (report_error_in err amps (m_errors s)))).
Proof.
  intros s'. unfold s'.
  destruct (decide (global_power_state s = GLOBAL_POWER_OFF)) as [E|E].
  - rewrite cut_power_when_off by done.
    split; [done|]. split; [done|]. split; [done|]. split; [done|].
    intros H. by destruct H.
  - destruct (cut_power_when_on err amps s E) as (o & sent & ->).
    split; [done|]. split; [done|]. split; [done|]. split; [done|].
    intros _. split; [done|].
    cbn [m_errors set_load_compound_value set_errors]. destruct sent; auto.
Qed.

(** C6: on every sample monitor_current_load first runs the reading
    through the ten compounded averages, acc[0] <- (sample + acc[0]) / 2
    and then acc[i+1] <- (acc[i] + acc[i+1]) / 2 with the new acc[i]
    (readings and averages are between 0 and 1023, so the shift is this
    division), and tests the new values.  When neither acc[1] >
    INSTANT_CURRENT_LIMIT nor acc[9] > AVERAGE_CURRENT_LIMIT the new
    values are what it leaves, and load_confirmed is set exactly when
    acc[2] - acc[9] > MINIMUM_DELTA_AMPS and keeps its value otherwise.
    When one of the limits is passed the power is off afterwards and
    load_confirmed is left alone: with the power off already the new
    values stay and no error is queued; with a track powered the error
    POWER_SPIKE or POWER_OVERLOAD is queued with the new acc[9] as its
    argument (followed by COMMAND_REPORT_FAIL when the report for the
    host finds no room) and the averages are then set back to zero. *)
Theorem monitor_current_load_sample (s : machine) (amps : Z) :
  is_reading amps ->
  length (load_compound_value s) = Z.to_nat COMPOUNDED_VALUES ->
  Forall is_reading (load_compound_value s) ->
  let acc := load_compound_value s in
  let acc' := (compound amps acc).1 in
  let s' := exec (monitor_current_load amps) s in
  acc' !!! 0%nat = (amps + acc !!! 0%nat) `div` 2
  /\ (forall i, (i < 9)%nat -> acc' !!! S i = (acc' !!! i + acc !!! S i) `div` 2)
  /\ length acc' = Z.to_nat COMPOUNDED_VALUES
  /\ Forall is_reading acc'
  /\ (acc' !!! 1%nat <= INSTANT_CURRENT_LIMIT ->
      acc' !!! 9%nat <= AVERAGE_CURRENT_LIMIT ->
      load_compound_value s' = acc'
      /\ load_confirmed s'
         = load_confirmed s
           || bool_decide (MINIMUM_DELTA_AMPS < acc' !!! 2%nat - acc' !!! 9%nat))
  /\ (INSTANT_CURRENT_LIMIT < acc' !!! 1%nat
      \/ AVERAGE_CURRENT_LIMIT < acc' !!! 9%nat ->
      let err := if INSTANT_CURRENT_LIMIT <? acc' !!! 1%nat
                 then POWER_SPIKE else POWER_OVERLOAD in
      global_power_state s' = GLOBAL_POWER_OFF
      /\ load_confirmed s' = load_confirmed s
      /\ m_adc s' = m_adc s
      /\ (global_power_state s = GLOBAL_POWER_OFF ->
          load_compound_value s' = acc' /\ m_errors s' = m_errors s)
      /\ (global_power_state s <> GLOBAL_POWER_OFF ->
          load_compound_value s' = replicate (Z.to_nat COMPOUNDED_VALUES) 0
          /\ (m_errors s' = report_error_in err (acc' !!! 9%nat) (m_errors s)
              \/ m_errors s'
                 = report_error_in COMMAND_REPORT_FAIL (Z.of_nat (nat_of_ascii "P"%char))
                     (report_error_in err (acc' !!! 9%nat) (m_errors s))))).
Proof.
  intros Ha Hlen Hacc acc acc' s'.
  change (Z.to_nat COMPOUNDED_VALUES) with 10%nat in *.
  destruct (compound_spec acc amps Ha Hacc) as (Hlen' & Hacc' & _ & Hhead & Htail).
  fold acc' in Hlen', Hacc', Hhead, Htail.
  assert (Hne : acc <> []) by (intros E; unfold acc in E; by rewrite E in Hlen).
  pose proof (compound_last acc amps Hne) as Hlast.
  replace (length acc - 1)%nat with 9%nat in Hlast by (unfold acc; lia).
  fold acc' in Hlast.
  split; [by apply Hhead|].
  split; [intros i Hi; apply Htail; unfold acc; rewrite Hlen; lia|].
  split; [by rewrite Hlen'|]. split; [done|].
  assert (Hv2 : is_reading (acc' !!! 2%nat)).
  { rewrite Forall_forall in Hacc'. apply Hacc'. apply list_elem_of_lookup_total_2.
    rewrite Hlen'. unfold acc. rewrite Hlen. lia. }
  assert (Hv9 : is_reading (acc' !!! 9%nat)).
  { rewrite Forall_forall in Hacc'. apply Hacc'. apply list_elem_of_lookup_total_2.
    rewrite Hlen'. unfold acc. rewrite Hlen. lia. }
  assert (Hrun : s' = exec
            (if INSTANT_CURRENT_LIMIT <? acc' !!! 1%nat then
               cut_power POWER_SPIKE (acc' !!! 9%nat)
             else if AVERAGE_CURRENT_LIMIT <? acc' !!! 9%nat then
               cut_power POWER_OVERLOAD (acc' !!! 9%nat)
             else
               (if MINIMUM_DELTA_AMPS <? acc' !!! 2%nat - acc' !!! 9%nat
                then modify (set_load_confirmed true) else mret tt);;
               RESTART_ANALOGUE_READ)
            (set_load_compound_value acc' s)).
  { unfold s', monitor_current_load.
    rewrite exec_bind, eval_gets, exec_gets. fold acc.
    revert Hlast Hv2 Hv9. unfold acc'.
    destruct (compound amps acc) as [v last]. cbn [fst snd]. intros -> Hv2 Hv9.
    rewrite exec_bind, exec_modify.
    change (Z.to_nat (COMPOUNDED_VALUES - 1)) with 9%nat.
    unfold SHORT_AVERAGE_VALUE.
    by rewrite to_int_small by (unfold is_int, is_reading in *; lia). }
  split.
  - intros Hspike Hover. rewrite Hrun.
    rewrite (proj2 (Z.ltb_ge _ _) Hspike), (proj2 (Z.ltb_ge _ _) Hover).
    rewrite exec_bind. unfold RESTART_ANALOGUE_READ. rewrite exec_modify.
    case_bool_decide as Hd.
    + rewrite (proj2 (Z.ltb_lt _ _) Hd), exec_modify. cbn. by rewrite orb_true_r.
    + rewrite (proj2 (Z.ltb_ge _ _)) by lia. rewrite exec_ret. cbn. by rewrite orb_false_r.
  - intros Htrip err.
    assert (Hcut : s' = exec (cut_power err (acc' !!! 9%nat))
                          (set_load_compound_value acc' s)).
    { rewrite Hrun. unfold err.
      destruct (Z.ltb_spec INSTANT_CURRENT_LIMIT (acc' !!! 1%nat)) as [H1|H1]; [done|].
      destruct Htrip as [?|H9]; [lia|]. by rewrite (proj2 (Z.ltb_lt _ _) H9). }
    destruct (cut_power_effect err (acc' !!! 9%nat) (set_load_compound_value acc' s))
      as (Hoff & Hconf & Hadc & Hwas_off & Hwas_on).
    rewrite <- Hcut in Hoff, Hconf, Hadc, Hwas_off, Hwas_on.
    cbn [global_power_state load_confirmed m_adc m_errors load_compound_value
         set_load_compound_value] in Hoff, Hconf, Hadc, Hwas_off, Hwas_on.
    rewrite Hlen' in Hwas_on. unfold acc in Hwas_on. rewrite Hlen in Hwas_on.
    done.
Qed.

Lemma monitor_current_load_sample_witness :
  (is_reading 400
   /\ length (load_compound_value setup) = Z.to_nat COMPOUNDED_VALUES
   /\ Forall is_reading (load_compound_value setup))
  /\ load_compound_value (exec (monitor_current_load 400) setup)
     = [200; 100; 50; 25; 12; 6; 3; 1; 0; 0]
  /\ load_confirmed (exec (monitor_current_load 400) setup) = true.
Proof.
  assert (H1 : is_reading 400) by (unfold is_reading; lia).
  assert (H2 : length (load_compound_value setup) = Z.to_nat COMPOUNDED_VALUES)
    by reflexivity.
  assert (H3 : Forall is_reading (load_compound_value setup))
    by (repeat constructor; unfold is_reading; lia).
  split; [auto|].
  destruct (monitor_current_load_sample setup 400 H1 H2 H3)
    as (_ & _ & _ & _ & Hnom & _).
  destruct (Hnom ltac:(vm_compute; discriminate) ltac:(vm_compute; discriminate))
    as [Hacc Hconf].
  split; [exact Hacc|exact Hconf].
Defined.

(** ** Buffer management *)

Lemma run_lengths_cons (x : bool) (rest : list bool) :
  run_lengths (x :: rest)
  = match head rest, run_lengths rest with
    | Some y, n :: ns => if Bool.eqb x y then S n :: ns else 1%nat :: n :: ns
    | _, _ => [1%nat]
    end.
Proof. done. Qed.

Lemma run_lengths_nil (bits : list bool) : run_lengths bits = [] -> bits = [].
Proof.
  destruct bits as [|x rest]; [done|]. rewrite run_lengths_cons.
  destruct (head rest), (run_lengths rest); try done. by destruct (Bool.eqb x b).
Qed.

Lemma length_run_lengths (bits : list bool) : length (run_lengths bits) = runs bits.
Proof.
  induction bits as [|x rest IH]; [done|].
  rewrite run_lengths_cons. destruct rest as [|y rest]; [done|].
  change (runs (x :: y :: rest))
    with (if Bool.eqb x y then runs (y :: rest) else S (runs (y :: rest))).
  rewrite <- IH. cbn [head].
  destruct (run_lengths (y :: rest)) as [|n ns] eqn:E.
  - by apply run_lengths_nil in E.
  - by destruct (Bool.eqb x y).
Qed.



Lemma release_all (l : list pending_packet) (s : machine) :
  release_pending_recs l false s
  = ([], set_free_pending_packets (rev l ++ free_pending_packets s) s).
Proof.
  revert s. induction l as [|p l IH]; intros s.
  - cbn. by destruct s.
  - cbn [release_pending_recs]. rewrite run_bind, exec_modify, IH.
    cbn [free_pending_packets set_free_pending_packets rev].
    by rewrite <- app_assoc.
Qed.

Lemma exec_release_all (l : list pending_packet) (s : machine) :
  exec (release_pending_recs l false) s
  = set_free_pending_packets (rev l ++ free_pending_packets s) s.
Proof. unfold exec. by rewrite release_all. Qed.

Lemma eval_release_all (l : list pending_packet) (s : machine) :
  eval (release_pending_recs l false) s = [].
Proof. unfold eval. by rewrite release_all. Qed.

Lemma release_one (p : pending_packet) (l : list pending_packet) (s : machine) :
  release_pending_recs (p :: l) true s
  = (l, set_free_pending_packets (p :: free_pending_packets s) s).
Proof. done. Qed.

Lemma buffer_alter (i j : nat) (f : trans_buffer -> trans_buffer) (s : machine) :
  buffer j (set_circular_buffer (alter f i (circular_buffer s)) s)
  = if decide (i = j /\ (i < length (circular_buffer s))%nat)
    then f (buffer i s) else buffer j s.
Proof. unfold buffer. cbn [circular_buffer set_circular_buffer]. apply list_lookup_total_alter. Qed.




(** ** Function cache *)

Lemma touch_cache_miss (target : Z) (rest : list func_cache) (lru : func_cache) :
  Forall (fun r => fc_target r <> target) (rest ++ [lru]) ->
  touch_cache target (rest ++ [lru])
  = FuncCache target (replicate (Z.to_nat FUNCTION_BIT_ARRAY) 0) :: rest.
Proof.
  intros Habsent. unfold touch_cache.
  assert (list_find (fun r => fc_target r = target) (rest ++ [lru]) = None) as ->
    by (by apply list_find_None).
  rewrite last_snoc, length_app. cbn [length].
  replace (length rest + 1 - 1)%nat with (length rest) by lia.
  by rewrite take_app_length.
Qed.

Lemma function_cache_set_errors (e : error_state) (s : machine) :
  function_cache (set_errors e s) = function_cache s.
Proof. done. Qed.

Lemma find_func_cache_cache (target : Z) (s : machine) :
  function_cache (exec (find_func_cache target) s)
  = touch_cache target (function_cache s).
Proof. unfold find_func_cache. msimpl. rewrite !exec_ASSERT. reflexivity. Qed.

Lemma function_index (func : Z) :
  0 <= func <= MAX_FUNCTION_NUMBER ->
  (Z.to_nat (Z.shiftr (func - MIN_FUNCTION_NUMBER) 3) < Z.to_nat FUNCTION_BIT_ARRAY)%nat.
Proof.
  unfold MAX_FUNCTION_NUMBER, MIN_FUNCTION_NUMBER. intros H.
  change (Z.to_nat FUNCTION_BIT_ARRAY) with 4%nat.
  rewrite Z.sub_0_r, Z.shiftr_div_pow2 by lia. change (2 ^ 3) with 8.
  assert (0 <= func `div` 8 < 4); [|lia].
  split; [apply Z.div_pos; lia|apply Z.div_lt_upper_bound; lia].
Qed.

Lemma update_function_unseen_off (s : machine) (target func : Z)
    (rest : list func_cache) (lru : func_cache) :
  function_cache s = rest ++ [lru] ->
  Forall (fun r => fc_target r <> target) (function_cache s) ->
  0 <= func <= MAX_FUNCTION_NUMBER ->
  eval (update_function target func false) s = false
  /\ function_cache (exec (update_function target func false) s)
     = FuncCache target (replicate (Z.to_nat FUNCTION_BIT_ARRAY) 0) :: rest.
Proof.
  intros Hcache Habsent Hfunc. unfold update_function.
  rewrite !eval_bind, !exec_bind, eval_gets, exec_gets.
  set (s1 := exec (ASSERT _ 957) s).
  assert (Hs1 : function_cache s1 = function_cache s)
    by (unfold s1; by rewrite exec_ASSERT).
  set (s2 := exec (find_func_cache target) s1).
  assert (Hs2 : function_cache s2
                = FuncCache target (replicate (Z.to_nat FUNCTION_BIT_ARRAY) 0) :: rest).
  { unfold s2. rewrite find_func_cache_cache, Hs1, Hcache.
    apply touch_cache_miss. by rewrite <- Hcache. }
  unfold head_bits. rewrite Hs2.
  change ((_ :: rest) !!! 0%nat)
    with (FuncCache target (replicate (Z.to_nat FUNCTION_BIT_ARRAY) 0)).
  cbn [fc_bits]. rewrite lookup_total_replicate_2 by (by apply function_index).
  rewrite Z.land_0_l. cbn [Z.eqb].
  by rewrite eval_ret, exec_ret.
Qed.

Lemma compose_function_change_unseen_off (s : machine) (target func : Z)
    (rest : list func_cache) (lru : func_cache) :
  function_cache s = rest ++ [lru] ->
  Forall (fun r => fc_target r <> target) (function_cache s) ->
  0 <= func <= MAX_FUNCTION_NUMBER ->
  eval (compose_function_change target func FUNCTION_OFF) s = [0xff; 0x00]
  /\ function_cache (exec (compose_function_change target func FUNCTION_OFF) s)
     = FuncCache target (replicate (Z.to_nat FUNCTION_BIT_ARRAY) 0) :: rest.
Proof.
  intros Hcache Habsent Hfunc. unfold compose_function_change.
  rewrite !eval_bind, !exec_bind.
  set (s3 := exec (ASSERT _ 3273) _).
  assert (Hs3 : function_cache s3 = function_cache s)
    by (unfold s3; by rewrite !exec_ASSERT).
  rewrite to_byte_small by (unfold MAX_FUNCTION_NUMBER in Hfunc; lia).
  change (FUNCTION_OFF =? FUNCTION_ON) with false.
  destruct (update_function_unseen_off s3 target func rest lru) as [Hno Hcache'];
    [by rewrite Hs3|by rewrite Hs3|done|].
  rewrite Hno. by rewrite eval_ret, exec_ret.
Qed.

Lemma update_function_unseen_on (s : machine) (target func : Z)
    (rest : list func_cache) (lru : func_cache) :
  function_cache s = rest ++ [lru] ->
  Forall (fun r => fc_target r <> target) (function_cache s) ->
  0 <= func <= MAX_FUNCTION_NUMBER ->
  eval (update_function target func true) s = true.
Proof.
  intros Hcache Habsent Hfunc. unfold update_function.
  rewrite !eval_bind, eval_gets.
  set (s1 := exec (ASSERT _ 957) s).
  assert (Hs1 : function_cache s1 = function_cache s)
    by (unfold s1; by rewrite exec_ASSERT).
  set (s2 := exec (find_func_cache target) s1).
  assert (Hs2 : function_cache s2
                = FuncCache target (replicate (Z.to_nat FUNCTION_BIT_ARRAY) 0) :: rest).
  { unfold s2. rewrite find_func_cache_cache, Hs1, Hcache.
    apply touch_cache_miss. by rewrite <- Hcache. }
  unfold head_bits. rewrite Hs2.
  change ((_ :: rest) !!! 0%nat)
    with (FuncCache target (replicate (Z.to_nat FUNCTION_BIT_ARRAY) 0)).
  cbn [fc_bits]. rewrite lookup_total_replicate_2 by (by apply function_index).
  rewrite Z.land_0_l. cbn [Z.eqb negb].
  by rewrite eval_bind, eval_ret.
Qed.

(** C9: when the target of a function request is in no record of the
    function cache, find_func_cache drops the last (least recently
    used) record of the cache and puts a record for the target, with
    every function bit clear, at its head; update_function tests the
    bit in that record, so turning a function off reports no change
    (turning it on reports a change), compose_function_change returns
    the two bytes 0xFF 0x00 of the idle packet, and the cache is left
    with the new record in place of the dropped one. *)
Theorem function_off_for_unseen_target
    (s : machine) (target func : Z) (rest : list func_cache) (lru : func_cache) :
  function_cache s = rest ++ [lru] ->
  Forall (fun r => fc_target r <> target) (function_cache s) ->
  0 <= func <= MAX_FUNCTION_NUMBER ->
  let installed := FuncCache target (replicate (Z.to_nat FUNCTION_BIT_ARRAY) 0) in
  function_cache (exec (find_func_cache target) s) = installed :: rest
  /\ eval (update_function target func false) s = false
  /\ eval (update_function target func true) s = true
  /\ eval (compose_function_change target func FUNCTION_OFF) s = [0xFF; 0x00]
  /\ function_cache (exec (compose_function_change target func FUNCTION_OFF) s)
     = installed :: rest.
Proof.
  intros Hcache Habsent Hfunc installed.
  destruct (update_function_unseen_off s target func rest lru Hcache Habsent Hfunc)
    as [Hoff _].
  destruct (compose_function_change_unseen_off s target func rest lru Hcache Habsent Hfunc)
    as [Hidle Hevict].
  split.
  { rewrite find_func_cache_cache, Hcache. apply touch_cache_miss. by rewrite <- Hcache. }
  split; [exact Hoff|]. split; [by eapply update_function_unseen_on|].
  split; [exact Hidle|exact Hevict].
Qed.

Lemma function_off_for_unseen_target_witness :
  let rest := replicate 5 (FuncCache 0 (replicate 4 0)) in
  let lru := FuncCache 0 (replicate 4 0) in
  (function_cache setup = rest ++ [lru]
   /\ Forall (fun r => fc_target r <> 300) (function_cache setup)
   /\ 0 <= 3 <= MAX_FUNCTION_NUMBER)
  /\ eval (compose_function_change 300 3 FUNCTION_OFF) setup = [0xFF; 0x00]
  /\ function_cache (exec (compose_function_change 300 3 FUNCTION_OFF) setup)
     = FuncCache 300 (replicate 4 0) :: rest.
Proof.
  set (rest := replicate 5 (FuncCache 0 (replicate 4 0))).
  set (lru := FuncCache 0 (replicate 4 0)).
  assert (H1 : function_cache setup = rest ++ [lru]) by reflexivity.
  assert (H2 : Forall (fun r => fc_target r <> 300) (function_cache setup))
    by (rewrite H1; repeat constructor; discriminate).
  assert (H3 : 0 <= 3 <= MAX_FUNCTION_NUMBER) by (split; discriminate).
  cbv zeta. split; [auto|].
  destruct (function_off_for_unseen_target setup 300 3 rest lru H1 H2 H3)
    as (_ & _ & _ & Hidle & Hevict).
  split; [exact Hidle|exact Hevict].
Defined.

(** ** Commands *)

Ltac mstep :=
  repeat (cbv beta iota;
          first [ rewrite exec_bind | rewrite eval_bind | rewrite exec_ret
                | rewrite eval_ret | rewrite exec_gets | rewrite eval_gets
                | rewrite exec_modify | rewrite eval_modify ]);
  cbv beta iota.

Lemma exec_ASSERT_true (v : bool) (line : Z) (s : machine) :
  v = true -> exec (ASSERT v line) s = s.
Proof. by intros ->. Qed.

Lemma lor_top_bit_byte (v : Z) : is_byte v -> 0 <= Z.lor 128 v < 256.
Proof.
  revert v. apply (byte_forall (fun v => 0 <= Z.lor 128 v < 256)).
  vm_compute. reflexivity.
Qed.

Lemma compose_motion_packet_spec (s : machine) (adrs speed dir : Z) :
  MINIMUM_DCC_ADDRESS <= adrs <= MAXIMUM_DCC_ADDRESS ->
  speed = EMERGENCY_STOP \/ MINIMUM_DCC_SPEED <= speed <= MAXIMUM_DCC_SPEED ->
  dir = DCC_FORWARDS \/ dir = DCC_BACKWARDS ->
  let code := if speed =? 0 then 0 else if speed =? EMERGENCY_STOP then 1 else speed + 1 in
  exec (compose_motion_packet adrs speed dir) s = s
  /\ eval (compose_motion_packet adrs speed dir) s
     = mobile_address adrs ++ [0x3F; Z.lor (Z.shiftl dir 7) code].
Proof.
  intros Hadrs Hspeed Hdir code.
  unfold MINIMUM_DCC_ADDRESS, MAXIMUM_DCC_ADDRESS, EMERGENCY_STOP, MINIMUM_DCC_SPEED,
    MAXIMUM_DCC_SPEED, DCC_FORWARDS, DCC_BACKWARDS in Hadrs, Hspeed, Hdir.
  unfold compose_motion_packet.
  assert (H1 : (MINIMUM_DCC_ADDRESS <=? adrs) && (adrs <=? MAXIMUM_DCC_ADDRESS) = true)
    by (unfold MINIMUM_DCC_ADDRESS, MAXIMUM_DCC_ADDRESS; apply andb_true_iff; split; lia).
  assert (H2 : (speed =? EMERGENCY_STOP)
               || ((MINIMUM_DCC_SPEED <=? speed) && (speed <=? MAXIMUM_DCC_SPEED)) = true).
  { unfold EMERGENCY_STOP, MINIMUM_DCC_SPEED, MAXIMUM_DCC_SPEED.
    destruct Hspeed as [-> | H]; [reflexivity|].
    apply orb_true_iff. right. apply andb_true_iff. split; lia. }
  assert (H3 : (dir =? DCC_FORWARDS) || (dir =? DCC_BACKWARDS) = true)
    by (destruct Hdir as [-> | ->]; reflexivity).
  rewrite H1, H2, H3.
  rewrite !exec_bind, !eval_bind, exec_ret, eval_ret.
  split; [done|]. f_equal. f_equal. f_equal. unfold code, EMERGENCY_STOP.
  assert (Hbit : Z.shiftl dir 7 = 0 \/ Z.shiftl dir 7 = 128)
    by (destruct Hdir as [-> | ->]; auto).
  destruct (Z.eqb_spec speed 0); [|destruct (Z.eqb_spec speed (-1))].
  - rewrite Z.lor_0_r. apply to_byte_small. lia.
  - apply to_byte_small. destruct Hbit as [-> | ->]; vm_compute; done.
  - apply to_byte_small. destruct Hbit as [-> | ->].
    + rewrite Z.lor_0_l. lia.
    + apply lor_top_bit_byte. unfold is_byte. lia.
Qed.



Section programming_buffer.
Variables (front : list trans_buffer).
Hypothesis Hfront : length front = Z.to_nat PROGRAMMING_BASE_BUFFER.





End programming_buffer.








(** The cells of the packet for mobile decoder 3 at speed 10, forwards,
    do not begin 15, 1: the zero that ends the preamble and the six
    leading zeros of the address byte 0x03 form one run of 7. *)
Lemma mobile_cells_second_run :
  let s := exec (scan_line_M [3; 10; 1];; management_rounds 4) setup in
  tb_pending (buffer 3 (exec (scan_line_M [3; 10; 1]) setup))
    = [PendingPacket 3 false 0 4 [0x03; 0x3F; 0x8B; 0xB7; 0; 0]]
  /\ tb_state (buffer 3 s) = TBS_RUN
  /\ take 3 (tb_bits (buffer 3 s)) = [15; 7; 2]
  /\ take 2 (tb_bits (buffer 3 s)) <> [15; 1].
Proof. vm_compute. repeat split; [reflexivity..|discriminate]. Qed.

(** C5 (amended): for mobile decoder 3 at speed 10, forwards,
    compose_motion_packet gives the bytes 0x03 0x3F 0x8B and
    copy_with_parity appends their exclusive or 0xB7; the packet is
    sent with the short preamble of 15 ones and pack_command stores the
    cells 15, 7, 2, 3, 6, 1, 1, 3, 1, 1, 2, 1, 1, 1, 2, 1, 4 and the
    closing 0 (the second cell is 7: the zero after the preamble runs
    on into the six leading zeros of 0x03).  For every valid address,
    speed and direction the last byte is the direction shifted left by
    7 ORed with 0 for speed 0, 1 for emergency stop (-1) and speed + 1
    otherwise, so speeds 1 to 126 are sent as 2 to 127; no assertion
    fails. *)
Theorem mobile_speed_packet
    (s : machine) (adrs speed dir : Z) (dest buf : list Z) :
  MINIMUM_DCC_ADDRESS <= adrs <= MAXIMUM_DCC_ADDRESS ->
  speed = EMERGENCY_STOP \/ MINIMUM_DCC_SPEED <= speed <= MAXIMUM_DCC_SPEED ->
  dir = DCC_FORWARDS \/ dir = DCC_BACKWARDS ->
  Z.of_nat (length dest) = MAXIMUM_DCC_COMMAND ->
  Z.of_nat (length buf) = BIT_TRANSITIONS ->
  let code := if speed =? 0 then 0 else if speed =? EMERGENCY_STOP then 1 else speed + 1 in
  let packed := pack_command [0x03; 0x3F; 0x8B; 0xB7] false buf in
  eval (compose_motion_packet 3 10 1) s = [0x03; 0x3F; 0x8B]
  /\ eval (copy_with_parity dest [0x03; 0x3F; 0x8B]) s
     = ([0x03; 0x3F; 0x8B; 0xB7] ++ drop 4 dest, 4)
  /\ preamble_of false = 15
  /\ pr_ok packed = true
  /\ take 18 (pr_bits packed) = [15; 7; 2; 3; 6; 1; 1; 3; 1; 1; 2; 1; 1; 1; 2; 1; 4; 0]
  /\ eval (compose_motion_packet adrs speed dir) s
     = mobile_address adrs ++ [0x3F; Z.lor (Z.shiftl dir 7) code]
  /\ (1 <= speed -> 2 <= code <= 127).
Proof.
  intros Hadrs Hspeed Hdir Hdest Hbuf code packed.
  split; [reflexivity|]. split.
  { unfold copy_with_parity. rewrite eval_bind, eval_ret.
    rewrite store_at_front; [reflexivity|].
    unfold MAXIMUM_DCC_COMMAND in Hdest. cbn [length app foldl]. lia. }
  split; [reflexivity|]. split; [reflexivity|]. split.
  { unfold packed. rewrite pack_command_cells.
    assert (Hcells : pack_cells [0x03; 0x3F; 0x8B; 0xB7] false
                     = [15; 7; 2; 3; 6; 1; 1; 3; 1; 1; 2; 1; 1; 1; 2; 1; 4; 0])
      by reflexivity.
    rewrite Hcells, store_at_front; [reflexivity|].
    unfold BIT_TRANSITIONS in Hbuf. cbn [length]. lia. }
  split; [by apply compose_motion_packet_spec|].
  intros Hpos. unfold code, EMERGENCY_STOP, MAXIMUM_DCC_SPEED in *.
  destruct (Z.eqb_spec speed 0); [lia|]. destruct (Z.eqb_spec speed (-1)); lia.
Qed.

Lemma mobile_speed_packet_witness :
  let dest := replicate 6 0 in
  let buf := replicate 40 0 in
  (MINIMUM_DCC_ADDRESS <= 1000 <= MAXIMUM_DCC_ADDRESS
   /\ (126 = EMERGENCY_STOP \/ MINIMUM_DCC_SPEED <= 126 <= MAXIMUM_DCC_SPEED)
   /\ (0 = DCC_FORWARDS \/ 0 = DCC_BACKWARDS)
   /\ Z.of_nat (length dest) = MAXIMUM_DCC_COMMAND
   /\ Z.of_nat (length buf) = BIT_TRANSITIONS)
  /\ eval (copy_with_parity dest [0x03; 0x3F; 0x8B]) setup
     = ([0x03; 0x3F; 0x8B; 0xB7; 0; 0], 4)
  /\ take 18 (pr_bits (pack_command [0x03; 0x3F; 0x8B; 0xB7] false buf))
     = [15; 7; 2; 3; 6; 1; 1; 3; 1; 1; 2; 1; 1; 1; 2; 1; 4; 0]
  /\ eval (compose_motion_packet 1000 126 0) setup = [0xC3; 0xE8; 0x3F; 0x7F].
Proof.
  set (dest := replicate 6 0). set (buf := replicate 40 0).
  assert (H1 : MINIMUM_DCC_ADDRESS <= 1000 <= MAXIMUM_DCC_ADDRESS)
    by (split; discriminate).
  assert (H2 : 126 = EMERGENCY_STOP \/ MINIMUM_DCC_SPEED <= 126 <= MAXIMUM_DCC_SPEED)
    by (right; split; discriminate).
  assert (H3 : 0 = DCC_FORWARDS \/ 0 = DCC_BACKWARDS) by (right; reflexivity).
  assert (H4 : Z.of_nat (length dest) = MAXIMUM_DCC_COMMAND) by reflexivity.
  assert (H5 : Z.of_nat (length buf) = BIT_TRANSITIONS) by reflexivity.
  cbv zeta. split; [auto|].
  destruct (mobile_speed_packet setup 1000 126 0 dest buf H1 H2 H3 H4 H5)
    as (_ & Hparity & _ & _ & Hcells & Hbytes & _).
  split; [exact Hparity|]. split; [exact Hcells|]. exact Hbytes.
Defined.





(** ** The output queue and the error queue *)

Section ring.
Context {A : Type} `{Inhabited A}.

Lemma length_ring_read (data : list A) (size from n : nat) :
  length (ring_read data size from n) = n.
Proof. revert from. induction n as [|n IH]; intros from; [done|]. cbn. by rewrite IH. Qed.

Lemma ring_read_snoc (data : list A) (size from n : nat) :
  (0 < size)%nat -> (from < size)%nat ->
  ring_read data size from (S n)
  = ring_read data size from n ++ [data !!! ((from + n) mod size)%nat].
Proof.
  intros Hsize. revert from. induction n as [|n IH]; intros from Hfrom.
  - cbn. by rewrite Nat.add_0_r, Nat.mod_small.
  - change (ring_read data size from (S (S n)))
      with (data !!! from
            :: ring_read data size (if (S from =? size)%nat then 0%nat else S from) (S n)).
    rewrite IH.
    + cbn [ring_read app]. f_equal. f_equal. f_equal. f_equal.
      destruct (Nat.eqb_spec (S from) size) as [E|E].
      * replace (from + S n)%nat with (n + 1 * size)%nat by lia.
        by rewrite Nat.Div0.mod_add.
      * f_equal. lia.
    + destruct (Nat.eqb_spec (S from) size); lia.
Qed.

Lemma ring_read_insert_outside (data : list A) (size from n i : nat) (x : A) :
  (0 < size)%nat -> (from < size)%nat -> (n < size)%nat ->
  i = ((from + n) mod size)%nat ->
  ring_read (<[i := x]> data) size from n = ring_read data size from n.
Proof.
  intros Hsize. revert from n. 
  assert (Hgen : forall n from k, (from < size)%nat -> (n + k < size)%nat ->
            i = ((from + n + k) mod size)%nat ->
            ring_read (<[i := x]> data) size from n = ring_read data size from n).
  { induction n as [|n IH]; intros from k Hfrom Hn Hi; [done|].
    cbn [ring_read]. f_equal.
    - apply list_lookup_total_insert_ne. intros ->.
      destruct (decide (from + S n + k < size)%nat) as [Hlt|Hge].
      + rewrite Nat.mod_small in Hi by done. lia.
      + assert (E : ((from + S n + k) mod size = from + S n + k - size)%nat).
        { replace (from + S n + k)%nat with ((from + S n + k - size) + 1 * size)%nat at 1 by lia.
          rewrite Nat.Div0.mod_add. apply Nat.mod_small. lia. }
        rewrite E in Hi. lia.
    - destruct (Nat.eqb_spec (S from) size) as [E|E].
      + apply (IH 0%nat k); [lia|lia|].
        rewrite Hi. replace (from + S n + k)%nat with ((0 + n + k) + 1 * size)%nat by lia.
        by rewrite Nat.Div0.mod_add.
      + apply (IH (S from) k); [lia|lia|]. rewrite Hi. f_equal. lia. }
  intros from n Hfrom Hn Hi. apply (Hgen n from 0%nat); [done|lia|].
  rewrite Hi. f_equal. lia.
Qed.

End ring.

Lemma wrap_succ (i size : Z) :
  0 <= i < size -> size < 256 ->
  (if to_byte (i + 1) =? size then 0 else to_byte (i + 1)) = (i + 1) `mod` size.
Proof.
  intros Hi Hsize. rewrite to_byte_small by lia.
  destruct (Z.eqb_spec (i + 1) size) as [E|E].
  - rewrite E. by rewrite Z.mod_same by lia.
  - by rewrite Z.mod_small by lia.
Qed.

Lemma to_nat_mod (a b : Z) :
  0 <= a -> 0 < b -> Z.to_nat (a `mod` b) = (Z.to_nat a mod Z.to_nat b)%nat.
Proof. intros Ha Hb. apply Z2Nat.inj_mod; lia. Qed.

Lemma queue_push (c : ascii) (o : output_state) :
  output_wf o -> queue_len o < OUTPUT_QUEUE_SIZE ->
  let i := to_byte (queue_in o + 1) in
  let o' := {| queue_data := <[Z.to_nat (queue_in o) := c]> (queue_data o);
               queue_in := if i =? OUTPUT_QUEUE_SIZE then 0 else i;
               queue_out := queue_out o;
               queue_len := to_byte (queue_len o + 1) |} in
  output_wf o' /\ queued_text o' = queued_text o ++ [c]
  /\ queue_len o' = queue_len o + 1.
Proof.
  intros Hwf Hroom i o'. unfold output_wf, OUTPUT_QUEUE_SIZE in *.
  destruct Hwf as (Hdata & Hout & Hlen & Hin).
  assert (Hin' : 0 <= queue_in o < 64) by (rewrite Hin; apply Z.mod_pos_bound; lia).
  assert (Hlen' : queue_len o' = queue_len o + 1)
    by (unfold o'; cbn [queue_len]; apply to_byte_small; lia).
  split; [|split; [|exact Hlen']].
  - rewrite Hlen'. unfold o'. cbn [queue_data queue_out queue_in].
    split; [by rewrite length_insert|]. split; [done|]. split; [lia|].
    unfold i. rewrite (wrap_succ (queue_in o) 64) by lia.
    rewrite Hin, Z.add_mod_idemp_l by lia. f_equal. lia.
  - unfold queued_text. rewrite Hlen'. unfold o'. cbn [queue_data queue_out].
    change (Z.to_nat OUTPUT_QUEUE_SIZE) with 64%nat.
    replace (Z.to_nat (queue_len o + 1)) with (S (Z.to_nat (queue_len o))) by lia.
    assert (Hidx : Z.to_nat (queue_in o)
                   = ((Z.to_nat (queue_out o) + Z.to_nat (queue_len o)) mod 64)%nat).
    { rewrite Hin, to_nat_mod by lia. f_equal. lia. }
    rewrite ring_read_snoc by lia. rewrite <- Hidx.
    rewrite list_lookup_total_insert_eq by lia.
    rewrite ring_read_insert_outside; [done|lia|lia|lia|done].
Qed.

Lemma queue_chars_spec (text : list ascii) (o : output_state) :
  output_wf o ->
  let r := queue_chars text o in
  r.1 = (queue_len o + Z.of_nat (length text) <=? OUTPUT_QUEUE_SIZE)
  /\ output_wf r.2
  /\ queued_text r.2
     = queued_text o ++ take (Z.to_nat (OUTPUT_QUEUE_SIZE - queue_len o)) text
  /\ queue_len r.2 = Z.min OUTPUT_QUEUE_SIZE (queue_len o + Z.of_nat (length text)).
Proof.
  revert o. induction text as [|c text IH]; intros o Hwf; cbn zeta.
  - destruct Hwf as (Hdata & Hout & Hlen & Hin). cbn [queue_chars fst snd length].
    split; [symmetry; apply Z.leb_le; lia|]. split; [done|].
    split; [by rewrite take_nil, app_nil_r|]. lia.
  - cbn [queue_chars].
    pose proof Hwf as (Hdata & Hout & Hlen & Hin).
    destruct (Z.leb_spec OUTPUT_QUEUE_SIZE (queue_len o)) as [Hfull|Hroom].
    + cbn [fst snd]. split; [symmetry; apply Z.leb_gt; cbn [length]; lia|].
      split; [done|]. split; [|unfold OUTPUT_QUEUE_SIZE in *; lia].
      replace (Z.to_nat (OUTPUT_QUEUE_SIZE - queue_len o)) with 0%nat by lia.
      by rewrite take_0, app_nil_r.
    + destruct (queue_push c o Hwf Hroom) as (Hwf' & Htext & Hlen').
      cbv zeta in Hwf', Htext, Hlen'.
      destruct (IH _ Hwf') as (Hr & Hwf'' & Htext' & Hlen''). cbv zeta in *.
      split; [rewrite Hr, Hlen'; cbn [length]; f_equal; lia|].
      split; [done|]. split.
      * rewrite Htext', Htext, Hlen', <- app_assoc. f_equal.
        replace (Z.to_nat (OUTPUT_QUEUE_SIZE - queue_len o))
          with (S (Z.to_nat (OUTPUT_QUEUE_SIZE - (queue_len o + 1)))) by lia.
        done.
      * rewrite Hlen'', Hlen'. cbn [length]. lia.
Qed.

Lemma queue_pop (o : output_state) :
  output_wf o -> 0 < queue_len o ->
  let i := to_byte (queue_out o + 1) in
  let o' := {| queue_data := queue_data o;
               queue_in := queue_in o;
               queue_out := if i =? OUTPUT_QUEUE_SIZE then 0 else i;
               queue_len := to_byte (queue_len o - 1) |} in
  output_wf o'
  /\ queued_text o = queue_data o !!! Z.to_nat (queue_out o) :: queued_text o'
  /\ queue_len o' = queue_len o - 1.
Proof.
  intros Hwf Hsome i o'. unfold output_wf, OUTPUT_QUEUE_SIZE in *.
  destruct Hwf as (Hdata & Hout & Hlen & Hin).
  assert (Hlen' : queue_len o' = queue_len o - 1)
    by (unfold o'; cbn [queue_len]; apply to_byte_small; lia).
  assert (Hout' : queue_out o' = (queue_out o + 1) `mod` 64)
    by (unfold o', i; cbn [queue_out]; apply wrap_succ; lia).
  split; [|split; [|exact Hlen']].
  - rewrite Hlen', Hout'. unfold o'. cbn [queue_data queue_in].
    split; [done|]. split; [apply Z.mod_pos_bound; lia|]. split; [lia|].
    rewrite Hin, Z.add_mod_idemp_l by lia. f_equal. lia.
  - unfold queued_text. rewrite Hlen'. change (queue_data o') with (queue_data o).
    change (Z.to_nat OUTPUT_QUEUE_SIZE) with 64%nat.
    replace (Z.to_nat (queue_len o)) with (S (Z.to_nat (queue_len o - 1))) by lia.
    cbn [ring_read]. f_equal. f_equal. rewrite Hout'.
    destruct (Nat.eqb_spec (S (Z.to_nat (queue_out o))) 64) as [E|E].
    + replace (queue_out o) with 63 by lia. reflexivity.
    + rewrite Z.mod_small by lia. lia.
Qed.

Lemma process_chars_spec (n : nat) (count : Z) (o : output_state) :
  output_wf o -> (Z.to_nat (queue_len o) <= n)%nat -> 0 <= count < 32768 ->
  let r := process_chars n count o in
  r.1 = take (Z.to_nat count) (queued_text o)
  /\ output_wf r.2
  /\ queued_text r.2 = drop (Z.to_nat count) (queued_text o)
  /\ queue_len r.2 = queue_len o - Z.min count (queue_len o)
  /\ queue_in r.2 = queue_in o.
Proof.
  revert count o. induction n as [|n IH]; intros count o Hwf Hn Hcount; cbv zeta.
  - pose proof Hwf as (Hdata & Hout & Hlen & Hin).
    assert (E : queue_len o = 0) by lia.
    assert (Hnone : queued_text o = []) by (unfold queued_text; by rewrite E).
    cbn [process_chars fst snd]. rewrite Hnone, take_nil, drop_nil.
    repeat split; first [done | lia].
  - cbn [process_chars].
    pose proof Hwf as (Hdata & Hout & Hlen & Hin).
    destruct (Z.eqb_spec (queue_len o) 0) as [E|E]; cbn [orb].
    { assert (Hnone : queued_text o = []) by (unfold queued_text; by rewrite E).
      cbn [fst snd]. rewrite Hnone, take_nil, drop_nil. repeat split; first [done | lia]. }
    destruct (Z.eqb_spec count 0) as [E'|E'].
    { cbn [fst snd]. rewrite E'. change (Z.to_nat 0) with 0%nat.
      rewrite take_0, drop_0. repeat split; first [done | lia]. }
    destruct (queue_pop o Hwf ltac:(lia)) as (Hwf' & Htext & Hlen'). cbv zeta in *.
    set (o' := {| queue_data := queue_data o |}) in *.
    rewrite to_int_small by (unfold is_int; lia).
    destruct (IH (count - 1) o' Hwf' ltac:(lia) ltac:(lia)) as (H1 & H2 & H3 & H4 & H5).
    cbv zeta in *. destruct (process_chars n (count - 1) o') as [written o''].
    cbn [fst snd] in *. rewrite Htext.
    replace (Z.to_nat count) with (S (Z.to_nat (count - 1))) by lia.
    cbn [take drop]. rewrite H1. split; [done|]. split; [done|]. split; [done|].
    split; [rewrite H4, Hlen'; lia|]. by rewrite H5.
Qed.

Lemma errors_wf_report_error (err arg : Z) (e : error_state) :
  errors_wf e -> errors_wf (report_error_in err arg e).
Proof.
  unfold errors_wf, ERROR_QUEUE_SIZE. intros (Hdata & Hout & Hlen & Hin).
  assert (Hin' : 0 <= error_in e < 5) by (rewrite Hin; apply Z.mod_pos_bound; lia).
  unfold report_error_in, ERROR_QUEUE_SIZE.
  destruct (Z.ltb_spec (errors_pending e) 5) as [Hroom|Hfull].
  - cbn [error_queue error_in error_out errors_pending].
    rewrite length_insert, (to_byte_small (errors_pending e + 1)) by lia.
    split; [done|]. split; [done|]. split; [lia|].
    rewrite (wrap_succ (error_in e) 5) by lia.
    rewrite Hin, Z.add_mod_idemp_l by lia. f_equal. lia.
  - destruct (list_find _ _) as [[i q]|];
      cbn [error_queue error_in error_out errors_pending];
      by rewrite length_insert.
Qed.

Lemma report_error_push (err arg : Z) (e : error_state) :
  errors_wf e -> errors_pending e < ERROR_QUEUE_SIZE ->
  pending_errors (report_error_in err arg e) = pending_errors e ++ [QueuedError err arg].
Proof.
  unfold errors_wf, ERROR_QUEUE_SIZE. intros (Hdata & Hout & Hlen & Hin) Hroom.
  assert (Hin' : 0 <= error_in e < 5) by (rewrite Hin; apply Z.mod_pos_bound; lia).
  unfold report_error_in, ERROR_QUEUE_SIZE.
  rewrite (proj2 (Z.ltb_lt _ _) Hroom).
  unfold pending_errors. cbn [error_queue error_in error_out errors_pending].
  change (Z.to_nat ERROR_QUEUE_SIZE) with 5%nat.
  rewrite (to_byte_small (errors_pending e + 1)) by lia.
  replace (Z.to_nat (errors_pending e + 1)) with (S (Z.to_nat (errors_pending e))) by lia.
  assert (Hidx : Z.to_nat (error_in e)
                 = ((Z.to_nat (error_out e) + Z.to_nat (errors_pending e)) mod 5)%nat).
  { rewrite Hin, to_nat_mod by lia. f_equal. lia. }
  rewrite ring_read_snoc by lia. rewrite <- Hidx.
  rewrite list_lookup_total_insert_eq by lia.
  rewrite ring_read_insert_outside; [done|lia|lia|lia|done].
Qed.

Lemma pending_errors_head (e : error_state) :
  errors_wf e -> 0 < errors_pending e ->
  let i := to_byte (error_out e + 1) in
  let e' := {| error_queue := error_queue e;
               error_in := error_in e;
               error_out := if i =? ERROR_QUEUE_SIZE then 0 else i;
               errors_pending := to_byte (errors_pending e - 1) |} in
  errors_wf e'
  /\ pending_errors e = error_queue e !!! Z.to_nat (error_out e) :: pending_errors e'.
Proof.
  intros Hwf Hsome i e'. unfold errors_wf, ERROR_QUEUE_SIZE in *.
  destruct Hwf as (Hdata & Hout & Hlen & Hin).
  assert (Hlen' : errors_pending e' = errors_pending e - 1)
    by (unfold e'; cbn [errors_pending]; apply to_byte_small; lia).
  assert (Hout' : error_out e' = (error_out e + 1) `mod` 5)
    by (unfold e', i; cbn [error_out]; apply wrap_succ; lia).
  split.
  - rewrite Hlen', Hout'. unfold e'. cbn [error_queue error_in].
    split; [done|]. split; [apply Z.mod_pos_bound; lia|]. split; [lia|].
    rewrite Hin, Z.add_mod_idemp_l by lia. f_equal. lia.
  - unfold pending_errors. rewrite Hlen'. change (error_queue e') with (error_queue e).
    change (Z.to_nat ERROR_QUEUE_SIZE) with 5%nat.
    replace (Z.to_nat (errors_pending e)) with (S (Z.to_nat (errors_pending e - 1))) by lia.
    cbn [ring_read]. f_equal. f_equal. rewrite Hout'.
    destruct (Nat.eqb_spec (S (Z.to_nat (error_out e))) 5) as [E|E].
    + replace (error_out e) with 4 by lia. reflexivity.
    + rewrite Z.mod_small by lia. lia.
Qed.

Lemma length_list_ascii_of_string (text : string) :
  length (String.list_ascii_of_string text) = String.length text.
Proof. induction text as [|c text IH]; [done|]. cbn. by rewrite IH. Qed.

Lemma queue_output_spec (text : string) (s : machine) :
  output_wf (m_output s) ->
  let chars := String.list_ascii_of_string text in
  let room := OUTPUT_QUEUE_SIZE - queue_len (m_output s) in
  let s' := exec (queue_output text) s in
  eval (queue_output text) s = (Z.of_nat (length chars) <=? room)
  /\ output_wf (m_output s')
  /\ queued_text (m_output s') = queued_text (m_output s) ++ take (Z.to_nat room) chars
  /\ queue_len (m_output s') = Z.min OUTPUT_QUEUE_SIZE (queue_len (m_output s) + Z.of_nat (length chars))
  /\ s' = set_output (m_output s') s.
Proof.
  intros Hwf chars room s'.
  destruct (queue_chars_spec chars (m_output s) Hwf) as (Hr & Hwf' & Htext & Hlen).
  cbv zeta in *. unfold s', eval, exec. rewrite queue_output_run. cbn [fst snd].
  fold chars. cbn [m_output set_output].
  split.
  { rewrite Hr. unfold room.
    destruct (Z.leb_spec (queue_len (m_output s) + Z.of_nat (length chars))
                OUTPUT_QUEUE_SIZE),
             (Z.leb_spec (Z.of_nat (length chars))
                (OUTPUT_QUEUE_SIZE - queue_len (m_output s))); first [done | lia]. }
  split; [exact Hwf'|]. split; [exact Htext|]. split; [exact Hlen|reflexivity].
Qed.

(** X1: queue_output puts the characters of the text behind those already
    waiting, as many as the 64 places of the queue have room for, and
    returns true exactly when all of them went in; the characters that
    do not fit are lost.  Nothing but the output queue changes. *)
Theorem queue_output_appends (text : string) (s : machine) :
  output_wf (m_output s) ->
  let chars := String.list_ascii_of_string text in
  let room := OUTPUT_QUEUE_SIZE - queue_len (m_output s) in
  let s' := exec (queue_output text) s in
  eval (queue_output text) s = (Z.of_nat (length chars) <=? room)
  /\ output_wf (m_output s')
  /\ queued_text (m_output s') = queued_text (m_output s) ++ take (Z.to_nat room) chars
  /\ queue_len (m_output s') = Z.min OUTPUT_QUEUE_SIZE (queue_len (m_output s) + Z.of_nat (length chars))
  /\ s' = set_output (m_output s') s.
Proof. apply queue_output_spec. Qed.

Lemma process_output_run (count : Z) (s : machine) :
  process_output count s
  = ((process_chars (Z.to_nat (queue_len (m_output s))) count (m_output s)).1,
     set_output (process_chars (Z.to_nat (queue_len (m_output s))) count (m_output s)).2 s).
Proof. unfold process_output. by destruct (process_chars _ _ _). Qed.

(** X2: process_output hands the oldest waiting characters to the serial
    port, in the order they were queued and at most count of them, and
    leaves the others waiting in the same order. *)
Theorem process_output_oldest_first (count : Z) (s : machine) :
  output_wf (m_output s) -> 0 <= count < 32768 ->
  let s' := exec (process_output count) s in
  eval (process_output count) s = take (Z.to_nat count) (queued_text (m_output s))
  /\ output_wf (m_output s')
  /\ queued_text (m_output s') = drop (Z.to_nat count) (queued_text (m_output s))
  /\ s' = set_output (m_output s') s.
Proof.
  intros Hwf Hcount s'.
  destruct (process_chars_spec (Z.to_nat (queue_len (m_output s))) count (m_output s)
              Hwf ltac:(lia) Hcount) as (Hr & Hwf' & Htext & _).
  cbv zeta in *. unfold s', eval, exec. rewrite process_output_run. cbn [fst snd].
  cbn [m_output set_output].
  split; [exact Hr|]. split; [exact Hwf'|]. split; [exact Htext|reflexivity].
Qed.



(** X3: flush_error_queue does nothing when no error is waiting.  Otherwise
    it takes the oldest waiting error: when its report [E err arg]
    fits the free space of the output queue the report is queued
    behind the waiting output and the error leaves the error queue,
    the others staying in order; when it does not fit nothing changes. *)
Theorem flush_error_queue_sends_oldest (s : machine) :
  errors_wf (m_errors s) -> output_wf (m_output s) ->
  let s' := exec flush_error_queue s in
  (pending_errors (m_errors s) = [] -> s' = s)
  /\ (forall q rest,
        pending_errors (m_errors s) = q :: rest ->
        let text := reply_2 "E" (qe_err q) (qe_arg q) in
        if Z.of_nat (String.length text) <=? OUTPUT_QUEUE_SIZE - queue_len (m_output s)
        then pending_errors (m_errors s') = rest
             /\ queued_text (m_output s')
                = queued_text (m_output s) ++ String.list_ascii_of_string text
             /\ errors_wf (m_errors s') /\ output_wf (m_output s')
        else s' = s).
Proof.
  intros Hewf Howf s'.
  pose proof Hewf as (Hdata & Hout & Hlen & Hin).
  pose proof Howf as (Hodata & Hoout & Holen & Hoin).
  unfold ERROR_QUEUE_SIZE, OUTPUT_QUEUE_SIZE in *.
  unfold s', flush_error_queue.
  rewrite exec_bind, eval_gets, exec_gets.
  split.
  - intros Hnone.
    assert (E : errors_pending (m_errors s) = 0).
    { apply (f_equal length) in Hnone. unfold pending_errors in Hnone.
      rewrite length_ring_read in Hnone. cbn in Hnone. lia. }
    by rewrite E.
  - intros q rest Hpending. set (text := reply_2 "E" (qe_err q) (qe_arg q)).
    assert (E : 0 < errors_pending (m_errors s)).
    { apply (f_equal length) in Hpending. unfold pending_errors in Hpending.
      rewrite length_ring_read in Hpending. cbn in Hpending. lia. }
    destruct (pending_errors_head (m_errors s) Hewf E) as (Hewf' & Hhead).
    cbv zeta in *. rewrite Hpending in Hhead. injection Hhead as Hq Hrest.
    destruct (Z.eqb_spec (errors_pending (m_errors s)) 0) as [?|_]; [lia|]. cbn [negb].
    rewrite <- Hq. fold text.
    rewrite exec_bind.
    change (eval queue_available s)
      with (to_int (OUTPUT_QUEUE_SIZE - queue_len (m_output s))).
    change (exec queue_available s) with s.
    rewrite to_int_small by (unfold is_int, OUTPUT_QUEUE_SIZE; lia).
    unfold OUTPUT_QUEUE_SIZE.
    destruct (Z.leb_spec (Z.of_nat (String.length text)) (64 - queue_len (m_output s)))
      as [Hfits|Hnot]; [|done].
    rewrite exec_bind, exec_modify, exec_bind, exec_ret.
    set (s1 := set_errors _ s).
    destruct (queue_output_spec text s1 Howf) as (_ & Howf' & Htext & _ & Hs').
    cbv zeta in *. rewrite Hs'. cbn [m_errors m_output set_output set_errors].
    rewrite Htext. change (m_output s1) with (m_output s).
    rewrite take_ge by (rewrite length_list_ascii_of_string; unfold OUTPUT_QUEUE_SIZE; lia).
    unfold s1. cbn [m_errors set_errors]. rewrite <- Hrest. done.
Qed.

(** X4: While the error queue has room, report_error puts the new error
    behind the ones waiting; full or not, the queue variables keep
    their relation. *)
Theorem report_error_queues_in_order (err arg : Z) (s : machine) :
  errors_wf (m_errors s) ->
  let s' := exec (report_error err arg) s in
  errors_wf (m_errors s')
  /\ (errors_pending (m_errors s) < ERROR_QUEUE_SIZE ->
      pending_errors (m_errors s')
      = pending_errors (m_errors s) ++ [QueuedError err arg])
  /\ s' = set_errors (m_errors s') s.
Proof.
  intros Hwf s'. unfold s'. rewrite exec_report_error. cbn [m_errors set_errors].
  split; [by apply errors_wf_report_error|]. split; [|done].
  intros Hroom. by apply report_error_push.
Qed.

Lemma queue_output_appends_witness :
  let text := String.string_of_list_ascii (replicate 10 "#"%char) in
  output_wf (m_output output_near_end)
  /\ eval (queue_output text) output_near_end = true
  /\ queued_text (m_output (exec (queue_output text) output_near_end))
     = replicate 2 "."%char ++ replicate 10 "#"%char.
Proof.
  assert (H : output_wf (m_output output_near_end))
    by (vm_compute; repeat split; congruence).
  cbv zeta. split; [exact H|].
  destruct (queue_output_appends (String.string_of_list_ascii (replicate 10 "#"%char))
              output_near_end H) as (Hr & _ & Htext & _).
  split; [rewrite Hr; vm_compute; reflexivity|rewrite Htext; vm_compute; reflexivity].
Defined.

Lemma process_output_oldest_first_witness :
  let s := exec (queue_output "[P0]") output_near_end in
  (output_wf (m_output s) /\ 0 <= 4 < 32768)
  /\ eval (process_output 4) s = ["."; "."; "["; "P"]%char
  /\ queued_text (m_output (exec (process_output 4) s)) = ["0"; "]"]%char.
Proof.
  set (s := exec (queue_output "[P0]") output_near_end).
  assert (H : output_wf (m_output s)) by (vm_compute; repeat split; congruence).
  assert (H' : 0 <= 4 < 32768) by (vm_compute; split; congruence).
  split; [by split|].
  destruct (process_output_oldest_first 4 s H H') as (Hr & _ & Htext & _).
  split; [rewrite Hr; vm_compute; reflexivity|rewrite Htext; vm_compute; reflexivity].
Defined.

Lemma report_error_queues_in_order_witness :
  (errors_wf (m_errors setup) /\ errors_pending (m_errors setup) < ERROR_QUEUE_SIZE)
  /\ pending_errors (m_errors (exec (report_error INVALID_SPEED 200) setup))
     = [QueuedError INVALID_SPEED 200].
Proof.
  assert (H : errors_wf (m_errors setup)) by (vm_compute; repeat split; congruence).
  assert (H' : errors_pending (m_errors setup) < ERROR_QUEUE_SIZE) by reflexivity.
  split; [by split|].
  destruct (report_error_queues_in_order INVALID_SPEED 200 setup H) as (_ & Hpush & _).
  rewrite (Hpush H'). vm_compute. reflexivity.
Defined.

Lemma flush_error_queue_sends_oldest_witness :
  let s := five_errors_pending in
  (errors_wf (m_errors s) /\ output_wf (m_output s))
  /\ pending_errors (m_errors (exec flush_error_queue s))
     = [QueuedError INVALID_ADDRESS 0; QueuedError INVALID_SPEED 200;
        QueuedError INVALID_DIRECTION 5; QueuedError INVALID_STATE 3]
  /\ queued_text (m_output (exec flush_error_queue s))
     = String.list_ascii_of_string (reply_2 "E" INVALID_ARGUMENT_COUNT 80).
Proof.
  assert (H1 : errors_wf (m_errors five_errors_pending))
    by (vm_compute; repeat split; congruence).
  assert (H2 : output_wf (m_output five_errors_pending))
    by (vm_compute; repeat split; congruence).
  cbv zeta. split; [by split|].
  destruct (flush_error_queue_sends_oldest five_errors_pending H1 H2) as (_ & Hsend).
  assert (Hpending : pending_errors (m_errors five_errors_pending)
                     = QueuedError INVALID_ARGUMENT_COUNT 80
                       :: [QueuedError INVALID_ADDRESS 0; QueuedError INVALID_SPEED 200;
                           QueuedError INVALID_DIRECTION 5; QueuedError INVALID_STATE 3])
    by (vm_compute; reflexivity).
  specialize (Hsend _ _ Hpending). cbv zeta in Hsend.
  assert (Hfits : (Z.of_nat (String.length (reply_2 "E"
                     (qe_err (QueuedError INVALID_ARGUMENT_COUNT 80))
                     (qe_arg (QueuedError INVALID_ARGUMENT_COUNT 80))))
                   <=? OUTPUT_QUEUE_SIZE - queue_len (m_output five_errors_pending)) = true)
    by (vm_compute; reflexivity).
  rewrite Hfits in Hsend. destruct Hsend as (Hrest & Htext & _).
  split; [exact Hrest|]. rewrite Htext. vm_compute. reflexivity.
Defined.

(** ** Numbers, command lines and replies as text *)

Lemma digit_char_spec (d : Z) :
  0 <= d <= 9 ->
  isdigit (digit_char d) = true /\ char_code (digit_char d) - 48 = d
  /\ isspace (digit_char d) = false /\ Ascii.eqb (digit_char d) MINUS = false.
Proof.
  intros Hd.
  assert (Hcases : d = 0 \/ d = 1 \/ d = 2 \/ d = 3 \/ d = 4 \/ d = 5 \/ d = 6
                   \/ d = 7 \/ d = 8 \/ d = 9) by lia.
  repeat (destruct Hcases as [-> | Hcases]; [by vm_compute|]). subst. by vm_compute.
Qed.

Lemma peel_digits_app (fuel : nat) (v : Z) (r : list Z) :
  peel_digits fuel v r = peel_digits fuel v [] ++ r.
Proof.
  revert v r. induction fuel as [|fuel IH]; intros v r; [done|].
  cbn [peel_digits]. destruct (v =? 0); [done|].
  rewrite IH, (IH _ [_]), <- app_assoc. done.
Qed.

Lemma value_after_snoc (a d : Z) (digits : list Z) :
  value_after a (digits ++ [d]) = value_after a digits * 10 + d.
Proof. unfold value_after. by rewrite foldl_snoc. Qed.

Lemma peel_digits_spec (fuel : nat) (v : Z) :
  0 <= v < 10 ^ Z.of_nat fuel ->
  value_after 0 (peel_digits fuel v []) = v
  /\ Forall (fun d => 0 <= d <= 9) (peel_digits fuel v [])
  /\ (0 < v -> peel_digits fuel v [] <> []).
Proof.
  revert v. induction fuel as [|fuel IH]; intros v Hv.
  - cbn in *. split; [lia|]. split; [constructor|lia].
  - cbn [peel_digits]. destruct (Z.eqb_spec v 0) as [->|Hne].
    { split; [done|]. split; [constructor|lia]. }
    rewrite peel_digits_app.
    rewrite Z.quot_div_nonneg, Z.rem_mod_nonneg by lia.
    assert (Hq : 0 <= v `div` 10 < 10 ^ Z.of_nat fuel).
    { split; [apply Z.div_pos; lia|]. apply Z.div_lt_upper_bound; [lia|].
      rewrite Nat2Z.inj_succ, Z.pow_succ_r in Hv by lia. lia. }
    destruct (IH _ Hq) as (Hval & Hdigits & _).
    pose proof (Z.mod_pos_bound v 10 ltac:(lia)) as Hm.
    rewrite to_byte_small by lia.
    split; [rewrite value_after_snoc, Hval; pose proof (Z.div_mod v 10); lia|].
    split; [apply Forall_app; split; [done|]; repeat constructor; lia|].
    intros _. by destruct (peel_digits fuel (v `div` 10) []).
Qed.

Lemma length_peel_digits (fuel : nat) (k : nat) (v : Z) :
  0 <= v < 10 ^ Z.of_nat k -> (length (peel_digits fuel v []) <= k)%nat.
Proof.
  revert k v. induction fuel as [|fuel IH]; intros k v Hv; [cbn; lia|].
  cbn [peel_digits]. destruct (Z.eqb_spec v 0) as [->|Hne]; [cbn; lia|].
  rewrite peel_digits_app, length_app. cbn [length].
  rewrite Z.quot_div_nonneg by lia.
  destruct k as [|k]; [cbn in Hv; lia|].
  assert (Hq : 0 <= v `div` 10 < 10 ^ Z.of_nat k).
  { split; [apply Z.div_pos; lia|]. apply Z.div_lt_upper_bound; [lia|].
    rewrite Nat2Z.inj_succ, Z.pow_succ_r in Hv by lia. lia. }
  specialize (IH k _ Hq). lia.
Qed.

Lemma value_after_mono (a : Z) (digits : list Z) :
  0 <= a -> Forall (fun d => 0 <= d <= 9) digits -> a <= value_after a digits.
Proof.
  revert a. induction digits as [|d digits IH]; intros a Ha Hd; [done|].
  apply Forall_cons in Hd as [Hd Hds]. change (value_after a (d :: digits))
    with (value_after (a * 10 + d) digits).
  specialize (IH (a * 10 + d) ltac:(lia) Hds). lia.
Qed.

Lemma gather_digits_text (digits : list Z) (rest : string) (a c : Z) :
  Forall (fun d => 0 <= d <= 9) digits ->
  0 <= a -> value_after a digits < 32768 ->
  0 <= c -> c + Z.of_nat (length digits) < 32768 ->
  gather_digits (String.append (digits_text digits) rest) a c
  = gather_digits rest (value_after a digits) (c + Z.of_nat (length digits)).
Proof.
  revert a c. induction digits as [|d digits IH]; intros a c Hd Ha Hval Hc Hlen.
  - cbn [length]. change (String.append (digits_text []) rest) with rest.
    f_equal. cbn. lia.
  - apply Forall_cons in Hd as [Hd Hds].
    change (String.append (digits_text (d :: digits)) rest)
      with (String (digit_char d) (String.append (digits_text digits) rest)).
    cbn [gather_digits]. destruct (digit_char_spec d Hd) as (-> & -> & _).
    change (value_after a (d :: digits)) with (value_after (a * 10 + d) digits) in *.
    pose proof (value_after_mono (a * 10 + d) digits ltac:(lia) Hds).
    cbn [length] in *.
    rewrite (to_int_small (a * 10)), (to_int_small (a * 10 + d)), (to_int_small (c + 1))
      by (unfold is_int; lia).
    rewrite IH by (done || lia). f_equal. lia.
Qed.

Lemma gather_digits_stop (rest : string) (a c : Z) :
  no_digit_ahead rest = true -> gather_digits rest a c = (a, c, rest).
Proof.
  destruct rest as [|x rest]; [done|]. cbn. by destruct (isdigit x).
Qed.

(** The text of a number: its sign and its digits. *)
Lemma int_to_text_digits (v : Z) :
  -32767 <= v <= 32767 ->
  exists digits,
    int_to_text v = (if v <? 0 then String MINUS (digits_text digits) else digits_text digits)
    /\ Forall (fun d => 0 <= d <= 9) digits
    /\ digits <> []
    /\ value_after 0 digits = Z.abs v
    /\ (forall k : nat, Z.abs v < 10 ^ Z.of_nat k -> (0 < k)%nat -> (length digits <= k)%nat).
Proof.
  intros Hv. unfold int_to_text.
  destruct (Z.eqb_spec v 0) as [->|Hne].
  { exists [0]. split; [reflexivity|]. split; [repeat constructor; lia|].
    split; [done|]. split; [reflexivity|]. intros k _ Hk. cbn [length]. lia. }
  set (v' := if v <? 0 then to_int (- v) else v).
  assert (Hv' : v' = Z.abs v).
  { unfold v'. destruct (Z.ltb_spec v 0); [rewrite to_int_small by (unfold is_int; lia)|]; lia. }
  assert (Hrange : 0 <= v' < 10 ^ Z.of_nat TEXT_BUFFER)
    by (change (10 ^ Z.of_nat TEXT_BUFFER) with 100000000; lia).
  destruct (peel_digits_spec TEXT_BUFFER v' Hrange) as (Hval & Hdigits & Hsome).
  exists (peel_digits TEXT_BUFFER v' []).
  split; [by destruct (v <? 0)|]. split; [done|]. split; [apply Hsome; lia|].
  split; [by rewrite Hval|]. intros k Hk _. apply length_peel_digits. lia.
Qed.

Lemma skip_space_digits (digits : list Z) (rest : string) :
  Forall (fun d => 0 <= d <= 9) digits -> digits <> [] ->
  skip_space (String.append (digits_text digits) rest)
  = String.append (digits_text digits) rest.
Proof.
  intros Hd Hne. destruct digits as [|d digits]; [done|].
  apply Forall_cons in Hd as [Hd _].
  change (String.append (digits_text (d :: digits)) rest)
    with (String (digit_char d) (String.append (digits_text digits) rest)).
  cbn [skip_space]. by destruct (digit_char_spec d Hd) as (_ & _ & -> & _).
Qed.

Lemma parse_number_reads_text (v : Z) (rest : string) :
  -32767 <= v <= 32767 ->
  no_digit_ahead rest = true ->
  parse_number (String.append (int_to_text v) rest) = (skip_space rest, true, v).
Proof.
  intros Hv Hrest.
  destruct (int_to_text_digits v Hv) as (digits & -> & Hd & Hne & Hval & Hlen).
  assert (Hshort : (length digits <= 5)%nat)
    by (apply Hlen; [change (10 ^ Z.of_nat 5) with 100000; lia|lia]).
  assert (Hgather : gather_digits (String.append (digits_text digits) rest) 0 0
                    = (Z.abs v, Z.of_nat (length digits), rest)).
  { rewrite gather_digits_text by (done || lia).
    rewrite gather_digits_stop by done. by rewrite Hval. }
  unfold parse_number. destruct (Z.ltb_spec v 0) as [Hneg|Hpos].
  - change (String.append (String MINUS (digits_text digits)) rest)
      with (String MINUS (String.append (digits_text digits) rest)).
    cbn [skip_space]. change (isspace MINUS) with false. cbv iota.
    change (Ascii.eqb MINUS MINUS) with true. cbv iota. rewrite Hgather.
    assert (Hfound : (0 <? Z.of_nat (length digits)) = true)
      by (destruct digits; [done|]; cbn [length]; apply Z.ltb_lt; lia).
    rewrite Hfound, to_int_small by (unfold is_int; lia).
    by replace (- Z.abs v) with v by lia.
  - rewrite skip_space_digits by done.
    destruct digits as [|d digits]; [done|].
    apply Forall_cons in Hd as [Hd Hds].
    change (String.append (digits_text (d :: digits)) rest)
      with (String (digit_char d) (String.append (digits_text digits) rest)) in *.
    destruct (digit_char_spec d Hd) as (_ & _ & _ & ->). rewrite Hgather.
    assert (Hfound : (0 <? Z.of_nat (length (d :: digits))) = true)
      by (cbn [length]; apply Z.ltb_lt; lia).
    rewrite Hfound. by replace (Z.abs v) with v by lia.
Qed.

(** X5: parse_number reads back what int_to_text writes: for every value
    from -32767 to 32767, the text of the value followed by anything
    that does not begin with a digit parses to that value, found, with
    the white space after it skipped. *)
Theorem parse_number_int_to_text (v : Z) (rest : string) :
  -32767 <= v <= 32767 ->
  no_digit_ahead rest = true ->
  parse_number (String.append (int_to_text v) rest) = (skip_space rest, true, v).
Proof. apply parse_number_reads_text. Qed.

Lemma append_cons (x : ascii) (a b : string) :
  String.append (String x a) b = String x (String.append a b).
Proof. reflexivity. Qed.

Lemma append_assoc (a b c : string) :
  String.append (String.append a b) c = String.append a (String.append b c).
Proof. induction a as [|x a IH]; [done|]. by rewrite !append_cons, IH. Qed.

Lemma append_empty_r (a : string) : String.append a EmptyString = a.
Proof. induction a as [|x a IH]; [done|]. by rewrite append_cons, IH. Qed.

Lemma skip_space_int_to_text (v : Z) (rest : string) :
  is_argument v ->
  skip_space (String.append (int_to_text v) rest) = String.append (int_to_text v) rest.
Proof.
  intros Hv. destruct (int_to_text_digits v Hv) as (digits & -> & Hd & Hne & _).
  destruct (v <? 0); [done|]. by apply skip_space_digits.
Qed.

Lemma parse_args_arguments (args : list Z) (room : nat) :
  Forall is_argument args ->
  parse_args room (arguments_text args)
  = if (length args <=? room)%nat then Some args else None.
Proof.
  revert room. induction args as [|a args IH]; intros room Hargs.
  - destruct room; reflexivity.
  - apply Forall_cons in Hargs as [Ha Hargs].
    destruct args as [|b args].
    + change (arguments_text [a]) with (int_to_text a).
      rewrite <- (append_empty_r (int_to_text a)).
      destruct room as [|room]; cbn [parse_args];
        rewrite parse_number_reads_text by done; [done|].
      change (skip_space "") with EmptyString.
      destruct room; reflexivity.
    + change (arguments_text (a :: b :: args))
        with (String.append (int_to_text a) (String SPACE (arguments_text (b :: args)))).
      destruct room as [|room]; cbn [parse_args];
        rewrite parse_number_reads_text by done; [done|].
      cbn [skip_space]. change (isspace SPACE) with true. cbv iota.
      assert (Hskip : skip_space (arguments_text (b :: args)) = arguments_text (b :: args)).
      { apply Forall_cons in Hargs as [Hb _]. destruct args as [|c args].
        - change (arguments_text [b]) with (int_to_text b).
          rewrite <- (append_empty_r (int_to_text b)). by apply skip_space_int_to_text.
        - by apply skip_space_int_to_text. }
      rewrite Hskip, IH by done. cbn [length].
      change (S (S (length args)) <=? S room)%nat with (S (length args) <=? room)%nat.
      by destruct (S (length args) <=? room)%nat.
Qed.

Lemma parse_input_reads_command (code : ascii) (args : list Z) (s : machine) :
  isalnum code = true ->
  Forall is_argument args ->
  parse_input (command_text code args) MAX_DCC_ARGS s
  = ((code, if (length args <=? MAX_DCC_ARGS)%nat then Some args else None), s).
Proof.
  intros Hcode Hargs. unfold parse_input, command_text.
  change (0 <? Z.of_nat MAX_DCC_ARGS) with true. cbn [ASSERT].
  rewrite run_bind, ?eval_ret, ?exec_ret. rewrite Hcode.
  by rewrite parse_args_arguments.
Qed.

(** X6: parse_input reads a command letter followed by numbers with single
    spaces between them back as that letter and those numbers, up to
    four of them; with more than four numbers its result is ERROR. *)
Theorem parse_input_command_text (code : ascii) (args : list Z) (s : machine) :
  isalnum code = true ->
  Forall is_argument args ->
  parse_input (command_text code args) MAX_DCC_ARGS s
  = ((code, if (length args <=? MAX_DCC_ARGS)%nat then Some args else None), s).
Proof. apply parse_input_reads_command. Qed.

Lemma process_input_app (xs ys : list ascii) (st : serial_state) (s : machine) :
  process_input (xs ++ ys) st s
  = process_input ys (eval (process_input xs st) s) (exec (process_input xs st) s).
Proof.
  revert st s. induction xs as [|x xs IH]; intros st s; [done|].
  cbn [app process_input]. rewrite run_bind, IH.
  by rewrite eval_bind, exec_bind.
Qed.

Lemma process_char_store (c : ascii) (acc : list ascii) (s : machine) :
  is_command_char c = true ->
  process_char c (SerialState acc true) s
  = (SerialState (if Z.of_nat (length acc) <? SERIAL_BUFFER_SIZE - 1
                  then acc ++ [c] else acc) true, s).
Proof.
  unfold is_command_char, process_char. intros Hc.
  apply andb_true_iff in Hc as [Hc Hdel]. apply andb_true_iff in Hc as [Hc Hspace].
  apply andb_true_iff in Hc as [Hin Hout].
  apply negb_true_iff in Hin, Hout. rewrite Hin, Hout.
  cbn [in_cmd_packet serial_line].
  assert (H1 : (nat_of_ascii c <? nat_of_ascii SPACE)%nat = false)
    by (apply Nat.ltb_ge; by apply Nat.leb_le).
  assert (H2 : (nat_of_ascii DELETE <=? nat_of_ascii c)%nat = false)
    by (apply Nat.leb_gt; by apply Nat.ltb_lt).
  rewrite H1, H2. cbn [orb]. by destruct (_ <? _).
Qed.

Lemma process_input_gather (line rest acc : list ascii) (s : machine) :
  Forall (fun c => is_command_char c = true) line ->
  (length acc <= 31)%nat ->
  process_input (line ++ rest) (SerialState acc true) s
  = process_input rest (SerialState (take 31 (acc ++ line)) true) s.
Proof.
  revert acc. induction line as [|c line IH]; intros acc Hline Hacc.
  - rewrite app_nil_r, take_ge by done. done.
  - apply Forall_cons in Hline as [Hc Hline].
    cbn [app process_input]. rewrite run_bind.
    unfold eval at 1, exec at 1. rewrite process_char_store by done. cbn [fst snd].
    unfold SERIAL_BUFFER_SIZE.
    destruct (Z.ltb_spec (Z.of_nat (length acc)) (32 - 1)) as [Hroom|Hfull].
    + rewrite IH by (done || rewrite length_app; cbn; lia).
      by rewrite <- app_assoc.
    + rewrite IH by done.
      rewrite !take_app_le by lia. done.
Qed.

Lemma process_input_ignored (junk : list ascii) (st : serial_state) (s : machine) :
  in_cmd_packet st = false ->
  Forall (fun c => c <> PROT_IN_CHAR) junk ->
  process_input junk st s = (st, s).
Proof.
  intros Hout Hjunk. induction junk as [|c junk IH]; [done|].
  apply Forall_cons in Hjunk as [Hc Hjunk].
  cbn [process_input]. rewrite run_bind.
  assert (Hstep : process_char c st s = (st, s)).
  { unfold process_char. rewrite (proj2 (Ascii.eqb_neq _ _) Hc), Hout.
    by destruct (Ascii.eqb c PROT_OUT_CHAR). }
  unfold eval, exec. rewrite Hstep. cbn [fst snd]. by apply IH.
Qed.

(** X7: process_input ignores what arrives outside a packet, gathers the
    characters between [ and ] and hands them to scan_line once, at the
    closing bracket, cut to the first 31; the serial buffer is empty
    and out of packet afterwards. *)
Theorem process_input_frames_command (junk line : list ascii)
    (st : serial_state) (s : machine) :
  in_cmd_packet st = false ->
  Forall (fun c => c <> PROT_IN_CHAR) junk ->
  Forall (fun c => is_command_char c = true) line ->
  process_input (junk ++ PROT_IN_CHAR :: line ++ [PROT_OUT_CHAR]) st s
  = (SerialState [] false,
     exec (scan_line (String.string_of_list_ascii (take 31 line))) s).
Proof.
  intros Hout Hjunk Hline.
  rewrite process_input_app. unfold eval, exec.
  rewrite (process_input_ignored junk st s Hout Hjunk). cbn [fst snd].
  change (process_input (PROT_IN_CHAR :: line ++ [PROT_OUT_CHAR]) st s)
    with (process_input (line ++ [PROT_OUT_CHAR]) (SerialState [] true) s).
  rewrite process_input_gather by (done || cbn; lia).
  cbn [app process_input]. rewrite run_bind.
  unfold process_char. change (Ascii.eqb PROT_OUT_CHAR PROT_IN_CHAR) with false.
  change (Ascii.eqb PROT_OUT_CHAR PROT_OUT_CHAR) with true.
  cbn [in_cmd_packet serial_line]. by rewrite eval_bind, exec_bind.
Qed.

Lemma list_ascii_of_string_append (a b : string) :
  String.list_ascii_of_string (String.append a b)
  = String.list_ascii_of_string a ++ String.list_ascii_of_string b.
Proof. induction a as [|x a IH]; [done|]. rewrite append_cons. cbn. by rewrite IH. Qed.

Lemma string_of_list_ascii_of_string (a : string) :
  String.string_of_list_ascii (String.list_ascii_of_string a) = a.
Proof. induction a as [|x a IH]; [done|]. cbn. by rewrite IH. Qed.

Lemma digit_char_command (d : Z) : 0 <= d <= 9 -> is_command_char (digit_char d) = true.
Proof.
  intros Hd.
  assert (Hcases : d = 0 \/ d = 1 \/ d = 2 \/ d = 3 \/ d = 4 \/ d = 5 \/ d = 6
                   \/ d = 7 \/ d = 8 \/ d = 9) by lia.
  repeat (destruct Hcases as [-> | Hcases]; [by vm_compute|]). subst. by vm_compute.
Qed.

Lemma int_to_text_chars (v : Z) :
  is_argument v ->
  Forall (fun c => is_command_char c = true) (String.list_ascii_of_string (int_to_text v))
  /\ (length (String.list_ascii_of_string (int_to_text v)) <= 6)%nat.
Proof.
  intros Hv. destruct (int_to_text_digits v Hv) as (digits & -> & Hd & _ & _ & Hlen).
  assert (Hshort : (length digits <= 5)%nat)
    by (apply Hlen; [change (10 ^ Z.of_nat 5) with 100000; unfold is_argument in Hv; lia|lia]).
  assert (Hchars : Forall (fun c => is_command_char c = true)
                     (String.list_ascii_of_string (digits_text digits))
                   /\ length (String.list_ascii_of_string (digits_text digits))
                      = length digits).
  { unfold digits_text. clear Hlen Hshort. induction Hd as [|d digits Hd Hds IH]; [by split|].
    destruct IH as [IH1 IH2]. cbn. split; [|by rewrite IH2].
    constructor; [by apply digit_char_command|done]. }
  destruct Hchars as [Hchars Hn].
  destruct (v <? 0); cbn [String.list_ascii_of_string length].
  - split; [constructor; [by vm_compute|done]|lia].
  - split; [done|lia].
Qed.

Lemma arguments_text_chars (args : list Z) :
  Forall is_argument args ->
  Forall (fun c => is_command_char c = true)
    (String.list_ascii_of_string (arguments_text args))
  /\ (length (String.list_ascii_of_string (arguments_text args)) <= 7 * length args)%nat.
Proof.
  induction args as [|a args IH]; intros Hargs; [by split|].
  apply Forall_cons in Hargs as [Ha Hargs].
  destruct (int_to_text_chars a Ha) as [Hc Hl]. destruct (IH Hargs) as [IHc IHl].
  destruct args as [|b args].
  - change (arguments_text [a]) with (int_to_text a). split; [done|cbn [length]; lia].
  - change (arguments_text (a :: b :: args))
      with (String.append (int_to_text a) (String SPACE (arguments_text (b :: args)))).
    rewrite list_ascii_of_string_append. cbn [String.list_ascii_of_string].
    split.
    + apply Forall_app. split; [done|]. constructor; [by vm_compute|done].
    + rewrite length_app. cbn [length] in *. lia.
Qed.

Lemma process_input_packet (line : list ascii) (st : serial_state) (s : machine) :
  Forall (fun c => is_command_char c = true) line ->
  process_input (PROT_IN_CHAR :: line ++ [PROT_OUT_CHAR]) st s
  = (SerialState [] false,
     exec (scan_line (String.string_of_list_ascii (take 31 line))) s).
Proof.
  intros Hline.
  change (process_input (PROT_IN_CHAR :: line ++ [PROT_OUT_CHAR]) st s)
    with (process_input (line ++ [PROT_OUT_CHAR]) (SerialState [] true) s).
  rewrite process_input_gather by (done || cbn; lia).
  cbn [app process_input]. rewrite run_bind.
  unfold process_char. change (Ascii.eqb PROT_OUT_CHAR PROT_IN_CHAR) with false.
  change (Ascii.eqb PROT_OUT_CHAR PROT_OUT_CHAR) with true.
  cbn [in_cmd_packet serial_line]. by rewrite eval_bind, exec_bind.
Qed.

Lemma reply_3_text (code : ascii) (a b c : Z) :
  String.list_ascii_of_string (reply_3 code a b c)
  = PROT_IN_CHAR :: String.list_ascii_of_string (command_text code [a; b; c])
    ++ [PROT_OUT_CHAR] ++ [NL].
Proof.
  unfold reply_3, _reply_in, command_text, _reply_out.
  change (arguments_text [a; b; c])
    with (String.append (int_to_text a)
            (String SPACE (String.append (int_to_text b) (String SPACE (int_to_text c))))).
  cbn [String.list_ascii_of_string]. f_equal. f_equal.
  rewrite !list_ascii_of_string_append. cbn [String.list_ascii_of_string].
  rewrite !list_ascii_of_string_append. cbn [String.list_ascii_of_string].
  rewrite !list_ascii_of_string_append. cbn [String.list_ascii_of_string].
  repeat (rewrite <- ?app_assoc; cbn [app]). done.
Qed.

Lemma scan_line_M_text (args : list Z) (s : machine) :
  Forall is_argument args -> (length args <= MAX_DCC_ARGS)%nat ->
  scan_line (command_text "M" args) s = scan_line_M args s.
Proof.
  intros Hargs Hlen. unfold scan_line.
  rewrite run_bind. unfold eval, exec.
  rewrite parse_input_reads_command by done. cbn [fst snd].
  by rewrite (proj2 (Nat.leb_le _ _) Hlen).
Qed.

(** X8: The reply to a motion command is itself a motion command: fed to
    process_input, the text reply_3 builds for M runs the M case on the
    same three numbers, whatever the serial state was before. *)
Theorem motion_reply_reads_back (target speed dir : Z) (st : serial_state) (s : machine) :
  is_argument target -> is_argument speed -> is_argument dir ->
  process_input (String.list_ascii_of_string (reply_3 "M" target speed dir)) st s
  = (SerialState [] false, exec (scan_line_M [target; speed; dir]) s).
Proof.
  intros Ht Hs Hd.
  assert (Hargs : Forall is_argument [target; speed; dir])
    by (constructor; [done|constructor; [done|constructor; [done|constructor]]]).
  destruct (arguments_text_chars _ Hargs) as [Hchars Hlen]. cbn [length] in Hlen.
  rewrite reply_3_text, app_assoc, app_comm_cons, process_input_app.
  unfold eval, exec. rewrite process_input_packet.
  2:{ unfold command_text. cbn [String.list_ascii_of_string].
      constructor; [by vm_compute|done]. }
  cbn [fst snd].
  rewrite take_ge by (unfold command_text; cbn [String.list_ascii_of_string length]; lia).
  rewrite string_of_list_ascii_of_string.
  rewrite process_input_ignored; [|done|by repeat constructor].
  f_equal. unfold exec.
  rewrite scan_line_M_text; [done|done|unfold MAX_DCC_ARGS; cbn [length]; lia].
Qed.

Lemma length_append (a b : string) :
  String.length (String.append a b) = (String.length a + String.length b)%nat.
Proof. induction a as [|x a IH]; [done|]. rewrite append_cons. cbn. by rewrite IH. Qed.

Lemma length_digits_text (digits : list Z) :
  String.length (digits_text digits) = length digits.
Proof. induction digits as [|d digits IH]; [done|]. cbn. by rewrite <- IH. Qed.

Lemma length_int_to_text (v : Z) (k : nat) :
  is_argument v -> Z.abs v < 10 ^ Z.of_nat k -> (0 < k)%nat ->
  (String.length (int_to_text v) <= k + (if (v <? 0)%Z then 1 else 0))%nat.
Proof.
  intros Hv Hk Hpos. destruct (int_to_text_digits v Hv) as (digits & -> & _ & _ & _ & Hlen).
  specialize (Hlen k Hk Hpos).
  destruct (v <? 0); cbn [String.length]; rewrite length_digits_text; lia.
Qed.

Lemma length_int_to_text_nonneg (v : Z) (k : nat) (bound : Z) :
  bound = 10 ^ Z.of_nat k -> 0 <= v < bound -> v <= 32767 -> (0 < k)%nat ->
  (String.length (int_to_text v) <= k)%nat.
Proof.
  intros -> Hv Hsmall Hk.
  pose proof (length_int_to_text v k ltac:(unfold is_argument; lia) ltac:(lia) Hk) as H.
  destruct (Z.ltb_spec v 0); lia.
Qed.

Lemma length_reply_3 (code : ascii) (a b c : Z) :
  String.length (reply_3 code a b c)
  = (6 + String.length (int_to_text a) + String.length (int_to_text b)
     + String.length (int_to_text c))%nat.
Proof.
  unfold reply_3, _reply_in, _reply_out. cbn [String.length].
  rewrite !length_append. cbn [String.length]. rewrite !length_append.
  cbn [String.length]. rewrite !length_append. cbn [String.length]. lia.
Qed.

Lemma length_reply_2 (code : ascii) (a b : Z) :
  String.length (reply_2 code a b)
  = (5 + String.length (int_to_text a) + String.length (int_to_text b))%nat.
Proof.
  unfold reply_2, _reply_in, _reply_out. cbn [String.length].
  rewrite !length_append. cbn [String.length]. rewrite !length_append.
  cbn [String.length]. lia.
Qed.

Lemma length_reply_2c (code : ascii) (a b : Z) :
  String.length (reply_2c code a b)
  = (7 + String.length (int_to_text a) + String.length (int_to_text b))%nat.
Proof.
  unfold reply_2c, _reply_in, _reply_out. cbn [String.length].
  rewrite !length_append. cbn [String.length]. rewrite !length_append.
  cbn [String.length]. lia.
Qed.

Lemma length_reply_1 (code : ascii) (a : Z) :
  String.length (reply_1 code a) = (4 + String.length (int_to_text a))%nat.
Proof.
  unfold reply_1, _reply_in, _reply_out. cbn [String.length].
  rewrite !length_append. cbn [String.length]. lia.
Qed.

Lemma length_int_to_text_int (v : Z) : is_int v -> (String.length (int_to_text v) <= 6)%nat.
Proof.
  intros Hv. unfold is_int in Hv. destruct (decide (v = -32768)) as [->|Hne].
  - vm_compute; lia.
  - pose proof (length_int_to_text v 5 ltac:(unfold is_argument; lia)
                  ltac:(change (10 ^ Z.of_nat 5) with 100000; lia) ltac:(lia)).
    destruct (v <? 0); lia.
Qed.

(** X9: No reply overruns the array it is built in: for arguments the
    commands accept, each text written to contains (16 bytes) has at
    most 15 characters before its EOS; the error report fits the 32
    bytes of flush_error_queue for any two int values, the load report
    the 16 bytes of report_track_power, and the power reply the 8
    bytes of case P. *)
Theorem replies_fit_their_buffers
    (target speed dir func state acc cv value bnum err arg load mode : Z) :
  MINIMUM_DCC_ADDRESS <= target <= MAXIMUM_DCC_ADDRESS ->
  EMERGENCY_STOP <= speed <= MAXIMUM_DCC_SPEED ->
  0 <= dir <= 1 ->
  MIN_FUNCTION_NUMBER <= func <= MAX_FUNCTION_NUMBER ->
  0 <= state <= 1 ->
  MIN_ACCESSORY_EXT_ADDRESS <= acc <= MAX_ACCESSORY_EXT_ADDRESS ->
  MINIMUM_CV_ADDRESS <= cv <= MAXIMUM_CV_ADDRESS ->
  0 <= value <= 255 ->
  0 <= bnum <= 7 ->
  is_int err -> is_int arg -> is_int load ->
  0 <= mode <= 2 ->
  Z.of_nat (String.length (reply_3 "M" target speed dir)) < MAXIMUM_DCC_REPLY
  /\ Z.of_nat (String.length (reply_3 "F" target func state)) < MAXIMUM_DCC_REPLY
  /\ Z.of_nat (String.length (reply_2 "A" acc state)) < MAXIMUM_DCC_REPLY
  /\ Z.of_nat (String.length (reply_2c "S" cv value)) < MAXIMUM_DCC_REPLY
  /\ Z.of_nat (String.length (reply_2c "V" cv value)) < MAXIMUM_DCC_REPLY
  /\ Z.of_nat (String.length (reply_2c "R" cv bnum)) < MAXIMUM_DCC_REPLY
  /\ Z.of_nat (String.length (reply_2 "E" err arg)) < ERROR_OUTPUT_BUFFER
  /\ Z.of_nat (String.length (reply_1 "L" load)) < TRACK_POWER_BUFFER
  /\ Z.of_nat (String.length (reply_1 "P" mode)) < POWER_REPLY_BUFFER.
Proof.
  unfold MINIMUM_DCC_ADDRESS, MAXIMUM_DCC_ADDRESS, EMERGENCY_STOP, MAXIMUM_DCC_SPEED,
    MIN_FUNCTION_NUMBER, MAX_FUNCTION_NUMBER, MIN_ACCESSORY_EXT_ADDRESS,
    MAX_ACCESSORY_EXT_ADDRESS, MINIMUM_CV_ADDRESS, MAXIMUM_CV_ADDRESS, MAXIMUM_DCC_REPLY,
    ERROR_OUTPUT_BUFFER, TRACK_POWER_BUFFER, POWER_REPLY_BUFFER.
  intros Htarget Hspeed Hdir Hfunc Hstate Hacc Hcv Hvalue Hbnum Herr Harg Hload Hmode.
  rewrite !length_reply_3, !length_reply_2, !length_reply_2c, !length_reply_1.
  pose proof (length_int_to_text_nonneg target 5 100000 eq_refl ltac:(lia) ltac:(lia) ltac:(lia)) as L1.
  assert (L2 : (String.length (int_to_text speed) <= 3)%nat).
  { destruct (decide (speed = -1)) as [->|?]; [vm_compute; lia|].
    apply (length_int_to_text_nonneg speed 3 1000 eq_refl); lia. }
  pose proof (length_int_to_text_nonneg dir 1 10 eq_refl ltac:(lia) ltac:(lia) ltac:(lia)) as L3.
  pose proof (length_int_to_text_nonneg func 2 100 eq_refl ltac:(lia) ltac:(lia) ltac:(lia)) as L4.
  pose proof (length_int_to_text_nonneg state 1 10 eq_refl ltac:(lia) ltac:(lia) ltac:(lia)) as L5.
  pose proof (length_int_to_text_nonneg acc 4 10000 eq_refl ltac:(lia) ltac:(lia) ltac:(lia)) as L6.
  pose proof (length_int_to_text_nonneg cv 4 10000 eq_refl ltac:(lia) ltac:(lia) ltac:(lia)) as L7.
  pose proof (length_int_to_text_nonneg value 3 1000 eq_refl ltac:(lia) ltac:(lia) ltac:(lia)) as L8.
  pose proof (length_int_to_text_nonneg bnum 1 10 eq_refl ltac:(lia) ltac:(lia) ltac:(lia)) as L9.
  pose proof (length_int_to_text_int err Herr) as L10.
  pose proof (length_int_to_text_int arg Harg) as L11.
  pose proof (length_int_to_text_int load Hload) as L12.
  pose proof (length_int_to_text_nonneg mode 1 10 eq_refl ltac:(lia) ltac:(lia) ltac:(lia)) as L13.
  repeat split; lia.
Qed.

(** X10: scan_line reports nothing and changes nothing for an empty line,
    for a line whose first character is not a letter or a digit, and
    for a line with more than four numbers; a well formed line whose
    letter is none of P, M, A, F, S, V, R reports UNRECOGNISED_COMMAND
    with the letter as argument. *)
Theorem scan_line_drops_malformed
    (bad code : ascii) (rest : string) (many args : list Z) (s : machine) :
  isalnum bad = false ->
  Forall is_argument many -> (MAX_DCC_ARGS < length many)%nat ->
  isalnum code = true ->
  code ∉ ["P"; "M"; "A"; "F"; "S"; "V"; "R"]%char ->
  Forall is_argument args -> (length args <= MAX_DCC_ARGS)%nat ->
  scan_line EmptyString s = (tt, s)
  /\ scan_line (String bad rest) s = (tt, s)
  /\ scan_line (command_text bad many) s = (tt, s)
  /\ scan_line (command_text code many) s = (tt, s)
  /\ scan_line (command_text code args) s
     = report_error UNRECOGNISED_COMMAND (char_code code) s.
Proof.
  intros Hbad Hmany Hlong Hcode Hletter Hargs Hlen.
  assert (Hover : (length many <=? MAX_DCC_ARGS)%nat = false) by (by apply Nat.leb_gt).
  split; [reflexivity|]. split.
  { unfold scan_line, parse_input. change (0 <? Z.of_nat MAX_DCC_ARGS) with true.
    cbn [ASSERT]. rewrite !run_bind, ?exec_ret, ?eval_ret. cbv beta iota.
    rewrite Hbad. reflexivity. }
  split.
  { unfold scan_line, parse_input, command_text.
    change (0 <? Z.of_nat MAX_DCC_ARGS) with true.
    cbn [ASSERT]. rewrite !run_bind, ?exec_ret, ?eval_ret. cbv beta iota.
    rewrite Hbad. reflexivity. }
  split.
  { unfold scan_line. rewrite run_bind. unfold eval, exec.
    rewrite parse_input_reads_command by done. cbn [fst snd]. by rewrite Hover. }
  unfold scan_line. rewrite run_bind. unfold eval, exec.
  rewrite parse_input_reads_command by done. cbn [fst snd].
  rewrite (proj2 (Nat.leb_le _ _) Hlen).
  repeat (match goal with
          | |- context [Ascii.eqb code ?c] =>
              destruct (Ascii.eqb_spec code c) as [->|_];
              [exfalso; apply Hletter; set_solver|]
          end).
  reflexivity.
Qed.

Lemma parse_number_int_to_text_witness :
  (-32767 <= -1024 <= 32767 /\ no_digit_ahead " 7]" = true)
  /\ parse_number "-1024 7]" = ("7]", true, -1024).
Proof.
  assert (H1 : -32767 <= -1024 <= 32767) by (vm_compute; split; congruence).
  assert (H2 : no_digit_ahead " 7]" = true) by reflexivity.
  split; [by split|].
  exact (parse_number_int_to_text (-1024) " 7]" H1 H2).
Defined.

Lemma parse_input_command_text_witness :
  (isalnum "M" = true /\ Forall is_argument [3; -1; 0])
  /\ eval (parse_input (command_text "M" [3; -1; 0]) MAX_DCC_ARGS) setup
     = ("M"%char, Some [3; -1; 0]).
Proof.
  assert (H1 : isalnum "M" = true) by reflexivity.
  assert (H2 : Forall is_argument [3; -1; 0])
    by (repeat constructor; vm_compute; congruence).
  split; [by split|].
  unfold eval. rewrite (parse_input_command_text "M" [3; -1; 0] setup H1 H2).
  reflexivity.
Defined.

Lemma process_input_frames_command_witness :
  let st := SerialState [] false in
  let junk := String.list_ascii_of_string "]x" in
  let line := String.list_ascii_of_string "P1" in
  (in_cmd_packet st = false
   /\ Forall (fun c => c <> PROT_IN_CHAR) junk
   /\ Forall (fun c => is_command_char c = true) line)
  /\ global_power_state
       (exec (process_input (String.list_ascii_of_string "]x[P1]") st) setup)
     = GLOBAL_POWER_MAIN.
Proof.
  set (st := SerialState [] false).
  set (junk := String.list_ascii_of_string "]x").
  set (line := String.list_ascii_of_string "P1").
  assert (H1 : in_cmd_packet st = false) by reflexivity.
  assert (H2 : Forall (fun c => c <> PROT_IN_CHAR) junk)
    by (repeat constructor; discriminate).
  assert (H3 : Forall (fun c => is_command_char c = true) line)
    by (repeat constructor).
  split; [by repeat split|].
  change (String.list_ascii_of_string "]x[P1]")
    with (junk ++ PROT_IN_CHAR :: line ++ [PROT_OUT_CHAR]).
  unfold exec. rewrite (process_input_frames_command junk line st setup H1 H2 H3).
  vm_compute. reflexivity.
Defined.

Lemma motion_reply_reads_back_witness :
  (is_argument 3 /\ is_argument 10 /\ is_argument 1)
  /\ tb_pending
       (buffer 3 (exec (process_input (String.list_ascii_of_string (reply_3 "M" 3 10 1))
                          (SerialState ["x"%char] true)) setup))
     = [PendingPacket 3 false 0 4 [0x03; 0x3F; 0x8B; 0xB7; 0; 0]].
Proof.
  assert (H1 : is_argument 3) by (vm_compute; split; congruence).
  assert (H2 : is_argument 10) by (vm_compute; split; congruence).
  assert (H3 : is_argument 1) by (vm_compute; split; congruence).
  split; [by repeat split|].
  unfold exec at 1.
  rewrite (motion_reply_reads_back 3 10 1 (SerialState ["x"%char] true) setup H1 H2 H3).
  vm_compute. reflexivity.
Defined.

Lemma replies_fit_their_buffers_witness :
  (MINIMUM_DCC_ADDRESS <= 10239 <= MAXIMUM_DCC_ADDRESS
   /\ EMERGENCY_STOP <= 126 <= MAXIMUM_DCC_SPEED
   /\ 0 <= 1 <= 1
   /\ MIN_FUNCTION_NUMBER <= 28 <= MAX_FUNCTION_NUMBER
   /\ 0 <= 1 <= 1
   /\ MIN_ACCESSORY_EXT_ADDRESS <= 2048 <= MAX_ACCESSORY_EXT_ADDRESS
   /\ MINIMUM_CV_ADDRESS <= 1024 <= MAXIMUM_CV_ADDRESS
   /\ 0 <= 255 <= 255
   /\ 0 <= 7 <= 7
   /\ is_int (-32768) /\ is_int (-32768) /\ is_int 1023
   /\ 0 <= 2 <= 2)
  /\ Z.of_nat (String.length (reply_3 "M" 10239 126 1)) < MAXIMUM_DCC_REPLY
  /\ Z.of_nat (String.length (reply_2 "E" (-32768) (-32768))) < ERROR_OUTPUT_BUFFER.
Proof.
  assert (H1 : MINIMUM_DCC_ADDRESS <= 10239 <= MAXIMUM_DCC_ADDRESS)
    by (vm_compute; split; congruence).
  assert (H2 : EMERGENCY_STOP <= 126 <= MAXIMUM_DCC_SPEED)
    by (vm_compute; split; congruence).
  assert (H3 : 0 <= 1 <= 1) by (vm_compute; split; congruence).
  assert (H4 : MIN_FUNCTION_NUMBER <= 28 <= MAX_FUNCTION_NUMBER)
    by (vm_compute; split; congruence).
  assert (H6 : MIN_ACCESSORY_EXT_ADDRESS <= 2048 <= MAX_ACCESSORY_EXT_ADDRESS)
    by (vm_compute; split; congruence).
  assert (H7 : MINIMUM_CV_ADDRESS <= 1024 <= MAXIMUM_CV_ADDRESS)
    by (vm_compute; split; congruence).
  assert (H8 : 0 <= 255 <= 255) by (vm_compute; split; congruence).
  assert (H9 : 0 <= 7 <= 7) by (vm_compute; split; congruence).
  assert (H10 : is_int (-32768)) by (vm_compute; split; congruence).
  assert (H12 : is_int 1023) by (vm_compute; split; congruence).
  assert (H13 : 0 <= 2 <= 2) by (vm_compute; split; congruence).
  split; [by repeat split|].
  destruct (replies_fit_their_buffers 10239 126 1 28 1 2048 1024 255 7 (-32768) (-32768)
              1023 2 H1 H2 H3 H4 H3 H6 H7 H8 H9 H10 H10 H12 H13)
    as (HM & _ & _ & _ & _ & _ & HE & _).
  split; [exact HM|exact HE].
Defined.

Lemma scan_line_drops_malformed_witness :
  (isalnum "?" = false
   /\ Forall is_argument [1; 2; 3; 4; 5] /\ (MAX_DCC_ARGS < length [1; 2; 3; 4; 5])%nat
   /\ isalnum "Q" = true
   /\ ("Q"%char ∉ ["P"; "M"; "A"; "F"; "S"; "V"; "R"]%char)
   /\ Forall is_argument [7] /\ (length [7] <= MAX_DCC_ARGS)%nat)
  /\ exec (scan_line (command_text "Q" [1; 2; 3; 4; 5])) setup = setup
  /\ pending_errors (m_errors (exec (scan_line (command_text "Q" [7])) setup))
     = [QueuedError UNRECOGNISED_COMMAND 81].
Proof.
  assert (H1 : isalnum "?" = false) by reflexivity.
  assert (H2 : Forall is_argument [1; 2; 3; 4; 5])
    by (repeat constructor; vm_compute; congruence).
  assert (H3 : (MAX_DCC_ARGS < length [1; 2; 3; 4; 5])%nat) by (vm_compute; lia).
  assert (H4 : isalnum "Q" = true) by reflexivity.
  assert (H5 : "Q"%char ∉ ["P"; "M"; "A"; "F"; "S"; "V"; "R"]%char)
    by (rewrite !not_elem_of_cons; repeat split; [discriminate..|apply not_elem_of_nil]).
  assert (H6 : Forall is_argument [7]) by (repeat constructor; vm_compute; congruence).
  assert (H7 : (length [7] <= MAX_DCC_ARGS)%nat) by (vm_compute; lia).
  split; [by repeat split|].
  destruct (scan_line_drops_malformed "?" "Q" "" [1; 2; 3; 4; 5] [7] setup
              H1 H2 H3 H4 H5 H6 H7) as (_ & _ & _ & Hmany & Hunknown).
  split; unfold exec.
  - by rewrite Hmany.
  - rewrite Hunknown. vm_compute. reflexivity.
Defined.

(** ** Function settings *)

Lemma sublist_filter_mono {A} (P : A -> Prop) `{!forall x, Decision (P x)}
    (l1 l2 : list A) :
  l1 `sublist_of` l2 -> filter P l1 `sublist_of` filter P l2.
Proof.
  induction 1 as [|x l1 l2 Hsub IH|x l1 l2 Hsub IH]; [done|..]; rewrite ?filter_cons.
  - destruct (decide (P x)); [by apply sublist_skip|done].
  - destruct (decide (P x)); [by apply sublist_cons|done].
Qed.

(** What find_func_cache leaves: the record of the target at the head. *)
Lemma touch_cache_head (target : Z) (cache : list func_cache) :
  cache <> [] ->
  exists bits rest,
    touch_cache target cache = FuncCache target bits :: rest
    /\ length (FuncCache target bits :: rest) = length cache
    /\ (forall P : list Z -> Prop,
          P (replicate (Z.to_nat FUNCTION_BIT_ARRAY) 0) ->
          Forall (fun r => P (fc_bits r)) cache ->
          Forall (fun r => P (fc_bits r)) (FuncCache target bits :: rest))
    /\ (NoDup (cached_targets cache) ->
        NoDup (cached_targets (FuncCache target bits :: rest))).
Proof.
  intros Hne. unfold touch_cache.
  destruct (list_find _ cache) as [[i r]|] eqn:Hfind.
  - apply list_find_Some in Hfind as (Hi & Hr & _). simpl in Hr.
    destruct r as [t bits]. cbn [fc_target] in Hr. subst t.
    destruct i as [|i].
    + destruct cache as [|r0 rest]; [done|]. cbn in Hi. injection Hi as ->.
      exists bits, rest. done.
    + exists bits, (delete (S i) cache).
      assert (Hperm : FuncCache target bits :: delete (S i) cache ≡ₚ cache)
        by (symmetry; by apply delete_Permutation).
      split; [done|]. split; [by rewrite Hperm|]. split.
      * intros P _ Hall. by rewrite Hperm.
      * intros Hnodup. unfold cached_targets in *. by rewrite Hperm.
  - destruct (last cache) as [lru|] eqn:Hlast; [|by apply last_None in Hlast].
    exists (replicate (Z.to_nat FUNCTION_BIT_ARRAY) 0), (take (length cache - 1) cache).
    split; [done|]. split.
    { cbn [length]. rewrite length_take. destruct cache; [done|]. cbn [length]. lia. }
    split.
    + intros P Hnew Hall. constructor; [done|]. by apply Forall_take.
    + intros Hnodup. unfold cached_targets in *. cbn [map fc_target].
      assert (Hsub : NoDup (filter (fun t => t <> 0)
                              (map fc_target (take (length cache - 1) cache)))).
      { eapply sublist_NoDup; [exact Hnodup|].
        apply sublist_filter_mono. apply fmap_sublist, sublist_take. }
      rewrite filter_cons. destruct (decide (target <> 0)) as [Hnz|_]; [|done].
      apply NoDup_cons. split; [|done].
      rewrite list_elem_of_filter. intros [_ Hin].
      apply list_elem_of_fmap in Hin as (r & Hr & Hin).
      apply list_find_None in Hfind. rewrite Forall_forall in Hfind.
      apply (Hfind r); [|done]. eapply elem_of_sublist; [exact Hin|apply sublist_take].
Qed.

Lemma touch_cache_again (target : Z) (bits : list Z) (rest : list func_cache) :
  touch_cache target (FuncCache target bits :: rest) = FuncCache target bits :: rest.
Proof.
  unfold touch_cache. cbn [list_find]. unfold fc_target at 1.
  by rewrite decide_True by done.
Qed.

Lemma mask_check_all (x f g : Z) :
  is_byte x -> 0 <= f <= MAX_FUNCTION_NUMBER -> 0 <= g <= MAX_FUNCTION_NUMBER ->
  mask_check x f g = true.
Proof.
  intros Hx Hf Hg. unfold MAX_FUNCTION_NUMBER in *.
  assert (Hall : forallb (fun a => forallb (fun b => forallb (fun c =>
                   mask_check (Z.of_nat a) (Z.of_nat b) (Z.of_nat c))
                   (seq 0 29)) (seq 0 29)) (seq 0 256) = true)
    by (vm_compute; reflexivity).
  rewrite forallb_forall in Hall.
  specialize (Hall (Z.to_nat x) ltac:(apply in_seq; unfold is_byte in Hx; lia)).
  rewrite forallb_forall in Hall.
  specialize (Hall (Z.to_nat f) ltac:(apply in_seq; lia)).
  rewrite forallb_forall in Hall.
  specialize (Hall (Z.to_nat g) ltac:(apply in_seq; lia)).
  unfold is_byte in Hx. by rewrite !Z2Nat.id in Hall by lia.
Qed.

Lemma get_function_spec (target func val : Z) (s : machine) :
  eval (get_function target func val) s
  = (if bit_is_on (fc_bits (touch_cache target (function_cache s) !!! 0%nat)) func
     then val else 0)
  /\ function_cache (exec (get_function target func val) s)
     = touch_cache target (function_cache s).
Proof.
  unfold get_function. rewrite !eval_bind, !exec_bind, eval_gets, exec_gets.
  set (s1 := exec (ASSERT _ 993) s).
  assert (Hs1 : function_cache s1 = function_cache s)
    by (unfold s1; by rewrite exec_ASSERT).
  set (s2 := exec (find_func_cache target) s1).
  assert (Hs2 : function_cache s2 = touch_cache target (function_cache s))
    by (unfold s2; by rewrite find_func_cache_cache, Hs1).
  unfold head_bits. rewrite Hs2. fold (function_byte func) (function_mask func).
  fold (bit_is_on (fc_bits (touch_cache target (function_cache s) !!! 0%nat)) func).
  destruct (bit_is_on _ func); by rewrite eval_ret, exec_ret.
Qed.

(** The bits of a record after function [func] is given [state]. *)
Lemma bit_is_on_set (bits : list Z) (f g : Z) :
  length bits = Z.to_nat FUNCTION_BIT_ARRAY -> Forall is_byte bits ->
  0 <= f <= MAX_FUNCTION_NUMBER -> 0 <= g <= MAX_FUNCTION_NUMBER ->
  let i := function_byte f in
  let on := <[i := Z.lor (bits !!! i) (function_mask f)]> bits in
  let off := <[i := Z.land (bits !!! i) (to_byte (Z.lnot (function_mask f)))]> bits in
  bit_is_on on g = (if decide (g = f) then true else bit_is_on bits g)
  /\ bit_is_on off g = (if decide (g = f) then false else bit_is_on bits g)
  /\ Forall is_byte on /\ Forall is_byte off.
Proof.
  intros Hlen Hbytes Hf Hg i on off.
  assert (Hi : (i < length bits)%nat).
  { pose proof (mask_check_all 0 f f ltac:(unfold is_byte; lia) Hf Hf) as H.
    unfold mask_check in H. rewrite !andb_true_iff in H. destruct H as [_ H].
    apply bool_decide_eq_true in H. unfold i. by rewrite Hlen. }
  assert (Hx : is_byte (bits !!! i)).
  { rewrite Forall_forall in Hbytes. apply Hbytes. by apply list_elem_of_lookup_total_2. }
  pose proof (mask_check_all (bits !!! i) f g Hx Hf Hg) as Hcheck.
  unfold mask_check in Hcheck. rewrite !andb_true_iff in Hcheck.
  destruct Hcheck as (((((Hset & Hclear) & Hbset) & Hbclear) & Hother) & _).
  apply bool_decide_eq_true in Hbset, Hbclear.
  apply negb_true_iff in Hset. apply Z.eqb_eq in Hclear.
  assert (Hon : Forall is_byte on)
    by (unfold on; apply Forall_insert; done).
  assert (Hoff : Forall is_byte off)
    by (unfold off; apply Forall_insert; done).
  split; [|split; [|by split]].
  - unfold bit_is_on. destruct (decide (g = f)) as [->|Hne].
    + unfold on. fold i. rewrite list_lookup_total_insert_eq by done. by rewrite Hset.
    + destruct (decide (function_byte g = i)) as [E|E].
      * rewrite bool_decide_eq_true_2 in Hother by (split; [done|by rewrite E]).
        apply andb_true_iff in Hother as [Hother _]. apply Z.eqb_eq in Hother.
        unfold on. rewrite E, list_lookup_total_insert_eq by done. by rewrite Hother.
      * unfold on. by rewrite list_lookup_total_insert_ne by done.
  - unfold bit_is_on. destruct (decide (g = f)) as [->|Hne].
    + unfold off. fold i. rewrite list_lookup_total_insert_eq by done.
      rewrite Hclear. done.
    + destruct (decide (function_byte g = i)) as [E|E].
      * rewrite bool_decide_eq_true_2 in Hother by (split; [done|by rewrite E]).
        apply andb_true_iff in Hother as [_ Hother]. apply Z.eqb_eq in Hother.
        unfold off. rewrite E, list_lookup_total_insert_eq by done. by rewrite Hother.
      * unfold off. by rewrite list_lookup_total_insert_ne by done.
Qed.

Lemma update_function_spec (target func : Z) (state : bool) (s : machine)
    (bits : list Z) (rest : list func_cache) :
  touch_cache target (function_cache s) = FuncCache target bits :: rest ->
  0 <= func <= MAX_FUNCTION_NUMBER ->
  let i := function_byte func in
  let bits' :=
    if Bool.eqb (bit_is_on bits func) state then bits
    else if state then <[i := Z.lor (bits !!! i) (function_mask func)]> bits
    else <[i := Z.land (bits !!! i) (to_byte (Z.lnot (function_mask func)))]> bits in
  eval (update_function target func state) s = negb (Bool.eqb (bit_is_on bits func) state)
  /\ function_cache (exec (update_function target func state) s)
     = FuncCache target bits' :: rest.
Proof.
  intros Htouch Hfunc i bits'. unfold update_function.
  rewrite !eval_bind, !exec_bind, eval_gets, exec_gets.
  set (s1 := exec (ASSERT _ 957) s).
  assert (Hs1 : function_cache s1 = function_cache s)
    by (unfold s1; by rewrite exec_ASSERT).
  set (s2 := exec (find_func_cache target) s1).
  assert (Hs2 : function_cache s2 = FuncCache target bits :: rest)
    by (unfold s2; by rewrite find_func_cache_cache, Hs1).
  unfold head_bits. rewrite Hs2.
  change ((FuncCache target bits :: rest) !!! 0%nat) with (FuncCache target bits).
  cbn [fc_bits]. fold (function_byte func) (function_mask func). fold i.
  unfold bits', bit_is_on. fold i.
  destruct state; destruct (Z.land (bits !!! i) (function_mask func) =? 0);
    cbn [negb Bool.eqb]; rewrite ?eval_bind, ?exec_bind, ?eval_ret, ?exec_ret;
    rewrite ?exec_modify; unfold set_head_bits; cbn [function_cache set_function_cache];
    rewrite ?Hs2; done.
Qed.

Lemma function_is_on_spec (target func : Z) (s : machine)
    (bits : list Z) (rest : list func_cache) :
  touch_cache target (function_cache s) = FuncCache target bits :: rest ->
  function_is_on target func s = bit_is_on bits func.
Proof.
  intros Htouch. unfold function_is_on.
  destruct (get_function_spec target func 1 s) as [-> _]. rewrite Htouch.
  change ((FuncCache target bits :: rest) !!! 0%nat) with (FuncCache target bits).
  cbn [fc_bits]. by destruct (bit_is_on bits func).
Qed.

(** X11: update_function gives function f of the target the state asked
    for and leaves its other functions as they were, as get_function
    reads them before and after; it returns true exactly when the state
    of f changed.  The cache keeps its shape (as many records, four
    bytes each, no target twice) and has the target's record at its
    head. *)
Theorem update_function_sets_one_function
    (target f g val : Z) (state : bool) (s : machine) :
  cache_wf (function_cache s) ->
  0 <= f <= MAX_FUNCTION_NUMBER -> 0 <= g <= MAX_FUNCTION_NUMBER ->
  let s' := exec (update_function target f state) s in
  eval (update_function target f state) s
    = negb (Bool.eqb (function_is_on target f s) state)
  /\ function_is_on target f s' = state
  /\ (g <> f -> function_is_on target g s' = function_is_on target g s)
  /\ eval (get_function target g val) s' = (if function_is_on target g s' then val else 0)
  /\ cache_wf (function_cache s')
  /\ length (function_cache s') = length (function_cache s)
  /\ fc_target (function_cache s' !!! 0%nat) = target.
Proof.
  intros (Hne & Hshape & Hnodup) Hf Hg s'.
  destruct (touch_cache_head target (function_cache s) Hne)
    as (bits & rest & Htouch & Hlen & Hkeep & Hdup).
  assert (Hall : Forall (fun r => length (fc_bits r) = Z.to_nat FUNCTION_BIT_ARRAY
                                  /\ Forall is_byte (fc_bits r))
                   (FuncCache target bits :: rest)).
  { apply (Hkeep (fun b => length b = Z.to_nat FUNCTION_BIT_ARRAY /\ Forall is_byte b));
      [|done].
    split; [by rewrite length_replicate|]. apply Forall_replicate. by vm_compute. }
  pose proof Hall as Hall'. apply Forall_cons in Hall' as [[Hbl Hbb] Hrest].
  cbn [fc_bits] in Hbl, Hbb.
  destruct (update_function_spec target f state s bits rest Htouch Hf) as [Hr Hcache].
  cbv zeta in Hr, Hcache. fold s' in Hcache.
  destruct (bit_is_on_set bits f f Hbl Hbb Hf Hf) as (Hon_f & Hoff_f & Hbon & Hboff).
  destruct (bit_is_on_set bits f g Hbl Hbb Hf Hg) as (Hon_g & Hoff_g & _ & _).
  cbv zeta in *. rewrite decide_True in Hon_f, Hoff_f by done.
  set (bits' := if Bool.eqb (bit_is_on bits f) state then bits
                else if state
                     then <[function_byte f := Z.lor (bits !!! function_byte f)
                                                 (function_mask f)]> bits
                     else <[function_byte f :=
                              Z.land (bits !!! function_byte f)
                                (to_byte (Z.lnot (function_mask f)))]> bits) in *.
  assert (Htouch' : touch_cache target (function_cache s') = FuncCache target bits' :: rest)
    by (rewrite Hcache; apply touch_cache_again).
  assert (Hbits_f : bit_is_on bits' f = state).
  { unfold bits'. destruct (Bool.eqb (bit_is_on bits f) state) eqn:E.
    - by apply Bool.eqb_prop in E.
    - by destruct state. }
  assert (Hbits_g : g <> f -> bit_is_on bits' g = bit_is_on bits g).
  { intros Hne'. unfold bits'. destruct (Bool.eqb (bit_is_on bits f) state); [done|].
    rewrite decide_False in Hon_g, Hoff_g by done. by destruct state. }
  assert (Hshape' : length bits' = Z.to_nat FUNCTION_BIT_ARRAY /\ Forall is_byte bits').
  { unfold bits'. destruct (Bool.eqb (bit_is_on bits f) state); [done|].
    destruct state; by rewrite length_insert. }
  rewrite (function_is_on_spec target f s bits rest Htouch).
  rewrite (function_is_on_spec target f s' bits' rest Htouch').
  rewrite (function_is_on_spec target g s bits rest Htouch).
  rewrite (function_is_on_spec target g s' bits' rest Htouch').
  split; [exact Hr|]. split; [exact Hbits_f|]. split; [exact Hbits_g|]. split.
  { destruct (get_function_spec target g val s') as [-> _]. by rewrite Htouch'. }
  rewrite Hcache. split; [|split; [by rewrite <- Hlen|done]].
  split; [done|]. split; [by constructor|].
  apply Hdup. exact Hnodup.
Qed.

(** X12: A look-up for another target does not lose a record that is not the
    last of the cache: the record stays, settings unchanged, at its
    place or one place further from the head. *)
Theorem function_cache_keeps_recent
    (other : Z) (i : nat) (r : func_cache) (s : machine) :
  function_cache s !! i = Some r ->
  (S i < length (function_cache s))%nat ->
  fc_target r <> other ->
  exists j, (i <= j <= S i)%nat
            /\ function_cache (exec (find_func_cache other) s) !! j = Some r.
Proof.
  intros Hi Hlast Hr. rewrite find_func_cache_cache. unfold touch_cache.
  destruct (list_find _ (function_cache s)) as [[k q]|] eqn:Hfind.
  - apply list_find_Some in Hfind as (Hk & Hq & _). simpl in Hq.
    destruct k as [|k]; [exists i; split; [lia|done]|].
    assert (Hne : i <> S k) by (intros ->; rewrite Hi in Hk; by injection Hk as ->).
    destruct (decide (i < S k)%nat) as [Hlt|Hge].
    + exists (S i). split; [lia|]. cbn [lookup list_lookup].
      change (delete (S k) (function_cache s) !! i = Some r).
      by rewrite list_lookup_delete_lt.
    + exists i. split; [lia|]. destruct i as [|i]; [lia|].
      change (delete (S k) (function_cache s) !! i = Some r).
      rewrite list_lookup_delete_ge by lia. done.
  - destruct (last (function_cache s)) as [lru|] eqn:Hl.
    + exists (S i). split; [lia|].
      change (take (length (function_cache s) - 1) (function_cache s) !! i = Some r).
      rewrite lookup_take_lt by lia. done.
    + apply last_None in Hl. rewrite Hl in Hi. done.
Qed.

Lemma update_function_sets_one_function_witness :
  let s := exec (update_function 3 4 true) setup in
  (cache_wf (function_cache s)
   /\ 0 <= 0 <= MAX_FUNCTION_NUMBER /\ 0 <= 4 <= MAX_FUNCTION_NUMBER)
  /\ eval (update_function 3 0 true) s = true
  /\ eval (get_function 3 4 8) (exec (update_function 3 0 true) s) = 8.
Proof.
  intros s.
  assert (H1 : cache_wf (function_cache s)).
  { subst s. vm_compute.
    split; [congruence|].
    split; repeat constructor; try congruence. apply not_elem_of_nil. }
  assert (H2 : 0 <= 0 <= MAX_FUNCTION_NUMBER) by (vm_compute; split; congruence).
  assert (H3 : 0 <= 4 <= MAX_FUNCTION_NUMBER) by (vm_compute; split; congruence).
  split; [exact (conj H1 (conj H2 H3))|].
  destruct (update_function_sets_one_function 3 0 4 8 true s H1 H2 H3)
    as (Hr & _ & _ & Hget & _).
  split; [rewrite Hr|rewrite Hget]; vm_compute; reflexivity.
Defined.

Lemma function_cache_keeps_recent_witness :
  let s := exec (update_function 3 4 true) setup in
  (function_cache s !! 0%nat = Some (FuncCache 3 [16; 0; 0; 0])
   /\ (1 < length (function_cache s))%nat
   /\ fc_target (FuncCache 3 [16; 0; 0; 0]) <> 7)
  /\ function_cache (exec (find_func_cache 7) s) !! 1%nat
     = Some (FuncCache 3 [16; 0; 0; 0]).
Proof.
  intros s.
  assert (H1 : function_cache s !! 0%nat = Some (FuncCache 3 [16; 0; 0; 0]))
    by (vm_compute; reflexivity).
  assert (H2 : (1 < length (function_cache s))%nat) by (vm_compute; lia).
  assert (H3 : fc_target (FuncCache 3 [16; 0; 0; 0]) <> 7) by (vm_compute; congruence).
  split; [exact (conj H1 (conj H2 H3))|].
  destruct (function_cache_keeps_recent 7 0 _ s H1 H2 H3) as (j & Hj & Hfound).
  assert (j = 0 \/ j = 1)%nat as [-> | ->] by lia; [|exact Hfound].
  exfalso. revert Hfound. vm_compute. congruence.
Defined.

(** ** Invariants *)

Lemma preserves_bind {A B} (I : machine -> Prop) (m : M A) (k : A -> M B) :
  preserves I m -> (forall a, preserves I (k a)) -> preserves I (m ≫= k).
Proof. intros Hm Hk s Hs. rewrite exec_bind. apply Hk, Hm, Hs. Qed.

Lemma preserves_ret {A} (I : machine -> Prop) (a : A) : preserves I (mret a).
Proof. intros s Hs. exact Hs. Qed.

Lemma preserves_gets {A} (I : machine -> Prop) (f : machine -> A) : preserves I (gets f).
Proof. intros s Hs. exact Hs. Qed.

Lemma triple_bind {A B} (P : machine -> Prop) (m : M A) (k : A -> M B)
    (Q : A -> machine -> Prop) (R : B -> machine -> Prop) :
  triple P m Q -> (forall a, triple (Q a) (k a) R) -> triple P (m ≫= k) R.
Proof.
  intros Hm Hk s Hs. rewrite exec_bind, eval_bind. apply Hk, Hm, Hs.
Qed.

Lemma preserves_bind_value {A B} (I : machine -> Prop) (m : M A) (k : A -> M B)
    (Q : A -> Prop) :
  triple I m (fun a s => I s /\ Q a) ->
  (forall a, Q a -> preserves I (k a)) -> preserves I (m ≫= k).
Proof.
  intros Hm Hk s Hs. rewrite exec_bind.
  destruct (Hm s Hs) as [Hs' Hq]. by apply Hk.
Qed.

Ltac head_of t :=
  lazymatch t with
  | ?f _ => head_of f
  | _ => t
  end.

(** One step through the text of a routine: a sequence, a test, a call
    that [leaf] knows to keep the property, or else the body of the
    routine called.  [first_call] is tried on a sequence before it is
    split. *)
Ltac preserves_step first_call leaf :=
  cbv beta iota zeta;
  lazymatch goal with
  | |- preserves _ (_ ≫= _) => first [ first_call | apply preserves_bind; [|intros ?] ]
  | |- preserves _ (mret _) => apply preserves_ret
  | |- preserves _ (gets _) => apply preserves_gets
  | |- preserves _ (if ?b then _ else _) => destruct b
  | |- preserves _ (match ?x with _ => _ end) => destruct x
  | |- preserves _ ?m => first [ leaf | let h := head_of m in progress unfold h ]
  end.

Ltac preserves_all leaf := repeat preserves_step ltac:(idtac; fail) leaf.

(** A store outside the variables the property reads. *)
Ltac untouched :=
  lazymatch goal with
  | |- preserves _ (modify _) => idtac
  | |- preserves _ (modify_isr _) => idtac
  | |- preserves _ (update_buffer _ _) => idtac
  | |- preserves _ (digitalWrite _ _) => idtac
  end;
  let s := fresh "s" in let H := fresh "H" in
  intros s H; exact H.

Lemma preserves_report_failed (I : machine -> Prop) (lines : list Z) :
  (forall err arg, preserves I (report_error err arg)) ->
  preserves I (report_failed lines).
Proof.
  intros Herr. induction lines as [|line rest IH]; cbn [report_failed].
  - apply preserves_ret.
  - apply preserves_bind; [apply Herr|intros _; exact IH].
Qed.

Lemma preserves_process_input (I : machine -> Prop) (input : list ascii) :
  (forall text, preserves I (scan_line text)) ->
  forall st, preserves I (process_input input st).
Proof.
  intros Hscan. induction input as [|c rest IH]; intros st; cbn [process_input].
  - apply preserves_ret.
  - apply preserves_bind; [|intros st'; apply IH].
    preserves_all ltac:(apply Hscan).
Qed.

Lemma preserves_function_group (I : machine -> Prop) (adrs : Z) (fs : list (Z * Z)) :
  (forall f v, preserves I (get_function adrs f v)) ->
  forall base, preserves I (function_group adrs base fs).
Proof.
  intros Hget. induction fs as [|[f v] rest IH]; intros base; cbn [function_group].
  - apply preserves_ret.
  - apply preserves_bind; [apply Hget|intros x; apply IH].
Qed.

Lemma preserves_run_calls (I : machine -> Prop) (cs : list call) :
  (forall c, preserves I (run_call c)) -> preserves I (run_calls cs).
Proof.
  intros Hcall. induction cs as [|c rest IH]; cbn [run_calls].
  - apply preserves_ret.
  - apply preserves_bind; [apply Hcall|intros _; exact IH].
Qed.

Lemma preserves_queue_output (I : machine -> Prop) (text : string) :
  (forall o s, I s -> I (set_output o s)) -> preserves I (queue_output text).
Proof.
  intros Hout s Hs. unfold exec. rewrite queue_output_run. cbn [snd]. by apply Hout.
Qed.

Lemma preserves_process_output (I : machine -> Prop) (count : Z) :
  (forall o s, I s -> I (set_output o s)) -> preserves I (process_output count).
Proof.
  intros Hout s Hs. unfold exec. rewrite process_output_run. cbn [snd]. by apply Hout.
Qed.

Lemma preserves_release_pending_recs (I : machine -> Prop)
    (head : list pending_packet) (one_only : bool) :
  (forall f s, I s -> I (set_free_pending_packets f s)) ->
  preserves I (release_pending_recs head one_only).
Proof.
  intros Hfree. induction head as [|ptr rest IH]; cbn [release_pending_recs].
  - apply preserves_ret.
  - apply preserves_bind; [intros s Hs; by apply Hfree|intros _].
    destruct one_only; [apply preserves_ret|exact IH].
Qed.

(** The calls that leave alone whatever a property reads outside the
    queues and the free list. *)
Ltac plain_leaf :=
  idtac;
  lazymatch goal with
  | |- preserves _ (queue_output _) =>
      apply preserves_queue_output; intros ? ?; exact id
  | |- preserves _ (process_output _) =>
      apply preserves_process_output; intros ? ?; exact id
  | |- preserves _ (report_failed _) =>
      apply preserves_report_failed; intros ? ? ?; exact id
  | |- preserves _ (release_pending_recs _ _) =>
      apply preserves_release_pending_recs; intros ? ?; exact id
  | |- preserves _ _ => untouched
  end.

(** ** The queues stay in order *)

Lemma queues_report_error (err arg : Z) : preserves queues_wf (report_error err arg).
Proof. intros s [Ho He]. split; [exact Ho|]. by apply errors_wf_report_error. Qed.

Lemma queues_queue_output (text : string) : preserves queues_wf (queue_output text).
Proof.
  intros s [Ho He]. unfold exec. rewrite queue_output_run. cbn [snd].
  split; [|exact He].
  destruct (queue_chars_spec (String.list_ascii_of_string text) (m_output s) Ho)
    as (_ & Hwf & _). exact Hwf.
Qed.

Lemma process_chars_wf (n : nat) (count : Z) (o : output_state) :
  output_wf o -> output_wf (process_chars n count o).2.
Proof.
  revert count o. induction n as [|n IH]; intros count o Hwf; [exact Hwf|].
  cbn [process_chars].
  destruct (Z.eqb_spec (queue_len o) 0) as [E|E]; [exact Hwf|].
  destruct (Z.eqb_spec count 0) as [E'|E']; [exact Hwf|]. cbn [orb].
  assert (Hsome : 0 < queue_len o) by (destruct Hwf as (_ & _ & ? & _); lia).
  destruct (queue_pop o Hwf Hsome) as (Hwf' & _). cbv zeta in Hwf'.
  specialize (IH (to_int (count - 1)) _ Hwf').
  by destruct (process_chars n _ _).
Qed.

Lemma queues_process_output (count : Z) : preserves queues_wf (process_output count).
Proof.
  intros s [Ho He]. unfold exec. rewrite process_output_run. cbn [snd].
  split; [|exact He]. by apply process_chars_wf.
Qed.

Lemma queues_flush_error_queue : preserves queues_wf flush_error_queue.
Proof.
  intros s [Ho He]. unfold flush_error_queue.
  rewrite exec_bind, eval_gets, exec_gets.
  destruct (Z.eqb_spec (errors_pending (m_errors s)) 0) as [E|E]; [done|].
  cbn [negb]. rewrite exec_bind.
  destruct (_ <=? _); [|done].
  assert (Hsome : 0 < errors_pending (m_errors s))
    by (destruct He as (_ & _ & ? & _); lia).
  destruct (pending_errors_head (m_errors s) He Hsome) as (He' & _). cbv zeta in He'.
  assert (H1 : queues_wf (exec (modify (fun s0 : machine =>
            set_errors
              {| error_queue := error_queue (m_errors s0);
                 error_in := error_in (m_errors s0);
                 error_out := if to_byte (error_out (m_errors s0) + 1) =? ERROR_QUEUE_SIZE
                              then 0 else to_byte (error_out (m_errors s0) + 1);
                 errors_pending := to_byte (errors_pending (m_errors s0) - 1) |} s0))
            (exec queue_available s))) by (split; [exact Ho|exact He']).
  revert H1. generalize (exec queue_available s). intros s0 H1.
  rewrite exec_bind. rewrite exec_bind, exec_ret.
  by apply queues_queue_output.
Qed.

Ltac queues_leaf :=
  idtac;
  lazymatch goal with
  | |- preserves _ (report_error _ _) => apply queues_report_error
  | |- preserves _ (queue_output _) => apply queues_queue_output
  | |- preserves _ (process_output _) => apply queues_process_output
  | |- preserves _ flush_error_queue => apply queues_flush_error_queue
  | |- preserves _ (report_failed _) =>
      apply preserves_report_failed; intros; apply queues_report_error
  | |- preserves _ (release_pending_recs _ _) =>
      apply preserves_release_pending_recs; intros ? ?; exact id
  | |- preserves _ _ => untouched
  end.

Lemma queues_get_function (adrs f v : Z) : preserves queues_wf (get_function adrs f v).
Proof. preserves_all queues_leaf. Qed.

Lemma queues_scan_line (text : string) : preserves queues_wf (scan_line text).
Proof.
  preserves_all ltac:(idtac;
    lazymatch goal with
    | |- preserves _ (function_group _ _ _) =>
        apply preserves_function_group; intros; apply queues_get_function
    | |- _ => queues_leaf
    end).
Qed.

Lemma queues_run_call (c : call) : preserves queues_wf (run_call c).
Proof.
  destruct c; cbn [run_call];
  preserves_all ltac:(idtac;
    lazymatch goal with
    | |- preserves _ (process_input _ _) =>
        apply preserves_process_input; intros; apply queues_scan_line
    | |- _ => queues_leaf
    end).
Qed.

Lemma queues_wf_setup : queues_wf setup.
Proof. vm_compute. repeat split; congruence. Qed.

(** X13: Whatever calls of the routines of loop and of the interrupts
    follow setup, the output queue and the error queue stay in order:
    the arrays keep their sizes, the read indices and the counts stay
    in range and each write index is the read index plus the count,
    modulo the size. *)
Theorem queues_always_in_order (cs : list call) :
  queues_wf (exec (run_calls cs) setup).
Proof.
  apply preserves_run_calls; [apply queues_run_call|apply queues_wf_setup].
Qed.

(** ** Track power *)

Ltac enable_pins :=
  unfold power_consistent;
  cbn [pins set_pins global_power_state set_global_power_state m_isr set_isr
       output_pin set_output_pin];
  rewrite ?lookup_insert_eq, ?(lookup_insert_ne _ PROG_TRACK_ENABLE MAIN_TRACK_ENABLE),
    ?lookup_insert_eq by done.

Lemma power_main : preserves power_consistent power_on_main_track.
Proof.
  intros s _. unfold power_on_main_track. msimpl. enable_pins. done.
Qed.

Lemma power_prog : preserves power_consistent power_on_prog_track.
Proof.
  intros s _. unfold power_on_prog_track. msimpl. enable_pins. done.
Qed.

Lemma power_off : preserves power_consistent power_off_tracks.
Proof.
  intros s (_ & _ & Hpin). unfold power_off_tracks. msimpl. enable_pins.
  repeat split. destruct (global_power_state s); auto.
Qed.

(** The interrupt drives the pin of the signal, never an enable pin. *)
Lemma power_signal (level : bool) (s : machine) :
  power_consistent s ->
  power_consistent (exec (digitalWrite (output_pin (m_isr s)) level) s).
Proof.
  intros (Hmain & Hprog & Hpin). rewrite exec_digitalWrite.
  assert (Hout : output_pin (m_isr s) = MAIN_TRACK_DIRECTION
                 \/ output_pin (m_isr s) = PROG_TRACK_DIRECTION)
    by (destruct (global_power_state s); auto).
  unfold power_consistent. cbn [pins set_pins global_power_state m_isr].
  split; [|split; [|exact Hpin]].
  - rewrite lookup_insert_ne; [exact Hmain|]. destruct Hout as [-> | ->]; done.
  - rewrite lookup_insert_ne; [exact Hprog|]. destruct Hout as [-> | ->]; done.
Qed.

Ltac power_leaf :=
  idtac;
  lazymatch goal with
  | |- preserves _ power_on_main_track => apply power_main
  | |- preserves _ power_on_prog_track => apply power_prog
  | |- preserves _ power_off_tracks => apply power_off
  | |- _ => plain_leaf
  end.

Lemma power_get_function (adrs f v : Z) : preserves power_consistent (get_function adrs f v).
Proof. preserves_all power_leaf. Qed.

Lemma power_scan_line (text : string) : preserves power_consistent (scan_line text).
Proof.
  preserves_all ltac:(idtac;
    lazymatch goal with
    | |- preserves _ (function_group _ _ _) =>
        apply preserves_function_group; intros; apply power_get_function
    | |- _ => power_leaf
    end).
Qed.

Lemma power_TIMER2_COMPA_vect : preserves power_consistent TIMER2_COMPA_vect.
Proof.
  intros s Hs. unfold TIMER2_COMPA_vect.
  rewrite exec_bind. set (s1 := exec (modify_isr _) s).
  assert (H1 : power_consistent s1) by exact Hs.
  clearbody s1. clear s Hs.
  rewrite exec_bind, eval_gets, exec_gets.
  destruct (_ =? 0); [|exact H1].
  rewrite exec_bind, eval_gets, exec_gets.
  rewrite exec_bind, eval_gets, exec_gets.
  rewrite exec_bind.
  pose proof (power_signal (if side (m_isr s1) =? 0 then LOW else HIGH) s1 H1) as H2.
  revert H2. generalize (exec (digitalWrite (output_pin (m_isr s1))
                                 (if side (m_isr s1) =? 0 then LOW else HIGH)) s1).
  generalize (side (m_isr s1)). clear s1 H1. intros sd s.
  change (power_consistent s -> power_consistent (exec ?m s))
    with (forall H : power_consistent s, power_consistent (exec m s)).
  revert s.
  match goal with |- forall s, _ -> power_consistent (exec ?m s) =>
    change (preserves power_consistent m) end.
  preserves_all power_leaf.
Qed.

Lemma power_run_call (c : call) : preserves power_consistent (run_call c).
Proof.
  destruct c; cbn [run_call];
  first [ apply power_TIMER2_COMPA_vect
        | preserves_all ltac:(idtac;
            lazymatch goal with
            | |- preserves _ (process_input _ _) =>
                apply preserves_process_input; intros; apply power_scan_line
            | |- _ => power_leaf
            end) ].
Qed.

Lemma power_consistent_setup : power_consistent setup.
Proof. vm_compute. repeat split. by left. Qed.

(** X14: Whatever calls follow setup, the enable pins are those of
    global_power_state: the main track is enabled exactly in state
    MAIN, the programming track exactly in state PROG, and in these
    states the signal goes to the direction pin of that track.  The
    two tracks are never enabled together. *)
Theorem power_always_consistent (cs : list call) :
  let s := exec (run_calls cs) setup in
  power_consistent s
  /\ ~ (pins s !! MAIN_TRACK_ENABLE = Some HIGH
        /\ pins s !! PROG_TRACK_ENABLE = Some HIGH).
Proof.
  assert (H : power_consistent (exec (run_calls cs) setup))
    by (apply preserves_run_calls; [apply power_run_call|apply power_consistent_setup]).
  split; [exact H|]. destruct H as (Hmain & Hprog & _). intros [H1 H2].
  rewrite Hmain in H1. rewrite Hprog in H2.
  injection H1 as H1. injection H2 as H2.
  apply bool_decide_eq_true in H1. apply bool_decide_eq_true in H2. congruence.
Qed.

(** ** Pending packet records *)

Lemma pending_in_cons (b : trans_buffer) (l : list trans_buffer) :
  pending_in (b :: l) = (length (tb_pending b) + pending_in l)%nat.
Proof. done. Qed.

Lemma pending_in_alter (f : trans_buffer -> trans_buffer) (i : nat)
    (l : list trans_buffer) :
  (i < length l)%nat ->
  (pending_in (alter f i l) + length (tb_pending (l !!! i))
   = pending_in l + length (tb_pending (f (l !!! i))))%nat.
Proof.
  revert i. induction l as [|b l IH]; intros i Hi; [cbn in Hi; lia|].
  destruct i as [|i].
  - change (alter f 0%nat (b :: l)) with (f b :: l).
    change ((b :: l) !!! 0%nat) with b.
    rewrite !pending_in_cons. lia.
  - cbn in Hi. specialize (IH i ltac:(lia)).
    change (alter f (S i) (b :: l)) with (b :: alter f i l).
    change ((b :: l) !!! S i) with (l !!! i).
    rewrite !pending_in_cons. lia.
Qed.

Lemma alter_outside (f : trans_buffer -> trans_buffer) (i : nat)
    (l : list trans_buffer) :
  (length l <= i)%nat -> alter f i l = l.
Proof.
  revert i. induction l as [|b l IH]; intros i Hi; [done|].
  destruct i as [|i]; [cbn in Hi; lia|].
  cbn. f_equal. apply IH. cbn in Hi. lia.
Qed.

Lemma records_update_buffer (i : nat) (f : trans_buffer -> trans_buffer) :
  (forall b, tb_pending (f b) = tb_pending b) ->
  preserves records_kept (update_buffer i f).
Proof.
  intros Hf s [Hlen Hcount]. rewrite exec_update_buffer.
  unfold records_kept, pending_records in *.
  cbn [circular_buffer set_circular_buffer free_pending_packets].
  rewrite length_alter. split; [exact Hlen|].
  destruct (decide (i < length (circular_buffer s))%nat) as [Hi|Hi].
  - pose proof (pending_in_alter f i _ Hi) as H. rewrite Hf in H. lia.
  - rewrite alter_outside by lia. exact Hcount.
Qed.

Lemma records_drain_pending (slot : nat) : preserves records_kept (drain_pending slot).
Proof.
  intros s [Hlen Hcount]. unfold drain_pending.
  rewrite !exec_bind, eval_gets, exec_gets, eval_release_all, exec_release_all.
  rewrite exec_update_buffer.
  unfold records_kept, pending_records in *.
  cbn [circular_buffer set_circular_buffer free_pending_packets
       set_free_pending_packets].
  rewrite length_alter. split; [exact Hlen|].
  rewrite length_app, length_rev.
  destruct (decide (slot < length (circular_buffer s))%nat) as [Hi|Hi].
  - pose proof (pending_in_alter (set_tb_pending []) slot _ Hi) as H.
    cbn [tb_pending set_tb_pending length] in H.
    unfold buffer. lia.
  - rewrite alter_outside by lia. unfold buffer.
    rewrite list_lookup_total_alt, lookup_ge_None_2 by lia. cbn. exact Hcount.
Qed.

Lemma records_create_pending_rec (slot : nat) (target duration : Z)
    (lpreamble : bool) (cmd : list Z) :
  (slot < Z.to_nat TRANSMISSION_BUFFERS)%nat ->
  preserves records_kept (create_pending_rec slot target duration lpreamble cmd).
Proof.
  intros Hslot. unfold create_pending_rec.
  apply preserves_bind; [by destruct (_ <? _); intros s H|intros _].
  apply preserves_bind; [by destruct (_ <? _); intros s H|intros _].
  intros s [Hlen Hcount]. rewrite exec_bind, eval_gets, exec_gets.
  destruct (free_pending_packets s) as [|ptr rest] eqn:Hfree; [by split|].
  rewrite exec_bind, exec_modify. unfold copy_with_parity.
  set (s1 := set_free_pending_packets rest s).
  assert (H1 : length (circular_buffer s1) = Z.to_nat TRANSMISSION_BUFFERS) by exact Hlen.
  assert (H2 : (S (pending_records s1) = Z.to_nat TRANSMISSION_BUFFERS)%nat).
  { unfold s1, pending_records in *.
    cbn [free_pending_packets set_free_pending_packets circular_buffer].
    rewrite Hfree in Hcount. cbn [length] in Hcount. lia. }
  clearbody s1. clear s Hlen Hcount Hfree.
  rewrite !exec_bind, !eval_bind.
  set (s2 := exec (ASSERT _ 693) s1).
  assert (H3 : length (circular_buffer s2) = Z.to_nat TRANSMISSION_BUFFERS)
    by (unfold s2; destruct (_ <? _); exact H1).
  assert (H4 : (S (pending_records s2) = Z.to_nat TRANSMISSION_BUFFERS)%nat)
    by (unfold s2; destruct (_ <? _); exact H2).
  clearbody s2. clear s1 H1 H2.
  rewrite exec_ret, eval_ret. cbv beta iota.
  rewrite exec_bind, exec_ret, exec_update_buffer.
  unfold records_kept, pending_records in *.
  cbn [circular_buffer set_circular_buffer free_pending_packets].
  rewrite length_alter. split; [exact H3|].
  match goal with |- context [alter ?f slot _] =>
    pose proof (pending_in_alter f slot (circular_buffer s2) ltac:(lia)) as H end.
  cbn [tb_pending set_tb_pending] in H.
  rewrite length_app in H. cbn [length] in H. lia.
Qed.

Lemma records_find_available_buffer (base count target : Z) :
  triple records_kept (find_available_buffer base count target)
    (fun found s => records_kept s
                    /\ forall i, found = Some i -> (i < Z.to_nat TRANSMISSION_BUFFERS)%nat).
Proof.
  intros s Hs. unfold find_available_buffer.
  rewrite !exec_bind, !eval_bind, !exec_ASSERT, !eval_gets, !exec_gets.
  set (s1 := set_errors _ (set_errors _ (set_errors _ s))).
  assert (H1 : records_kept s1) by exact Hs.
  assert (Hlen : length (circular_buffer s1) = Z.to_nat TRANSMISSION_BUFFERS)
    by (destruct H1; done).
  clearbody s1.
  set (bufs := take (Z.to_nat count) (drop (Z.to_nat base) (circular_buffer s1))).
  assert (Hbufs : forall i, (i < length bufs)%nat ->
            (Z.to_nat base + i < Z.to_nat TRANSMISSION_BUFFERS)%nat).
  { intros i Hi. unfold bufs in Hi. rewrite length_take, length_drop in Hi. lia. }
  destruct (list_find _ bufs) as [[i b]|] eqn:Hfind.
  - split; [exact H1|]. intros j [= <-]. apply Hbufs.
    apply list_find_Some in Hfind as (Hi & _). by apply lookup_lt_Some in Hi.
  - destruct (list_find (fun b => tb_state b = TBS_EMPTY) bufs) as [[i b]|] eqn:Hfind'.
    + split; [exact H1|]. intros j [= <-]. apply Hbufs.
      apply list_find_Some in Hfind' as (Hi & _). by apply lookup_lt_Some in Hi.
    + split; [exact H1|]. intros j [=].
Qed.

Lemma holds_update_buffer (m : nat) (l : list pending_packet)
    (f : trans_buffer -> trans_buffer) :
  (forall b, tb_pending (f b) = tb_pending b) ->
  preserves (fun s => records_kept s /\ tb_pending (buffer m s) = l) (update_buffer m f).
Proof.
  intros Hf s [Hs Hl]. split; [by apply records_update_buffer|].
  rewrite exec_update_buffer, buffer_alter.
  destruct (decide _); [by rewrite Hf|done].
Qed.

(** The records [release_pending_recs] puts on the free list leave the
    pending list with the store that follows the call. *)
Lemma release_then_set (m : nat) (l : list pending_packet) (one_only : bool)
    (s : machine) :
  records_kept s -> tb_pending (buffer m s) = l ->
  records_kept
    (exec (update_buffer m (set_tb_pending (eval (release_pending_recs l one_only) s)))
       (exec (release_pending_recs l one_only) s)).
Proof.
  intros [Hlen Hcount] Hl.
  assert (Hgen : forall rest released,
            (length rest + length released = length l)%nat ->
            records_kept
              (exec (update_buffer m (set_tb_pending rest))
                 (set_free_pending_packets (released ++ free_pending_packets s) s))).
  { intros rest released Hsum. rewrite exec_update_buffer.
    unfold records_kept, pending_records in *.
    cbn [circular_buffer set_circular_buffer free_pending_packets
         set_free_pending_packets].
    rewrite length_alter, length_app. split; [exact Hlen|].
    destruct (decide (m < length (circular_buffer s))%nat) as [Hm|Hm].
    - pose proof (pending_in_alter (set_tb_pending rest) m _ Hm) as H.
      cbn [tb_pending set_tb_pending] in H. unfold buffer in Hl. rewrite Hl in H. lia.
    - rewrite alter_outside by lia. unfold buffer in Hl.
      rewrite list_lookup_total_alt, lookup_ge_None_2 in Hl by lia. cbn in Hl.
      subst l. cbn in Hsum. destruct released; [|cbn in Hsum; lia].
      cbn. lia. }
  destruct one_only.
  - destruct l as [|p rest].
    + cbn [release_pending_recs]. rewrite exec_ret, eval_ret.
      specialize (Hgen [] [] eq_refl). cbn [app] in Hgen.
      by replace (set_free_pending_packets (free_pending_packets s) s) with s in Hgen
        by (by destruct s).
    + unfold exec at 2, eval. rewrite release_one. cbn [fst snd].
      apply (Hgen rest [p]). cbn. lia.
  - rewrite exec_release_all, eval_release_all.
    apply (Hgen [] (rev l)). rewrite length_rev. cbn. lia.
Qed.

Ltac records_leaf :=
  idtac;
  lazymatch goal with
  | |- preserves _ (update_buffer _ _) =>
      apply records_update_buffer; intros; reflexivity
  | |- preserves _ (drain_pending _) => apply records_drain_pending
  | |- preserves _ (create_pending_rec _ _ _ _ _) =>
      apply records_create_pending_rec;
      match goal with H : forall i, Some _ = Some i -> _ |- _ => apply H; reflexivity end
  | |- _ => plain_leaf
  end.

Ltac records_first_call :=
  lazymatch goal with
  | |- preserves _ (find_available_buffer _ _ _ ≫= _) =>
      eapply preserves_bind_value; [apply records_find_available_buffer|intros ? ?]
  end.

Lemma records_get_function (adrs f v : Z) : preserves records_kept (get_function adrs f v).
Proof. preserves_all records_leaf. Qed.

Lemma records_scan_line (text : string) : preserves records_kept (scan_line text).
Proof.
  repeat preserves_step ltac:(idtac; records_first_call) ltac:(idtac;
    lazymatch goal with
    | |- preserves _ (function_group _ _ _) =>
        apply preserves_function_group; intros; apply records_get_function
    | |- _ => records_leaf
    end).
Qed.

Lemma records_management_service_routine :
  preserves records_kept management_service_routine.
Proof.
  intros s Hs. unfold management_service_routine.
  rewrite exec_bind, eval_gets, exec_gets, exec_bind, eval_gets, exec_gets.
  set (m := manage s). set (b := buffer m s).
  assert (HJ : records_kept s /\ tb_pending (buffer m s) = tb_pending b) by done.
  clearbody b. clearbody m. clear Hs. revert s HJ.
  set (J := fun s => records_kept s /\ tb_pending (buffer m s) = tb_pending b).
  match goal with |- forall s, _ -> records_kept (exec ?t s) =>
    change (triple J t (fun _ => records_kept)) end.
  apply (triple_bind J _ _ (fun _ => records_kept));
    [|intros _;
      match goal with |- triple _ ?t _ => change (preserves records_kept t) end;
      preserves_all records_leaf].
  destruct (tb_state b =? TBS_LOAD); [|intros s [H _]; exact H].
  destruct (tb_pending b) as [|pp rest] eqn:Hp.
  - intros s [H _]. revert s H.
    match goal with |- forall s, _ -> records_kept (exec ?t s) =>
      change (preserves records_kept t) end.
    preserves_all records_leaf.
  - apply (triple_bind J _ _ (fun _ => J));
      [match goal with |- triple _ ?t _ => change (preserves J t) end;
       apply preserves_report_failed; intros ? ? ?; exact id|intros _].
    apply (triple_bind J _ _ (fun _ => J));
      [match goal with |- triple _ ?t _ => change (preserves J t) end;
       apply holds_update_buffer; reflexivity|intros _].
    destruct (pr_ok _).
    + do 3 (apply (triple_bind J _ _ (fun _ => J));
        [match goal with |- triple _ ?t _ => change (preserves J t) end;
         apply holds_update_buffer; reflexivity|intros _]).
      intros s [Hs Hl]. rewrite exec_bind, exec_bind.
      pose proof (release_then_set m (pp :: rest) true s Hs Hl) as H.
      revert H.
      generalize (eval (release_pending_recs (pp :: rest) true) s). intros rest'.
      generalize (exec (update_buffer m (set_tb_pending rest'))
                    (exec (release_pending_recs (pp :: rest) true) s)).
      clear s Hs Hl. intros s Hs. revert s Hs.
      match goal with |- forall s, _ -> records_kept (exec ?t s) =>
        change (preserves records_kept t) end.
      preserves_all records_leaf.
    + apply (triple_bind J _ _ (fun _ => J));
        [match goal with |- triple _ ?t _ => change (preserves J t) end;
         intros ?; exact id|intros _].
      apply (triple_bind J _ _ (fun _ => J));
        [match goal with |- triple _ ?t _ => change (preserves J t) end;
         apply holds_update_buffer; reflexivity|intros _].
      intros s [Hs Hl]. rewrite exec_bind.
      exact (release_then_set m (pp :: rest) false s Hs Hl).
Qed.

Lemma records_run_call (c : call) : preserves records_kept (run_call c).
Proof.
  destruct c; cbn [run_call];
  first [ apply records_management_service_routine
        | preserves_all ltac:(idtac;
            lazymatch goal with
            | |- preserves _ (process_input _ _) =>
                apply preserves_process_input; intros; apply records_scan_line
            | |- _ => records_leaf
            end) ].
Qed.

Lemma records_kept_setup : records_kept setup.
Proof. vm_compute. done. Qed.

(** X15: Whatever calls follow setup, no pending packet record is lost or
    counted twice: the records in the free list and in the pending
    lists of the transmission buffers are always as many as setup
    created, one for each transmission buffer. *)
Theorem pending_records_never_lost (cs : list call) :
  records_kept (exec (run_calls cs) setup).
Proof.
  apply preserves_run_calls; [apply records_run_call|apply records_kept_setup].
Qed.

(** ** The bits being sent *)

Lemma safe_update_buffer (i : nat) (f : trans_buffer -> trans_buffer) :
  (forall b, tb_state (f b) = tb_state b) ->
  preserves sending_is_safe (update_buffer i f).
Proof.
  intros Hf s Hs j Hj. rewrite exec_update_buffer, buffer_alter.
  specialize (Hs j Hj). destruct (decide _) as [[-> _]|_]; [by rewrite Hf|done].
Qed.

Lemma safe_hand_over (i : nat) : preserves sending_is_safe (update_buffer i hand_over).
Proof.
  intros s Hs j Hj. rewrite exec_update_buffer, buffer_alter.
  specialize (Hs j Hj). destruct (decide _) as [[-> _]|_]; [|done].
  right. unfold hand_over. cbn [tb_state set_tb_state].
  destruct Hs as [-> | ->]; reflexivity.
Qed.

Lemma sending_fetch_left (s : machine) : sending (exec fetch_left s) = sending s.
Proof. (unfold fetch_left; msimpl; reflexivity). Qed.

Lemma buffer_fetch_left (i : nat) (s : machine) :
  buffer i (exec fetch_left s) = buffer i s.
Proof. (unfold fetch_left; msimpl; reflexivity). Qed.

Lemma safe_fetch_left : preserves sending_is_safe fetch_left.
Proof.
  intros s Hs j Hj. rewrite sending_fetch_left in Hj.
  rewrite buffer_fetch_left. by apply Hs.
Qed.

Lemma safe_select_bit_string (s : machine) :
  sending_is_safe (exec select_bit_string s).
Proof.
  unfold select_bit_string. rewrite !exec_bind, !eval_gets, !exec_gets.
  destruct (Z.eqb_spec (tb_state (buffer (current (m_isr s)) s)) TBS_RUN) as [E|E].
  { rewrite exec_modify_isr. intros j [= <-]. left. exact E. }
  destruct (_ =? TBS_RELOAD).
  { rewrite exec_bind, exec_modify_isr, exec_update_buffer. intros j [=]. }
  destruct (_ =? TBS_LOAD).
  { rewrite exec_modify_isr. intros j Hj. unfold sending in Hj.
    cbn [m_isr set_isr bit_string set_bit_string bp_source] in Hj.
    by destruct (tb_pending _). }
  rewrite exec_modify_isr. intros j [=].
Qed.

Lemma safe_next_buffer : preserves sending_is_safe next_buffer.
Proof.
  intros s _. unfold next_buffer. rewrite !exec_bind, exec_ret.
  apply safe_fetch_left.
  match goal with |- sending_is_safe (exec (modify_isr ?f) (exec select_bit_string ?t)) =>
    pose proof (safe_select_bit_string t) as H; revert H;
    generalize (exec select_bit_string t) end.
  intros s' H. exact H.
Qed.

Ltac safe_leaf :=
  idtac;
  lazymatch goal with
  | |- preserves _ (update_buffer _ hand_over) => apply safe_hand_over
  | |- preserves _ (update_buffer _ _) =>
      apply safe_update_buffer; intros; reflexivity
  | |- preserves _ next_buffer => apply safe_next_buffer
  | |- preserves _ fetch_left => apply safe_fetch_left
  | |- _ => plain_leaf
  end.

Lemma safe_get_function (adrs f v : Z) : preserves sending_is_safe (get_function adrs f v).
Proof. preserves_all safe_leaf. Qed.

Lemma safe_scan_line (text : string) : preserves sending_is_safe (scan_line text).
Proof.
  preserves_all ltac:(idtac;
    lazymatch goal with
    | |- preserves _ (function_group _ _ _) =>
        apply preserves_function_group; intros; apply safe_get_function
    | |- _ => safe_leaf
    end).
Qed.

(** While the manager works on a buffer that is not being sent, any
    store into that buffer is harmless. *)
Lemma apart_update_buffer (m : nat) (f : trans_buffer -> trans_buffer) :
  preserves (fun s => sending_is_safe s /\ sending s <> Some m) (update_buffer m f).
Proof.
  intros s [Hs Hm]. split; [|exact Hm].
  intros j Hj. rewrite exec_update_buffer, buffer_alter.
  change (sending s = Some j) in Hj.
  destruct (decide _) as [[-> _]|_]; [congruence|by apply Hs].
Qed.

Lemma safe_management_service_routine :
  preserves sending_is_safe management_service_routine.
Proof.
  intros s Hs. unfold management_service_routine.
  rewrite exec_bind, eval_gets, exec_gets, exec_bind, eval_gets, exec_gets.
  rewrite exec_bind.
  match goal with |- sending_is_safe (exec ?tail (exec ?body s)) =>
    enough (sending_is_safe (exec body s)) as H;
    [revert H; generalize (exec body s); change (preserves sending_is_safe tail);
     preserves_all safe_leaf|]
  end.
  destruct (Z.eqb_spec (tb_state (buffer (manage s) s)) TBS_LOAD) as [E|E]; [|exact Hs].
  assert (HJ : sending_is_safe s /\ sending s <> Some (manage s)).
  { split; [exact Hs|]. intros Hm. destruct (Hs _ Hm) as [H|H]; rewrite E in H; done. }
  revert HJ. generalize (buffer (manage s) s). generalize (manage s).
  clear Hs E. intros m b HJ. revert s HJ.
  enough (H : preserves (fun s => sending_is_safe s /\ sending s <> Some m)
                (match tb_pending b with
     | pp :: _ =>
         let r := pack_command (take (Z.to_nat (pp_len pp)) (pp_command pp))
                    (pp_lpreamble pp) (tb_bits b) in
         report_failed (pr_failed r);;
         update_buffer m (set_tb_bits (pr_bits r));;
         if pr_ok r then
           update_buffer m (set_tb_target (pp_target pp));;
           update_buffer m (set_tb_duration (pp_duration pp));;
           update_buffer m (set_tb_state TBS_RUN);;
           rest ← release_pending_recs (tb_pending b) true;
           update_buffer m (set_tb_pending rest);;
           if (tb_reply b =? REPLY_ON_SEND) && bool_decide (rest = []) then
             send_reply (tb_contains b) (pp_target pp);;
             update_buffer m (set_tb_reply NO_REPLY_REQUIRED)
           else mret tt
         else
           report_error BIT_TRANS_OVERFLOW (pp_target pp);;
           update_buffer m (set_tb_state TBS_EMPTY);;
           rest ← release_pending_recs (tb_pending b) false;
           update_buffer m (set_tb_pending rest)
     | [] =>
         (if tb_reply b =? REPLY_ON_CONFIRM then
            confirmed ← gets load_confirmed;
            match replace_hash (if (confirmed : bool) then "1"%char else "0"%char) (tb_contains b) with
            | Some text =>
                update_buffer m (set_tb_contains text);;
                send_reply text (tb_target b)
            | None =>
                if confirmed then send_reply (tb_contains b) (tb_target b) else mret tt
            end
          else mret tt);;
         update_buffer m (set_tb_reply NO_REPLY_REQUIRED);;
         update_buffer m (set_tb_state TBS_EMPTY)
     end)).
  { intros s HJ. by destruct (H s HJ). }
  preserves_all ltac:(idtac;
    lazymatch goal with
    | |- preserves _ (update_buffer _ _) => apply apart_update_buffer
    | |- _ => plain_leaf
    end).
Qed.

Lemma safe_run_call (c : call) : preserves sending_is_safe (run_call c).
Proof.
  destruct c; cbn [run_call];
  first [ apply safe_management_service_routine
        | preserves_all ltac:(idtac;
            lazymatch goal with
            | |- preserves _ (process_input _ _) =>
                apply preserves_process_input; intros; apply safe_scan_line
            | |- _ => safe_leaf
            end) ].
Qed.

Lemma sending_is_safe_setup : sending_is_safe setup.
Proof. intros i [=]. Qed.

Lemma safe_run_calls (cs : list call) : sending_is_safe (exec (run_calls cs) setup).
Proof.
  apply preserves_run_calls; [apply safe_run_call|apply sending_is_safe_setup].
Qed.

Lemma bits_update_buffer (i j : nat) (x : list Z) (f : trans_buffer -> trans_buffer) :
  (forall b, tb_bits (f b) = tb_bits b) ->
  preserves (fun s => tb_bits (buffer i s) = x) (update_buffer j f).
Proof.
  intros Hf s Hs. rewrite exec_update_buffer, buffer_alter.
  destruct (decide _) as [[-> _]|_]; [by rewrite Hf|done].
Qed.

Lemma bits_update_other (i m : nat) (x : list Z) (f : trans_buffer -> trans_buffer) :
  i <> m -> preserves (fun s => tb_bits (buffer i s) = x) (update_buffer m f).
Proof.
  intros Hne s Hs. rewrite exec_update_buffer, buffer_alter.
  destruct (decide _) as [[-> _]|_]; [done|exact Hs].
Qed.

Ltac bits_leaf :=
  idtac;
  lazymatch goal with
  | |- preserves _ (update_buffer _ _) =>
      apply bits_update_buffer; intros; reflexivity
  | |- _ => plain_leaf
  end.

Lemma bits_get_function (i : nat) (x : list Z) (adrs f v : Z) :
  preserves (fun s => tb_bits (buffer i s) = x) (get_function adrs f v).
Proof. preserves_all bits_leaf. Qed.

Lemma bits_scan_line (i : nat) (x : list Z) (text : string) :
  preserves (fun s => tb_bits (buffer i s) = x) (scan_line text).
Proof.
  preserves_all ltac:(idtac;
    lazymatch goal with
    | |- preserves _ (function_group _ _ _) =>
        apply preserves_function_group; intros; apply bits_get_function
    | |- _ => bits_leaf
    end).
Qed.

Lemma bits_management_service_routine (i : nat) (s : machine) :
  sending_is_safe s -> sending s = Some i ->
  tb_bits (buffer i (exec management_service_routine s)) = tb_bits (buffer i s).
Proof.
  intros Hsafe Hi. unfold management_service_routine.
  rewrite exec_bind, eval_gets, exec_gets, exec_bind, eval_gets, exec_gets.
  rewrite exec_bind.
  match goal with |- tb_bits (buffer i (exec ?tail (exec ?body s))) = ?x =>
    enough (tb_bits (buffer i (exec body s)) = x) as H;
    [revert H; generalize (exec body s);
     change (preserves (fun s => tb_bits (buffer i s) = x) tail);
     preserves_all bits_leaf|]
  end.
  destruct (Z.eqb_spec (tb_state (buffer (manage s) s)) TBS_LOAD) as [E|E]; [|done].
  assert (Hne : i <> manage s).
  { intros ->. destruct (Hsafe _ Hi) as [H|H]; rewrite E in H; done. }
  generalize (eq_refl (tb_bits (buffer i s))).
  generalize (tb_bits (buffer i s)) at 2 3. intros x Hx. revert Hx.
  generalize (buffer (manage s) s). revert Hne. generalize (manage s).
  clear. intros m Hne b. revert s.
  match goal with |- forall s, _ -> tb_bits (buffer i (exec ?body s)) = x =>
    change (preserves (fun s => tb_bits (buffer i s) = x) body) end.
  preserves_all ltac:(idtac;
    lazymatch goal with
    | |- preserves _ (update_buffer _ _) => apply bits_update_other; exact Hne
    | |- _ => plain_leaf
    end).
Qed.

Lemma bits_run_call (i : nat) (x : list Z) (c : call) :
  c <> Manage -> preserves (fun s => tb_bits (buffer i s) = x) (run_call c).
Proof.
  intros Hc. destruct c; [..|]; try done; cbn [run_call];
  preserves_all ltac:(idtac;
    lazymatch goal with
    | |- preserves _ (process_input _ _) =>
        apply preserves_process_input; intros; apply bits_scan_line
    | |- _ => bits_leaf
    end).
Qed.

(** X16: Whatever calls follow setup, a buffer whose bits the interrupt is
    sending is in state RUN or RELOAD, and no call changes its bits:
    the manager only converts a packet into a buffer in state LOAD. *)
Theorem bits_being_sent_stay (cs : list call) (c : call) (i : nat) :
  let s := exec (run_calls cs) setup in
  sending s = Some i ->
  (tb_state (buffer i s) = TBS_RUN \/ tb_state (buffer i s) = TBS_RELOAD)
  /\ tb_bits (buffer i (exec (run_call c) s)) = tb_bits (buffer i s).
Proof.
  intros s Hi. pose proof (safe_run_calls cs) as Hsafe. fold s in Hsafe.
  split; [by apply Hsafe|].
  assert (Hc : c = Manage \/ c <> Manage) by (destruct c; auto).
  destruct Hc as [-> | Hc].
  - by apply bits_management_service_routine.
  - by apply (bits_run_call i _ c Hc s).
Qed.

(** ** The ring of buffers *)

Lemma ring_update_buffer (i : nat) (f : trans_buffer -> trans_buffer) :
  (forall b, (tb_next b < Z.to_nat TRANSMISSION_BUFFERS)%nat ->
             (tb_next (f b) < Z.to_nat TRANSMISSION_BUFFERS)%nat) ->
  preserves ring_wf (update_buffer i f).
Proof.
  intros Hf s (Hlen & Hm & Hc & Hall). rewrite exec_update_buffer.
  unfold ring_wf. cbn [circular_buffer set_circular_buffer manage m_isr].
  rewrite length_alter. repeat split; try done.
  apply Forall_alter; [exact Hall|]. intros b Hb. by apply Hf.
Qed.

Lemma ring_gets_buffer (i : nat) :
  triple ring_wf (gets (buffer i))
    (fun b s => ring_wf s /\ (tb_next b < Z.to_nat TRANSMISSION_BUFFERS)%nat).
Proof.
  intros s Hs. rewrite eval_gets, exec_gets. split; [exact Hs|].
  destruct Hs as (Hlen & _ & _ & Hall). unfold buffer.
  rewrite list_lookup_total_alt.
  destruct (circular_buffer s !! i) as [b|] eqn:Hb; cbn.
  - by apply (Forall_lookup_1 _ _ _ _ Hall Hb).
  - vm_compute. lia.
Qed.

Lemma ring_set_manage (v : nat) :
  (v < Z.to_nat TRANSMISSION_BUFFERS)%nat -> preserves ring_wf (modify (set_manage v)).
Proof. intros Hv s (Hlen & Hm & Hc & Hall). by repeat split. Qed.

Lemma ring_set_current (v : nat) :
  (v < Z.to_nat TRANSMISSION_BUFFERS)%nat ->
  preserves ring_wf (modify_isr (set_current v)).
Proof. intros Hv s (Hlen & Hm & Hc & Hall). by repeat split. Qed.

Ltac ring_leaf :=
  idtac;
  lazymatch goal with
  | |- preserves _ (modify (set_manage _)) => apply ring_set_manage; assumption
  | |- preserves _ (modify_isr (set_current _)) => apply ring_set_current; assumption
  | |- preserves _ (update_buffer _ (set_tb_next _)) =>
      apply ring_update_buffer; intros; vm_compute; lia
  | |- preserves _ (update_buffer _ _) =>
      apply ring_update_buffer; intros ?; exact id
  | |- _ => plain_leaf
  end.

Ltac ring_first_call :=
  lazymatch goal with
  | |- preserves _ (gets (buffer _) ≫= _) =>
      eapply preserves_bind_value; [apply ring_gets_buffer|intros ? ?]
  end.

Lemma ring_get_function (adrs f v : Z) : preserves ring_wf (get_function adrs f v).
Proof. preserves_all ring_leaf. Qed.

Lemma ring_scan_line (text : string) : preserves ring_wf (scan_line text).
Proof.
  repeat preserves_step ltac:(idtac; ring_first_call) ltac:(idtac;
    lazymatch goal with
    | |- preserves _ (function_group _ _ _) =>
        apply preserves_function_group; intros; apply ring_get_function
    | |- _ => ring_leaf
    end).
Qed.

Lemma ring_run_call (c : call) : preserves ring_wf (run_call c).
Proof.
  destruct c; cbn [run_call];
  repeat preserves_step ltac:(idtac; ring_first_call) ltac:(idtac;
    lazymatch goal with
    | |- preserves _ (process_input _ _) =>
        apply preserves_process_input; intros; apply ring_scan_line
    | |- _ => ring_leaf
    end).
Qed.

Lemma ring_wf_setup : ring_wf setup.
Proof. vm_compute. repeat split; try lia. repeat constructor; lia. Qed.

(** X17: Whatever calls follow setup, circular_buffer keeps its size and
    manage, current and the next link of every buffer stay inside it. *)
Theorem ring_pointers_stay_inside (cs : list call) :
  ring_wf (exec (run_calls cs) setup).
Proof.
  apply preserves_run_calls; [apply ring_run_call|apply ring_wf_setup].
Qed.

(** ** The end of the cells *)

Lemma count_or_flip_room (want line : Z) (p : packer) :
  has_room p ->
  match count_or_flip want line p with
  | Running p' => has_room p'
  | Failed _ => True
  end.
Proof.
  unfold has_room, BIT_TRANSITIONS. intros (Hl & Hsum & Hne). unfold count_or_flip.
  destruct (want =? pk_b p); [done|].
  assert (Hout : (length (pk_out p) >= 1)%nat) by (destruct (pk_out p); [done|cbn; lia]).
  rewrite to_byte_small by lia.
  destruct (Z.eqb_spec (pk_l p - 1) 0) as [E|E]; [done|].
  cbn [pk_l pk_out]. rewrite length_app. cbn [length].
  split; [lia|]. split; [lia|]. by destruct (pk_out p).
Qed.

Lemma slice_bits_room (n : nat) (v : Z) (p : packer) :
  has_room p ->
  match slice_bits n v p with
  | Running p' => has_room p'
  | Failed _ => True
  end.
Proof.
  revert v p. induction n as [|n IH]; intros v p Hp; [done|].
  cbn [slice_bits]. pose proof (count_or_flip_room (Z.land v 128) 1946 p Hp) as H.
  destruct (count_or_flip _ _ p) as [p1|p1]; cbn [and_then]; [by apply IH|done].
Qed.

Lemma pack_bytes_room (cmd : list Z) (p : packer) :
  has_room p ->
  match pack_bytes cmd p with
  | Running p' => has_room p'
  | Failed _ => True
  end.
Proof.
  revert p. induction cmd as [|v cmd IH]; intros p Hp; [done|].
  cbn [pack_bytes]. pose proof (slice_bits_room 8 v p Hp) as H.
  destruct (slice_bits 8 v p) as [p1|p1]; cbn [and_then]; [|done].
  pose proof (count_or_flip_room (if bool_decide (cmd = []) then 128 else 0) 1979 p1 H) as H'.
  destruct (count_or_flip _ _ p1) as [p2|p2]; cbn [and_then]; [by apply IH|done].
Qed.

Lemma pack_run_end (cmd : list Z) (lp : bool) (p : packer) :
  pack_run cmd lp = Running p ->
  exists out c, pk_out p = out ++ [c; 0]
                /\ (1 <= length out)%nat /\ (length out + 2 < 40)%nat.
Proof.
  unfold pack_run. intros Hrun.
  assert (Hstart : has_room (pack_start lp)).
  { unfold has_room, pack_start, BIT_TRANSITIONS. cbn. repeat split; try lia. done. }
  pose proof (pack_bytes_room cmd _ Hstart) as H.
  destruct (pack_bytes cmd (pack_start lp)) as [p1|p1]; cbn [and_then] in Hrun; [|done].
  destruct H as (Hl & Hsum & Hne). unfold BIT_TRANSITIONS in Hsum.
  unfold pack_finish in Hrun.
  assert (Hout : (length (pk_out p1) >= 1)%nat) by (destruct (pk_out p1); [done|cbn; lia]).
  rewrite to_byte_small in Hrun by lia.
  destruct (Z.eqb_spec (pk_l p1 - 1) 0) as [E|E]; [done|].
  rewrite to_byte_small in Hrun by lia.
  destruct (Z.eqb_spec (pk_l p1 - 1 - 1) 0) as [E'|E']; [done|].
  injection Hrun as <-. cbn [pk_out].
  exists (pk_out p1), (pk_c p1). split; [done|]. lia.
Qed.

Lemma length_store_at (i : nat) (cells arr : list Z) :
  length (store_at i cells arr) = length arr.
Proof.
  revert i arr. induction cells as [|c cells IH]; intros i arr; [done|].
  cbn [store_at]. by rewrite IH, length_insert.
Qed.

Lemma length_pack_command (cmd : list Z) (lp : bool) (buf : list Z) :
  length (pr_bits (pack_command cmd lp buf)) = length buf.
Proof.
  unfold pack_command. destruct (pack_run cmd lp); cbn [pr_bits]; apply length_store_at.
Qed.

(** A packet that [pack_command] has converted ends in a zero cell
    inside the array. *)
Lemma pack_command_end (cmd : list Z) (lp : bool) (buf : list Z) :
  length buf = Z.to_nat BIT_TRANSITIONS ->
  pr_ok (pack_command cmd lp buf) = true ->
  has_end 1 (pr_bits (pack_command cmd lp buf)).
Proof.
  intros Hbuf Hok. unfold pack_command in *.
  destruct (pack_run cmd lp) as [p|p] eqn:Hrun; [|done].
  destruct (pack_run_end _ _ _ Hrun) as (out & c & Hout & H1 & H2).
  cbn [pr_bits]. rewrite Hout.
  change (Z.to_nat BIT_TRANSITIONS) with 40%nat in Hbuf.
  rewrite store_at_front by (rewrite length_app; cbn [length]; lia).
  exists (S (length out)). split; [lia|].
  rewrite lookup_app_l by (rewrite length_app; cbn [length]; lia).
  rewrite lookup_app_r by lia.
  replace (S (length out) - length out)%nat with 1%nat by lia. done.
Qed.

Lemma bits_wf_alter (f : trans_buffer -> trans_buffer) (i : nat)
    (buffers : list trans_buffer) :
  (forall b, length (tb_bits b) = Z.to_nat BIT_TRANSITIONS ->
             length (tb_bits (f b)) = Z.to_nat BIT_TRANSITIONS) ->
  (forall b, (tb_state b = TBS_RUN -> has_end 1 (tb_bits b)) ->
             tb_state (f b) = TBS_RUN -> has_end 1 (tb_bits (f b))) ->
  bits_wf buffers -> bits_wf (alter f i buffers).
Proof.
  intros Hlen Hend Hwf. apply Forall_alter; [exact Hwf|].
  intros b _ [H1 H2]. split; [by apply Hlen|by apply Hend].
Qed.

Lemma source_cells_update_buffer (i : nat) (f : trans_buffer -> trans_buffer)
    (s : machine) :
  (forall b, tb_bits (f b) = tb_bits b) ->
  source_cells (exec (update_buffer i f) s) = source_cells s.
Proof.
  intros Hf. rewrite exec_update_buffer. unfold source_cells.
  cbn [m_isr set_circular_buffer].
  destruct (bp_source (bit_string (m_isr s))) as [j| |]; try done.
  rewrite buffer_alter. destruct (decide _) as [[-> _]|_]; [by rewrite Hf|done].
Qed.

(** A store that leaves the bits alone and puts no buffer in state
    RUN. *)
Lemma streams_update_buffer (i : nat) (f : trans_buffer -> trans_buffer) :
  (forall b, tb_bits (f b) = tb_bits b) ->
  (forall b, tb_state (f b) = tb_state b
             \/ (b <> f b /\ tb_state (f b) = TBS_RELOAD /\ tb_state b <> TBS_EMPTY)
             \/ (tb_state (f b) <> TBS_RUN /\ tb_state b = TBS_EMPTY)) ->
  preserves streams_wf (update_buffer i f).
Proof.
  intros Hbits Hstate s (Hwf & Hsafe & Hend). split; [|split].
  - rewrite exec_update_buffer. cbn [circular_buffer set_circular_buffer].
    apply bits_wf_alter; [| |exact Hwf].
    + intros b. by rewrite Hbits.
    + intros b Hb Hrun. rewrite Hbits. apply Hb.
      destruct (Hstate b) as [E|[(_ & E & _)|[E _]]];
        [by rewrite <- E|rewrite E in Hrun; discriminate Hrun|done].
  - intros j Hj. rewrite exec_update_buffer, buffer_alter.
    specialize (Hsafe j Hj). destruct (decide _) as [[-> _]|_]; [|done].
    destruct (Hstate (buffer j s)) as [E|[(_ & E & _)|[_ E]]].
    + by rewrite E.
    + by right.
    + rewrite E in Hsafe. by destruct Hsafe.
  - rewrite source_cells_update_buffer by done. exact Hend.
Qed.

Lemma hand_over_state (b : trans_buffer) :
  tb_state (hand_over b) = tb_state b
  \/ (b <> hand_over b /\ tb_state (hand_over b) = TBS_RELOAD /\ tb_state b <> TBS_EMPTY)
  \/ (tb_state (hand_over b) <> TBS_RUN /\ tb_state b = TBS_EMPTY).
Proof.
  unfold hand_over. cbn [tb_state set_tb_state].
  destruct (Z.eqb_spec (tb_state b) TBS_EMPTY) as [E|E].
  - right. right. by split.
  - destruct (decide (tb_state b = TBS_RELOAD)) as [E'|E']; [by left|].
    right. left. split; [|by split].
    intros Hb. apply (f_equal tb_state) in Hb. cbn in Hb. congruence.
Qed.

Ltac streams_leaf :=
  idtac;
  lazymatch goal with
  | |- preserves _ (update_buffer _ hand_over) =>
      apply streams_update_buffer; [reflexivity|apply hand_over_state]
  | |- preserves _ (update_buffer _ _) =>
      apply streams_update_buffer; [reflexivity|intros; left; reflexivity]
  | |- _ => plain_leaf
  end.

Lemma streams_get_function (adrs f v : Z) : preserves streams_wf (get_function adrs f v).
Proof. preserves_all streams_leaf. Qed.

Lemma streams_scan_line (text : string) : preserves streams_wf (scan_line text).
Proof.
  preserves_all ltac:(idtac;
    lazymatch goal with
    | |- preserves _ (function_group _ _ _) =>
        apply preserves_function_group; intros; apply streams_get_function
    | |- _ => streams_leaf
    end).
Qed.

Lemma core_update_buffer (i : nat) (f : trans_buffer -> trans_buffer) :
  (forall b, tb_bits (f b) = tb_bits b) ->
  (forall b, tb_state (f b) = TBS_RUN -> tb_state b = TBS_RUN) ->
  preserves (fun s => bits_wf (circular_buffer s)) (update_buffer i f).
Proof.
  intros Hbits Hstate s Hwf. rewrite exec_update_buffer.
  cbn [circular_buffer set_circular_buffer].
  apply bits_wf_alter; [| |exact Hwf].
  - intros b. by rewrite Hbits.
  - intros b Hb Hrun. rewrite Hbits. by apply Hb, Hstate.
Qed.

Lemma core_retire_current :
  preserves (fun s => bits_wf (circular_buffer s)) retire_current.
Proof.
  preserves_all ltac:(idtac;
    lazymatch goal with
    | |- preserves _ (update_buffer _ _) =>
        apply core_update_buffer; [reflexivity|intros ? H; first [exact H|discriminate H]]
    | |- _ => plain_leaf
    end).
Qed.

Lemma fetch_left_run (s : machine) :
  fetch_left s
  = (source_cells s !!! bp_offset (bit_string (m_isr s)),
     set_isr (set_bit_string (advance (bit_string (m_isr s)))
                (set_left (source_cells s !!! bp_offset (bit_string (m_isr s)))
                   (m_isr s))) s).
Proof.
  unfold fetch_left. rewrite !run_bind, !eval_gets, !exec_gets, exec_modify_isr.
  assert (E : read_bit_string (bit_string (m_isr s)) (circular_buffer s)
              = source_cells s !!! bp_offset (bit_string (m_isr s))).
  { unfold read_bit_string, source_cells.
    by destruct (bp_source (bit_string (m_isr s))). }
  by rewrite E.
Qed.

Lemma source_cells_fetch_left (s : machine) :
  source_cells (exec fetch_left s) = source_cells s.
Proof. unfold exec. rewrite fetch_left_run. reflexivity. Qed.

(** Reading a cell that is not the zero cell leaves the end ahead. *)
Lemma streams_fetch_left (s : machine) :
  bits_wf (circular_buffer s) -> sending_is_safe s ->
  has_end (bp_offset (bit_string (m_isr s))) (source_cells s) ->
  eval fetch_left s <> 0 ->
  streams_wf (exec fetch_left s).
Proof.
  intros Hwf Hsafe (j & Hj & Hzero) Hv. split; [|split].
  - unfold exec. rewrite fetch_left_run. exact Hwf.
  - by apply safe_fetch_left.
  - rewrite source_cells_fetch_left. unfold exec at 1. rewrite fetch_left_run.
    cbn [snd m_isr set_isr bit_string set_bit_string advance bp_offset].
    exists j. split; [|exact Hzero].
    destruct (decide (j = bp_offset (bit_string (m_isr s)))) as [->|]; [|lia].
    exfalso. apply Hv. unfold eval. rewrite fetch_left_run. cbn [fst].
    by rewrite (list_lookup_total_correct _ _ _ Hzero).
Qed.

(** The first cell of a bit stream is read whatever it holds; the end
    is looked for behind it. *)
Lemma streams_fetch_first (s : machine) :
  bits_wf (circular_buffer s) -> sending_is_safe s ->
  has_end (S (bp_offset (bit_string (m_isr s)))) (source_cells s) ->
  streams_wf (exec fetch_left s).
Proof.
  intros Hwf Hsafe Hend. split; [|split].
  - unfold exec. rewrite fetch_left_run. exact Hwf.
  - by apply safe_fetch_left.
  - rewrite source_cells_fetch_left. unfold exec at 1. rewrite fetch_left_run.
    exact Hend.
Qed.

Lemma streams_select_bit_string (s : machine) :
  bits_wf (circular_buffer s) ->
  let s' := exec select_bit_string s in
  bits_wf (circular_buffer s')
  /\ bp_offset (bit_string (m_isr s')) = 0%nat
  /\ has_end 1 (source_cells s').
Proof.
  intros Hwf. cbv zeta. unfold select_bit_string.
  rewrite !exec_bind, !eval_gets, !exec_gets.
  set (cur := current (m_isr s)).
  destruct (Z.eqb_spec (tb_state (buffer cur s)) TBS_RUN) as [E|E].
  { rewrite exec_modify_isr. split; [exact Hwf|]. split; [done|].
    change (has_end 1 (tb_bits (buffer cur s))).
    unfold buffer in *. rewrite list_lookup_total_alt in *.
    destruct (circular_buffer s !! cur) as [b|] eqn:Hb; [|done].
    cbn in *. by destruct (Forall_lookup_1 _ _ _ _ Hwf Hb) as [_ H]; apply H. }
  assert (Hidle : has_end 1 dcc_idle_packet) by (exists 5%nat; split; [lia|done]).
  assert (Hfill : has_end 1 dcc_filler_data) by (exists 1%nat; split; [lia|done]).
  destruct (_ =? TBS_RELOAD).
  { rewrite exec_bind, exec_modify_isr.
    split; [|split; [done|exact Hidle]].
    apply core_update_buffer; [done|by intros ? H|exact Hwf]. }
  destruct (_ =? TBS_LOAD).
  { rewrite exec_modify_isr. split; [exact Hwf|]. split; [done|].
    unfold source_cells. cbn [m_isr set_isr bit_string set_bit_string bp_source].
    by destruct (tb_pending _). }
  rewrite exec_modify_isr. split; [exact Hwf|]. split; [done|exact Hidle].
Qed.

Lemma streams_next_buffer (s : machine) :
  bits_wf (circular_buffer s) -> streams_wf (exec next_buffer s).
Proof.
  intros Hwf. unfold next_buffer. rewrite exec_bind.
  pose proof (core_retire_current s Hwf) as H1. cbv beta in H1.
  revert H1. generalize (exec retire_current s). clear s Hwf. intros s Hwf.
  rewrite !exec_bind, !eval_gets, !exec_gets, exec_ret.
  match goal with |- context [exec select_bit_string ?t] =>
    pose proof (streams_select_bit_string t Hwf) as (H1 & H2 & H3);
    pose proof (safe_select_bit_string t) as H4;
    revert H1 H2 H3 H4; generalize (exec select_bit_string t) end.
  clear s Hwf. intros s H1 H2 H3 H4. rewrite exec_modify_isr.
  apply streams_fetch_first; [exact H1|exact H4|].
  cbn [m_isr set_isr bit_string set_reload set_one].
  change (source_cells (set_isr _ s)) with (source_cells s).
  by rewrite H2.
Qed.

Lemma streams_fetch_then (F : isr_state -> isr_state) :
  (forall i, bit_string (F i) = bit_string i) ->
  preserves streams_wf
    (v ← fetch_left; if negb (v =? 0) then modify_isr F else next_buffer).
Proof.
  intros HF s (Hwf & Hsafe & Hend). rewrite exec_bind.
  destruct (Z.eqb_spec (eval fetch_left s) 0) as [E|E]; cbn [negb].
  - apply streams_next_buffer. unfold exec. rewrite fetch_left_run. exact Hwf.
  - pose proof (streams_fetch_left s Hwf Hsafe Hend E) as (H1 & H2 & H3).
    rewrite exec_modify_isr. split; [exact H1|]. split.
    + intros j Hj. apply H2. unfold sending in *.
      cbn [m_isr set_isr] in Hj. by rewrite HF in Hj.
    + unfold source_cells in *. cbn [m_isr set_isr]. rewrite HF. exact H3.
Qed.

Lemma streams_TIMER2_COMPA_vect : preserves streams_wf TIMER2_COMPA_vect.
Proof.
  unfold TIMER2_COMPA_vect.
  repeat preserves_step
    ltac:(idtac;
      lazymatch goal with
      | |- preserves _ (fetch_left ≫= _) =>
          apply streams_fetch_then; intros; reflexivity
      end)
    ltac:(idtac; streams_leaf).
Qed.

(** The manager at work on buffer [m], which is not being sent and not
    in state RUN: what it stores there is out of the interrupt's way. *)
Lemma working_update_buffer (m : nat) (f : trans_buffer -> trans_buffer) :
  (forall b, length (tb_bits b) = Z.to_nat BIT_TRANSITIONS ->
             length (tb_bits (f b)) = Z.to_nat BIT_TRANSITIONS) ->
  (forall b, tb_state b <> TBS_RUN -> tb_state (f b) <> TBS_RUN) ->
  preserves (fun s => streams_wf s /\ sending s <> Some m
                      /\ tb_state (buffer m s) <> TBS_RUN
                      /\ (m < length (circular_buffer s))%nat)
    (update_buffer m f).
Proof.
  intros Hlen Hstate s ((Hwf & Hsafe & Hend) & Hm & Hrun & Hin).
  assert (Hsending : sending (exec (update_buffer m f) s) = sending s) by done.
  split; [split; [|split]|split; [|split]].
  - rewrite exec_update_buffer. cbn [circular_buffer set_circular_buffer].
    apply Forall_alter; [exact Hwf|]. intros b Hb [H1 H2].
    split; [by apply Hlen|]. intros Hrun'. exfalso.
    apply (Hstate b); [|exact Hrun'].
    unfold buffer in Hrun. by rewrite (list_lookup_total_correct _ _ _ Hb) in Hrun.
  - intros j Hj. rewrite Hsending in Hj.
    rewrite exec_update_buffer, buffer_alter.
    destruct (decide _) as [[-> _]|_]; [congruence|by apply Hsafe].
  - assert (Hcells : source_cells (exec (update_buffer m f) s) = source_cells s).
    { rewrite exec_update_buffer. unfold source_cells, sending in *.
      cbn [m_isr set_circular_buffer].
      destruct (bp_source (bit_string (m_isr s))) as [j| |]; try done.
      rewrite buffer_alter. destruct (decide _) as [[-> _]|_]; [congruence|done]. }
    rewrite Hcells. exact Hend.
  - by rewrite Hsending.
  - rewrite exec_update_buffer, buffer_alter.
    destruct (decide _); [by apply Hstate|exact Hrun].
  - rewrite exec_update_buffer. cbn [circular_buffer set_circular_buffer].
    by rewrite length_alter.
Qed.

Lemma working_set_bits (m : nat) (x : list Z) :
  length x = Z.to_nat BIT_TRANSITIONS ->
  triple (fun s => streams_wf s /\ sending s <> Some m
                   /\ tb_state (buffer m s) <> TBS_RUN
                   /\ (m < length (circular_buffer s))%nat)
    (update_buffer m (set_tb_bits x))
    (fun _ s => (streams_wf s /\ sending s <> Some m
                 /\ tb_state (buffer m s) <> TBS_RUN
                 /\ (m < length (circular_buffer s))%nat)
                /\ tb_bits (buffer m s) = x).
Proof.
  intros Hx s Hs. split.
  - apply working_update_buffer; [done|by intros ? H|exact Hs].
  - destruct Hs as (_ & _ & _ & Hin).
    rewrite exec_update_buffer, buffer_alter. by rewrite decide_True.
Qed.

Lemma working_keep_bits (m : nat) (x : list Z) (f : trans_buffer -> trans_buffer) :
  (forall b, tb_bits (f b) = tb_bits b) ->
  (forall b, tb_state (f b) = tb_state b) ->
  preserves (fun s => (streams_wf s /\ sending s <> Some m
                       /\ tb_state (buffer m s) <> TBS_RUN
                       /\ (m < length (circular_buffer s))%nat)
                      /\ tb_bits (buffer m s) = x)
    (update_buffer m f).
Proof.
  intros Hbits Hstate s [Hs Hx]. split.
  - apply working_update_buffer; [intros b; by rewrite Hbits| |exact Hs].
    intros b. by rewrite Hstate.
  - rewrite exec_update_buffer, buffer_alter.
    destruct (decide _); [by rewrite Hbits|exact Hx].
Qed.

(** Putting the buffer in state RUN once its bits hold a packet. *)
Lemma working_set_run (m : nat) (s : machine) :
  streams_wf s -> sending s <> Some m ->
  has_end 1 (tb_bits (buffer m s)) ->
  streams_wf (exec (update_buffer m (set_tb_state TBS_RUN)) s)
  /\ sending (exec (update_buffer m (set_tb_state TBS_RUN)) s) <> Some m.
Proof.
  intros (Hwf & Hsafe & Hend) Hm Hbits.
  assert (Hsending : sending (exec (update_buffer m (set_tb_state TBS_RUN)) s)
                     = sending s) by done.
  split; [split; [|split]|by rewrite Hsending].
  - rewrite exec_update_buffer. cbn [circular_buffer set_circular_buffer].
    apply Forall_alter; [exact Hwf|]. intros b Hb [H1 H2].
    split; [exact H1|]. intros _. cbn [tb_bits set_tb_state].
    unfold buffer in Hbits. by rewrite (list_lookup_total_correct _ _ _ Hb) in Hbits.
  - intros j Hj. rewrite Hsending in Hj.
    rewrite exec_update_buffer, buffer_alter.
    destruct (decide _) as [[-> _]|_]; [congruence|by apply Hsafe].
  - rewrite source_cells_update_buffer by done. exact Hend.
Qed.

(** After that the manager stores neither bits nor state. *)
Lemma apart_streams_update_buffer (m : nat) (f : trans_buffer -> trans_buffer) :
  (forall b, tb_bits (f b) = tb_bits b) ->
  (forall b, tb_state (f b) = tb_state b) ->
  preserves (fun s => streams_wf s /\ sending s <> Some m) (update_buffer m f).
Proof.
  intros Hbits Hstate s [Hs Hm]. split; [|exact Hm].
  apply streams_update_buffer; [exact Hbits| |exact Hs].
  intros b. left. apply Hstate.
Qed.

Lemma streams_management_service_routine :
  preserves streams_wf management_service_routine.
Proof.
  intros s Hs. unfold management_service_routine.
  rewrite exec_bind, eval_gets, exec_gets, exec_bind, eval_gets, exec_gets.
  rewrite exec_bind.
  match goal with |- streams_wf (exec ?tail (exec ?body s)) =>
    enough (streams_wf (exec body s)) as H;
    [revert H; generalize (exec body s); change (preserves streams_wf tail);
     preserves_all streams_leaf|]
  end.
  destruct (Z.eqb_spec (tb_state (buffer (manage s) s)) TBS_LOAD) as [E|E]; [|exact Hs].
  set (m := manage s) in *. set (b := buffer m s) in *.
  pose proof Hs as (Hwf & Hsafe & Hend).
  assert (Hin : (m < length (circular_buffer s))%nat).
  { destruct (decide (m < length (circular_buffer s))%nat) as [|Hout]; [done|].
    exfalso. unfold b, buffer in E.
    rewrite list_lookup_total_alt, lookup_ge_None_2 in E by lia. done. }
  assert (Hb : length (tb_bits b) = Z.to_nat BIT_TRANSITIONS).
  { unfold b, buffer. destruct (lookup_lt_is_Some_2 _ _ Hin) as [b' Hb'].
    rewrite (list_lookup_total_correct _ _ _ Hb').
    by destruct (Forall_lookup_1 _ _ _ _ Hwf Hb'). }
  assert (HJ : streams_wf s /\ sending s <> Some m
               /\ tb_state (buffer m s) <> TBS_RUN
               /\ (m < length (circular_buffer s))%nat).
  { split; [exact Hs|]. split; [|split; [|exact Hin]].
    - intros Hm. destruct (Hsafe _ Hm) as [H|H]; fold b in H; rewrite E in H; done.
    - fold b. rewrite E. done. }
  clearbody b. clearbody m. clear Hs Hwf Hsafe Hend Hin E. revert s HJ.
  set (J := fun s => streams_wf s /\ sending s <> Some m
                     /\ tb_state (buffer m s) <> TBS_RUN
                     /\ (m < length (circular_buffer s))%nat).
  match goal with |- forall s, _ -> streams_wf (exec ?t s) =>
    change (triple J t (fun _ => streams_wf)) end.
  destruct (tb_pending b) as [|pp rest] eqn:Hp.
  - enough (H : preserves J
                  ((if tb_reply b =? REPLY_ON_CONFIRM then
                      confirmed ← gets load_confirmed;
                      match replace_hash (if (confirmed : bool) then "1"%char else "0"%char)
                              (tb_contains b) with
                      | Some text =>
                          update_buffer m (set_tb_contains text);;
                          send_reply text (tb_target b)
                      | None =>
                          if confirmed then send_reply (tb_contains b) (tb_target b)
                          else mret tt
                      end
                    else mret tt);;
                   update_buffer m (set_tb_reply NO_REPLY_REQUIRED);;
                   update_buffer m (set_tb_state TBS_EMPTY)))
      by (intros s HJ; by destruct (H s HJ)).
    preserves_all ltac:(idtac;
      lazymatch goal with
      | |- preserves _ (update_buffer _ _) =>
          apply working_update_buffer;
          [intros ? H; exact H|intros ? H; first [exact H|discriminate]]
      | |- _ => plain_leaf
      end).
  - cbv zeta.
    set (r := pack_command (take (Z.to_nat (pp_len pp)) (pp_command pp))
                (pp_lpreamble pp) (tb_bits b)).
    assert (Hr : length (pr_bits r) = Z.to_nat BIT_TRANSITIONS)
      by (unfold r; by rewrite length_pack_command).
    apply (triple_bind J _ _ (fun _ => J));
      [match goal with |- triple _ ?t _ => change (preserves J t) end;
       apply preserves_report_failed; intros ? ? ?; exact id|intros _].
    apply (triple_bind J _ _ (fun _ s => J s /\ tb_bits (buffer m s) = pr_bits r));
      [by apply working_set_bits|intros _].
    destruct (pr_ok r) eqn:Hok.
    + set (K := fun s => J s /\ tb_bits (buffer m s) = pr_bits r).
      do 2 (apply (triple_bind K _ _ (fun _ => K));
        [match goal with |- triple _ ?t _ => change (preserves K t) end;
         by apply working_keep_bits|intros _]).
      set (L := fun s => streams_wf s /\ sending s <> Some m).
      apply (triple_bind K _ _ (fun _ => L)).
      { intros s ((Hs & Hm & _) & Hbits). apply working_set_run; [done..|].
        rewrite Hbits. unfold r. by apply pack_command_end. }
      intros _.
      enough (H : preserves L
                    (rest0 ← release_pending_recs (pp :: rest) true;
                     update_buffer m (set_tb_pending rest0);;
                     if (tb_reply b =? REPLY_ON_SEND) && bool_decide (rest0 = []) then
                       send_reply (tb_contains b) (pp_target pp);;
                       update_buffer m (set_tb_reply NO_REPLY_REQUIRED)
                     else mret tt))
        by (intros s HL; by destruct (H s HL)).
      preserves_all ltac:(idtac;
        lazymatch goal with
        | |- preserves _ (update_buffer _ _) =>
            apply apart_streams_update_buffer; reflexivity
        | |- _ => plain_leaf
        end).
    + enough (H : preserves J
                    (report_error BIT_TRANS_OVERFLOW (pp_target pp);;
                     update_buffer m (set_tb_state TBS_EMPTY);;
                     rest0 ← release_pending_recs (pp :: rest) false;
                     update_buffer m (set_tb_pending rest0)))
        by (intros s [HJ _]; by destruct (H s HJ)).
      preserves_all ltac:(idtac;
        lazymatch goal with
        | |- preserves _ (update_buffer _ _) =>
            apply working_update_buffer;
            [intros ? H; exact H|intros ? H; first [exact H|discriminate]]
        | |- _ => plain_leaf
        end).
Qed.

Lemma streams_run_call (c : call) : preserves streams_wf (run_call c).
Proof.
  destruct c; cbn [run_call];
  first [ apply streams_management_service_routine
        | apply streams_TIMER2_COMPA_vect
        | preserves_all ltac:(idtac;
            lazymatch goal with
            | |- preserves _ (process_input _ _) =>
                apply preserves_process_input; intros; apply streams_scan_line
            | |- _ => streams_leaf
            end) ].
Qed.

Lemma streams_wf_setup : streams_wf setup.
Proof.
  split; [|split].
  - repeat constructor; discriminate.
  - intros i [=].
  - exists 5%nat. split; [cbn; lia|done].
Qed.

(** X18: Whatever calls follow setup, the cell the interrupt reads next lies
    inside the array it reads from (the bits of a buffer, the idle
    packet or the filler) and a zero cell lies at or after it, so the
    interrupt meets the end of the cells before the end of the array. *)
Theorem interrupt_reads_inside_arrays (cs : list call) :
  let s := exec (run_calls cs) setup in
  exists j,
    (bp_offset (bit_string (m_isr s)) <= j < length (source_cells s))%nat
    /\ source_cells s !! j = Some 0.
Proof.
  assert (H : streams_wf (exec (run_calls cs) setup))
    by (apply preserves_run_calls; [apply streams_run_call|apply streams_wf_setup]).
  destruct H as (_ & _ & j & Hj & Hzero).
  exists j. split; [|exact Hzero]. split; [exact Hj|].
  by apply lookup_lt_Some in Hzero.
Qed.

Lemma bits_being_sent_stay_witness :
  let s := exec (run_calls first_packet_run) setup in
  let c := Input (String.list_ascii_of_string "[M3 0 1]") (SerialState [] false) in
  sending s = Some 3%nat
  /\ (tb_state (buffer 3 s) = TBS_RUN \/ tb_state (buffer 3 s) = TBS_RELOAD)
  /\ tb_bits (buffer 3 (exec (run_call c) s)) = tb_bits (buffer 3 s).
Proof.
  intros s c.
  assert (H : sending s = Some 3%nat) by (vm_compute; reflexivity).
  split; [exact H|].
  exact (bits_being_sent_stay first_packet_run c 3 H).
Defined.

(** ** Cutting the power *)

Lemma cut_power_state (err amps : Z) (s : machine) :
  global_power_state s <> GLOBAL_POWER_OFF ->
  output_wf (m_output s) ->
  queue_len (m_output s) + 5 <= OUTPUT_QUEUE_SIZE ->
  exec (cut_power err amps) s
  = set_load_compound_value (replicate (length (load_compound_value s)) 0)
      (set_output
         (queue_chars (String.list_ascii_of_string power_report) (m_output s)).2
         (set_errors (report_error_in err amps (m_errors s))
            (set_global_power_state GLOBAL_POWER_OFF
               (set_pins (<[PROG_TRACK_ENABLE := LOW]>
                            (<[MAIN_TRACK_ENABLE := LOW]> (pins s))) s)))).
Proof.
  intros Hon Hwf Hroom. unfold cut_power.
  rewrite exec_bind. unfold eval at 1, exec at 2. rewrite power_off_tracks_run.
  cbn [fst snd]. rewrite bool_decide_eq_false_2 by done. cbn [negb].
  rewrite exec_bind, exec_report_error.
  set (s1 := set_errors _ _).
  rewrite exec_bind. unfold eval at 1, exec at 2. rewrite queue_output_run.
  cbn [fst snd]. rewrite exec_bind.
  destruct (queue_chars_spec (String.list_ascii_of_string power_report) (m_output s1) Hwf)
    as (Hr & _). cbv zeta in Hr. rewrite Hr.
  change (m_output s1) with (m_output s).
  change (Z.of_nat (length (String.list_ascii_of_string power_report))) with 5.
  rewrite (proj2 (Z.leb_le _ _) Hroom). rewrite exec_ret, exec_modify.
  reflexivity.
Qed.

Lemma cut_power_off (err amps : Z) (s : machine) :
  global_power_state s = GLOBAL_POWER_OFF ->
  power_consistent s ->
  exec (cut_power err amps) s = s.
Proof.
  intros Hoff (Hmain & Hprog & _). unfold cut_power.
  rewrite exec_bind. unfold eval at 1, exec at 2. rewrite power_off_tracks_run.
  cbn [fst snd]. rewrite bool_decide_eq_true_2 by done. cbn [negb]. rewrite exec_ret.
  rewrite Hoff in Hmain, Hprog. cbn in Hmain, Hprog.
  destruct s. cbn in *. subst. f_equal.
  rewrite (insert_id _ _ _ Hmain). rewrite (insert_id _ _ _ Hprog). done.
Qed.

(** X19: When a reading takes the second average over INSTANT_CURRENT_LIMIT or
    the last average over AVERAGE_CURRENT_LIMIT while a track is
    powered, monitor_current_load switches both tracks off, queues the
    error POWER_SPIKE (or POWER_OVERLOAD when only the last average is
    over its limit) with the last average as argument, queues the
    report [P0] for the host and sets all ten averages back to zero.
    It returns without restarting the converter: the variables of the
    conversion are left as they were. *)
Theorem overload_cuts_power (s : machine) (amps : Z) :
  let acc := (compound amps (load_compound_value s)).1 in
  length (load_compound_value s) = Z.to_nat COMPOUNDED_VALUES ->
  INSTANT_CURRENT_LIMIT < acc !!! 1%nat \/ AVERAGE_CURRENT_LIMIT < acc !!! 9%nat ->
  global_power_state s <> GLOBAL_POWER_OFF ->
  output_wf (m_output s) -> queue_len (m_output s) + 5 <= OUTPUT_QUEUE_SIZE ->
  errors_wf (m_errors s) -> errors_pending (m_errors s) < ERROR_QUEUE_SIZE ->
  let s' := exec (monitor_current_load amps) s in
  global_power_state s' = GLOBAL_POWER_OFF
  /\ pins s' !! MAIN_TRACK_ENABLE = Some LOW
  /\ pins s' !! PROG_TRACK_ENABLE = Some LOW
  /\ pending_errors (m_errors s')
     = pending_errors (m_errors s)
       ++ [QueuedError (if INSTANT_CURRENT_LIMIT <? acc !!! 1%nat
                        then POWER_SPIKE else POWER_OVERLOAD) (acc !!! 9%nat)]
  /\ queued_text (m_output s')
     = queued_text (m_output s) ++ ["["; "P"; "0"; "]"; NL]%char
  /\ load_compound_value s' = replicate (Z.to_nat COMPOUNDED_VALUES) 0
  /\ m_adc s' = m_adc s
  /\ load_confirmed s' = load_confirmed s.
Proof.
  intros acc Hlen Htrip Hon Hwf Hroom Hewf Heroom s'.
  assert (Hne : load_compound_value s <> []) by (intros E; by rewrite E in Hlen).
  pose proof (compound_last _ amps Hne) as Hlast. rewrite Hlen in Hlast.
  change (Z.to_nat COMPOUNDED_VALUES - 1)%nat with 9%nat in Hlast. fold acc in Hlast.
  assert (Hs' : s' = exec (cut_power (if INSTANT_CURRENT_LIMIT <? acc !!! 1%nat
                                      then POWER_SPIKE else POWER_OVERLOAD)
                             (acc !!! 9%nat))
                       (set_load_compound_value acc s)).
  { unfold s', monitor_current_load. rewrite exec_bind, eval_gets, exec_gets.
    unfold acc in *. destruct (compound amps (load_compound_value s)) as [v lst].
    cbn [fst snd] in *. rewrite exec_bind, exec_modify. subst lst.
    destruct (Z.ltb_spec INSTANT_CURRENT_LIMIT (v !!! 1%nat)) as [H1|H1]; [done|].
    change (Z.to_nat (COMPOUNDED_VALUES - 1)) with 9%nat.
    destruct Htrip as [?|H9]; [lia|].
    by rewrite (proj2 (Z.ltb_lt _ _) H9). }
  rewrite Hs'. rewrite cut_power_state by done.
  cbn [global_power_state pins m_errors m_output load_compound_value m_adc
       load_confirmed set_load_compound_value set_output set_errors
       set_global_power_state set_pins].
  destruct (queue_chars_spec (String.list_ascii_of_string power_report) (m_output s) Hwf)
    as (_ & _ & Htext & _). cbv zeta in Htext.
  split; [done|]. split; [by rewrite lookup_insert_ne, lookup_insert_eq|].
  split; [by rewrite lookup_insert_eq|].
  split; [by apply report_error_push|].
  split.
  { rewrite Htext, take_ge; [done|].
    cbn [length String.list_ascii_of_string power_report].
    unfold OUTPUT_QUEUE_SIZE in *. lia. }
  split; [|done].
  f_equal. unfold acc. by rewrite compound_length.
Qed.

Lemma overload_cuts_power_witness :
  let s := heavy_load in
  let acc := (compound 1023 (load_compound_value s)).1 in
  (length (load_compound_value s) = Z.to_nat COMPOUNDED_VALUES
   /\ (INSTANT_CURRENT_LIMIT < acc !!! 1%nat \/ AVERAGE_CURRENT_LIMIT < acc !!! 9%nat)
   /\ global_power_state s <> GLOBAL_POWER_OFF
   /\ output_wf (m_output s) /\ queue_len (m_output s) + 5 <= OUTPUT_QUEUE_SIZE
   /\ errors_wf (m_errors s) /\ errors_pending (m_errors s) < ERROR_QUEUE_SIZE)
  /\ global_power_state (exec (monitor_current_load 1023) s) = GLOBAL_POWER_OFF
  /\ pending_errors (m_errors (exec (monitor_current_load 1023) s))
     = [QueuedError POWER_SPIKE 45].
Proof.
  intros s acc.
  assert (H1 : length (load_compound_value s) = Z.to_nat COMPOUNDED_VALUES)
    by (vm_compute; reflexivity).
  assert (H2 : INSTANT_CURRENT_LIMIT < acc !!! 1%nat \/ AVERAGE_CURRENT_LIMIT < acc !!! 9%nat)
    by (left; vm_compute; reflexivity).
  assert (H3 : global_power_state s <> GLOBAL_POWER_OFF) by (vm_compute; congruence).
  assert (H4 : output_wf (m_output s)) by (vm_compute; repeat split; congruence).
  assert (H5 : queue_len (m_output s) + 5 <= OUTPUT_QUEUE_SIZE) by (vm_compute; congruence).
  assert (H6 : errors_wf (m_errors s)) by (vm_compute; repeat split; congruence).
  assert (H7 : errors_pending (m_errors s) < ERROR_QUEUE_SIZE) by (vm_compute; reflexivity).
  split; [exact (conj H1 (conj H2 (conj H3 (conj H4 (conj H5 (conj H6 H7))))))|].
  destruct (overload_cuts_power s 1023 H1 H2 H3 H4 H5 H6 H7) as (Hoff & _ & _ & Herr & _).
  split; [exact Hoff|]. rewrite Herr. vm_compute. reflexivity.
Defined.

(** ** Choosing a transmission buffer *)

Lemma lookup_range (base count : Z) (s : machine) (k : nat) (b : trans_buffer) :
  0 <= base -> 0 <= count ->
  take (Z.to_nat count) (drop (Z.to_nat base) (circular_buffer s)) !! k = Some b ->
  (k < Z.to_nat count)%nat /\ buffer (Z.to_nat base + k) s = b.
Proof.
  intros Hbase Hcount Hk.
  apply lookup_take_Some in Hk as [Hk Hlt]. rewrite lookup_drop in Hk.
  split; [exact Hlt|]. unfold buffer. by apply list_lookup_total_correct.
Qed.

Lemma range_lookup (base count : Z) (s : machine) (j : nat) :
  0 <= base -> 0 <= count ->
  (Z.to_nat (base + count) <= length (circular_buffer s))%nat ->
  (Z.to_nat base <= j < Z.to_nat (base + count))%nat ->
  take (Z.to_nat count) (drop (Z.to_nat base) (circular_buffer s)) !! (j - Z.to_nat base)%nat
  = Some (buffer j s).
Proof.
  intros Hbase Hcount Hlen Hj.
  rewrite lookup_take_lt by lia. rewrite lookup_drop.
  replace (Z.to_nat base + (j - Z.to_nat base))%nat with j by lia.
  unfold buffer. apply list_lookup_lookup_total_lt. lia.
Qed.

(** X20: Called on a range of buffers inside circular_buffer,
    find_available_buffer changes nothing and returns the first buffer
    of the range whose target is the one asked for, whatever its
    state; when the range holds no such buffer it returns the first
    buffer of the range in state EMPTY; it returns NULL only when no
    buffer of the range has the target or is EMPTY. *)
Theorem find_available_buffer_choice (base count target : Z) (s : machine) :
  0 <= base -> 0 < count -> base + count <= TRANSMISSION_BUFFERS ->
  length (circular_buffer s) = Z.to_nat TRANSMISSION_BUFFERS ->
  let in_range j := (Z.to_nat base <= j < Z.to_nat (base + count))%nat in
  exec (find_available_buffer base count target) s = s
  /\ match eval (find_available_buffer base count target) s with
     | Some i =>
         in_range i
         /\ ((tb_target (buffer i s) = target
              /\ forall j, in_range j -> (j < i)%nat -> tb_target (buffer j s) <> target)
             \/ (tb_state (buffer i s) = TBS_EMPTY
                 /\ (forall j, in_range j -> tb_target (buffer j s) <> target)
                 /\ forall j, in_range j -> (j < i)%nat ->
                      tb_state (buffer j s) <> TBS_EMPTY))
     | None =>
         forall j, in_range j ->
           tb_target (buffer j s) <> target /\ tb_state (buffer j s) <> TBS_EMPTY
     end.
Proof.
  intros Hbase Hcount Hsum Hlen in_range. unfold find_available_buffer.
  unfold TRANSMISSION_BUFFERS, PROGRAMMING_BASE_BUFFER, MOBILE_BASE_BUFFER,
    ACCESSORY_BASE_BUFFER, ACCESSORY_TRANS_BUFFERS, MOBILE_TRANS_BUFFERS,
    PROGRAMMING_BUFFERS in *.
  assert (H1 : (base <? 0 + 3 + 6 + 1) = true) by lia.
  assert (H2 : ((0 <? count) && (count <=? 0 + 3 + 6 + 1)) = true) by lia.
  assert (H3 : (base + count <=? 0 + 3 + 6 + 1) = true) by lia.
  rewrite H1, H2, H3. cbn [ASSERT].
  mstep.
  set (bufs := take (Z.to_nat count) (drop (Z.to_nat base) (circular_buffer s))).
  assert (Hin : forall j, in_range j ->
            bufs !! (j - Z.to_nat base)%nat = Some (buffer j s)).
  { intros j Hj. apply range_lookup; try lia. exact Hj. }
  assert (Hout : forall k b, bufs !! k = Some b ->
            in_range (Z.to_nat base + k)%nat /\ buffer (Z.to_nat base + k) s = b).
  { intros k b Hk. destruct (lookup_range base count s k b) as [H4 H5]; try lia; [done|].
    split; [unfold in_range; lia|done]. }
  destruct (list_find (fun b => tb_target b = target) bufs) as [[i b]|] eqn:Hfind.
  - mstep. split; [done|].
    apply list_find_Some in Hfind as (Hi & Ht & Hfirst).
    destruct (Hout _ _ Hi) as [Hr Hb]. split; [exact Hr|]. left.
    split; [by rewrite Hb|]. intros j Hj Hlt.
    apply (Hfirst (j - Z.to_nat base)%nat); [by apply Hin|unfold in_range in Hj; lia].
  - apply list_find_None in Hfind.
    assert (Hnone : forall j, in_range j -> tb_target (buffer j s) <> target).
    { intros j Hj. apply (Forall_lookup_1 _ _ _ _ Hfind (Hin j Hj)). }
    destruct (list_find (fun b => tb_state b = TBS_EMPTY) bufs) as [[i b]|] eqn:Hfind'.
    + mstep. split; [done|].
      apply list_find_Some in Hfind' as (Hi & Ht & Hfirst).
      destruct (Hout _ _ Hi) as [Hr Hb]. split; [exact Hr|]. right.
      split; [by rewrite Hb|]. split; [exact Hnone|]. intros j Hj Hlt.
      apply (Hfirst (j - Z.to_nat base)%nat); [by apply Hin|unfold in_range in Hj; lia].
    + mstep. split; [done|].
      apply list_find_None in Hfind'. intros j Hj. split; [by apply Hnone|].
      apply (Forall_lookup_1 _ _ _ _ Hfind' (Hin j Hj)).
Qed.

(** ** Loading a packet *)

Lemma pack_command_decodes (cmd : list Z) (lp : bool) (buf : list Z) :
  cmd <> [] -> (length cmd <= 28)%nat -> Forall is_byte cmd ->
  length buf = Z.to_nat BIT_TRANSITIONS ->
  pr_ok (pack_command cmd lp buf) = true ->
  pr_failed (pack_command cmd lp buf) = []
  /\ decode_cells true (pr_bits (pack_command cmd lp buf))
     = dcc_frame (Z.to_nat (preamble_of lp)) cmd 0.
Proof.
  intros Hne Hlen Hcmd Hbuf Hok. change (Z.to_nat BIT_TRANSITIONS) with 40%nat in Hbuf.
  destruct (pack_command_spec cmd lp buf Hcmd Hlen) as (Hfailed & Hiff & Hcells).
  split; [exact Hfailed|].
  destruct (Hcells Hok) as (cells & Hout & Hrange & Hexp & Hn).
  apply Hiff in Hok.
  rewrite pack_command_cells, Hout, store_at_front
    by (rewrite length_app; cbn [length]; lia).
  rewrite <- app_assoc. cbn [app]. rewrite decode_expand by done.
  rewrite Hexp. by apply frame_body_bits.
Qed.

Lemma exec_release_one (p : pending_packet) (l : list pending_packet) (s : machine) :
  exec (release_pending_recs (p :: l) true) s
  = set_free_pending_packets (p :: free_pending_packets s) s.
Proof. reflexivity. Qed.

Lemma eval_release_one (p : pending_packet) (l : list pending_packet) (s : machine) :
  eval (release_pending_recs (p :: l) true) s = l.
Proof. reflexivity. Qed.

Lemma send_reply_fits (text : string) (target : Z) (s : machine) :
  output_wf (m_output s) ->
  queue_len (m_output s) + Z.of_nat (String.length text) <= OUTPUT_QUEUE_SIZE ->
  exec (send_reply text target) s
  = set_output (queue_chars (String.list_ascii_of_string text) (m_output s)).2 s
  /\ queued_text (queue_chars (String.list_ascii_of_string text) (m_output s)).2
     = queued_text (m_output s) ++ String.list_ascii_of_string text.
Proof.
  intros Hwf Hroom.
  destruct (queue_chars_spec (String.list_ascii_of_string text) (m_output s) Hwf)
    as (Hr & _ & Htext & _). cbv zeta in *.
  rewrite length_list_ascii_of_string in Hr.
  split.
  - unfold send_reply. rewrite exec_bind. unfold eval, exec at 2.
    rewrite queue_output_run. cbn [fst snd]. rewrite Hr.
    by rewrite (proj2 (Z.leb_le _ _) Hroom).
  - rewrite Htext, take_ge; [done|]. rewrite length_list_ascii_of_string.
    unfold OUTPUT_QUEUE_SIZE in *. lia.
Qed.

(** X21: When the buffer the manager looks at is in state LOAD with a pending
    packet that pack_command converts, the manager puts the buffer in
    state RUN with the target and the duration of the packet, its bits
    reading back as the DCC frame of the packet bytes; the record goes
    on the free list, the other pending packets stay, and the manager
    moves on to the next buffer.  The reply kept in the buffer is
    queued, and the reply mode cleared, exactly when the mode was
    REPLY_ON_SEND and this was the last pending packet. *)
Theorem manager_loads_next_packet (s : machine) (pp : pending_packet)
    (rest : list pending_packet) :
  let m := manage s in
  let b := buffer m s in
  let reply := (tb_reply b =? REPLY_ON_SEND) && bool_decide (rest = []) in
  (m < length (circular_buffer s))%nat ->
  tb_state b = TBS_LOAD ->
  tb_pending b = pp :: rest ->
  length (tb_bits b) = Z.to_nat BIT_TRANSITIONS ->
  packet_bytes pp <> [] ->
  (length (packet_bytes pp) <= Z.to_nat MAXIMUM_DCC_COMMAND)%nat ->
  Forall is_byte (packet_bytes pp) ->
  pr_ok (pack_command (packet_bytes pp) (pp_lpreamble pp) (tb_bits b)) = true ->
  output_wf (m_output s) ->
  queue_len (m_output s) + Z.of_nat (String.length (tb_contains b)) <= OUTPUT_QUEUE_SIZE ->
  let s' := exec management_service_routine s in
  let b' := buffer m s' in
  tb_state b' = TBS_RUN
  /\ tb_target b' = pp_target pp
  /\ tb_duration b' = pp_duration pp
  /\ decode_cells true (tb_bits b')
     = dcc_frame (Z.to_nat (preamble_of (pp_lpreamble pp))) (packet_bytes pp) 0
  /\ tb_pending b' = rest
  /\ free_pending_packets s' = pp :: free_pending_packets s
  /\ manage s' = tb_next b
  /\ m_errors s' = m_errors s
  /\ queued_text (m_output s')
     = queued_text (m_output s)
       ++ (if reply then String.list_ascii_of_string (tb_contains b) else [])
  /\ tb_reply b' = (if reply then NO_REPLY_REQUIRED else tb_reply b).
Proof.
  intros m b reply Hm Hstate Hpending Hbits Hne Hlen Hbytes Hok Hwf Hroom s' b'.
  destruct (pack_command_decodes (packet_bytes pp) (pp_lpreamble pp) (tb_bits b))
    as [Hfailed Hdecode]; try done.
  { unfold MAXIMUM_DCC_COMMAND in Hlen. lia. }
  unfold b', s', management_service_routine.
  rewrite !exec_bind, !eval_gets, !exec_gets. fold m. fold b.
  rewrite Hstate. change (TBS_LOAD =? TBS_LOAD) with true. cbv iota.
  rewrite Hpending. cbv zeta. fold (packet_bytes pp).
  rewrite Hok, Hfailed. change (exec (report_failed []) s) with s.
  rewrite !exec_bind, !exec_update_buffer, !eval_release_one, !exec_release_one.
  fold reply.
  cbn [circular_buffer set_circular_buffer set_free_pending_packets].
  set (s1 := set_circular_buffer _ (set_free_pending_packets _ _)).
  assert (Hs1 : output_wf (m_output s1)
                /\ queue_len (m_output s1) + Z.of_nat (String.length (tb_contains b))
                   <= OUTPUT_QUEUE_SIZE) by done.
  destruct Hs1 as [Hwf1 Hroom1].
  destruct (send_reply_fits (tb_contains b) (pp_target pp) s1 Hwf1 Hroom1) as [Hsend Htext].
  change (m_output s1) with (m_output s) in Htext.
  destruct reply.
  - rewrite !exec_bind, Hsend, exec_update_buffer. rewrite exec_modify.
    unfold buffer, s1.
    cbn [circular_buffer set_circular_buffer set_free_pending_packets set_output
         set_manage free_pending_packets manage m_errors m_output].
    rewrite !list_lookup_total_alter_eq by (rewrite ?length_alter; exact Hm).
    cbn [tb_state tb_target tb_duration tb_bits tb_pending tb_reply tb_next
         set_tb_state set_tb_target set_tb_duration set_tb_bits set_tb_pending
         set_tb_reply].
    repeat split; try done.
  - rewrite exec_ret, exec_modify.
    unfold buffer, s1.
    cbn [circular_buffer set_circular_buffer set_free_pending_packets set_output
         set_manage free_pending_packets manage m_errors m_output].
    rewrite !list_lookup_total_alter_eq by (rewrite ?length_alter; exact Hm).
    cbn [tb_state tb_target tb_duration tb_bits tb_pending tb_reply tb_next
         set_tb_state set_tb_target set_tb_duration set_tb_bits set_tb_pending
         set_tb_reply].
    rewrite app_nil_r. repeat split; try done.
Qed.

Lemma find_available_buffer_choice_witness :
  let s := two_mobile_commands in
  (0 <= MOBILE_BASE_BUFFER /\ 0 < MOBILE_TRANS_BUFFERS
   /\ MOBILE_BASE_BUFFER + MOBILE_TRANS_BUFFERS <= TRANSMISSION_BUFFERS
   /\ length (circular_buffer s) = Z.to_nat TRANSMISSION_BUFFERS)
  /\ exec (find_available_buffer MOBILE_BASE_BUFFER MOBILE_TRANS_BUFFERS 7) s = s
  /\ eval (find_available_buffer MOBILE_BASE_BUFFER MOBILE_TRANS_BUFFERS 7) s = Some 4%nat.
Proof.
  intros s.
  assert (H1 : 0 <= MOBILE_BASE_BUFFER) by (vm_compute; congruence).
  assert (H2 : 0 < MOBILE_TRANS_BUFFERS) by (vm_compute; reflexivity).
  assert (H3 : MOBILE_BASE_BUFFER + MOBILE_TRANS_BUFFERS <= TRANSMISSION_BUFFERS)
    by (vm_compute; congruence).
  assert (H4 : length (circular_buffer s) = Z.to_nat TRANSMISSION_BUFFERS)
    by (vm_compute; reflexivity).
  split; [exact (conj H1 (conj H2 (conj H3 H4)))|].
  destruct (find_available_buffer_choice MOBILE_BASE_BUFFER MOBILE_TRANS_BUFFERS 7 s
              H1 H2 H3 H4) as [Hexec _].
  split; [exact Hexec|]. vm_compute. reflexivity.
Defined.

Lemma manager_loads_next_packet_witness :
  let s := mobile_command_waiting in
  let pp := PendingPacket 3 false 0 4 [3; 63; 139; 183; 0; 0] in
  let b := buffer (manage s) s in
  ((manage s < length (circular_buffer s))%nat
   /\ tb_state b = TBS_LOAD
   /\ tb_pending b = [pp]
   /\ length (tb_bits b) = Z.to_nat BIT_TRANSITIONS
   /\ packet_bytes pp <> []
   /\ (length (packet_bytes pp) <= Z.to_nat MAXIMUM_DCC_COMMAND)%nat
   /\ Forall is_byte (packet_bytes pp)
   /\ pr_ok (pack_command (packet_bytes pp) (pp_lpreamble pp) (tb_bits b)) = true
   /\ output_wf (m_output s)
   /\ queue_len (m_output s) + Z.of_nat (String.length (tb_contains b))
      <= OUTPUT_QUEUE_SIZE)
  /\ tb_state (buffer 3 (exec management_service_routine s)) = TBS_RUN
  /\ decode_cells true (tb_bits (buffer 3 (exec management_service_routine s)))
     = dcc_frame 15 [3; 63; 139; 183] 0
  /\ queued_text (m_output (exec management_service_routine s))
     = String.list_ascii_of_string (reply_3 "M" 3 10 1).
Proof.
  intros s pp b.
  assert (H1 : (manage s < length (circular_buffer s))%nat) by (vm_compute; lia).
  assert (H2 : tb_state b = TBS_LOAD) by (vm_compute; reflexivity).
  assert (H3 : tb_pending b = [pp]) by (vm_compute; reflexivity).
  assert (H4 : length (tb_bits b) = Z.to_nat BIT_TRANSITIONS) by (vm_compute; reflexivity).
  assert (H5 : packet_bytes pp <> []) by (vm_compute; congruence).
  assert (H6 : (length (packet_bytes pp) <= Z.to_nat MAXIMUM_DCC_COMMAND)%nat)
    by (vm_compute; lia).
  assert (H7 : Forall is_byte (packet_bytes pp))
    by (vm_compute; repeat constructor; congruence).
  assert (H8 : pr_ok (pack_command (packet_bytes pp) (pp_lpreamble pp) (tb_bits b)) = true)
    by (vm_compute; reflexivity).
  assert (H9 : output_wf (m_output s)) by (vm_compute; repeat split; congruence).
  assert (H10 : queue_len (m_output s) + Z.of_nat (String.length (tb_contains b))
                <= OUTPUT_QUEUE_SIZE) by (vm_compute; congruence).
  split; [exact (conj H1 (conj H2 (conj H3 (conj H4 (conj H5 (conj H6 (conj H7
                  (conj H8 (conj H9 H10)))))))))|].
  destruct (manager_loads_next_packet s pp [] H1 H2 H3 H4 H5 H6 H7 H8 H9 H10)
    as (Hrun & _ & _ & Hdecode & _ & _ & _ & _ & Htext & _).
  split; [exact Hrun|]. split; [exact Hdecode|].
  rewrite Htext. vm_compute. reflexivity.
Defined.

(** ** Packets that always convert *)

Lemma runs_cons_cons (x y : bool) (l : list bool) :
  runs (x :: y :: l) = ((if Bool.eqb x y then 0 else 1) + runs (y :: l))%nat.
Proof. cbn [runs]. by destruct (Bool.eqb x y). Qed.

(** Cutting a bit sequence at a bit that both parts keep. *)
Lemma runs_cut (a : list bool) (x : bool) (b : list bool) :
  (runs (a ++ x :: b) + 1 = runs (a ++ [x]) + runs (x :: b))%nat.
Proof.
  induction a as [|y a IH]; [cbn [app runs]; lia|].
  destruct a as [|z a].
  - cbn [app]. rewrite (runs_cons_cons y x b), (runs_cons_cons y x []). cbn [runs]. lia.
  - cbn [app] in *. rewrite (runs_cons_cons y z), (runs_cons_cons y z). lia.
Qed.

Lemma frame_runs (a : list bool) (cmd : list Z) :
  cmd <> [] ->
  (runs (a ++ false :: body_bits cmd) + length cmd
   = runs (a ++ [false]) + segments_runs cmd)%nat.
Proof.
  revert a. induction cmd as [|v rest IH]; intros a Hne; [done|].
  cbn [body_bits segments_runs length]. unfold segment_runs.
  destruct rest as [|w rest].
  - cbn [body_bits segments_runs length]. rewrite bool_decide_eq_true_2 by done.
    pose proof (runs_cut a false (byte_bits v ++ [true])) as H. lia.
  - rewrite bool_decide_eq_false_2 by done.
    specialize (IH (a ++ false :: byte_bits v) ltac:(done)).
    rewrite <- !app_assoc in IH. cbn [app] in IH.
    pose proof (runs_cut a false (byte_bits v ++ [false])) as H.
    cbn [length] in *. lia.
Qed.

Lemma segment_runs_le (v : Z) (after : bool) :
  is_byte v -> (segment_runs v after <= if after then 10 else 9)%nat.
Proof.
  revert v.
  apply (byte_forall (fun v => (segment_runs v after <= if after then 10 else 9)%nat)).
  destruct after; vm_compute; reflexivity.
Qed.

Lemma segments_runs_le (cmd : list Z) :
  cmd <> [] -> Forall is_byte cmd ->
  (segments_runs cmd <= 9 * length cmd + 1)%nat.
Proof.
  intros Hne Hcmd. induction Hcmd as [|v rest Hv Hrest IH]; [done|].
  cbn [segments_runs length]. pose proof (segment_runs_le v (bool_decide (rest = [])) Hv) as H.
  destruct rest as [|w rest].
  - rewrite bool_decide_eq_true_2 in * by done. cbn [segments_runs length]. lia.
  - rewrite bool_decide_eq_false_2 in * by done. specialize (IH ltac:(done)).
    cbn [length] in *. lia.
Qed.

Lemma runs_preamble (lp : bool) :
  runs (replicate (Z.to_nat (preamble_of lp)) true ++ [false]) = 2%nat.
Proof. destruct lp; vm_compute; reflexivity. Qed.

Lemma pack_command_fits (cmd : list Z) (lp : bool) (buf : list Z) :
  cmd <> [] -> Forall is_byte cmd -> (length cmd <= 28)%nat ->
  (segments_runs cmd <= 36 + length cmd)%nat ->
  pr_ok (pack_command cmd lp buf) = true.
Proof.
  intros Hne Hcmd Hlen Hruns.
  destruct (pack_command_spec cmd lp buf Hcmd Hlen) as (_ & Hiff & _).
  apply Hiff.
  pose proof (frame_runs (replicate (Z.to_nat (preamble_of lp)) true) cmd Hne) as H.
  rewrite runs_preamble in H. lia.
Qed.

(** X22: pack_command converts every packet of up to four bytes, parity byte
    included, with either preamble: its bit transitions always fit the
    bits array and no assertion fails.  The reset packets, the CV
    packets, the accessory packets and the function packets to short
    addresses are such packets. *)
Theorem short_packets_always_fit (cmd : list Z) (lp : bool) (buf : list Z) :
  cmd <> [] -> Forall is_byte cmd -> (length cmd <= 4)%nat ->
  pr_ok (pack_command cmd lp buf) = true
  /\ pr_failed (pack_command cmd lp buf) = [].
Proof.
  intros Hne Hcmd Hlen. split.
  - apply pack_command_fits; [done|done|lia|].
    pose proof (segments_runs_le cmd Hne Hcmd). lia.
  - by destruct (pack_command_spec cmd lp buf Hcmd ltac:(lia)) as (Hfailed & _).
Qed.

Lemma lxor_byte (a b : Z) : is_byte a -> is_byte b -> is_byte (Z.lxor a b).
Proof.
  unfold is_byte. intros Ha Hb. split; [apply Z.lxor_nonneg; lia|].
  destruct (Z.eq_dec (Z.lxor a b) 0) as [->|Hne]; [lia|].
  assert (Hpos : 0 < Z.lxor a b) by (pose proof (proj2 (Z.lxor_nonneg a b)); lia).
  change 256 with (2 ^ 8). apply Z.log2_lt_pow2; [exact Hpos|].
  pose proof (Z.log2_lxor a b ltac:(lia) ltac:(lia)) as H.
  assert (Hla : Z.log2 a < 8).
  { destruct (Z.eq_dec a 0) as [->|]; [done|]. apply Z.log2_lt_pow2; lia. }
  assert (Hlb : Z.log2 b < 8).
  { destruct (Z.eq_dec b 0) as [->|]; [done|]. apply Z.log2_lt_pow2; lia. }
  lia.
Qed.

Lemma parity_byte (cmd : list Z) : Forall is_byte cmd -> is_byte (foldl Z.lxor 0 cmd).
Proof.
  assert (Hgen : forall acc, is_byte acc -> Forall is_byte cmd ->
                   is_byte (foldl Z.lxor acc cmd)).
  { induction cmd as [|v cmd IH]; intros acc Hacc Hcmd; [done|].
    cbn [foldl]. apply IH; [|by inversion Hcmd].
    apply lxor_byte; [done|by inversion Hcmd]. }
  apply Hgen. unfold is_byte. lia.
Qed.

(** X23: The speed and direction packet of every address, speed and
    direction that the M command accepts converts, the five-byte
    packets to long addresses included: with its parity byte it never
    has more bit transitions than the bits array holds. *)
Theorem motion_packets_always_fit
    (s : machine) (adrs speed dir : Z) (buf : list Z) :
  MINIMUM_DCC_ADDRESS <= adrs <= MAXIMUM_DCC_ADDRESS ->
  speed = EMERGENCY_STOP \/ MINIMUM_DCC_SPEED <= speed <= MAXIMUM_DCC_SPEED ->
  dir = DCC_FORWARDS \/ dir = DCC_BACKWARDS ->
  let cmd := eval (compose_motion_packet adrs speed dir) s in
  let packet := cmd ++ [foldl Z.lxor 0 cmd] in
  pr_ok (pack_command packet false buf) = true
  /\ pr_failed (pack_command packet false buf) = [].
Proof.
  intros Hadrs Hspeed Hdir cmd packet.
  destruct (compose_motion_packet_spec s adrs speed dir Hadrs Hspeed Hdir) as [_ Hcmd].
  cbv zeta in Hcmd. fold cmd in Hcmd.
  set (code := Z.lor _ _) in Hcmd.
  assert (Hcode : is_byte code).
  { assert (E : In code cmd) by (rewrite Hcmd; apply in_or_app; right; cbn; auto).
    unfold cmd, compose_motion_packet in E.
    rewrite !eval_bind, eval_ret in E. apply in_app_or in E as [E|E].
    - unfold mobile_address in E. destruct (_ <? _); cbn in E;
        repeat (destruct E as [<-|E]; [apply to_byte_is_byte|]); done.
    - cbn in E. destruct E as [<-|[<-|[]]]; [unfold is_byte; lia|].
      repeat (destruct (_ =? _)); apply to_byte_is_byte. }
  assert (Hbytes : Forall is_byte cmd).
  { rewrite Hcmd. apply Forall_app. split.
    - unfold mobile_address.
      destruct (_ <? _); repeat (apply Forall_cons_2; [apply to_byte_is_byte|]);
        apply Forall_nil_2.
    - apply Forall_cons_2; [unfold is_byte; lia|].
      apply Forall_cons_2; [exact Hcode|apply Forall_nil_2]. }
  assert (Hpacket : Forall is_byte packet).
  { apply Forall_app. split; [exact Hbytes|].
    apply Forall_cons_2; [by apply parity_byte|apply Forall_nil_2]. }
  assert (Hne : packet <> []) by (unfold packet; by destruct cmd).
  assert (Hlen : (length packet <= 5)%nat).
  { unfold packet. rewrite length_app, Hcmd, length_app. unfold mobile_address.
    destruct (_ <? _); cbn [length]; lia. }
  split; [|by destruct (pack_command_spec packet false buf Hpacket ltac:(lia)) as (H & _)].
  apply pack_command_fits; [done|done|lia|].
  unfold packet. rewrite Hcmd.
  pose proof (parity_byte cmd Hbytes) as Hpar. rewrite Hcmd in Hpar.
  pose proof (segment_runs_le _ true Hpar) as Hlast.
  pose proof (segment_runs_le code false Hcode) as Hspd.
  revert Hlast. clear Hpar. unfold mobile_address.
  destruct (_ <? _); rewrite <- !app_assoc; cbn [app segments_runs length];
    intros Hlast; rewrite !bool_decide_eq_false_2 by done;
    rewrite bool_decide_eq_true_2 by done;
    change (segment_runs 63 false) with 3%nat.
  - pose proof (segment_runs_le (to_byte (Z.lor 192 (Z.shiftr adrs 8))) false
                  (to_byte_is_byte _)) as H1.
    pose proof (segment_runs_le (to_byte (Z.land adrs 255)) false (to_byte_is_byte _)) as H2.
    cbv beta iota in *. lia.
  - pose proof (segment_runs_le (to_byte adrs) false (to_byte_is_byte _)) as H1.
    cbv beta iota in *. lia.
Qed.

(** ** The bytes of the packets *)


Lemma cv_address_bytes (instruction cv : Z) :
  instruction = 0x7C \/ instruction = 0x74 \/ instruction = 0x78 ->
  MINIMUM_CV_ADDRESS <= cv <= MAXIMUM_CV_ADDRESS ->
  let cv' := to_int (cv - MINIMUM_CV_ADDRESS) in
  to_byte (Z.lor instruction (Z.land (Z.shiftr cv' 8) 0x03))
  = instruction + (cv - 1) `div` 256
  /\ to_byte (Z.land cv' 0xFF) = (cv - 1) `mod` 256.
Proof.
  unfold MINIMUM_CV_ADDRESS, MAXIMUM_CV_ADDRESS. intros Hi Hcv. cbv zeta.
  rewrite to_int_small by (unfold is_int; lia).
  rewrite Z.shiftr_div_pow2 by lia. change (2 ^ 8) with 256.
  change 0xFF with (Z.ones 8). change 0x03 with (Z.ones 2).
  rewrite !Z.land_ones by lia. change (2 ^ 8) with 256. change (2 ^ 2) with 4.
  assert (Hq : 0 <= (cv - 1) `div` 256 < 4)
    by (split; [apply Z.div_pos; lia|apply Z.div_lt_upper_bound; lia]).
  rewrite (Z.mod_small _ 4) by done.
  pose proof (Z.mod_pos_bound (cv - 1) 256 ltac:(lia)).
  split; [|apply to_byte_small; lia].
  assert (Hcases : (cv - 1) `div` 256 = 0 \/ (cv - 1) `div` 256 = 1
                   \/ (cv - 1) `div` 256 = 2 \/ (cv - 1) `div` 256 = 3) by lia.
  destruct Hi as [-> | [-> | ->]];
    destruct Hcases as [-> | [-> | [-> | ->]]]; reflexivity.
Qed.

(** X24: The packets of the V and R commands: the first two bytes hold the
    instruction (0x74 to verify a byte, 0x78 for a bit) and the ten
    bits of the CV number less one, the third the value to compare
    with or 0xE0 with the bit value and the bit number; no assertion
    fails on arguments in range. *)
Theorem verify_packets_carry_cv (s : machine) (cv value bnum bit : Z) :
  MINIMUM_CV_ADDRESS <= cv <= MAXIMUM_CV_ADDRESS ->
  0 <= value <= 255 -> 0 <= bnum <= 7 -> bit = 0 \/ bit = 1 ->
  exec (compose_verify_cv cv value) s = s
  /\ eval (compose_verify_cv cv value) s
     = [0x74 + (cv - 1) `div` 256; (cv - 1) `mod` 256; value]
  /\ exec (compose_verify_cv_bit cv bnum bit) s = s
  /\ eval (compose_verify_cv_bit cv bnum bit) s
     = [0x78 + (cv - 1) `div` 256; (cv - 1) `mod` 256; 0xE0 + 8 * bit + bnum].
Proof.
  intros Hcv Hvalue Hbnum Hbit.
  assert (H1 : (MINIMUM_CV_ADDRESS <=? cv) && (cv <=? MAXIMUM_CV_ADDRESS) = true)
    by (apply andb_true_iff; split; lia).
  assert (H2 : (0 <=? value) && (value <=? 255) = true)
    by (apply andb_true_iff; split; lia).
  assert (H3 : (0 <=? bnum) && (bnum <=? 7) = true)
    by (apply andb_true_iff; split; lia).
  assert (H4 : (bit =? 0) || (bit =? 1) = true)
    by (destruct Hbit as [-> | ->]; reflexivity).
  destruct (cv_address_bytes 0x74 cv ltac:(auto) Hcv) as [Ha1 Ha2].
  destruct (cv_address_bytes 0x78 cv ltac:(auto) Hcv) as [Hb1 Hb2].
  cbv zeta in *.
  unfold compose_verify_cv, compose_verify_cv_bit. rewrite H1, H2, H3, H4.
  cbn [ASSERT]. mstep. rewrite Ha1, Ha2, Hb1.
  split; [done|]. split; [by rewrite to_byte_small by lia|]. split; [done|].
  f_equal. f_equal. f_equal.
  assert (Hn : bnum = 0 \/ bnum = 1 \/ bnum = 2 \/ bnum = 3 \/ bnum = 4 \/ bnum = 5
               \/ bnum = 6 \/ bnum = 7) by lia.
  destruct Hbit as [-> | ->];
    destruct Hn as [-> | [-> | [-> | [-> | [-> | [-> | [-> | ->]]]]]]]; reflexivity.
Qed.



Lemma short_packets_always_fit_witness :
  ([0; 0; 0] <> [] /\ Forall is_byte [0; 0; 0] /\ (length [0; 0; 0] <= 4)%nat)
  /\ pr_ok (pack_command [0; 0; 0] true (replicate 40 0)) = true.
Proof.
  assert (H1 : [0; 0; 0] <> []) by congruence.
  assert (H2 : Forall is_byte [0; 0; 0])
    by (repeat (apply Forall_cons_2; [vm_compute; split; congruence|]); apply Forall_nil_2).
  assert (H3 : (length [0; 0; 0] <= 4)%nat) by (vm_compute; lia).
  split; [exact (conj H1 (conj H2 H3))|].
  destruct (short_packets_always_fit [0; 0; 0] true (replicate 40 0) H1 H2 H3) as [Hok _].
  exact Hok.
Defined.

Lemma motion_packets_always_fit_witness :
  (MINIMUM_DCC_ADDRESS <= 10239 <= MAXIMUM_DCC_ADDRESS
   /\ (126 = EMERGENCY_STOP \/ MINIMUM_DCC_SPEED <= 126 <= MAXIMUM_DCC_SPEED)
   /\ (1 = DCC_FORWARDS \/ 1 = DCC_BACKWARDS))
  /\ pr_ok (pack_command [231; 255; 63; 255; 216] false (replicate 40 0)) = true.
Proof.
  assert (H1 : MINIMUM_DCC_ADDRESS <= 10239 <= MAXIMUM_DCC_ADDRESS)
    by (vm_compute; split; congruence).
  assert (H2 : 126 = EMERGENCY_STOP \/ MINIMUM_DCC_SPEED <= 126 <= MAXIMUM_DCC_SPEED)
    by (right; vm_compute; split; congruence).
  assert (H3 : 1 = DCC_FORWARDS \/ 1 = DCC_BACKWARDS) by (left; reflexivity).
  split; [exact (conj H1 (conj H2 H3))|].
  destruct (motion_packets_always_fit setup 10239 126 1 (replicate 40 0) H1 H2 H3)
    as [Hok _].
  exact Hok.
Defined.

Lemma verify_packets_carry_cv_witness :
  (MINIMUM_CV_ADDRESS <= 1024 <= MAXIMUM_CV_ADDRESS
   /\ 0 <= 255 <= 255 /\ 0 <= 7 <= 7 /\ (1 = 0 \/ 1 = 1))
  /\ eval (compose_verify_cv 1024 255) setup = [0x77; 0xFF; 0xFF]
  /\ eval (compose_verify_cv_bit 1024 7 1) setup = [0x7B; 0xFF; 0xEF].
Proof.
  assert (H1 : MINIMUM_CV_ADDRESS <= 1024 <= MAXIMUM_CV_ADDRESS)
    by (vm_compute; split; congruence).
  assert (H2 : 0 <= 255 <= 255) by lia.
  assert (H3 : 0 <= 7 <= 7) by lia.
  assert (H4 : 1 = 0 \/ 1 = 1) by (right; reflexivity).
  split; [exact (conj H1 (conj H2 (conj H3 H4)))|].
  destruct (verify_packets_carry_cv setup 1024 255 7 1 H1 H2 H3 H4)
    as (_ & Hv & _ & Hb).
  split; [rewrite Hv|rewrite Hb]; vm_compute; reflexivity.
Defined.


(** ** Numbers on the LCD *)

Lemma backfill_spaces_spec (len : nat) (buf : list ascii) :
  (len <= length buf)%nat ->
  backfill_spaces len buf = replicate len SPACE ++ drop len buf.
Proof.
  revert buf. induction len as [|len IH]; intros buf Hlen; [by rewrite drop_0|].
  cbn [backfill_spaces]. rewrite IH by (rewrite length_insert; lia).
  rewrite insert_take_drop by lia.
  rewrite drop_app_length' by (rewrite length_take; lia).
  rewrite replicate_S_end, <- app_assoc. done.
Qed.

Lemma backfill_digits_spec (fuel len : nat) (v : Z) (buf : list ascii) :
  0 < v < 10 ^ Z.of_nat fuel -> (len <= length buf)%nat ->
  let digits := peel_digits fuel v [] in
  if decide (length digits <= len)%nat then
    backfill_digits len v buf
    = (Z.of_nat (len - length digits), 0,
       take (len - length digits) buf ++ map digit_char digits ++ drop len buf)
  else (backfill_digits len v buf).1.2 <> 0.
Proof.
  revert fuel v buf. induction len as [|len IH]; intros fuel v buf Hv Hlen; cbv zeta.
  - destruct fuel as [|fuel]; [cbn in Hv; lia|].
    cbn [peel_digits]. destruct (Z.eqb_spec v 0); [lia|].
    rewrite peel_digits_app, length_app. cbn [length].
    rewrite decide_False by lia. cbn. lia.
  - destruct fuel as [|fuel]; [cbn in Hv; lia|].
    cbn [peel_digits backfill_digits]. destruct (Z.eqb_spec v 0); [lia|].
    rewrite peel_digits_app, length_app. cbn [length].
    rewrite Z.quot_div_nonneg, Z.rem_mod_nonneg by lia.
    rewrite to_byte_small by (pose proof (Z.mod_pos_bound v 10); lia).
    assert (Hq : 0 <= v `div` 10 < 10 ^ Z.of_nat fuel).
    { split; [apply Z.div_pos; lia|]. apply Z.div_lt_upper_bound; [lia|].
      rewrite Nat2Z.inj_succ, Z.pow_succ_r in Hv by lia. lia. }
    rewrite (insert_take_drop buf len) by lia.
    set (d := digit_char (v `mod` 10)).
    destruct (Z.eqb_spec (v `div` 10) 0) as [E|E].
    + rewrite E.
      assert (Hnone : peel_digits fuel 0 [] = []) by (by destruct fuel).
      rewrite Hnone. cbn [length Nat.add map app].
      rewrite decide_True by lia.
      replace (S len - 1)%nat with len by lia. done.
    + specialize (IH fuel (v `div` 10) (take len buf ++ d :: drop (S len) buf)
                    ltac:(lia)
                    ltac:(rewrite length_app, length_take; cbn [length]; lia)).
      cbv zeta in IH.
      destruct (decide (length (peel_digits fuel (v `div` 10) []) <= len)%nat) as [Hk|Hk].
      * rewrite decide_True by lia. rewrite IH.
        replace (S len - (length (peel_digits fuel (v `div` 10) []) + 1))%nat
          with (len - length (peel_digits fuel (v `div` 10) []))%nat by lia.
        rewrite take_app_le by (rewrite length_take; lia).
        rewrite take_take.
        replace ((len - length (peel_digits fuel (v `div` 10) [])) `min` len)%nat
          with (len - length (peel_digits fuel (v `div` 10) []))%nat by lia.
        rewrite drop_app_length' by (rewrite length_take; lia).
        rewrite map_app. cbn [map]. by rewrite <- !app_assoc.
      * rewrite decide_False by lia. exact IH.
Qed.

(** X26: backfill_int_to_text writes the text int_to_text gives for the
    number at the right of the first len places of the array, spaces
    before it, and returns true; when the text is longer than len it
    returns false.  What lies beyond the len places is not touched and
    no assertion fails. *)
Theorem backfill_agrees_with_int_to_text
    (buf : list ascii) (v len : Z) (s : machine) :
  is_argument v -> 0 < len <= 255 -> (Z.to_nat len <= length buf)%nat ->
  let text := String.list_ascii_of_string (int_to_text v) in
  let width := Z.to_nat len in
  exec (backfill_int_to_text buf v len) s = s
  /\ if decide (length text <= width)%nat then
       eval (backfill_int_to_text buf v len) s
       = (true, replicate (width - length text) SPACE ++ text ++ drop width buf)
     else (eval (backfill_int_to_text buf v len) s).1 = false.
Proof.
  intros Hv Hlen Hbuf text width. unfold is_argument in Hv.
  unfold backfill_int_to_text.
  rewrite (proj2 (Z.ltb_lt 0 len)) by lia. cbn [ASSERT].
  mstep.
  unfold text, int_to_text.
  destruct (Z.eqb_spec v 0) as [->|Hne]; cbn [negb].
  { mstep. split; [done|].
    cbn [String.list_ascii_of_string length]. rewrite decide_True by (unfold width; lia).
    rewrite to_byte_small by lia. f_equal.
    rewrite backfill_spaces_spec by (rewrite length_insert; lia).
    rewrite insert_take_drop by lia.
    rewrite drop_app_length' by (rewrite length_take; lia).
    replace (Z.to_nat (len - 1)) with (width - 1)%nat by (unfold width; lia).
    replace (S (width - 1)) with width by (unfold width; lia). done. }
  cbv zeta.
  set (v1 := if v <? 0 then to_int (- v) else v).
  assert (Hv1 : 0 < v1 < 10 ^ Z.of_nat TEXT_BUFFER).
  { unfold v1, TEXT_BUFFER. change (10 ^ Z.of_nat 8) with 100000000.
    destruct (Z.ltb_spec v 0); [rewrite to_int_small by (unfold is_int; lia)|]; lia. }
  pose proof (backfill_digits_spec TEXT_BUFFER width v1 buf Hv1 Hbuf) as Hloop.
  cbv zeta in Hloop. fold width.
  set (digits := peel_digits TEXT_BUFFER v1 []) in *.
  assert (Htext : String.list_ascii_of_string
                    (if v <? 0
                     then String MINUS (String.string_of_list_ascii (map digit_char digits))
                     else String.string_of_list_ascii (map digit_char digits))
                  = (if v <? 0 then [MINUS] else []) ++ map digit_char digits).
  { destruct (v <? 0); cbn [String.list_ascii_of_string app];
      by rewrite String.list_ascii_of_string_of_list_ascii. }
  rewrite Htext. rewrite length_app, length_map.
  destruct (decide (length digits <= width)%nat) as [Hfits|Hnot].
  - rewrite Hloop. change (0 =? 0) with true. cbn [negb orb].
    destruct (Z.ltb_spec v 0) as [Hneg|Hpos]; cbn [andb length Nat.add app].
    + destruct (Z.ltb_spec (Z.of_nat (width - length digits)) 1) as [Hfull|Hroom].
      * mstep. split; [done|]. rewrite decide_False by lia. done.
      * mstep. split; [done|]. rewrite decide_True by lia.
        rewrite to_byte_small by lia. f_equal.
        replace (Z.to_nat (Z.of_nat (width - length digits) - 1))
          with (width - S (length digits))%nat by lia.
        rewrite backfill_spaces_spec
          by (rewrite length_insert, !length_app, length_take, length_map, length_drop; lia).
        f_equal.
        rewrite insert_app_l by (rewrite length_take; lia).
        rewrite (insert_take_drop (take _ _)) by (rewrite length_take; lia).
        rewrite <- app_assoc. rewrite drop_app_length' by (rewrite !length_take; lia).
        cbn [app]. f_equal.
        rewrite drop_ge by (rewrite length_take; lia). done.
    + mstep. split; [done|]. rewrite decide_True by lia.
      replace (Z.to_nat (Z.of_nat (width - length digits))) with (width - length digits)%nat
        by lia.
      rewrite backfill_spaces_spec
        by (rewrite !length_app, length_take, length_map, length_drop; lia).
      rewrite drop_app_length' by (rewrite length_take; lia). done.
  - destruct (backfill_digits width v1 buf) as [[len1 v2] buf1]. cbn [fst snd] in Hloop.
    rewrite (proj2 (Z.eqb_neq v2 0) Hloop). cbn [negb orb].
    mstep. split; [done|].
    rewrite decide_False by (destruct (v <? 0); cbn [length]; lia). done.
Qed.

Lemma backfill_agrees_with_int_to_text_witness :
  let buf := replicate 6 "x"%char in
  (is_argument (-12) /\ 0 < 4 <= 255 /\ (Z.to_nat 4 <= length buf)%nat)
  /\ eval (backfill_int_to_text buf (-12) 4) setup
     = (true, [" "; "-"; "1"; "2"; "x"; "x"]%char)
  /\ (eval (backfill_int_to_text buf (-1234) 4) setup).1 = false.
Proof.
  intros buf.
  assert (H1 : is_argument (-12)) by (vm_compute; split; congruence).
  assert (H2 : 0 < 4 <= 255) by lia.
  assert (H3 : (Z.to_nat 4 <= length buf)%nat) by (vm_compute; lia).
  split; [exact (conj H1 (conj H2 H3))|].
  destruct (backfill_agrees_with_int_to_text buf (-12) 4 setup H1 H2 H3) as [_ Hfit].
  split; vm_compute; reflexivity.
Defined.
(** ** A whole bit stream on the pin *)

(** X27: From the start of a bit stream the pin shows each bit of the cells in
    turn, up to the zero cell: low for four interrupts and high for four
    for a one, seven and seven for a zero. *)
Theorem interrupt_sends_the_cells (s : machine) (body tail : list Z) :
  stream_start body tail s ->
  let bits := decode_cells true (body ++ 0 :: tail) in
  signal (length (wave bits)) s = wave bits.
Proof.
  intros (Hall & c & rest & Hbody & H) bits.
  unfold bits. rewrite decode_expand by done.
  apply (signal_cells body s true c rest 1 (body ++ 0 :: tail)); try done.
  intros i v Hi. rewrite Hbody. cbn. by apply lookup_app_l_Some.
Qed.

Lemma interrupt_sends_the_cells_witness :
  stream_start [15; 1; 8; 10; 9] [] second_idle_packet
  /\ let bits := decode_cells true ([15; 1; 8; 10; 9] ++ 0 :: []) in
     signal (length (wave bits)) second_idle_packet = wave bits.
Proof.
  assert (stream_start [15; 1; 8; 10; 9] [] second_idle_packet) as H.
  { split.
    - repeat (apply Forall_cons_2; [lia|]). apply Forall_nil_2.
    - exists 15, [1; 8; 10; 9]. split; [reflexivity|].
      vm_compute. exact (conj eq_refl (conj eq_refl (conj eq_refl (conj eq_refl
        (conj eq_refl (conj eq_refl (conj eq_refl eq_refl))))))). }
  split; [exact H|].
  exact (interrupt_sends_the_cells second_idle_packet [15; 1; 8; 10; 9] [] H).
Defined.
(** ** The links of the ring *)

Lemma links_update_buffer (i : nat) (f : trans_buffer -> trans_buffer) :
  (forall b, tb_next (f b) = tb_next b) ->
  preserves links_wf (update_buffer i f).
Proof.
  intros Hf s (Hlen & Hrow & Hpower). rewrite exec_update_buffer.
  assert (Hnext : forall j, tb_next (buffer j (set_circular_buffer
                     (alter f i (circular_buffer s)) s)) = tb_next (buffer j s)).
  { intros j. unfold buffer. cbn [circular_buffer set_circular_buffer].
    destruct (decide (i = j)) as [->|Hne].
    - destruct (decide (j < length (circular_buffer s))%nat) as [Hj|Hj].
      + rewrite !list_lookup_total_alt, list_lookup_alter_eq.
        destruct (circular_buffer s !! j); cbn; [apply Hf|done].
      + rewrite !list_lookup_total_alt, list_lookup_alter_eq.
        by rewrite (lookup_ge_None_2 (circular_buffer s) j) by lia.
    - by rewrite !list_lookup_total_alt, list_lookup_alter_ne by done. }
  unfold links_wf. cbv zeta. rewrite !Hnext.
  cbn [circular_buffer set_circular_buffer global_power_state].
  rewrite length_alter. split; [done|]. split; [|done].
  intros j Hj. rewrite Hnext. by apply Hrow.
Qed.

Lemma links_power_off : preserves links_wf power_off_tracks.
Proof.
  intros s (Hlen & Hrow & Hpower). unfold power_off_tracks. msimpl.
  by repeat split.
Qed.

(** The two stores of [link_main_buffers] and [link_prog_buffers]. *)
Lemma links_relink (v : nat) (s : machine) :
  length (circular_buffer s) = Z.to_nat TRANSMISSION_BUFFERS ->
  (forall i, (i < Z.to_nat (PROGRAMMING_BASE_BUFFER - 1))%nat ->
             tb_next (buffer i s) = S i) ->
  let s' := exec (update_buffer (Z.to_nat (PROGRAMMING_BASE_BUFFER - 1)) (set_tb_next v);;
                  update_buffer (Z.to_nat (TRANSMISSION_BUFFERS - 1)) (set_tb_next v)) s in
  length (circular_buffer s') = Z.to_nat TRANSMISSION_BUFFERS
  /\ (forall i, (i < Z.to_nat (PROGRAMMING_BASE_BUFFER - 1))%nat ->
                tb_next (buffer i s') = S i)
  /\ tb_next (buffer (Z.to_nat (TRANSMISSION_BUFFERS - 1)) s') = v
  /\ tb_next (buffer (Z.to_nat (PROGRAMMING_BASE_BUFFER - 1)) s') = v
  /\ global_power_state s' = global_power_state s.
Proof.
  intros Hlen Hrow s'. unfold s'. rewrite exec_bind, !exec_update_buffer.
  cbn [circular_buffer set_circular_buffer global_power_state].
  change (Z.to_nat (PROGRAMMING_BASE_BUFFER - 1)) with 8%nat in *.
  change (Z.to_nat (TRANSMISSION_BUFFERS - 1)) with 9%nat.
  change (Z.to_nat TRANSMISSION_BUFFERS) with 10%nat in *.
  unfold buffer in *. cbn [circular_buffer set_circular_buffer].
  rewrite !length_alter.
  destruct (lookup_lt_is_Some_2 (circular_buffer s) 8 ltac:(lia)) as [b8 H8].
  destruct (lookup_lt_is_Some_2 (circular_buffer s) 9 ltac:(lia)) as [b9 H9].
  split; [done|]. split; [|split; [|split; [|done]]].
  - intros i Hi. rewrite list_lookup_total_alt, !list_lookup_alter_ne by lia.
    rewrite <- list_lookup_total_alt. by apply Hrow.
  - rewrite list_lookup_total_alt, list_lookup_alter_eq, list_lookup_alter_ne by lia.
    by rewrite H9.
  - rewrite list_lookup_total_alt, list_lookup_alter_ne, list_lookup_alter_eq by lia.
    by rewrite H8.
Qed.

Lemma links_main_block (k : M unit) :
  preserves links_wf k ->
  preserves links_wf
    (power_on_main_track ≫= fun changed : bool =>
       (if changed then MONITOR_ANALOGUE_PIN MAIN_TRACK_ANALOGUE;; link_main_buffers
        else mret tt) ≫= fun _ => k).
Proof.
  intros Hk s (Hlen & Hrow & Hpower).
  rewrite exec_bind. unfold power_on_main_track at 1 2. msimpl.
  apply Hk.
  set (s1 := set_global_power_state _ _).
  destruct (decide (global_power_state s = GLOBAL_POWER_MAIN)) as [E|E].
  - rewrite bool_decide_eq_true_2 by done. cbn [negb]. rewrite exec_ret.
    split; [done|]. split; [done|].
    cbn [global_power_state set_global_power_state s1].
    by rewrite E in Hpower.
  - rewrite bool_decide_eq_false_2 by done. cbn [negb].
    rewrite exec_bind. unfold link_main_buffers.
    set (s2 := exec (MONITOR_ANALOGUE_PIN _) s1).
    destruct (links_relink 0 s2 Hlen Hrow) as (H1 & H2 & H3 & H4 & H5).
    split; [exact H1|]. split; [exact H2|]. cbv zeta. by rewrite H5, H3, H4.
Qed.

Lemma links_prog_block (k : M unit) :
  preserves links_wf k ->
  preserves links_wf
    (power_on_prog_track ≫= fun changed : bool =>
       (if changed then MONITOR_ANALOGUE_PIN PROG_TRACK_ANALOGUE;; link_prog_buffers
        else mret tt) ≫= fun _ => k).
Proof.
  intros Hk s (Hlen & Hrow & Hpower).
  rewrite exec_bind. unfold power_on_prog_track at 1 2. msimpl.
  apply Hk.
  set (s1 := set_global_power_state _ _).
  destruct (decide (global_power_state s = GLOBAL_POWER_PROG)) as [E|E].
  - rewrite bool_decide_eq_true_2 by done. cbn [negb]. rewrite exec_ret.
    split; [done|]. split; [done|].
    cbn [global_power_state set_global_power_state s1].
    by rewrite E in Hpower.
  - rewrite bool_decide_eq_false_2 by done. cbn [negb].
    rewrite exec_bind. unfold link_prog_buffers.
    set (s2 := exec (MONITOR_ANALOGUE_PIN _) s1).
    destruct (links_relink (Z.to_nat PROGRAMMING_BASE_BUFFER) s2 Hlen Hrow)
      as (H1 & H2 & H3 & H4 & H5).
    split; [exact H1|]. split; [exact H2|]. cbv zeta. by rewrite H5, H3, H4.
Qed.

Ltac links_leaf :=
  idtac;
  lazymatch goal with
  | |- preserves _ power_off_tracks => apply links_power_off
  | |- preserves _ (update_buffer _ _) =>
      apply links_update_buffer; intros ?; reflexivity
  | |- _ => plain_leaf
  end.

Ltac links_first_call :=
  lazymatch goal with
  | |- preserves _ (power_on_main_track ≫= _) => apply links_main_block
  | |- preserves _ (power_on_prog_track ≫= _) => apply links_prog_block
  end.

Lemma links_get_function (adrs f v : Z) : preserves links_wf (get_function adrs f v).
Proof. preserves_all links_leaf. Qed.

Lemma links_scan_line (text : string) : preserves links_wf (scan_line text).
Proof.
  repeat preserves_step ltac:(idtac; links_first_call) ltac:(idtac;
    lazymatch goal with
    | |- preserves _ (function_group _ _ _) =>
        apply preserves_function_group; intros; apply links_get_function
    | |- _ => links_leaf
    end).
Qed.

Lemma links_run_call (c : call) : preserves links_wf (run_call c).
Proof.
  destruct c; cbn [run_call];
  repeat preserves_step ltac:(idtac; links_first_call) ltac:(idtac;
    lazymatch goal with
    | |- preserves _ (process_input _ _) =>
        apply preserves_process_input; intros; apply links_scan_line
    | |- _ => links_leaf
    end).
Qed.

Lemma links_wf_setup : links_wf setup.
Proof.
  split; [done|]. split; [|done].
  intros i Hi. change (Z.to_nat (PROGRAMMING_BASE_BUFFER - 1)) with 8%nat in Hi.
  do 8 (destruct i as [|i]; [done|]). lia.
Qed.

(** X28: Whatever calls follow setup, buffers 0 to 8 are linked in a row and
    buffers 8 and 9 both lead to buffer 0 while the main track has power
    and to buffer 9 while the programming track has power. *)
Theorem ring_follows_track_power (cs : list call) :
  links_wf (exec (run_calls cs) setup).
Proof.
  apply preserves_run_calls; [apply links_run_call|apply links_wf_setup].
Qed.
